(** * BLS-Cotizador: date helpers, quote helpers, validators, the client
      service, quote status tracking and the reminder poller, embedded and
      checked against their specification and against each other.

    Sources embedded (TypeScript and JavaScript):
    - [DateHelper], of [src/utils/dateHelpers.ts] (in this tree the last part
      of [src/utils/validationHelpers.ts]): [safeParseDate],
      [calculateDurationInDays], [calculateEndDate], [validateDateRange],
      [formatDateToYYYYMMDD], [formatDateToDDMMYYYY], [safeFormatDate],
      [safeFormatDateForInput], [getCurrentDateString];
    - [QuoteHelper], of [src/utils/quoteHelpers.ts] (in this tree the last part
      of [src/services/UserManagementService.ts]): [generateQuoteNumber],
      [calculateTotals], [normalizeItems], [normalizeQuoteData],
      [calculateEventDuration], [calculateEndDateIfMissing],
      [getQuoteStatusDisplay];
    - [ValidationHelper], of [src/utils/validationHelpers.ts]:
      [validateEmail], [validateName], [validateDateRange], [validatePhone],
      [validateCUIT], [sanitizeString], with the patterns that they test;
    - [QuoteTrackingService], of [src/services/QuoteTrackingService.ts], with
      the cache of [src/utils/cache.ts]: [getByIdWithTracking],
      [isValidStatusTransition], [updateStatus], [scheduleReminder],
      [deleteReminder], [invalidateCache]; of the cache, [get], [set],
      [clearExpired], [invalidateRelatedCache];
    - [cotizacionService], of [src/utils/database.ts]: [update], with the
      data that the route [PUT] of the quotes hands to it;
    - [ClienteService], of [src/services/ClienteService.ts]: [getById],
      [getByEmail], [create], [update], [delete], [deletePermanently];
    - [UserManagementService.cjs]: [getActiveUsers],
      [getEmailNotificationUsers];
    - [ReminderAutomationService.cjs]: [processReminders], [start], [stop];
    - [process-scheduled-reminders.mjs]: [processScheduledReminders];
    - [cleanup-and-test.cjs]: the reminder that it sets.

    Conventions of the embedding:
    - a JavaScript [Date] is its time value, [option Z]: milliseconds since the
      epoch, [None] for the invalid date (time value NaN);
    - the host is a record [Host]: its local time zone adjustment, a fixed
      offset from UTC, and the implementation-defined part of [Date.parse];
    - the clock is read by the caller: a function that calls [new Date()] or
      [Date.now()] takes the reading as an argument;
    - a JavaScript number that the code computes with (quantities, prices,
      totals) is a binary64 float ([PrimFloat.float]);
    - strings are sequences of 8-bit characters (the code points below 256):
      white space is that of ASCII and the no-break space, and letter case is
      that of the letters below 256;
    - a Firestore collection is a finite map from document ids to documents,
      and reads and writes of the store succeed; [console] output is left
      out. *)

From Stdlib Require Import ZArith Ascii String List Bool Lia.
From Stdlib Require Import PrimFloat FloatOps FloatAxioms SpecFloat Uint63 DecimalString.
From Stdlib Require Import QArith Qpower Qround Qabs Lqa.
From stdpp Require Import gmap strings list.

(** Decimal literals stand for the nearest binary64 number, as in JavaScript. *)
Set Warnings "-inexact-float".

(* ===================================================================== *)
(** * ECMAScript time values (ECMA-262, "Date Objects") *)
(* ===================================================================== *)

Module JsDate.
Local Open Scope Z_scope.

Definition msPerDay : Z := 86400000.
Definition msPerHour : Z := 3600000.
Definition msPerMinute : Z := 60000.
Definition msPerSecond : Z := 1000.

Definition Day (t : Z) : Z := t / msPerDay.
Definition TimeWithinDay (t : Z) : Z := t mod msPerDay.

Definition DaysInYear (y : Z) : Z :=
  if negb (y mod 4 =? 0) then 365
  else if negb (y mod 100 =? 0) then 366
  else if negb (y mod 400 =? 0) then 365
  else 366.

Definition DayFromYear (y : Z) : Z :=
  365 * (y - 1970) + (y - 1969) / 4 - (y - 1901) / 100 + (y - 1601) / 400.

Definition TimeFromYear (y : Z) : Z := msPerDay * DayFromYear y.

(** The largest [y] with [TimeFromYear y <= t]: an estimate from the mean
    length of a year, corrected by at most one. *)
Definition YearFromTime (t : Z) : Z :=
  let d := Day t in
  let y := 1970 + (d * 400) / 146097 in
  if d <? DayFromYear y then y - 1
  else if DayFromYear (y + 1) <=? d then y + 1
  else y.

Definition InLeapYear (t : Z) : Z :=
  if DaysInYear (YearFromTime t) =? 366 then 1 else 0.

Definition DayWithinYear (t : Z) : Z := Day t - DayFromYear (YearFromTime t).

Definition MonthFromTime (t : Z) : Z :=
  let d := DayWithinYear t in
  let l := InLeapYear t in
  if d <? 31 then 0
  else if d <? 59 + l then 1
  else if d <? 90 + l then 2
  else if d <? 120 + l then 3
  else if d <? 151 + l then 4
  else if d <? 181 + l then 5
  else if d <? 212 + l then 6
  else if d <? 243 + l then 7
  else if d <? 273 + l then 8
  else if d <? 304 + l then 9
  else if d <? 334 + l then 10
  else 11.

Definition DateFromTime (t : Z) : Z :=
  let d := DayWithinYear t in
  let l := InLeapYear t in
  match MonthFromTime t with
  | 0 => d + 1
  | 1 => d - 30
  | 2 => d - 58 - l
  | 3 => d - 89 - l
  | 4 => d - 119 - l
  | 5 => d - 150 - l
  | 6 => d - 180 - l
  | 7 => d - 211 - l
  | 8 => d - 242 - l
  | 9 => d - 272 - l
  | 10 => d - 303 - l
  | _ => d - 333 - l
  end.

Definition HourFromTime (t : Z) : Z := (t / msPerHour) mod 24.
Definition MinFromTime (t : Z) : Z := (t / msPerMinute) mod 60.
Definition SecFromTime (t : Z) : Z := (t / msPerSecond) mod 60.
Definition msFromTime (t : Z) : Z := t mod msPerSecond.

Definition MakeTime (hour min sec ms : Z) : Z :=
  hour * msPerHour + min * msPerMinute + sec * msPerSecond + ms.

(** Day within the year of the first day of month [mn] (0..11). *)
Definition monthStart (mn leap : Z) : Z :=
  match mn with
  | 0 => 0
  | 1 => 31
  | 2 => 59 + leap
  | 3 => 90 + leap
  | 4 => 120 + leap
  | 5 => 151 + leap
  | 6 => 181 + leap
  | 7 => 212 + leap
  | 8 => 243 + leap
  | 9 => 273 + leap
  | 10 => 304 + leap
  | _ => 334 + leap
  end.

Definition MakeDay (year month date : Z) : Z :=
  let ym := year + month / 12 in
  let mn := month mod 12 in
  let leap := if DaysInYear ym =? 366 then 1 else 0 in
  DayFromYear ym + monthStart mn leap + date - 1.

Definition MakeDate (day time : Z) : Z := day * msPerDay + time.

Definition TimeClip (t : Z) : option Z :=
  if 8640000000000000 <? Z.abs t then None else Some t.

(** The host: a fixed local time zone adjustment [tza] (local = UTC + tza,
    in milliseconds) and the implementation-defined fallback that
    [Date.parse] uses for strings outside the ISO format. *)
Record Host := {
  tza : Z;
  implParse : string -> option Z
}.

Definition LocalTime (h : Host) (t : Z) : Z := t + tza h.
Definition UTC (h : Host) (t : Z) : Z := t - tza h.

(** A [Date] object: its time value, [None] when it is NaN. *)
Definition Date := option Z.

Definition getTime (d : Date) : option Z := d.
Definition isValid (d : Date) : bool := match d with Some _ => true | None => false end.

Definition getFullYear (h : Host) (d : Date) : option Z :=
  option_map (fun t => YearFromTime (LocalTime h t)) d.
Definition getMonth (h : Host) (d : Date) : option Z :=
  option_map (fun t => MonthFromTime (LocalTime h t)) d.
Definition getDate (h : Host) (d : Date) : option Z :=
  option_map (fun t => DateFromTime (LocalTime h t)) d.
Definition getHours (h : Host) (d : Date) : option Z :=
  option_map (fun t => HourFromTime (LocalTime h t)) d.

(** [d.setHours(0, 0, 0, 0)]. *)
Definition setHours0 (h : Host) (d : Date) : Date :=
  match d with
  | None => None
  | Some t =>
      let tl := LocalTime h t in
      TimeClip (UTC h (MakeDate (Day tl) (MakeTime 0 0 0 0)))
  end.

(** ** [Date.parse] on the ISO formats the helpers produce *)

Definition is_digit (c : ascii) : bool :=
  let n := Z.of_nat (nat_of_ascii c) in (48 <=? n) && (n <=? 57).

Definition digit_val (c : ascii) : Z := Z.of_nat (nat_of_ascii c) - 48.

Fixpoint all_digits (s : string) : bool :=
  match s with
  | EmptyString => true
  | String c r => is_digit c && all_digits r
  end.

Fixpoint digits_value (acc : Z) (s : string) : Z :=
  match s with
  | EmptyString => acc
  | String c r => digits_value (10 * acc + digit_val c) r
  end.

Definition char_at (i : nat) (s : string) (c : ascii) : bool :=
  match String.get i s with
  | Some c' => Ascii.eqb c' c
  | None => false
  end.

(** The regular expression [/^\d{4}-\d{2}-\d{2}$/]. *)
Definition matches_ymd (s : string) : bool :=
  Nat.eqb (String.length s) 10
  && all_digits (substring 0 4 s) && char_at 4 s "-"
  && all_digits (substring 5 2 s) && char_at 7 s "-"
  && all_digits (substring 8 2 s).

(** [THH:mm:ss], the time part without zone designator. *)
Definition matches_hms (s : string) : bool :=
  Nat.eqb (String.length s) 9
  && char_at 0 s "T"
  && all_digits (substring 1 2 s) && char_at 3 s ":"
  && all_digits (substring 4 2 s) && char_at 6 s ":"
  && all_digits (substring 7 2 s).

Definition field (i n : nat) (s : string) : Z := digits_value 0 (substring i n s).

(** Day number of an ISO date, when month and day are within the format's
    bounds (01..12 and 01..31). *)
Definition isoDay (s : string) : option Z :=
  let y := field 0 4 s in
  let m := field 5 2 s in
  let d := field 8 2 s in
  if (1 <=? m) && (m <=? 12) && (1 <=? d) && (d <=? 31)
  then Some (MakeDay y (m - 1) d) else None.

Definition isoTime (s : string) : option Z :=
  let hh := field 1 2 s in
  let mm := field 4 2 s in
  let ss := field 7 2 s in
  if (hh <=? 23) && (mm <=? 59) && (ss <=? 59) then Some (MakeTime hh mm ss 0)
  else if (hh =? 24) && (mm =? 0) && (ss =? 0) then Some (MakeTime hh mm ss 0)
  else None.

(** [Date.parse]: a date-only form is UTC, a date-time form without offset
    is local time; any other string goes to the host's fallback. *)
Definition parse (h : Host) (s : string) : option Z :=
  if matches_ymd s then
    option_map (fun day => MakeDate day 0) (isoDay s)
  else if matches_ymd (substring 0 10 s) && matches_hms (substring 10 9 s)
          && Nat.eqb (String.length s) 19 then
    match isoDay (substring 0 10 s), isoTime (substring 10 9 s) with
    | Some day, Some time => Some (UTC h (MakeDate day time))
    | _, _ => None
    end
  else implParse h s.

(** [new Date(string)]. *)
Definition ofString (h : Host) (s : string) : Date :=
  match parse h s with
  | Some t => TimeClip t
  | None => None
  end.

(** [new Date(number)] for an integral number. *)
Definition ofNumber (n : Z) : Date := TimeClip n.

(** [d.setDate(dt)]; [dt] is [None] when the argument is NaN. *)
Definition setDate (h : Host) (d : Date) (dt : option Z) : Date :=
  match d, dt with
  | Some t, Some n =>
      let tl := LocalTime h t in
      TimeClip (UTC h (MakeDate (MakeDay (YearFromTime tl) (MonthFromTime tl) n)
                         (TimeWithinDay tl)))
  | _, _ => None
  end.

End JsDate.

(* ===================================================================== *)
(** * JavaScript strings and numbers: the operations the helpers use *)
(* ===================================================================== *)

Module JsString.
Local Open Scope string_scope.

(** [String(n)] for an integer. *)
Definition ofZ (z : Z) : string := NilZero.string_of_int (Z.to_int z).

(** [s.padStart(2, '0')]. *)
Definition padStart2 (s : string) : string :=
  match String.length s with
  | O => "00"
  | S O => "0" ++ s
  | _ => s
  end.

Fixpoint zeros (n : nat) : string :=
  match n with
  | O => EmptyString
  | S k => String "0" (zeros k)
  end.

(** [s.padStart(n, '0')]. *)
Definition padZeros (n : nat) (s : string) : string :=
  zeros (n - String.length s) ++ s.

(** [s.includes(sub)]. *)
Fixpoint includes (sub s : string) : bool :=
  String.prefix sub s ||
  match s with
  | EmptyString => false
  | String _ r => includes sub r
  end.

(** [s.startsWith(p)]. *)
Definition startsWith (p s : string) : bool := String.prefix p s.

(** White space of [\s] and of [trim] among the 8-bit characters. *)
Definition is_space (c : ascii) : bool :=
  let n := nat_of_ascii c in
  (Nat.leb 9 n && Nat.leb n 13) || Nat.eqb n 32 || Nat.eqb n 160.

(** [s.replace(/\s+/g, "")]. *)
Fixpoint removeSpaces (s : string) : string :=
  match s with
  | EmptyString => EmptyString
  | String c r => if is_space c then removeSpaces r else String c (removeSpaces r)
  end.

(** [s.replace(/-/g, "")]. *)
Fixpoint removeDashes (s : string) : string :=
  match s with
  | EmptyString => EmptyString
  | String c r =>
      if Ascii.eqb c "-" then removeDashes r else String c (removeDashes r)
  end.

(** [s.trim() !== ""]: some character of [s] is not white space. *)
Fixpoint nonblank (s : string) : bool :=
  match s with
  | EmptyString => false
  | String c r => negb (is_space c) || nonblank r
  end.

(** The capital of a small letter among the 8-bit characters: of [a] to [z]
    and of the letters from 224 to 254 (all but the division sign, 247). *)
Definition upper (c : ascii) : ascii :=
  let n := nat_of_ascii c in
  if (Nat.leb 97 n && Nat.leb n 122)
     || (Nat.leb 224 n && Nat.leb n 254 && negb (Nat.eqb n 247))
  then ascii_of_nat (n - 32) else c.

(** [s.toUpperCase()]: each small letter becomes its capital and the sharp s
    (223) becomes [SS].  The capitals of the micro sign (181) and of the y
    with diaeresis (255) are no 8-bit characters; these two are left as they
    are, so a string that holds one of them is outside the embedding. *)
Fixpoint toUpperCase (s : string) : string :=
  match s with
  | EmptyString => EmptyString
  | String c r =>
      if Nat.eqb (nat_of_ascii c) 223 then String "S" (String "S" (toUpperCase r))
      else String (upper c) (toUpperCase r)
  end.

(** A string is truthy when it is not empty. *)
Definition truthy (s : string) : bool :=
  match s with EmptyString => false | _ => true end.

(** [s.trimStart()] and [s.trimEnd()]. *)
Fixpoint trimStart (s : string) : string :=
  match s with
  | EmptyString => EmptyString
  | String c r => if is_space c then trimStart r else s
  end.

Fixpoint trimEnd (s : string) : string :=
  match s with
  | EmptyString => EmptyString
  | String c r =>
      match trimEnd r with
      | EmptyString => if is_space c then EmptyString else String c EmptyString
      | r' => String c r'
      end
  end.

(** [s.trim()]. *)
Definition trim (s : string) : string := trimEnd (trimStart s).

(** [s.replace(/[<>]/g, "")]. *)
Fixpoint removeAngles (s : string) : string :=
  match s with
  | EmptyString => EmptyString
  | String c r =>
      if Ascii.eqb c "<" || Ascii.eqb c ">" then removeAngles r
      else String c (removeAngles r)
  end.

(** [s.replace(/[\s\-\(\)]/g, "")]. *)
Fixpoint removePhonePunctuation (s : string) : string :=
  match s with
  | EmptyString => EmptyString
  | String c r =>
      if is_space c || Ascii.eqb c "-" || Ascii.eqb c "(" || Ascii.eqb c ")"
      then removePhonePunctuation r
      else String c (removePhonePunctuation r)
  end.

(** The small letter of a capital among the 8-bit characters: of [A] to [Z]
    and of the letters from 192 to 222 (all but the multiplication sign,
    215).  No other 8-bit character changes under [toLowerCase]. *)
Definition lower (c : ascii) : ascii :=
  let n := nat_of_ascii c in
  if (Nat.leb 65 n && Nat.leb n 90)
     || (Nat.leb 192 n && Nat.leb n 222 && negb (Nat.eqb n 215))
  then ascii_of_nat (n + 32) else c.

(** [s.toLowerCase()]. *)
Fixpoint toLowerCase (s : string) : string :=
  match s with
  | EmptyString => EmptyString
  | String c r => String (lower c) (toLowerCase r)
  end.

End JsString.

Module JsNumber.

(** Numbers are truthy unless they are [0], [-0] or [NaN]. *)
Definition truthy (x : float) : bool :=
  negb (PrimFloat.eqb x 0) && PrimFloat.eqb x x.

(** [x || y] on numbers, a missing operand ([undefined], [null]) being falsy. *)
Definition or_else (x : option float) (y : float) : float :=
  match x with
  | Some v => if truthy v then v else y
  | None => y
  end.

Definition ofZ (z : Z) : float :=
  if (z <? 0)%Z then PrimFloat.opp (PrimFloat.of_uint63 (Uint63.of_Z (- z)))
  else PrimFloat.of_uint63 (Uint63.of_Z z).

(** [Math.round]: the closest integer, a tie going towards +infinity.  A finite
    [x] is [(-1)^s * m * 2^e]; with [e >= 0] it is an integer already, otherwise
    the rounding is [floor (x + 1/2)], computed exactly over the integers. *)
Definition round (x : float) : float :=
  match Prim2SF x with
  | S754_finite s m e =>
      if (0 <=? e)%Z then x
      else
        let den := (2 ^ (- e))%Z in
        let num := (if s then - (2 * Z.pos m) else 2 * Z.pos m)%Z in
        let r := ((num + den) / (2 * den))%Z in
        if (r =? 0)%Z then (if s then PrimFloat.opp 0%float else 0%float)
        else ofZ r
  | _ => x
  end.

End JsNumber.

(* ===================================================================== *)
(** * [DateHelper] (src/utils/dateHelpers.ts) *)
(* ===================================================================== *)

(** The values the date helpers are called with. *)
Inductive JsValue :=
| VUndefined
| VNull
| VString (s : string)
| VNumber (n : Z)
| VDate (d : JsDate.Date).

Module JsValue.

(** [!!v]. *)
Definition truthy (v : JsValue) : bool :=
  match v with
  | VUndefined | VNull => false
  | VString s => JsString.truthy s
  | VNumber n => negb (n =? 0)%Z
  | VDate _ => true
  end.

(** [new Date(v)]. *)
Definition toDate (h : JsDate.Host) (v : JsValue) : JsDate.Date :=
  match v with
  | VUndefined => None
  | VNull => JsDate.ofNumber 0
  | VString s => JsDate.ofString h s
  | VNumber n => JsDate.ofNumber n
  | VDate d => d
  end.

End JsValue.

Module DateHelper.
Import JsDate.
Local Open Scope Z_scope.

(** [safeParseDate(dateStr)]; [None] is JavaScript's [null]. *)
Definition safeParseDate (h : Host) (dateStr : JsValue) : option Date :=
  if negb (JsValue.truthy dateStr) then None
  else
    match dateStr with
    | VDate d => Some d
    | VString s =>
        if matches_ymd s then Some (ofString h (s ++ "T12:00:00")%string)
        else
          match ofString h s with
          | None => None
          | Some t => Some (Some t)
          end
    | v =>
        match JsValue.toDate h v with
        | None => None
        | Some t => Some (Some t)
        end
    end.

(** [Math.round(n / d)] for integers [n] and [d > 0].  The operands are time
    values (integers below 2^53), the float quotient is correctly rounded and
    [Math.round] is monotone, so the result is the exact quotient rounded half
    up. *)
Definition round_div (n d : Z) : Z := (2 * n + d) / (2 * d).

(** [calculateDurationInDays(startDate, endDate)].  With an invalid date the
    difference is [NaN], [NaN > 0] is false and the result is 1; nothing in
    the [try] block throws. *)
Definition calculateDurationInDays (h : Host) (startDate endDate : JsValue) : Z :=
  let start := setHours0 h (JsValue.toDate h startDate) in
  let end_ := setHours0 h (JsValue.toDate h endDate) in
  match getTime start, getTime end_ with
  | Some s, Some e =>
      let diffDays := round_div (e - s) (1000 * 60 * 60 * 24) + 1 in
      if 0 <? diffDays then diffDays else 1
  | _, _ => 1
  end.

(** [formatDateToYYYYMMDD(date)]. *)
Definition formatDateToYYYYMMDD (h : Host) (date : Date) : string :=
  match date with
  | None => "NaN-NaN-NaN"%string
  | Some t =>
      let tl := LocalTime h t in
      let year := JsString.ofZ (YearFromTime tl) in
      let month := JsString.padStart2 (JsString.ofZ (MonthFromTime tl + 1)) in
      let day := JsString.padStart2 (JsString.ofZ (DateFromTime tl)) in
      (year ++ "-" ++ month ++ "-" ++ day)%string
  end.

(** [getCurrentDateString()], [now] being the clock reading of [new Date()]. *)
Definition getCurrentDateString (h : Host) (now : Z) : string :=
  formatDateToYYYYMMDD h (TimeClip now).

(** [calculateEndDate(startDate, durationDays)] on a [Date] object: the
    start date moved by [durationDays - 1] days with [setDate].  On an
    invalid date [getDate] is NaN and so is the result; nothing in the [try]
    block throws. *)
Definition calculateEndDate (h : Host) (startDate : Date) (durationDays : Z) : Date :=
  setDate h startDate
    (option_map (fun date => date + (durationDays - 1)) (getDate h startDate)).

(** [validateDateRange(startDate, endDate)]: a comparison with NaN is
    false. *)
Definition validateDateRange (h : Host) (startDate endDate : JsValue) : bool :=
  let start := setHours0 h (JsValue.toDate h startDate) in
  let end_ := setHours0 h (JsValue.toDate h endDate) in
  match getTime start, getTime end_ with
  | Some s, Some e => s <=? e
  | _, _ => false
  end.

(** [formatDateToDDMMYYYY(date)]. *)
Definition formatDateToDDMMYYYY (h : Host) (date : Date) : string :=
  match date with
  | None => "NaN/NaN/NaN"%string
  | Some t =>
      let tl := LocalTime h t in
      let day := JsString.padStart2 (JsString.ofZ (DateFromTime tl)) in
      let month := JsString.padStart2 (JsString.ofZ (MonthFromTime tl + 1)) in
      let year := JsString.ofZ (YearFromTime tl) in
      (day ++ "/" ++ month ++ "/" ++ year)%string
  end.

(** The values that the formatting helpers are called with: the values
    above, an object with a [toDate] method (a Firestore [Timestamp];
    [toDate] gives the date it holds), or an object with a numeric [seconds]
    property and no [toDate]. *)
Inductive DateInput :=
| Plain (v : JsValue)
| WithToDate (d : Date)
| WithSeconds (seconds : Z).

(** [safeFormatDate(dateValue)]. *)
Definition safeFormatDate (h : Host) (dateValue : DateInput) : string :=
  match dateValue with
  | WithToDate d => formatDateToDDMMYYYY h d
  | WithSeconds seconds => formatDateToDDMMYYYY h (ofNumber (seconds * 1000))
  | Plain v =>
      if negb (JsValue.truthy v) then "No especificada"%string
      else
        match v with
        | VString s =>
            if JsString.includes "/" s then s
            else
              let dateToFormat :=
                if JsString.includes "T" s || JsString.includes "Z" s
                then ofString h s
                else ofString h (s ++ "T12:00:00")%string in
              if negb (isValid dateToFormat) then "No especificada"%string
              else formatDateToDDMMYYYY h dateToFormat
        | _ =>
            let date := JsValue.toDate h v in
            if negb (isValid date) then "No especificada"%string
            else formatDateToDDMMYYYY h date
        end
  end.

(** [safeFormatDateForInput(dateValue)]. *)
Definition safeFormatDateForInput (h : Host) (dateValue : DateInput) : string :=
  match dateValue with
  | WithToDate d => formatDateToYYYYMMDD h d
  | WithSeconds seconds => formatDateToYYYYMMDD h (ofNumber (seconds * 1000))
  | Plain v =>
      if negb (JsValue.truthy v) then ""%string
      else
        match v with
        | VString s =>
            if matches_ymd s then s
            else
              let dateToFormat :=
                if JsString.includes "T" s || JsString.includes "Z" s
                then ofString h s
                else ofString h (s ++ "T12:00:00")%string in
              if negb (isValid dateToFormat) then ""%string
              else formatDateToYYYYMMDD h dateToFormat
        | _ =>
            let date := JsValue.toDate h v in
            if negb (isValid date) then ""%string
            else formatDateToYYYYMMDD h date
        end
  end.

End DateHelper.

(* ===================================================================== *)
(** * [QuoteHelper] (src/utils/quoteHelpers.ts) *)
(* ===================================================================== *)

Module QuoteHelper.
Import JsDate.
Local Open Scope string_scope.

(** The fields of [QuoteItem] that [calculateTotals] reads. *)
Record QuoteItem := {
  cantidad : option float;
  precio_unitario : option float;
  precioBase : option float
}.

(** The fields of [Quote] that [generateQuoteNumber] reads. *)
Record Quote := {
  numero : option string;
  titulo : option string;
  created_at : JsValue;
  createdAt : JsValue
}.

Record Client := {
  id : string;
  nombre : string;
  empresa : option string
}.

Inductive JsError := TypeError | RangeError.

(** [s || dflt] for an optional string. *)
Definition str_or (s : option string) (dflt : string) : string :=
  match s with
  | Some v => if JsString.truthy v then v else dflt
  | None => dflt
  end.

(** The marker of a placeholder number. *)
Definition placeholder_marker : string := "mvG2cFN4sBXIfjxxnYAL".

(** [cotizacion.numero && !cotizacion.numero.includes(marker)]. *)
Definition has_valid_number (q : Quote) : bool :=
  match numero q with
  | Some n => JsString.truthy n && negb (JsString.includes placeholder_marker n)
  | None => false
  end.

(** The year of [toISOString]: four digits from 0 to 9999, otherwise a sign
    and six digits. *)
Definition isoYear (y : Z) : string :=
  if ((0 <=? y) && (y <=? 9999))%Z then JsString.padZeros 4 (JsString.ofZ y)
  else if (y <? 0)%Z then "-" ++ JsString.padZeros 6 (JsString.ofZ (- y))
  else "+" ++ JsString.padZeros 6 (JsString.ofZ y).

(** [d.toISOString()]; it throws a [RangeError] on an invalid date. *)
Definition toISOString (d : Date) : JsError + string :=
  match d with
  | None => inl RangeError
  | Some t =>
      inr (isoYear (YearFromTime t) ++ "-"
           ++ JsString.padStart2 (JsString.ofZ (MonthFromTime t + 1)) ++ "-"
           ++ JsString.padStart2 (JsString.ofZ (DateFromTime t)) ++ "T"
           ++ JsString.padStart2 (JsString.ofZ (HourFromTime t)) ++ ":"
           ++ JsString.padStart2 (JsString.ofZ (MinFromTime t)) ++ ":"
           ++ JsString.padStart2 (JsString.ofZ (SecFromTime t)) ++ "."
           ++ JsString.padZeros 3 (JsString.ofZ (msFromTime t)) ++ "Z")
  end.

(** [name.replace(/\s+/g, "").substring(0, 10).toUpperCase()]. *)
Definition token (name : string) : string :=
  JsString.toUpperCase (substring 0 10 (JsString.removeSpaces name)).

(** The [try] block of [generateQuoteNumber]: a thrown error or the number.
    [None] for [cotizacion] or [cliente] is [null]/[undefined]; [now] is the
    clock reading. *)
Definition generateQuoteNumber_try (h : Host) (now : Z)
    (cotizacion : option Quote) (cliente : option Client) : JsError + string :=
  match cotizacion with
  | None => inl TypeError
  | Some q =>
      if has_valid_number q then inr (str_or (numero q) "")
      else
        let fechaCreacion :=
          if JsValue.truthy (created_at q) then JsValue.toDate h (created_at q)
          else JsValue.toDate h
                 (if JsValue.truthy (createdAt q) then createdAt q else VNumber now) in
        match toISOString fechaCreacion with
        | inl e => inl e
        | inr iso =>
            let fechaFormateada := JsString.removeDashes (substring 0 10 iso) in
            let clienteNombre :=
              token (str_or (option_map nombre cliente) "CLIENTE") in
            let eventoNombre := token (str_or (titulo q) "EVENTO") in
            let numeroSecuencial := "001" in
            inr ("COT-" ++ numeroSecuencial ++ "-" ++ fechaFormateada ++ "-"
                 ++ clienteNombre ++ "-" ++ eventoNombre)
        end
  end.

(** [generateQuoteNumber(cotizacion, cliente)], with its [catch] block. *)
Definition generateQuoteNumber (h : Host) (now : Z)
    (cotizacion : option Quote) (cliente : option Client) : string :=
  match generateQuoteNumber_try h now cotizacion cliente with
  | inr n => n
  | inl _ =>
      "COT-001-" ++ JsString.removeDashes (DateHelper.getCurrentDateString h now)
      ++ "-CLIENTE-EVENTO"
  end.

(** The result of [calculateTotals]. *)
Record Totals := {
  subtotal : float;
  descuentoMonto : float;
  total : float
}.

(** [parseFloat(String(x || 0)) || 0] on a number: printing and parsing a
    number gives it back, so this is [x || 0]. *)
Definition num_or_zero (x : option float) : float := JsNumber.or_else x 0%float.

(** One step of the [reduce]: [sum + cantidad * precio]. *)
Definition add_item (sum : float) (item : QuoteItem) : float :=
  let cantidad := num_or_zero (cantidad item) in
  let precio :=
    num_or_zero
      (Some (JsNumber.or_else (precio_unitario item)
               (JsNumber.or_else (precioBase item) 0%float))) in
  (sum + cantidad * precio)%float.

(** The sum before rounding. *)
Definition raw_subtotal (items : list QuoteItem) : float :=
  fold_left add_item items 0%float.

(** [Math.round(x * 100) / 100]. *)
Definition round2 (x : float) : float := (JsNumber.round (x * 100) / 100)%float.

(** [calculateTotals(items, descuento)]. *)
Definition calculateTotals (items : list QuoteItem) (descuento : float) : Totals :=
  let subtotal := raw_subtotal items in
  let descuentoMonto := (subtotal * descuento / 100)%float in
  let total := (subtotal - descuentoMonto)%float in
  {| subtotal := round2 subtotal;
     descuentoMonto := round2 descuentoMonto;
     total := round2 total |}.

End QuoteHelper.

(* ===================================================================== *)
(** * [QuoteHelper]: field aliases, event dates and status labels *)
(* ===================================================================== *)

Module QuoteData.
Import JsDate.
Local Open Scope string_scope.

(** The value of [items]: missing, an array, an object whose values are the
    items, or anything else. *)
Inductive Items :=
| NoItems
| ItemArray (l : list QuoteHelper.QuoteItem)
| ItemObject (l : list (string * QuoteHelper.QuoteItem))
| OtherItems.

(** The fields of [Quote] that the functions below read or write. *)
Record Quote := {
  cliente_id : option string;
  clienteId : option string;
  titulo : option string;
  fecha_evento : JsValue;
  fechaEvento : JsValue;
  fecha_evento_fin : JsValue;
  fechaEventoFin : JsValue;
  duracion_dias : option Z;
  items : Items;
  created_at : JsValue;
  createdAt : JsValue
}.

(** [!!s] for an optional string. *)
Definition str_truthy (s : option string) : bool :=
  match s with
  | Some v => JsString.truthy v
  | None => false
  end.

(** [a || b]. *)
Definition js_or (a b : JsValue) : JsValue := if JsValue.truthy a then a else b.

(** [normalizeItems(items)]. *)
Definition normalizeItems (items : Items) : list QuoteHelper.QuoteItem :=
  match items with
  | NoItems => []
  | ItemArray l => l
  | ItemObject l => map snd l
  | OtherItems => []
  end.

(** [normalizeQuoteData(cotizacion)]: each assignment reads the fields as the
    assignments before it left them. *)
Definition normalizeQuoteData (cotizacion : Quote) : Quote :=
  let clienteId' :=
    if str_truthy (cliente_id cotizacion) && negb (str_truthy (clienteId cotizacion))
    then cliente_id cotizacion else clienteId cotizacion in
  let cliente_id' :=
    if str_truthy clienteId' && negb (str_truthy (cliente_id cotizacion))
    then clienteId' else cliente_id cotizacion in
  let fechaEvento' :=
    if JsValue.truthy (fecha_evento cotizacion) && negb (JsValue.truthy (fechaEvento cotizacion))
    then fecha_evento cotizacion else fechaEvento cotizacion in
  let fecha_evento' :=
    if JsValue.truthy fechaEvento' && negb (JsValue.truthy (fecha_evento cotizacion))
    then fechaEvento' else fecha_evento cotizacion in
  let fechaEventoFin' :=
    if JsValue.truthy (fecha_evento_fin cotizacion)
       && negb (JsValue.truthy (fechaEventoFin cotizacion))
    then fecha_evento_fin cotizacion else fechaEventoFin cotizacion in
  let fecha_evento_fin' :=
    if JsValue.truthy fechaEventoFin' && negb (JsValue.truthy (fecha_evento_fin cotizacion))
    then fechaEventoFin' else fecha_evento_fin cotizacion in
  let createdAt' :=
    if JsValue.truthy (created_at cotizacion) && negb (JsValue.truthy (createdAt cotizacion))
    then created_at cotizacion else createdAt cotizacion in
  let created_at' :=
    if JsValue.truthy createdAt' && negb (JsValue.truthy (created_at cotizacion))
    then createdAt' else created_at cotizacion in
  {| cliente_id := cliente_id';
     clienteId := clienteId';
     titulo := titulo cotizacion;
     fecha_evento := fecha_evento';
     fechaEvento := fechaEvento';
     fecha_evento_fin := fecha_evento_fin';
     fechaEventoFin := fechaEventoFin';
     duracion_dias := duracion_dias cotizacion;
     items := ItemArray (normalizeItems (items cotizacion));
     created_at := created_at';
     createdAt := createdAt' |}.

(** [calculateEventDuration(fechaInicio, fechaFin)]. *)
Definition calculateEventDuration (h : Host) (fechaInicio fechaFin : JsValue) : Z :=
  match DateHelper.safeParseDate h fechaInicio with
  | None => 1%Z
  | Some startDate =>
      if JsValue.truthy fechaFin then
        match DateHelper.safeParseDate h fechaFin with
        | Some endDate =>
            DateHelper.calculateDurationInDays h (VDate startDate) (VDate endDate)
        | None => 1%Z
        end
      else 1%Z
  end.

(** [calculateEndDateIfMissing(cotizacion)]. *)
Definition calculateEndDateIfMissing (h : Host) (cotizacion : Quote) : Quote :=
  let fechaInicio := js_or (fechaEvento cotizacion) (fecha_evento cotizacion) in
  let fechaFin := js_or (fechaEventoFin cotizacion) (fecha_evento_fin cotizacion) in
  let duracionDias :=
    match duracion_dias cotizacion with
    | Some n => if (n =? 0)%Z then 1%Z else n
    | None => 1%Z
    end in
  let with_end (fin fin_text : JsValue) :=
    {| cliente_id := cliente_id cotizacion;
       clienteId := clienteId cotizacion;
       titulo := titulo cotizacion;
       fecha_evento := fecha_evento cotizacion;
       fechaEvento := fechaEvento cotizacion;
       fecha_evento_fin := fin_text;
       fechaEventoFin := fin;
       duracion_dias := duracion_dias cotizacion;
       items := items cotizacion;
       created_at := created_at cotizacion;
       createdAt := createdAt cotizacion |} in
  if JsValue.truthy fechaInicio && negb (JsValue.truthy fechaFin) && (1 <? duracionDias)%Z
  then
    match DateHelper.safeParseDate h fechaInicio with
    | Some startDate =>
        let endDate := DateHelper.calculateEndDate h startDate duracionDias in
        with_end (VDate endDate)
          (VString (DateHelper.safeFormatDateForInput h (DateHelper.Plain (VDate endDate))))
    | None => cotizacion
    end
  else if JsValue.truthy fechaInicio && negb (JsValue.truthy fechaFin)
  then with_end fechaInicio fechaInicio
  else cotizacion.

(** The label of a status. *)
Record StatusDisplay := {
  text : string;
  class : string
}.

(** What [statusMap[estado] || dflt] evaluates to: a label, or, for a
    property name that every object inherits, the inherited value. *)
Inductive Looked :=
| Label (d : StatusDisplay)
| Inherited (name : string).

Definition inherited_names : list string :=
  ["constructor"; "hasOwnProperty"; "isPrototypeOf"; "propertyIsEnumerable";
   "toLocaleString"; "toString"; "valueOf"; "__proto__"; "__defineGetter__";
   "__defineSetter__"; "__lookupGetter__"; "__lookupSetter__"].

(** [getQuoteStatusDisplay(estado)]. *)
Definition getQuoteStatusDisplay (estado : string) : Looked :=
  if String.eqb estado "borrador" then
    Label {| text := "Borrador"; class := "bg-gray-100 text-gray-800" |}
  else if String.eqb estado "enviado" then
    Label {| text := "Enviado"; class := "bg-blue-100 text-blue-800" |}
  else if String.eqb estado "aprobado" then
    Label {| text := "Aprobado"; class := "bg-green-100 text-green-800" |}
  else if String.eqb estado "rechazado" then
    Label {| text := "Rechazado"; class := "bg-red-100 text-red-800" |}
  else if existsb (String.eqb estado) inherited_names then Inherited estado
  else Label {| text := "Desconocido"; class := "bg-gray-100 text-gray-800" |}.

End QuoteData.

(* ===================================================================== *)
(** * The [cotizaciones] collection *)
(* ===================================================================== *)

Module Firestore.
Local Open Scope Z_scope.

(** A Firestore [Timestamp]; a [Date] written to the store is read back as
    one. *)
Record Timestamp := {
  seconds : Z;
  nanoseconds : Z
}.

Definition fromMillis (ms : Z) : Timestamp :=
  {| seconds := ms / 1000; nanoseconds := (ms mod 1000) * 1000000 |}.

Definition toMillis (t : Timestamp) : Z :=
  seconds t * 1000 + nanoseconds t / 1000000.

(** [enum QuoteStatus]. *)
Inductive QuoteStatus :=
| BORRADOR
| ENVIADA
| REVISADA
| APROBADA
| RECHAZADA
| VENCIDA
| CONVERTIDA.

#[global] Instance QuoteStatus_eq_dec : EqDecision QuoteStatus.
Proof. solve_decision. Defined.

(** The string value of each member. *)
Definition status_name (s : QuoteStatus) : string :=
  match s with
  | BORRADOR => "borrador"
  | ENVIADA => "enviada"
  | REVISADA => "revisada"
  | APROBADA => "aprobada"
  | RECHAZADA => "rechazada"
  | VENCIDA => "vencida"
  | CONVERTIDA => "convertida"
  end.

(** [interface QuoteStatusChange]. *)
Record QuoteStatusChange := {
  estadoAnterior : QuoteStatus;
  estadoNuevo : QuoteStatus;
  fecha : Z;
  usuario : option string;
  comentario : option string;
  automatico : option bool
}.

(** A document of [cotizaciones]: the fields that the tracking service and
    the reminder poller read or write.  [None] is a missing or [null]
    field. *)
Record Cotizacion := {
  numero : option string;
  clienteId : option string;
  cliente_id : option string;
  clienteNombre : option string;
  titulo : option string;
  descripcion : option string;
  estado : option QuoteStatus;
  historialCambios : option (list QuoteStatusChange);
  fechaEnvio : option Timestamp;
  fechaRevision : option Timestamp;
  fechaAprobacion : option Timestamp;
  proximoSeguimiento : option Timestamp;
  proximoSeguimientoTipo : option string;
  proximoSeguimientoMensaje : option string;
  proximoSeguimientoUsuario : option string;
  proximoSeguimientoEmail : option bool;
  proximoSeguimientoPush : option bool;
  proximoSeguimientoDestinatarios : option (list string);
  updatedAt : option Timestamp
}.

(** [updateDoc(doc(db, "cotizaciones", id), data)]: the fields of [data]
    replace those of the stored document; it throws when there is no such
    document ([None]). *)
Definition updateDoc (id : string) (patch : Cotizacion -> Cotizacion)
    (store : gmap string Cotizacion) : option (gmap string Cotizacion) :=
  match store !! id with
  | Some d => Some (<[id := patch d]> store)
  | None => None
  end.

End Firestore.

(* ===================================================================== *)
(** * The in-memory cache (src/utils/cache.ts) *)
(* ===================================================================== *)

Module Cache.
Local Open Scope Z_scope.

Record CacheEntry (T : Type) := {
  data : T;
  timestamp : Z;
  ttl : Z
}.
Arguments data {T} _.
Arguments timestamp {T} _.
Arguments ttl {T} _.

Definition MEDIUM : Z := 5 * 60 * 1000.

Section WithData.
Context {T : Type}.

(** [cache.get(key)] at clock reading [now]: the data and the cache
    afterwards (an expired entry is deleted). *)
Definition get (key : string) (now : Z) (c : gmap string (CacheEntry T))
    : option T * gmap string (CacheEntry T) :=
  match c !! key with
  | None => (None, c)
  | Some entry =>
      if ttl entry <? now - timestamp entry then (None, delete key c)
      else (Some (data entry), c)
  end.

(** [cache.set(key, data, ttl)]. *)
Definition set (key : string) (d : T) (ttl_ : Z) (now : Z)
    (c : gmap string (CacheEntry T)) : gmap string (CacheEntry T) :=
  <[key := {| data := d; timestamp := now; ttl := ttl_ |}]> c.

(** [invalidateRelatedCache(type)]: every key that starts with [type] or
    includes [type-] is deleted. *)
Definition invalidateRelatedCache (type : string)
    (c : gmap string (CacheEntry T)) : gmap string (CacheEntry T) :=
  filter
    (fun kv => (JsString.startsWith type (fst kv)
                || JsString.includes (type ++ "-")%string (fst kv)) = false)
    c.

(** [cache.clearExpired()] at clock reading [now]. *)
Definition clearExpired (now : Z) (c : gmap string (CacheEntry T))
    : gmap string (CacheEntry T) :=
  filter (fun kv => (ttl (snd kv) <? now - timestamp (snd kv)) = false) c.

End WithData.
End Cache.

(* ===================================================================== *)
(** * [QuoteTrackingService] (src/services/QuoteTrackingService.ts) *)
(* ===================================================================== *)

Module QuoteTrackingService.
Import Firestore.
Local Open Scope string_scope.

(** [interface QuoteTracking], without the fields that are derived from
    other collections or from the clock ([clienteNombre], [fechaCreacion],
    [fechaVencimiento], [diasVencimiento], [total], [observaciones],
    [recordatorios]): none of the operations below reads them. *)
Record QuoteTracking := {
  qt_id : string;
  qt_numero : string;
  qt_clienteId : option string;
  qt_titulo : string;
  qt_estado : QuoteStatus;
  qt_fechaEnvio : option Z;
  qt_fechaRevision : option Z;
  qt_fechaAprobacion : option Z;
  qt_historialCambios : list QuoteStatusChange;
  qt_proximoSeguimiento : option Z;
  qt_proximoSeguimientoTipo : option string;
  qt_proximoSeguimientoMensaje : option string;
  qt_proximoSeguimientoUsuario : option string;
  qt_proximoSeguimientoEmail : option bool;
  qt_proximoSeguimientoPush : option bool
}.

(** What a call throws. *)
Inductive Thrown :=
| Error (message : string)
| FirestoreError (code : string).

(** The server's state: the collection and the cache in front of it. *)
Record World := {
  cotizaciones : gmap string Cotizacion;
  cache : gmap string (Cache.CacheEntry QuoteTracking)
}.

Definition CACHE_TTL : Z := Cache.MEDIUM.

Definition str_or (s : option string) (dflt : string) : string :=
  match s with
  | Some v => if JsString.truthy v then v else dflt
  | None => dflt
  end.

(** [a || b] on optional strings. *)
Definition opt_or (a b : option string) : option string :=
  match a with
  | Some v => if JsString.truthy v then a else b
  | None => b
  end.

(** [mapDocumentToQuoteTracking(doc)]. *)
Definition mapDocumentToQuoteTracking (id : string) (d : Cotizacion) : QuoteTracking :=
  {| qt_id := id;
     qt_numero := str_or (numero d) ("COT-" ++ id);
     qt_clienteId := opt_or (clienteId d) (cliente_id d);
     qt_titulo := str_or (titulo d) (str_or (descripcion d) "Sin título");
     qt_estado := default BORRADOR (estado d);
     qt_fechaEnvio := toMillis <$> fechaEnvio d;
     qt_fechaRevision := toMillis <$> fechaRevision d;
     qt_fechaAprobacion := toMillis <$> fechaAprobacion d;
     qt_historialCambios := default [] (historialCambios d);
     qt_proximoSeguimiento := toMillis <$> proximoSeguimiento d;
     qt_proximoSeguimientoTipo := proximoSeguimientoTipo d;
     qt_proximoSeguimientoMensaje := proximoSeguimientoMensaje d;
     qt_proximoSeguimientoUsuario := proximoSeguimientoUsuario d;
     qt_proximoSeguimientoEmail := proximoSeguimientoEmail d;
     qt_proximoSeguimientoPush := proximoSeguimientoPush d |}.

Definition cacheKey (id : string) : string := "quote-tracking-" ++ id.

(** [getByIdWithTracking(id)]: the cached quote when there is a live cache
    entry, otherwise the stored document, mapped and cached. *)
Definition getByIdWithTracking (id : string) (now : Z) (w : World)
    : option QuoteTracking * World :=
  match Cache.get (cacheKey id) now (cache w) with
  | (Some cachedData, c) =>
      (Some cachedData, {| cotizaciones := cotizaciones w; cache := c |})
  | (None, c) =>
      match cotizaciones w !! id with
      | None => (None, {| cotizaciones := cotizaciones w; cache := c |})
      | Some d =>
          let quote := mapDocumentToQuoteTracking id d in
          (Some quote,
           {| cotizaciones := cotizaciones w;
              cache := Cache.set (cacheKey id) quote CACHE_TTL now c |})
      end
  end.

(** [transicionesValidas]. *)
Definition transicionesValidas (estadoActual : QuoteStatus) : list QuoteStatus :=
  match estadoActual with
  | BORRADOR => [ENVIADA; RECHAZADA]
  | ENVIADA => [REVISADA; RECHAZADA; VENCIDA]
  | REVISADA => [APROBADA; RECHAZADA; VENCIDA]
  | APROBADA => [CONVERTIDA]
  | RECHAZADA => [BORRADOR]
  | VENCIDA => [BORRADOR]
  | CONVERTIDA => []
  end.

(** [isValidStatusTransition(estadoActual, nuevoEstado)]. *)
Definition isValidStatusTransition (estadoActual nuevoEstado : QuoteStatus) : bool :=
  bool_decide (nuevoEstado ∈ transicionesValidas estadoActual).

(** [invalidateCache(quoteId)]. *)
Definition invalidateCache (quoteId : string)
    (c : gmap string (Cache.CacheEntry QuoteTracking))
    : gmap string (Cache.CacheEntry QuoteTracking) :=
  delete "tracking-stats"
    (delete "quotes-tracking-all"
       (delete (cacheKey quoteId) (Cache.invalidateRelatedCache "quote" c))).

(** The [updateData] that [updateStatus] hands to [updateDoc]: [estado],
    [updatedAt] and the date of the new status. *)
Definition statusUpdate (nuevoEstado : QuoteStatus) (now : Z) (d : Cotizacion)
    : Cotizacion :=
  {| numero := numero d;
     clienteId := clienteId d;
     cliente_id := cliente_id d;
     clienteNombre := clienteNombre d;
     titulo := titulo d;
     descripcion := descripcion d;
     estado := Some nuevoEstado;
     historialCambios := historialCambios d;
     fechaEnvio :=
       match nuevoEstado with ENVIADA => Some (fromMillis now) | _ => fechaEnvio d end;
     fechaRevision :=
       match nuevoEstado with REVISADA => Some (fromMillis now) | _ => fechaRevision d end;
     fechaAprobacion :=
       match nuevoEstado with APROBADA => Some (fromMillis now) | _ => fechaAprobacion d end;
     proximoSeguimiento := proximoSeguimiento d;
     proximoSeguimientoTipo := proximoSeguimientoTipo d;
     proximoSeguimientoMensaje := proximoSeguimientoMensaje d;
     proximoSeguimientoUsuario := proximoSeguimientoUsuario d;
     proximoSeguimientoEmail := proximoSeguimientoEmail d;
     proximoSeguimientoPush := proximoSeguimientoPush d;
     proximoSeguimientoDestinatarios := proximoSeguimientoDestinatarios d;
     updatedAt := Some (fromMillis now) |}.

Definition notFound : Thrown := Error "Cotización no encontrada".

Definition invalidTransition (estadoAnterior nuevoEstado : QuoteStatus) : Thrown :=
  Error ("No se puede cambiar de " ++ status_name estadoAnterior ++ " a "
         ++ status_name nuevoEstado).

(** [updateStatus(id, nuevoEstado, comentario, usuario)] at clock reading
    [now]: what it throws, if anything, and the state it leaves.  The
    [catch] block logs and rethrows. *)
Definition updateStatus (id : string) (nuevoEstado : QuoteStatus)
    (comentario usuario : option string) (now : Z) (w : World)
    : (Thrown + unit) * World :=
  let '(cotizacionActual, w1) := getByIdWithTracking id now w in
  match cotizacionActual with
  | None => (inl notFound, w1)
  | Some cotizacionActual =>
      let estadoAnterior := qt_estado cotizacionActual in
      if negb (isValidStatusTransition estadoAnterior nuevoEstado) then
        (inl (invalidTransition estadoAnterior nuevoEstado), w1)
      else
        let cambio :=
          {| estadoAnterior := estadoAnterior;
             estadoNuevo := nuevoEstado;
             fecha := now;
             usuario := usuario;
             comentario := comentario;
             automatico := Some false |} in
        let historialActualizado :=
          (qt_historialCambios cotizacionActual ++ [cambio])%list in
        match updateDoc id (statusUpdate nuevoEstado now) (cotizaciones w1) with
        | None => (inl (FirestoreError "not-found"), w1)
        | Some store =>
            (inr tt,
             {| cotizaciones := store; cache := invalidateCache id (cache w1) |})
        end
  end.

(** The [updateData] of [scheduleReminder]. *)
Definition reminderUpdate (tipo : string) (fecha_ : Z) (mensaje : string)
    (sendEmail sendPush : bool) (userName : string) (recipients : list string)
    (now : Z) (d : Cotizacion) : Cotizacion :=
  {| numero := numero d;
     clienteId := clienteId d;
     cliente_id := cliente_id d;
     clienteNombre := clienteNombre d;
     titulo := titulo d;
     descripcion := descripcion d;
     estado := estado d;
     historialCambios := historialCambios d;
     fechaEnvio := fechaEnvio d;
     fechaRevision := fechaRevision d;
     fechaAprobacion := fechaAprobacion d;
     proximoSeguimiento := Some (fromMillis fecha_);
     proximoSeguimientoTipo := Some tipo;
     proximoSeguimientoMensaje := Some mensaje;
     proximoSeguimientoUsuario := Some userName;
     proximoSeguimientoEmail := Some sendEmail;
     proximoSeguimientoPush := Some sendPush;
     proximoSeguimientoDestinatarios := Some recipients;
     updatedAt := Some (fromMillis now) |}.

(** [scheduleReminder(quoteId, tipo, fecha, mensaje, sendEmail, sendPush,
    userName, userEmail, recipients)]; nothing is sent here. *)
Definition scheduleReminder (quoteId : string) (tipo : string) (fecha_ : Z)
    (mensaje : string) (sendEmail sendPush : bool) (userName : string)
    (userEmail : option string) (recipients : list string) (now : Z) (w : World)
    : (Thrown + unit) * World :=
  let '(cotizacion, w1) := getByIdWithTracking quoteId now w in
  match cotizacion with
  | None => (inl notFound, w1)
  | Some _ =>
      match updateDoc quoteId
              (reminderUpdate tipo fecha_ mensaje sendEmail sendPush userName
                 recipients now) (cotizaciones w1) with
      | None => (inl (FirestoreError "not-found"), w1)
      | Some store =>
          (inr tt,
           {| cotizaciones := store; cache := invalidateCache quoteId (cache w1) |})
      end
  end.

(** The [updateData] of [deleteReminder]. *)
Definition reminderDelete (now : Z) (d : Cotizacion) : Cotizacion :=
  {| numero := numero d;
     clienteId := clienteId d;
     cliente_id := cliente_id d;
     clienteNombre := clienteNombre d;
     titulo := titulo d;
     descripcion := descripcion d;
     estado := estado d;
     historialCambios := historialCambios d;
     fechaEnvio := fechaEnvio d;
     fechaRevision := fechaRevision d;
     fechaAprobacion := fechaAprobacion d;
     proximoSeguimiento := None;
     proximoSeguimientoTipo := None;
     proximoSeguimientoMensaje := None;
     proximoSeguimientoUsuario := None;
     proximoSeguimientoEmail := None;
     proximoSeguimientoPush := None;
     proximoSeguimientoDestinatarios := proximoSeguimientoDestinatarios d;
     updatedAt := Some (fromMillis now) |}.

(** [deleteReminder(quoteId, reminderId)]. *)
Definition deleteReminder (quoteId : string) (reminderId : string) (now : Z)
    (w : World) : (Thrown + unit) * World :=
  let '(cotizacion, w1) := getByIdWithTracking quoteId now w in
  match cotizacion with
  | None => (inl notFound, w1)
  | Some _ =>
      match updateDoc quoteId (reminderDelete now) (cotizaciones w1) with
      | None => (inl (FirestoreError "not-found"), w1)
      | Some store =>
          (inr tt,
           {| cotizaciones := store; cache := invalidateCache quoteId (cache w1) |})
      end
  end.

End QuoteTrackingService.

(* ===================================================================== *)
(** * [cotizacionService] (src/utils/database.ts) and the route that edits a
      quote *)
(* ===================================================================== *)

Module CotizacionService.
Import Firestore QuoteTrackingService.
Local Open Scope string_scope.

(** [updatedAt: new Date()] in the data of an update. *)
Definition touch (now : Z) (d : Cotizacion) : Cotizacion :=
  {| numero := numero d;
     clienteId := clienteId d;
     cliente_id := cliente_id d;
     clienteNombre := clienteNombre d;
     titulo := titulo d;
     descripcion := descripcion d;
     estado := estado d;
     historialCambios := historialCambios d;
     fechaEnvio := fechaEnvio d;
     fechaRevision := fechaRevision d;
     fechaAprobacion := fechaAprobacion d;
     proximoSeguimiento := proximoSeguimiento d;
     proximoSeguimientoTipo := proximoSeguimientoTipo d;
     proximoSeguimientoMensaje := proximoSeguimientoMensaje d;
     proximoSeguimientoUsuario := proximoSeguimientoUsuario d;
     proximoSeguimientoEmail := proximoSeguimientoEmail d;
     proximoSeguimientoPush := proximoSeguimientoPush d;
     proximoSeguimientoDestinatarios := proximoSeguimientoDestinatarios d;
     updatedAt := Some (fromMillis now) |}.

(** [cotizacionService.update(id, updates)] at clock reading [now]:
    [updateDoc] with the fields of [updates] and [updatedAt].  [updates] is
    given by what its fields do to a document.  The cache of the tracking
    service is left as it is. *)
Definition update (id : string) (updates : Cotizacion -> Cotizacion) (now : Z)
    (w : World) : (Thrown + unit) * World :=
  match updateDoc id (fun d => touch now (updates d)) (cotizaciones w) with
  | None => (inl (FirestoreError "not-found"), w)
  | Some store => (inr tt, {| cotizaciones := store; cache := cache w |})
  end.

(** The [updateData] that the route [PUT] of the quotes hands to
    [cotizacionService.update], as far as it holds fields of the document
    above: [titulo], [descripcion || null], [estado || 'borrador'] and, when
    the body has a client id, both client ids.  The body holds a title. *)
Definition putUpdateData (titulo_ : string) (descripcion_ : option string)
    (estado_ : option QuoteStatus) (cliente_id_ : option string) (d : Cotizacion)
    : Cotizacion :=
  let con_cliente :=
    match cliente_id_ with
    | Some c => JsString.truthy c
    | None => false
    end in
  {| numero := numero d;
     clienteId := if con_cliente then cliente_id_ else clienteId d;
     cliente_id := if con_cliente then cliente_id_ else cliente_id d;
     clienteNombre := clienteNombre d;
     titulo := Some titulo_;
     descripcion :=
       match descripcion_ with
       | Some s => if JsString.truthy s then Some s else None
       | None => None
       end;
     estado := Some (default BORRADOR estado_);
     historialCambios := historialCambios d;
     fechaEnvio := fechaEnvio d;
     fechaRevision := fechaRevision d;
     fechaAprobacion := fechaAprobacion d;
     proximoSeguimiento := proximoSeguimiento d;
     proximoSeguimientoTipo := proximoSeguimientoTipo d;
     proximoSeguimientoMensaje := proximoSeguimientoMensaje d;
     proximoSeguimientoUsuario := proximoSeguimientoUsuario d;
     proximoSeguimientoEmail := proximoSeguimientoEmail d;
     proximoSeguimientoPush := proximoSeguimientoPush d;
     proximoSeguimientoDestinatarios := proximoSeguimientoDestinatarios d;
     updatedAt := updatedAt d |}.

End CotizacionService.

(* ===================================================================== *)
(** * [UserManagementService] (UserManagementService.cjs) *)
(* ===================================================================== *)

Module UserManagementService.
Import Firestore.
Local Open Scope string_scope.

(** A document of [usuarios]. *)
Record UsuarioDoc := {
  doc_nombre : option string;
  doc_email : option string;
  doc_rol : option string;
  doc_activo : option bool;
  doc_avatar : option string;
  doc_telefono : option string;
  doc_departamento : option string;
  doc_notificacionesEmail : option bool;
  doc_notificacionesPush : option bool;
  doc_createdAt : option Timestamp;
  doc_updatedAt : option Timestamp
}.

(** The user objects that [getActiveUsers] builds. *)
Record Usuario := {
  id : string;
  nombre : string;
  email : string;
  rol : string;
  activo : bool;
  avatar : option string;
  telefono : option string;
  departamento : option string;
  notificacionesEmail : bool;
  notificacionesPush : bool;
  createdAt : Z;
  updatedAt : Z
}.

(** [x !== false]. *)
Definition not_false (x : option bool) : bool :=
  match x with Some false => false | _ => true end.

Definition str_or (s : option string) (dflt : string) : string :=
  match s with
  | Some v => if JsString.truthy v then v else dflt
  | None => dflt
  end.

Definition toUsuario (now : Z) (entry : string * UsuarioDoc) : Usuario :=
  let '(docId, data) := entry in
  {| id := docId;
     nombre := str_or (doc_nombre data) "";
     email := str_or (doc_email data) "";
     rol := str_or (doc_rol data) "usuario";
     activo := not_false (doc_activo data);
     avatar := doc_avatar data;
     telefono := doc_telefono data;
     departamento := doc_departamento data;
     notificacionesEmail := not_false (doc_notificacionesEmail data);
     notificacionesPush := not_false (doc_notificacionesPush data);
     createdAt := default now (toMillis <$> doc_createdAt data);
     updatedAt := default now (toMillis <$> doc_updatedAt data) |}.

(** [getActiveUsers()].  [snapshot] is the answer of the store to the query
    on [usuarios] ordered by [nombre], [None] when the query fails (the
    [catch] block then returns the empty list). *)
Definition getActiveUsers (now : Z) (snapshot : option (list (string * UsuarioDoc)))
    : list Usuario :=
  match snapshot with
  | None => []
  | Some docs =>
      map (toUsuario now)
        (List.filter (fun entry => not_false (doc_activo (snd entry))) docs)
  end.

(** [getEmailNotificationUsers()]. *)
Definition getEmailNotificationUsers (now : Z)
    (snapshot : option (list (string * UsuarioDoc))) : list Usuario :=
  List.filter
    (fun usuario =>
       notificacionesEmail usuario && JsString.truthy (email usuario)
       && JsString.nonblank (email usuario))
    (getActiveUsers now snapshot).

End UserManagementService.

(* ===================================================================== *)
(** * [ReminderAutomationService] (ReminderAutomationService.cjs) *)
(* ===================================================================== *)

Module ReminderAutomationService.
Import Firestore.
Local Open Scope string_scope.

(** The arguments of [RealEmailService.sendReminderEmail]. *)
Record MailRequest := {
  to : string;
  quoteNumber : option string;
  clientName : string;
  reminderMessage : string;
  reminderDate : JsDate.Date
}.

(** What a send does: resolve to [true], resolve to [false], or throw. *)
Inductive SendResult := Sent | NotSent | Threw.

(** One call of [sendReminderEmail], made while processing the quote
    [quoteId]. *)
Record SendAttempt := {
  quoteId : string;
  request : MailRequest;
  result : SendResult
}.

(** What surrounds one tick of the poller: the clock reading [now], the
    answer of the store to the query on [usuarios], the mail transport (its
    answer may depend on the attempts made so far in the tick) and the clock
    reading at the time of a write. *)
Record Env := {
  now : Z;
  usuarios : option (list (string * UserManagementService.UsuarioDoc));
  sendReminderEmail : list SendAttempt -> MailRequest -> SendResult;
  writeTime : list SendAttempt -> Z
}.

(** The state that a tick threads through its loop. *)
Record Tick := {
  store : gmap string Cotizacion;
  log : list SendAttempt;
  processedCount : nat;
  checkedCount : nat
}.

Definition str_or (s : option string) (dflt : string) : string :=
  match s with
  | Some v => if JsString.truthy v then v else dflt
  | None => dflt
  end.

Definition operator_address : string := "russofg@gmail.com".

(** [data.proximoSeguimiento && data.proximoSeguimientoEmail]. *)
Definition tiene_recordatorio (data : Cotizacion) : bool :=
  match proximoSeguimiento data, proximoSeguimientoEmail data with
  | Some _, Some true => true
  | _, _ => false
  end.

(** [new Date(data.proximoSeguimiento.seconds * 1000)]. *)
Definition fecha_recordatorio (data : Cotizacion) : JsDate.Date :=
  match proximoSeguimiento data with
  | Some ts => JsDate.ofNumber (seconds ts * 1000)
  | None => None
  end.

(** [reminderDate <= now]. *)
Definition vencido (env : Env) (data : Cotizacion) : bool :=
  match fecha_recordatorio data with
  | Some t => (t <=? now env)%Z
  | None => false
  end.

(** The recipients of a reminder. *)
Definition destinatarios (env : Env) (data : Cotizacion) : list string :=
  match proximoSeguimientoDestinatarios data with
  | Some (d :: ds) => d :: ds
  | _ =>
      let usuariosNotificacion :=
        UserManagementService.getEmailNotificationUsers (now env) (usuarios env) in
      match usuariosNotificacion with
      | [] => [operator_address]
      | _ => map UserManagementService.email usuariosNotificacion
      end
  end.

Definition mail (data : Cotizacion) (emailDestinatario : string) : MailRequest :=
  {| to := emailDestinatario;
     quoteNumber := numero data;
     clientName := str_or (clienteNombre data) "Cliente";
     reminderMessage := str_or (proximoSeguimientoMensaje data) "Recordatorio programado";
     reminderDate := fecha_recordatorio data |}.

(** The counters of the send loop, with the attempts made so far. *)
Record Envio := {
  intentos : list SendAttempt;
  emailsEnviados : nat;
  emailsFallidos : nat
}.

(** One iteration of the send loop: a [false] and a thrown error both count
    as a failure, and the loop goes on. *)
Definition enviar (env : Env) (id : string) (data : Cotizacion) (acc : Envio)
    (emailDestinatario : string) : Envio :=
  let req := mail data emailDestinatario in
  let success := sendReminderEmail env (intentos acc) req in
  let intento := {| quoteId := id; request := req; result := success |} in
  match success with
  | Sent =>
      {| intentos := intentos acc ++ [intento];
         emailsEnviados := S (emailsEnviados acc);
         emailsFallidos := emailsFallidos acc |}
  | _ =>
      {| intentos := intentos acc ++ [intento];
         emailsEnviados := emailsEnviados acc;
         emailsFallidos := S (emailsFallidos acc) |}
  end.

(** The [updateDoc] data that clears a reminder. *)
Definition limpiar (t : Z) (d : Cotizacion) : Cotizacion :=
  {| numero := numero d;
     clienteId := clienteId d;
     cliente_id := cliente_id d;
     clienteNombre := clienteNombre d;
     titulo := titulo d;
     descripcion := descripcion d;
     estado := estado d;
     historialCambios := historialCambios d;
     fechaEnvio := fechaEnvio d;
     fechaRevision := fechaRevision d;
     fechaAprobacion := fechaAprobacion d;
     proximoSeguimiento := None;
     proximoSeguimientoTipo := None;
     proximoSeguimientoMensaje := None;
     proximoSeguimientoUsuario := None;
     proximoSeguimientoEmail := Some false;
     proximoSeguimientoPush := Some false;
     proximoSeguimientoDestinatarios := proximoSeguimientoDestinatarios d;
     updatedAt := Some (fromMillis t) |}.

(** The body of the loop over [snapshot.docs]. *)
Definition procesar (env : Env) (st : Tick) (entry : string * Cotizacion) : Tick :=
  let '(id, data) := entry in
  if tiene_recordatorio data then
    if vencido env data then
      let envio :=
        foldl (enviar env id data)
          {| intentos := log st; emailsEnviados := 0; emailsFallidos := 0 |}
          (destinatarios env data) in
      if Nat.ltb 0 (emailsEnviados envio) then
        {| store :=
             default (store st)
               (updateDoc id (limpiar (writeTime env (intentos envio))) (store st));
           log := intentos envio;
           processedCount := S (processedCount st);
           checkedCount := S (checkedCount st) |}
      else
        {| store := store st;
           log := intentos envio;
           processedCount := processedCount st;
           checkedCount := S (checkedCount st) |}
    else
      {| store := store st;
         log := log st;
         processedCount := processedCount st;
         checkedCount := S (checkedCount st) |}
  else st.

(** [processReminders()]: one tick over the snapshot of the collection. *)
Definition processReminders (env : Env) (cotizaciones : gmap string Cotizacion) : Tick :=
  foldl (procesar env)
    {| store := cotizaciones; log := []; processedCount := 0; checkedCount := 0 |}
    (map_to_list cotizaciones).

(** The static fields of the service ([isRunning], [intervalId]) with, of
    the runtime, the handles of the intervals that the service has set and
    not cleared, and the next handle that [setInterval] gives; [started]
    counts the calls of [processReminders] that [start] makes itself.  A
    handle is an object of the runtime, and truthy. *)
Record Service := {
  isRunning : bool;
  intervalId : option nat;
  intervals : list nat;
  nextHandle : nat;
  started : nat
}.

(** [start()]. *)
Definition start (s : Service) : Service :=
  if isRunning s then s
  else
    {| isRunning := true;
       intervalId := Some (nextHandle s);
       intervals := nextHandle s :: intervals s;
       nextHandle := S (nextHandle s);
       started := S (started s) |}.

(** [stop()]. *)
Definition stop (s : Service) : Service :=
  if negb (isRunning s) then s
  else
    {| isRunning := false;
       intervalId := None;
       intervals :=
         match intervalId s with
         | Some handle => List.filter (fun i => negb (Nat.eqb i handle)) (intervals s)
         | None => intervals s
         end;
       nextHandle := nextHandle s;
       started := started s |}.

End ReminderAutomationService.

(* ===================================================================== *)
(** * The script [process-scheduled-reminders.mjs] *)
(* ===================================================================== *)

Module ProcessScheduledReminders.
Import Firestore.
Local Open Scope string_scope.

(** The state that the script threads through its loop. *)
Record Run := {
  store : gmap string Cotizacion;
  log : list ReminderAutomationService.SendAttempt;
  processedCount : nat
}.

(** The body of the loop over [snapshot.docs].  The test of the reminder,
    its due time, the arguments of the send but for the address, and the
    data that clears the reminder are those of the service. *)
Definition procesar (env : ReminderAutomationService.Env) (st : Run)
    (entry : string * Cotizacion) : Run :=
  let '(id, data) := entry in
  if ReminderAutomationService.tiene_recordatorio data then
    if ReminderAutomationService.vencido env data then
      let req := ReminderAutomationService.mail data "russofg@gmail.com" in
      let success := ReminderAutomationService.sendReminderEmail env (log st) req in
      let intento :=
        {| ReminderAutomationService.quoteId := id;
           ReminderAutomationService.request := req;
           ReminderAutomationService.result := success |} in
      match success with
      | ReminderAutomationService.Sent =>
          {| store :=
               default (store st)
                 (updateDoc id
                    (ReminderAutomationService.limpiar
                       (ReminderAutomationService.writeTime env (log st ++ [intento])))
                    (store st));
             log := log st ++ [intento];
             processedCount := S (processedCount st) |}
      | _ =>
          {| store := store st;
             log := log st ++ [intento];
             processedCount := processedCount st |}
      end
    else st
  else st.

(** [processScheduledReminders()]: one run over the snapshot of the
    collection. *)
Definition processScheduledReminders (env : ReminderAutomationService.Env)
    (cotizaciones : gmap string Cotizacion) : Run :=
  foldl (procesar env) {| store := cotizaciones; log := []; processedCount := 0 |}
    (map_to_list cotizaciones).

End ProcessScheduledReminders.

(* ===================================================================== *)
(** * [cleanup-and-test.cjs]: the reminder that the test script sets *)
(* ===================================================================== *)

Module CleanupAndTest.
Import Firestore.
Local Open Scope string_scope.

(** The fields that [cleanup-and-test.cjs] merges into a quote ([setDoc]
    with [merge]) to set a reminder two minutes ahead, [ahora] being the
    clock reading.  There is no recipient list among them: the script goes
    on to say "Se enviará a todos los usuarios configurados". *)
Definition recordatorioDePrueba (ahora : Z) (d : Cotizacion) : Cotizacion :=
  {| numero := numero d;
     clienteId := clienteId d;
     cliente_id := cliente_id d;
     clienteNombre := clienteNombre d;
     titulo := titulo d;
     descripcion := descripcion d;
     estado := estado d;
     historialCambios := historialCambios d;
     fechaEnvio := fechaEnvio d;
     fechaRevision := fechaRevision d;
     fechaAprobacion := fechaAprobacion d;
     proximoSeguimiento :=
       Some {| seconds := (ahora + 2 * 60 * 1000) / 1000; nanoseconds := 0 |};
     proximoSeguimientoTipo := Some "seguimiento";
     proximoSeguimientoMensaje :=
       Some ("Prueba de m" ++ String "250" "ltiples destinatarios - Recordatorio autom"
             ++ String "225" "tico");
     proximoSeguimientoUsuario := Some "Sistema de Prueba";
     proximoSeguimientoEmail := Some true;
     proximoSeguimientoPush := Some true;
     proximoSeguimientoDestinatarios := proximoSeguimientoDestinatarios d;
     updatedAt := Some (fromMillis ahora) |}.

End CleanupAndTest.

(* ===================================================================== *)
(** * Regular expressions: the patterns that the validators test *)
(* ===================================================================== *)

Module JsRegExp.

(** The body of a pattern [/^...$/]: character classes, sequences,
    alternatives and repetitions.  None of the patterns has a group that is
    referred to, a look-around or a flag. *)
Inductive Pattern :=
| Never
| Epsilon
| Class (member : ascii -> bool)
| Seq (p q : Pattern)
| Alt (p q : Pattern)
| Star (p : Pattern).

(** [p+], [p?] and [p{n}]. *)
Definition Plus (p : Pattern) : Pattern := Seq p (Star p).
Definition Opt (p : Pattern) : Pattern := Alt p Epsilon.
Fixpoint Times (n : nat) (p : Pattern) : Pattern :=
  match n with
  | O => Epsilon
  | S k => Seq p (Times k p)
  end.

(** [c] alone, [\d] as in [[0-9]], and [[^\s@]]. *)
Definition Char (c : ascii) : Pattern := Class (Ascii.eqb c).
Definition Digit : Pattern := Class JsDate.is_digit.
Definition NotSpaceNorAt : Pattern :=
  Class (fun c => negb (JsString.is_space c || Ascii.eqb c "@")).

(** Whether [p] matches the empty string. *)
Fixpoint nullable (p : Pattern) : bool :=
  match p with
  | Never => false
  | Epsilon => true
  | Class _ => false
  | Seq p q => nullable p && nullable q
  | Alt p q => nullable p || nullable q
  | Star _ => true
  end.

(** What is left of [p] to match after the character [c]. *)
Fixpoint after (c : ascii) (p : Pattern) : Pattern :=
  match p with
  | Never => Never
  | Epsilon => Never
  | Class member => if member c then Epsilon else Never
  | Seq p q =>
      if nullable p then Alt (Seq (after c p) q) (after c q)
      else Seq (after c p) q
  | Alt p q => Alt (after c p) (after c q)
  | Star p => Seq (after c p) (Star p)
  end.

(** [/^p$/.test(s)]: the whole of [s] matches [p]. *)
Fixpoint test (p : Pattern) (s : string) : bool :=
  match s with
  | EmptyString => nullable p
  | String c r => test (after c p) r
  end.

End JsRegExp.

(* ===================================================================== *)
(** * [ValidationHelper] (src/utils/validationHelpers.ts) *)
(* ===================================================================== *)

Module ValidationHelper.
Import JsDate.
Local Open Scope string_scope.

(** [interface ValidationResult], without the warnings that no validator
    below gives. *)
Record ValidationResult := {
  isValid : bool;
  errors : list string
}.

(** [{ isValid: errors.length === 0, errors }]. *)
Definition result (errors : list string) : ValidationResult :=
  {| isValid := Nat.eqb (List.length errors) 0; errors := errors |}.

(** [/^[^\s@]+@[^\s@]+\.[^\s@]+$/]. *)
Definition emailRegex : JsRegExp.Pattern :=
  JsRegExp.Seq (JsRegExp.Plus JsRegExp.NotSpaceNorAt)
    (JsRegExp.Seq (JsRegExp.Char "@")
       (JsRegExp.Seq (JsRegExp.Plus JsRegExp.NotSpaceNorAt)
          (JsRegExp.Seq (JsRegExp.Char ".") (JsRegExp.Plus JsRegExp.NotSpaceNorAt)))).

(** [validateEmail(email)]. *)
Definition validateEmail (email : string) : ValidationResult :=
  result
    (if negb (JsString.truthy email) then ["Email es obligatorio"]
     else if negb (JsRegExp.test emailRegex email)
          then ["Email no tiene un formato válido"]
          else []).

(** [validateName(name, fieldName)]. *)
Definition validateName (name : string) (fieldName : string) : ValidationResult :=
  result
    (if negb (JsString.truthy name)
        || Nat.eqb (String.length (JsString.trim name)) 0
     then [fieldName ++ " es obligatorio"]
     else if Nat.ltb (String.length (JsString.trim name)) 2
          then [fieldName ++ " debe tener al menos 2 caracteres"]
          else []).

(** [validateDateRange(startDate, endDate)]. *)
Definition validateDateRange (h : Host) (startDate endDate : JsValue)
    : ValidationResult :=
  let start := DateHelper.safeParseDate h startDate in
  let end_ := DateHelper.safeParseDate h endDate in
  let e1 := match start with None => ["Fecha de inicio no es válida"] | Some _ => [] end in
  let e2 := match end_ with None => ["Fecha de fin no es válida"] | Some _ => [] end in
  let e3 :=
    match start, end_ with
    | Some s, Some e =>
        if negb (DateHelper.validateDateRange h (VDate s) (VDate e))
        then ["La fecha de fin debe ser posterior o igual a la fecha de inicio"]
        else []
    | _, _ => []
    end in
  result (e1 ++ e2 ++ e3)%list.

(** [/^\+?[0-9]+$/]. *)
Definition phoneRegex : JsRegExp.Pattern :=
  JsRegExp.Seq (JsRegExp.Opt (JsRegExp.Char "+")) (JsRegExp.Plus JsRegExp.Digit).

(** [validatePhone(phone, fieldName)]. *)
Definition validatePhone (phone : string) (fieldName : string) : ValidationResult :=
  result
    (if JsString.truthy phone && Nat.ltb 0 (String.length (JsString.trim phone)) then
       let cleanPhone := JsString.removePhonePunctuation phone in
       if negb (JsRegExp.test phoneRegex cleanPhone)
       then [fieldName ++ " debe contener solo números y el símbolo +"]
       else if Nat.ltb (String.length cleanPhone) 8
            then [fieldName ++ " debe tener al menos 8 dígitos"]
            else []
     else []).

(** [/^[0-9]{11}$/]. *)
Definition cuitRegex : JsRegExp.Pattern := JsRegExp.Times 11 JsRegExp.Digit.

Definition multipliers : list Z := [5; 4; 3; 2; 7; 6; 5; 4; 3; 2]%Z.

(** [cleanCuit.split('').map(Number)], on a string of digits. *)
Definition digitsOf (cleanCuit : string) : list Z :=
  map digit_val (list_ascii_of_string cleanCuit).

(** The loop [for (let i = 0; i < 10; i++) sum += digits[i] * multipliers[i]];
    on eleven digits every index is within bounds. *)
Definition weightedSum (digits : list Z) : Z :=
  fold_left (fun sum i => (sum + nth i digits 0 * nth i multipliers 0)%Z) (seq 0 10) 0%Z.

(** [remainder < 2 ? remainder : 11 - remainder]. *)
Definition checkDigit (sum : Z) : Z :=
  let remainder := (sum mod 11)%Z in
  if (remainder <? 2)%Z then remainder else (11 - remainder)%Z.

(** [validateCUIT(cuit)]. *)
Definition validateCUIT (cuit : string) : ValidationResult :=
  result
    (if JsString.truthy cuit && Nat.ltb 0 (String.length (JsString.trim cuit)) then
       let cleanCuit := JsString.removeDashes cuit in
       if negb (JsRegExp.test cuitRegex cleanCuit) then ["CUIT debe tener 11 dígitos"]
       else
         let digits := digitsOf cleanCuit in
         if negb (checkDigit (weightedSum digits) =? nth 10 digits 0)%Z
         then ["CUIT no es válido (dígito verificador incorrecto)"]
         else []
     else []).

(** [sanitizeString(input)] on a string. *)
Definition sanitizeString (input : string) : string :=
  JsString.trim (JsString.removeAngles input).

End ValidationHelper.

(* ===================================================================== *)
(** * [ClienteService] (src/services/ClienteService.ts) *)
(* ===================================================================== *)

Module ClienteService.
Import Firestore.
Local Open Scope string_scope.

(** A document of [clientes]; [None] is a field that is missing. *)
Record ClienteDoc := {
  doc_nombre : option string;
  doc_empresa : option string;
  doc_email : option string;
  doc_telefono : option string;
  doc_direccion : option string;
  doc_activo : option bool;
  doc_createdAt : option Timestamp;
  doc_updatedAt : option Timestamp
}.

(** [interface Cliente]. *)
Record Cliente := {
  id : string;
  nombre : string;
  empresa : option string;
  email : string;
  telefono : option string;
  direccion : option string;
  activo : bool;
  createdAt : Z;
  updatedAt : option Z
}.

(** [ClienteCreateData] and [ClienteUpdateData], as they are at run time:
    any field may be missing. *)
Record ClienteData := {
  data_nombre : option string;
  data_empresa : option string;
  data_email : option string;
  data_telefono : option string;
  data_direccion : option string;
  data_activo : option bool
}.

(** The server's state: the collection and the cache in front of it, with
    the clients that [getById] has cached. *)
Record World := {
  clientes : gmap string ClienteDoc;
  cache : gmap string (Cache.CacheEntry Cliente)
}.

Definition str_or (s : option string) (dflt : string) : string :=
  match s with
  | Some v => if JsString.truthy v then v else dflt
  | None => dflt
  end.

(** [s || undefined]. *)
Definition or_undefined (s : option string) : option string :=
  match s with
  | Some v => if JsString.truthy v then s else None
  | None => None
  end.

(** [!!s] for an optional string. *)
Definition truthy (s : option string) : bool :=
  match s with
  | Some v => JsString.truthy v
  | None => false
  end.

(** [mapDocumentToCliente(doc)], [now] being the clock reading. *)
Definition mapDocumentToCliente (now : Z) (docId : string) (data : ClienteDoc) : Cliente :=
  {| id := docId;
     nombre := str_or (doc_nombre data) "";
     empresa := or_undefined (doc_empresa data);
     email := str_or (doc_email data) "";
     telefono := or_undefined (doc_telefono data);
     direccion := or_undefined (doc_direccion data);
     activo := match doc_activo data with Some false => false | _ => true end;
     createdAt := default now (toMillis <$> doc_createdAt data);
     updatedAt := toMillis <$> doc_updatedAt data |}.

(** [validateClienteData(data, isUpdate)]. *)
Definition validateClienteData (data : ClienteData) (isUpdate : bool)
    : ValidationHelper.ValidationResult :=
  let e1 :=
    match data_nombre data with
    | Some n => ValidationHelper.errors (ValidationHelper.validateName n "Nombre del cliente")
    | None => []
    end in
  let e2 :=
    match data_email data with
    | Some e => ValidationHelper.errors (ValidationHelper.validateEmail e)
    | None => []
    end in
  let e3 :=
    match data_telefono data with
    | Some t =>
        if Nat.ltb 0 (String.length (JsString.trim t))
        then ValidationHelper.errors (ValidationHelper.validatePhone t "Teléfono")
        else []
    | None => []
    end in
  let e4 :=
    if isUpdate then []
    else
      ((if negb (truthy (data_nombre data)) then ["Nombre es obligatorio"] else [])
       ++ (if negb (truthy (data_email data)) then ["Email es obligatorio"] else []))%list in
  ValidationHelper.result (e1 ++ e2 ++ e3 ++ e4)%list.

(** [CacheKeys.clientById(id)]. *)
Definition clientById (id : string) : string := "client" ++ ":" ++ id.

Definition requerido : QuoteTrackingService.Thrown :=
  QuoteTrackingService.Error "ID de cliente es requerido".

(** [getById(id)]; the [catch] block replaces whatever was thrown. *)
Definition getById (id : string) (now : Z) (w : World)
    : (QuoteTrackingService.Thrown + option Cliente) * World :=
  if negb (JsString.truthy id)
  then (inl (QuoteTrackingService.Error "Error al obtener el cliente"), w)
  else
    match Cache.get (clientById id) now (cache w) with
    | (Some cachedData, c) => (inr (Some cachedData), {| clientes := clientes w; cache := c |})
    | (None, c) =>
        match clientes w !! id with
        | None => (inr None, {| clientes := clientes w; cache := c |})
        | Some d =>
            let cliente := mapDocumentToCliente now id d in
            (inr (Some cliente),
             {| clientes := clientes w;
                cache := Cache.set (clientById id) cliente Cache.MEDIUM now c |})
        end
    end.

(** The answer of the store to the query [where('email', '==', value)]
    with [limit(1)]: a document whose email is [value], if there is one. *)
Definition whereEmail (value : string) (clientes : gmap string ClienteDoc)
    : option (string * ClienteDoc) :=
  List.find
    (fun entry =>
       match doc_email (snd entry) with
       | Some e => String.eqb e value
       | None => false
       end)
    (map_to_list clientes).

(** [getByEmail(email)]. *)
Definition getByEmail (email : option string) (now : Z) (w : World) : option Cliente :=
  match email with
  | Some e =>
      if negb (JsString.truthy e) then None
      else
        match whereEmail (JsString.toLowerCase e) (clientes w) with
        | Some (docId, d) => Some (mapDocumentToCliente now docId d)
        | None => None
        end
  | None => None
  end.

Definition yaExiste : QuoteTrackingService.Thrown :=
  QuoteTrackingService.Error "Ya existe un cliente con este email".

(** The data that [create] hands to [addDoc]. *)
Definition newDoc (clienteData : ClienteData) (now : Z) : ClienteDoc :=
  {| doc_nombre := data_nombre clienteData;
     doc_empresa := data_empresa clienteData;
     doc_email := data_email clienteData;
     doc_telefono := data_telefono clienteData;
     doc_direccion := data_direccion clienteData;
     doc_activo := Some (default true (data_activo clienteData));
     doc_createdAt := Some (fromMillis now);
     doc_updatedAt := Some (fromMillis now) |}.

(** [create(clienteData)]; [newId] is the id that [addDoc] gives to the new
    document. *)
Definition create (newId : string) (clienteData : ClienteData) (now : Z) (w : World)
    : (QuoteTrackingService.Thrown + Cliente) * World :=
  let validation := validateClienteData clienteData false in
  if negb (ValidationHelper.isValid validation)
  then (inl (QuoteTrackingService.Error
               (String.concat ", " (ValidationHelper.errors validation))), w)
  else
    match getByEmail (data_email clienteData) now w with
    | Some _ => (inl yaExiste, w)
    | None =>
        (inr (mapDocumentToCliente now newId (newDoc clienteData now)),
         {| clientes := <[newId := newDoc clienteData now]> (clientes w);
            cache := Cache.invalidateRelatedCache "client" (cache w) |})
    end.

(** The fields of [updates] over those of the stored document. *)
Definition merge (updates : ClienteData) (now : Z) (d : ClienteDoc) : ClienteDoc :=
  let over {A} (new old : option A) : option A :=
    match new with Some _ => new | None => old end in
  {| doc_nombre := over (data_nombre updates) (doc_nombre d);
     doc_empresa := over (data_empresa updates) (doc_empresa d);
     doc_email := over (data_email updates) (doc_email d);
     doc_telefono := over (data_telefono updates) (doc_telefono d);
     doc_direccion := over (data_direccion updates) (doc_direccion d);
     doc_activo := over (data_activo updates) (doc_activo d);
     doc_createdAt := doc_createdAt d;
     doc_updatedAt := Some (fromMillis now) |}.

(** The end of [update]: the write and the invalidation. *)
Definition write (id : string) (updates : ClienteData) (now : Z) (w : World)
    : (QuoteTrackingService.Thrown + unit) * World :=
  match clientes w !! id with
  | None => (inl (QuoteTrackingService.FirestoreError "not-found"), w)
  | Some d =>
      (inr tt,
       {| clientes := <[id := merge updates now d]> (clientes w);
          cache := Cache.invalidateRelatedCache "client" (cache w) |})
  end.

(** [update(id, updates)]. *)
Definition update (id : string) (updates : ClienteData) (now : Z) (w : World)
    : (QuoteTrackingService.Thrown + unit) * World :=
  if negb (JsString.truthy id) then (inl requerido, w)
  else
    let validation := validateClienteData updates true in
    if negb (ValidationHelper.isValid validation)
    then (inl (QuoteTrackingService.Error
                 (String.concat ", " (ValidationHelper.errors validation))), w)
    else if truthy (data_email updates) then
      match getById id now w with
      | (inl e, w1) => (inl e, w1)
      | (inr None, w1) => (inl (QuoteTrackingService.Error "Cliente no encontrado"), w1)
      | (inr (Some currentClient), w1) =>
          if negb (String.eqb (email currentClient) (str_or (data_email updates) ""))
          then
            match getByEmail (data_email updates) now w1 with
            | Some existingClient =>
                if negb (String.eqb (ClienteService.id existingClient) id) then (inl yaExiste, w1)
                else write id updates now w1
            | None => write id updates now w1
            end
          else write id updates now w1
      end
    else write id updates now w.

(** [delete(id)]: the client is marked as inactive. *)
Definition delete (id : string) (now : Z) (w : World)
    : (QuoteTrackingService.Thrown + unit) * World :=
  if negb (JsString.truthy id) then (inl requerido, w)
  else
    update id
      {| data_nombre := None; data_empresa := None; data_email := None;
         data_telefono := None; data_direccion := None; data_activo := Some false |}
      now w.

(** [deletePermanently(id)]. *)
Definition deletePermanently (id : string) (w : World)
    : (QuoteTrackingService.Thrown + unit) * World :=
  if negb (JsString.truthy id) then (inl requerido, w)
  else (inr tt, {| clientes := base.delete id (clientes w); cache := cache w |}).

End ClienteService.

(* ===================================================================== *)
(** * Specification vocabulary

    The notions that the statements below are written with, and the
    concrete inputs that the examples run on. *)
(* ===================================================================== *)

Module Spec.
Import JsDate.
Local Open Scope Z_scope.

(** ** Calendar *)

Definition leapOf (y : Z) : Z := if DaysInYear y =? 366 then 1 else 0.

(** Number of days of month [m] (0..11). *)
Definition daysInMonth (m leap : Z) : Z :=
  match m with
  | 1 => 28 + leap
  | 3 | 5 | 8 | 10 => 30
  | _ => 31
  end.

(** ** Strings *)

(** [s] contains [sub]: some characters, then [sub], then the rest. *)
Definition contains (sub s : string) : Prop :=
  exists pre post, s = (pre ++ sub ++ post)%string.

(** ** The transition table of the specification *)

Import Firestore.

Inductive allowed : QuoteStatus -> QuoteStatus -> Prop :=
| draft_sent : allowed BORRADOR ENVIADA
| draft_rejected : allowed BORRADOR RECHAZADA
| sent_reviewed : allowed ENVIADA REVISADA
| sent_rejected : allowed ENVIADA RECHAZADA
| sent_expired : allowed ENVIADA VENCIDA
| reviewed_approved : allowed REVISADA APROBADA
| reviewed_rejected : allowed REVISADA RECHAZADA
| reviewed_expired : allowed REVISADA VENCIDA
| approved_converted : allowed APROBADA CONVERTIDA
| rejected_draft : allowed RECHAZADA BORRADOR
| expired_draft : allowed VENCIDA BORRADOR.

(** ** The reminder poller *)

Import UserManagementService ReminderAutomationService.

(** The attempts of a log made for the quote [id]. *)
Definition attempts_for (id : string) (l : list SendAttempt) : list SendAttempt :=
  filter (fun a => quoteId a = id) l.

(** The attempts that the send loop adds to the log [l], one for each
    recipient, in order. *)
Fixpoint nuevos (env : Env) (id : string) (data : Cotizacion)
    (l : list SendAttempt) (dests : list string) : list SendAttempt :=
  match dests with
  | [] => []
  | d :: ds =>
      let a := {| quoteId := id; request := mail data d;
                  result := sendReminderEmail env l (mail data d) |} in
      a :: nuevos env id data (l ++ [a]) ds
  end.

(** The attempts that the loop body adds for one document. *)
Definition paso (env : Env) (id : string) (data : Cotizacion)
    (l : list SendAttempt) : list SendAttempt :=
  if tiene_recordatorio data && vencido env data
  then nuevos env id data l (destinatarios env data) else [].

Definition algun_enviado (l : list SendAttempt) : bool :=
  existsb (fun a => match result a with Sent => true | _ => false end) l.

(** A stored user is notified by email: not deactivated, not opted out, and
    with an email that is more than white space. *)
Definition recibe_email (u : UsuarioDoc) : bool :=
  not_false (doc_activo u) && not_false (doc_notificacionesEmail u)
  && match doc_email u with Some e => JsString.nonblank e | None => false end.

(** The addresses of the users that are notified by email, in the order of
    the query. *)
Definition emails_notificados (snapshot : option (list (string * UsuarioDoc)))
    : list string :=
  match snapshot with
  | None => []
  | Some docs =>
      omap (fun entry => if recibe_email (snd entry) then doc_email (snd entry) else None)
        docs
  end.

(** The logs of the ticks run one after the other in the environments
    [envs], each on the store that the previous one left. *)
Fixpoint ticks (envs : list Env) (cotizaciones : gmap string Cotizacion)
    : list (list SendAttempt) :=
  match envs with
  | [] => []
  | env :: rest =>
      let t := processReminders env cotizaciones in
      log t :: ticks rest (store t)
  end.

(** The reminder fields that the poller clears: due time, type, message,
    channel flags and actor. *)
Definition recordatorio_limpio (d : Cotizacion) : Prop :=
  proximoSeguimiento d = None
  /\ proximoSeguimientoTipo d = None
  /\ proximoSeguimientoMensaje d = None
  /\ proximoSeguimientoEmail d = Some false
  /\ proximoSeguimientoPush d = Some false
  /\ proximoSeguimientoUsuario d = None.

(** The recipient list is cleared: absent or empty. *)
Definition destinatarios_limpios (d : Cotizacion) : Prop :=
  proximoSeguimientoDestinatarios d = None
  \/ proximoSeguimientoDestinatarios d = Some [].

(** ** Calendar dates in text *)

(** [s] is a string [YYYY-MM-DD] that names a day of the calendar. *)
Definition is_calendar_date (s : string) : Prop :=
  matches_ymd s = true
  /\ 1 <= field 5 2 s <= 12
  /\ 1 <= field 8 2 s <= daysInMonth (field 5 2 s - 1) (leapOf (field 0 4 s)).

(** The largest time value of a [Date]. *)
Definition maxTime : Z := 8640000000000000.

(** The local day number of a time value. *)
Definition localDay (h : Host) (t : Z) : Z := Day (LocalTime h t).

(** The character of a decimal digit. *)
Definition digit_char (n : Z) : ascii := ascii_of_nat (Z.to_nat (48 + n)).

Definition digits : list Z := [0; 1; 2; 3; 4; 5; 6; 7; 8; 9].

(** [String(n)] is the four digits of [n], and
    [String(n).padStart(2, '0')] the two digits of [n]. *)
Definition four_digits_printed (a b c d : Z) : bool :=
  String.eqb (JsString.ofZ (1000 * a + 100 * b + 10 * c + d))
    (String (digit_char a) (String (digit_char b)
       (String (digit_char c) (String (digit_char d) EmptyString)))).

Definition two_digits_printed (a b : Z) : bool :=
  String.eqb (JsString.padStart2 (JsString.ofZ (10 * a + b)))
    (String (digit_char a) (String (digit_char b) EmptyString)).

(** The text [YYYY-MM-DD] and the text [DD/MM/YYYY] with the given
    digits. *)
Definition ymd_text (y1 y2 y3 y4 m1 m2 d1 d2 : Z) : string :=
  String (digit_char y1) (String (digit_char y2) (String (digit_char y3)
    (String (digit_char y4) (String "-" (String (digit_char m1)
      (String (digit_char m2) (String "-" (String (digit_char d1)
        (String (digit_char d2) EmptyString))))))))).

Definition dmy_text (y1 y2 y3 y4 m1 m2 d1 d2 : Z) : string :=
  String (digit_char d1) (String (digit_char d2) (String "/"
    (String (digit_char m1) (String (digit_char m2) (String "/"
      (String (digit_char y1) (String (digit_char y2) (String (digit_char y3)
        (String (digit_char y4) EmptyString))))))))).

(** [DD/MM/YYYY] from [YYYY-MM-DD]. *)
Definition ymd_to_dmy (s : string) : string :=
  (substring 8 2 s ++ "/" ++ substring 5 2 s ++ "/" ++ substring 0 4 s)%string.

(** The day number of the calendar date that [s] names. *)
Definition dayNumber (s : string) : Z :=
  MakeDay (field 0 4 s) (field 5 2 s - 1) (field 8 2 s).

(** ** Field aliases *)

(** Two aliases [a] and [b] of one field, before, and [a'] and [b'] after:
    a value that was there is kept, the two are there or missing together
    afterwards, and they are equal unless both were there before. *)
Definition mirrored {A : Type} (truthy : A -> bool) (a b a' b' : A) : Prop :=
  (truthy a = true -> a' = a)
  /\ (truthy b = true -> b' = b)
  /\ truthy a' = truthy b'
  /\ (truthy a = false \/ truthy b = false -> truthy a' = true -> a' = b')
  /\ (truthy a = false -> truthy b = false -> a' = a /\ b' = b).

(** ** Patterns *)

(** Every character of [s] is in the class [member]. *)
Fixpoint all_chars (member : ascii -> bool) (s : string) : bool :=
  match s with
  | EmptyString => true
  | String c r => member c && all_chars member r
  end.

(** The number of characters of [s] that are in the class [member]. *)
Fixpoint count_chars (member : ascii -> bool) (s : string) : nat :=
  match s with
  | EmptyString => O
  | String c r => (if member c then 1 else 0) + count_chars member r
  end.

(** ** Amounts *)

(** The rational that a finite number stands for: [(-1)^s * m * 2^e]. *)
Definition exact (x : float) : option Q :=
  match Prim2SF x with
  | S754_zero _ => Some 0%Q
  | S754_finite s m e =>
      Some ((if s then - inject_Z (Z.pos m) else inject_Z (Z.pos m)) * 2 ^ e)%Q
  | _ => None
  end.

(** The closest integer to [v], a tie going towards +infinity. *)
Definition nearest (v : Q) : Z := Qfloor (v + (1 # 2)).

(** The number [c] stands for the integer [n]. *)
Definition stands_for (c : float) (n : Z) : Prop :=
  exists w, exact c = Some w /\ (w == inject_Z n)%Q.

(** [f] is [n] cents: the quotient by 100 of a number that stands for [n]. *)
Definition is_cents (n : Z) (f : float) : Prop :=
  exists c, stands_for c n /\ f = (c / 100)%float.

(** ** The rounding of the numbers *)

(** [X] lies from [m] to [m + 1], at the place that the round bit [r] and
    the sticky bit [s] tell: at [m], below the middle, at the middle or
    above it. *)
Definition between (m : Z) (r s : bool) (X : Q) : Prop :=
  match r, s with
  | false, false => (X == inject_Z m)%Q
  | false, true => (inject_Z m < X /\ X < inject_Z m + (1 # 2))%Q
  | true, false => (X == inject_Z m + (1 # 2))%Q
  | true, true => (inject_Z m + (1 # 2) < X /\ X < inject_Z m + 1)%Q
  end.

(** The same for a location: [X] lies from [m] to [m + 1] at [l]. *)
Definition located (m : Z) (l : location) (X : Q) : Prop :=
  between m (shr_r (shr_record_of_loc m l)) (shr_s (shr_record_of_loc m l)) X.

(** [2^-k], for [k >= 0]. *)
Definition half_pow (k : Z) : Q := 1 # Z.to_pos (2 ^ k).

(** The rational that a number of the format stands for. *)
Definition sf_exact (x : spec_float) : option Q :=
  match x with
  | S754_zero _ => Some 0%Q
  | S754_finite s m e =>
      Some ((if s then - inject_Z (Z.pos m) else inject_Z (Z.pos m)) * 2 ^ e)%Q
  | _ => None
  end.

(** [v] with the sign [s]. *)
Definition signed (s : bool) (v : Q) : Q := if s then (- v)%Q else v.

(** The bound on the error of one rounding of a value of size [M]. *)
Definition rounding_error (M : Q) : Q := (2 ^ (-53) * M + 2 ^ (-1075))%Q.

(** ** Quote numbers *)

(** No character of [s] is the letter [m], the first of the marker. *)
Definition without_m (s : string) : bool :=
  all_chars (fun c => negb (Ascii.eqb c "m")) s.

(** The quote [q] without its number. *)
Definition unnumbered (q : QuoteHelper.Quote) : QuoteHelper.Quote :=
  {| QuoteHelper.numero := None;
     QuoteHelper.titulo := QuoteHelper.titulo q;
     QuoteHelper.created_at := QuoteHelper.created_at q;
     QuoteHelper.createdAt := QuoteHelper.createdAt q |}.

(** The strings that a pattern matches. *)
Inductive Matches : JsRegExp.Pattern -> string -> Prop :=
| matches_epsilon : Matches JsRegExp.Epsilon EmptyString
| matches_class member c :
    member c = true -> Matches (JsRegExp.Class member) (String c EmptyString)
| matches_seq p q s1 s2 :
    Matches p s1 -> Matches q s2 -> Matches (JsRegExp.Seq p q) (s1 ++ s2)%string
| matches_alt_l p q s : Matches p s -> Matches (JsRegExp.Alt p q) s
| matches_alt_r p q s : Matches q s -> Matches (JsRegExp.Alt p q) s
| matches_star_nil p : Matches (JsRegExp.Star p) EmptyString
| matches_star_cons p s1 s2 :
    Matches p s1 -> Matches (JsRegExp.Star p) s2 ->
    Matches (JsRegExp.Star p) (s1 ++ s2)%string.

(** A part of an email address: not empty, without white space or [@]. *)
Definition email_part (s : string) : Prop :=
  s <> EmptyString
  /\ all_chars (fun c => negb (JsString.is_space c || Ascii.eqb c "@")) s = true.

(** ** CUIT *)

(** [s] with its character at position [i] replaced by [c]. *)
Fixpoint replaceAt (i : nat) (c : ascii) (s : string) {struct s} : string :=
  match s, i with
  | EmptyString, _ => EmptyString
  | String _ r, O => String c r
  | String a r, S k => String a (replaceAt k c r)
  end.

(** ** The tracking service and its cache *)

(** The cache is coherent with the collection: what it holds for a quote is
    what the stored document maps to. *)
Definition coherent (w : QuoteTrackingService.World) : Prop :=
  forall id e,
    QuoteTrackingService.cache w !! QuoteTrackingService.cacheKey id = Some e ->
    exists d,
      QuoteTrackingService.cotizaciones w !! id = Some d
      /\ Cache.data e = QuoteTrackingService.mapDocumentToQuoteTracking id d.

(** The status of a stored quote, a missing status being read as draft. *)
Definition stored_status (w : QuoteTrackingService.World) (id : string)
    : option QuoteStatus :=
  (fun d => default BORRADOR (estado d)) <$> QuoteTrackingService.cotizaciones w !! id.

(** The state after the quote [id] is loaded at [t0] and then edited at
    [t1] through [cotizacionService.update]. *)
Definition after_edit (id : string) (updates : Cotizacion -> Cotizacion)
    (t0 t1 : Z) (w : QuoteTrackingService.World) : QuoteTrackingService.World :=
  snd (CotizacionService.update id updates t1 (snd (QuoteTrackingService.getByIdWithTracking id t0 w))).

(** A call of the service. *)
Inductive Call :=
| GetById (id : string) (now : Z)
| UpdateStatus (id : string) (nuevoEstado : QuoteStatus)
    (comentario usuario : option string) (now : Z)
| ScheduleReminder (quoteId tipo : string) (fecha_ : Z) (mensaje : string)
    (sendEmail sendPush : bool) (userName : string) (userEmail : option string)
    (recipients : list string) (now : Z)
| DeleteReminder (quoteId reminderId : string) (now : Z).

(** The state that a call leaves, whether it returns or throws. *)
Definition after_call (w : QuoteTrackingService.World) (c : Call)
    : QuoteTrackingService.World :=
  match c with
  | GetById id now => snd (QuoteTrackingService.getByIdWithTracking id now w)
  | UpdateStatus id nuevoEstado comentario usuario now =>
      snd (QuoteTrackingService.updateStatus id nuevoEstado comentario usuario now w)
  | ScheduleReminder quoteId tipo fecha_ mensaje sendEmail sendPush userName userEmail
      recipients now =>
      snd (QuoteTrackingService.scheduleReminder quoteId tipo fecha_ mensaje sendEmail
             sendPush userName userEmail recipients now w)
  | DeleteReminder quoteId reminderId now =>
      snd (QuoteTrackingService.deleteReminder quoteId reminderId now w)
  end.

Definition after_calls (w : QuoteTrackingService.World) (calls : list Call)
    : QuoteTrackingService.World :=
  foldl after_call w calls.

(** ** What a tick may change *)

(** [d'] is [d] but for the reminder and the time of the update. *)
Definition same_but_reminder (d d' : Cotizacion) : Prop :=
  numero d' = numero d
  /\ clienteId d' = clienteId d
  /\ cliente_id d' = cliente_id d
  /\ clienteNombre d' = clienteNombre d
  /\ titulo d' = titulo d
  /\ descripcion d' = descripcion d
  /\ estado d' = estado d
  /\ historialCambios d' = historialCambios d
  /\ fechaEnvio d' = fechaEnvio d
  /\ fechaRevision d' = fechaRevision d
  /\ fechaAprobacion d' = fechaAprobacion d
  /\ proximoSeguimientoDestinatarios d' = proximoSeguimientoDestinatarios d.

(** ** Starting and stopping the poller *)

Inductive Command := Start | Stop.

Definition obey (s : Service) (c : Command) : Service :=
  match c with
  | Start => start s
  | Stop => stop s
  end.

(** The service as the module leaves it when it is loaded. *)
Definition loaded (handle : nat) : Service :=
  {| isRunning := false; intervalId := None; intervals := [];
     nextHandle := handle; started := 0 |}.

(** What holds of the service between calls: it runs exactly when it holds
    the handle of an interval, this interval is the only one that is set,
    and handles are not given twice. *)
Definition settled (s : Service) : Prop :=
  match intervalId s with
  | Some handle =>
      isRunning s = true /\ intervals s = [handle] /\ (handle < nextHandle s)%nat
  | None => isRunning s = false /\ intervals s = []
  end.

(** ** The script and the service *)

(** The quote [d] with the operator as the only recipient of its
    reminder. *)
Definition solo_operador (d : Cotizacion) : Cotizacion :=
  {| numero := numero d;
     clienteId := clienteId d;
     cliente_id := cliente_id d;
     clienteNombre := clienteNombre d;
     titulo := titulo d;
     descripcion := descripcion d;
     estado := estado d;
     historialCambios := historialCambios d;
     fechaEnvio := fechaEnvio d;
     fechaRevision := fechaRevision d;
     fechaAprobacion := fechaAprobacion d;
     proximoSeguimiento := proximoSeguimiento d;
     proximoSeguimientoTipo := proximoSeguimientoTipo d;
     proximoSeguimientoMensaje := proximoSeguimientoMensaje d;
     proximoSeguimientoUsuario := proximoSeguimientoUsuario d;
     proximoSeguimientoEmail := proximoSeguimientoEmail d;
     proximoSeguimientoPush := proximoSeguimientoPush d;
     proximoSeguimientoDestinatarios := Some [operator_address];
     Firestore.updatedAt := Firestore.updatedAt d |}.

Definition al_operador (entry : string * Cotizacion) : string * Cotizacion :=
  (fst entry, solo_operador (snd entry)).

(** The state of a tick of the service, as a state of the script. *)
Definition as_run (t : Tick) : ProcessScheduledReminders.Run :=
  {| ProcessScheduledReminders.store := store t;
     ProcessScheduledReminders.log := log t;
     ProcessScheduledReminders.processedCount := processedCount t |}.

(** ** Clients *)

(** No two stored clients have the same email. *)
Definition emails_unique (m : gmap string ClienteService.ClienteDoc) : Prop :=
  forall i j d d' e,
    m !! i = Some d -> m !! j = Some d' ->
    ClienteService.doc_email d = Some e -> ClienteService.doc_email d' = Some e ->
    i = j.

(** The stored emails are in lower case. *)
Definition emails_lowercase (m : gmap string ClienteService.ClienteDoc) : Prop :=
  forall i d e,
    m !! i = Some d -> ClienteService.doc_email d = Some e ->
    JsString.toLowerCase e = e.

End Spec.

Module Examples.
Import Firestore.
Local Open Scope string_scope.

(** A host three hours behind UTC, and one fourteen hours ahead. *)
Definition buenos_aires : JsDate.Host :=
  {| JsDate.tza := -3 * 3600000; JsDate.implParse := fun _ => None |}.
Definition kiritimati : JsDate.Host :=
  {| JsDate.tza := 14 * 3600000; JsDate.implParse := fun _ => None |}.

(** 2024-03-05T12:00:00Z. *)
Definition a_clock_reading : Z := 1709640000000.

Definition item (q p : float) : QuoteHelper.QuoteItem :=
  {| QuoteHelper.cantidad := Some q;
     QuoteHelper.precio_unitario := Some p;
     QuoteHelper.precioBase := None |}.

Definition numbered (n : string) : QuoteHelper.Quote :=
  {| QuoteHelper.numero := Some n;
     QuoteHelper.titulo := Some "Gala Anual";
     QuoteHelper.created_at := VString "2024-03-05";
     QuoteHelper.createdAt := VUndefined |}.

(** A quote without number whose creation date cannot be read:
    [toISOString] throws on the invalid date. *)
Definition sin_fecha : QuoteHelper.Quote :=
  {| QuoteHelper.numero := None;
     QuoteHelper.titulo := Some "Gala Anual";
     QuoteHelper.created_at := VString "pronto";
     QuoteHelper.createdAt := VUndefined |}.

(** A quote in draft, with an empty history and no reminder. *)
Definition borrador : Cotizacion :=
  {| numero := Some "COT-001-20240305-ACMECORP-GALAANUAL";
     clienteId := Some "c1";
     cliente_id := None;
     clienteNombre := Some "Acme Corp";
     titulo := Some "Gala Anual";
     descripcion := None;
     estado := Some BORRADOR;
     historialCambios := Some [];
     fechaEnvio := None;
     fechaRevision := None;
     fechaAprobacion := None;
     proximoSeguimiento := None;
     proximoSeguimientoTipo := None;
     proximoSeguimientoMensaje := None;
     proximoSeguimientoUsuario := None;
     proximoSeguimientoEmail := None;
     proximoSeguimientoPush := None;
     proximoSeguimientoDestinatarios := None;
     updatedAt := None |}.

Definition mundo : QuoteTrackingService.World :=
  {| QuoteTrackingService.cotizaciones := {[ "q1" := borrador ]};
     QuoteTrackingService.cache := ∅ |}.

(** The same quote with a reminder due at second 100, for three
    recipients. *)
Definition con_recordatorio : Cotizacion :=
  {| numero := numero borrador;
     clienteId := clienteId borrador;
     cliente_id := None;
     clienteNombre := clienteNombre borrador;
     titulo := titulo borrador;
     descripcion := None;
     estado := estado borrador;
     historialCambios := historialCambios borrador;
     fechaEnvio := None;
     fechaRevision := None;
     fechaAprobacion := None;
     proximoSeguimiento := Some {| seconds := 100; nanoseconds := 0 |};
     proximoSeguimientoTipo := Some "seguimiento";
     proximoSeguimientoMensaje := Some "Llamar al cliente";
     proximoSeguimientoUsuario := Some "Ana";
     proximoSeguimientoEmail := Some true;
     proximoSeguimientoPush := Some false;
     proximoSeguimientoDestinatarios := Some ["a@bls.com"; "b@bls.com"; "c@bls.com"];
     updatedAt := None |}.

Definition coleccion : gmap string Cotizacion := {[ "q1" := con_recordatorio ]}.

(** The quote with its reminder, but without a recipient list. *)
Definition sin_lista : Cotizacion :=
  {| numero := numero borrador;
     clienteId := clienteId borrador;
     cliente_id := None;
     clienteNombre := clienteNombre borrador;
     titulo := titulo borrador;
     descripcion := None;
     estado := estado borrador;
     historialCambios := historialCambios borrador;
     fechaEnvio := None;
     fechaRevision := None;
     fechaAprobacion := None;
     proximoSeguimiento := Some {| seconds := 100; nanoseconds := 0 |};
     proximoSeguimientoTipo := Some "seguimiento";
     proximoSeguimientoMensaje := Some "Llamar al cliente";
     proximoSeguimientoUsuario := Some "Ana";
     proximoSeguimientoEmail := Some true;
     proximoSeguimientoPush := Some false;
     proximoSeguimientoDestinatarios := Some [];
     updatedAt := None |}.

Definition usuario (email_ : option string) (activo_ notif : option bool) : UserManagementService.UsuarioDoc :=
  {| UserManagementService.doc_nombre := Some "Ana";
     UserManagementService.doc_email := email_;
     UserManagementService.doc_rol := None;
     UserManagementService.doc_activo := activo_;
     UserManagementService.doc_avatar := None;
     UserManagementService.doc_telefono := None;
     UserManagementService.doc_departamento := None;
     UserManagementService.doc_notificacionesEmail := notif;
     UserManagementService.doc_notificacionesPush := None;
     UserManagementService.doc_createdAt := None;
     UserManagementService.doc_updatedAt := None |}.


Import ReminderAutomationService.

(** A tick at second 200 in which the send to the second recipient fails. *)
Definition falla_el_segundo : Env :=
  {| now := 200000;
     usuarios := Some [];
     sendReminderEmail :=
       fun _ req => if String.eqb (to req) "b@bls.com" then NotSent else Sent;
     writeTime := fun _ => 200001%Z |}.

(** A tick at second 200 in which every send fails, by [false] or by a
    thrown error. *)
Definition fallan_todos : Env :=
  {| now := 200000;
     usuarios := Some [];
     sendReminderEmail :=
       fun _ req => if String.eqb (to req) "b@bls.com" then Threw else NotSent;
     writeTime := fun _ => 200001%Z |}.

(** The tick after it, a minute later, with a transport that works. *)
Definition un_minuto_despues : Env :=
  {| now := 260000;
     usuarios := Some [];
     sendReminderEmail := fun _ _ => Sent;
     writeTime := fun _ => 260001%Z |}.

(** A tick with four stored users and a transport that works. *)
Definition con_usuarios : Env :=
  {| now := 200000;
     usuarios :=
       Some [("u1", usuario (Some "ana@bls.com") None None);
             ("u2", usuario (Some "luis@bls.com") (Some false) None);
             ("u3", usuario (Some "eva@bls.com") (Some true) (Some false));
             ("u4", usuario (Some "   ") (Some true) (Some true))];
     sendReminderEmail := fun _ _ => Sent;
     writeTime := fun _ => 200001%Z |}.

(** A tick at second 500, with the same users and a transport that
    works. *)
Definition tras_la_prueba : Env :=
  {| now := 500000;
     usuarios := usuarios con_usuarios;
     sendReminderEmail := fun _ _ => Sent;
     writeTime := fun _ => 500001%Z |}.

(** An event of five days from 24 June 2024, without an end date. *)
Definition cinco_dias : QuoteData.Quote :=
  {| QuoteData.cliente_id := Some "c1";
     QuoteData.clienteId := None;
     QuoteData.titulo := Some "Gala Anual";
     QuoteData.fecha_evento := VString "2024-06-24";
     QuoteData.fechaEvento := VUndefined;
     QuoteData.fecha_evento_fin := VUndefined;
     QuoteData.fechaEventoFin := VUndefined;
     QuoteData.duracion_dias := Some 5%Z;
     QuoteData.items := QuoteData.NoItems;
     QuoteData.created_at := VUndefined;
     QuoteData.createdAt := VUndefined |}.

(** The quote of [borrador], converted; and a state in which the cache
    still holds the quote as a draft. *)
Definition convertida : Cotizacion :=
  QuoteTrackingService.statusUpdate CONVERTIDA 500 borrador.

(** The data of a [PUT] that marks the quote as converted. *)
Definition editada : Cotizacion -> Cotizacion :=
  CotizacionService.putUpdateData "Gala Anual" None (Some CONVERTIDA) None.

Definition mundo_desfasado : QuoteTrackingService.World :=
  {| QuoteTrackingService.cotizaciones := {[ "q1" := convertida ]};
     QuoteTrackingService.cache :=
       {[ QuoteTrackingService.cacheKey "q1" :=
            {| Cache.data := QuoteTrackingService.mapDocumentToQuoteTracking "q1" borrador;
               Cache.timestamp := 0;
               Cache.ttl := QuoteTrackingService.CACHE_TTL |} ]} |}.

(** No client yet; a client, with the email in lower case and with a
    capital letter; and a state in which [getById] has just cached the
    client. *)
Definition sin_clientes : ClienteService.World :=
  {| ClienteService.clientes := ∅; ClienteService.cache := ∅ |}.

Definition ana : ClienteService.ClienteData :=
  {| ClienteService.data_nombre := Some "Ana Pérez";
     ClienteService.data_empresa := Some "BLS";
     ClienteService.data_email := Some "ana@bls.com";
     ClienteService.data_telefono := None;
     ClienteService.data_direccion := None;
     ClienteService.data_activo := None |}.

Definition ana_mayuscula : ClienteService.ClienteData :=
  {| ClienteService.data_nombre := Some "Ana Pérez";
     ClienteService.data_empresa := Some "BLS";
     ClienteService.data_email := Some "Ana@bls.com";
     ClienteService.data_telefono := None;
     ClienteService.data_direccion := None;
     ClienteService.data_activo := None |}.

Definition con_cliente_en_cache : ClienteService.World :=
  snd (ClienteService.getById "c1" 1500
         (snd (ClienteService.create "c1" ana 1000 sin_clientes))).

End Examples.

(* ===================================================================== *)
(** * Facts about time values *)
(* ===================================================================== *)

Module JsDateFacts.
Import JsDate Spec.
Local Open Scope Z_scope.

Lemma DaysInYear_cases y :
  (DaysInYear y = 365 /\ leapOf y = 0) \/ (DaysInYear y = 366 /\ leapOf y = 1).
Proof.
  unfold leapOf, DaysInYear.
  destruct (y mod 4 =? 0), (y mod 100 =? 0), (y mod 400 =? 0); cbn; auto.
Qed.

Lemma DayFromYear_succ y : DayFromYear (y + 1) = DayFromYear y + DaysInYear y.
Proof.
  unfold DayFromYear, DaysInYear.
  destruct (Z.eqb_spec (y mod 4) 0), (Z.eqb_spec (y mod 100) 0),
    (Z.eqb_spec (y mod 400) 0); cbn [negb];
    Z.to_euclidean_division_equations; lia.
Qed.

Lemma DayFromYear_mono y1 y2 : y1 <= y2 -> DayFromYear y1 <= DayFromYear y2.
Proof. unfold DayFromYear. Z.to_euclidean_division_equations; lia. Qed.

Lemma YearFromDay_estimate d :
  DayFromYear (1970 + d * 400 / 146097 - 1) <= d
  < DayFromYear (1970 + d * 400 / 146097 + 2).
Proof. unfold DayFromYear. Z.to_euclidean_division_equations; lia. Qed.

(** [YearFromTime] is the year of ECMA-262: the year whose days contain
    the day of [t]. *)
Lemma YearFromTime_spec t :
  DayFromYear (YearFromTime t) <= Day t < DayFromYear (YearFromTime t + 1).
Proof.
  unfold YearFromTime. pose proof (YearFromDay_estimate (Day t)) as H.
  set (y := 1970 + Day t * 400 / 146097) in *.
  replace (y + 2) with (y + 1 + 1) in H by lia.
  destruct (Z.ltb_spec (Day t) (DayFromYear y)).
  - replace (y - 1 + 1) with y by lia. lia.
  - destruct (Z.leb_spec (DayFromYear (y + 1)) (Day t)); lia.
Qed.

Lemma YearFromTime_unique t y :
  DayFromYear y <= Day t < DayFromYear (y + 1) -> YearFromTime t = y.
Proof.
  intros Hy. pose proof (YearFromTime_spec t) as Hs.
  destruct (Z.lt_trichotomy (YearFromTime t) y) as [Hlt|[Heq|Hgt]]; [|done|].
  - pose proof (DayFromYear_mono (YearFromTime t + 1) y). lia.
  - pose proof (DayFromYear_mono (y + 1) (YearFromTime t)). lia.
Qed.

Lemma Day_MakeDate day time :
  0 <= time < msPerDay -> Day (MakeDate day time) = day.
Proof.
  unfold Day, MakeDate, msPerDay. intros H.
  Z.to_euclidean_division_equations; lia.
Qed.

Lemma MakeDay_in_year y m d :
  0 <= m <= 11 ->
  MakeDay y m d = DayFromYear y + monthStart m (leapOf y) + d - 1.
Proof.
  intros Hm. unfold MakeDay. fold (leapOf (y + m / 12)).
  rewrite (Z.div_small m 12), (Z.mod_small m 12), Z.add_0_r by lia. done.
Qed.

(** The calendar fields of a time built from a calendar date are that date. *)
Lemma civil_fields y m d time :
  0 <= m <= 11 -> 1 <= d <= daysInMonth m (leapOf y) -> 0 <= time < msPerDay ->
  YearFromTime (MakeDate (MakeDay y m d) time) = y
  /\ MonthFromTime (MakeDate (MakeDay y m d) time) = m
  /\ DateFromTime (MakeDate (MakeDay y m d) time) = d.
Proof.
  intros Hm Hd Ht.
  set (t := MakeDate (MakeDay y m d) time).
  assert (Day t = DayFromYear y + monthStart m (leapOf y) + d - 1) as Hday.
  { unfold t. by rewrite Day_MakeDate, MakeDay_in_year. }
  assert (0 <= monthStart m (leapOf y) + d - 1 < DaysInYear y) as Hin.
  { destruct (DaysInYear_cases y) as [[-> Hl]|[-> Hl]]; rewrite Hl in *;
      assert (m = 0 \/ m = 1 \/ m = 2 \/ m = 3 \/ m = 4 \/ m = 5 \/ m = 6 \/ m = 7
              \/ m = 8 \/ m = 9 \/ m = 10 \/ m = 11) as Hcases by lia;
      repeat (destruct Hcases as [->|Hcases]); try subst m;
      cbn in Hd |- *; lia. }
  assert (YearFromTime t = y) as Hy.
  { apply YearFromTime_unique. rewrite DayFromYear_succ. lia. }
  assert (DayWithinYear t = monthStart m (leapOf y) + d - 1) as Hdw.
  { unfold DayWithinYear. rewrite Hy. lia. }
  assert (InLeapYear t = leapOf y) as Hl.
  { unfold InLeapYear. by rewrite Hy. }
  split; [done|].
  unfold DateFromTime, MonthFromTime. rewrite Hdw, Hl. clear Hdw Hl Hy Hday t Ht.
  destruct (DaysInYear_cases y) as [[_ Hl]|[_ Hl]]; rewrite Hl in *; clear Hl;
    assert (m = 0 \/ m = 1 \/ m = 2 \/ m = 3 \/ m = 4 \/ m = 5 \/ m = 6 \/ m = 7
            \/ m = 8 \/ m = 9 \/ m = 10 \/ m = 11) as Hcases by lia;
    repeat (destruct Hcases as [->|Hcases]); try subst m;
    cbn in Hd, Hin |- *;
    repeat match goal with
      | |- context [?a <? ?b] => destruct (Z.ltb_spec a b); try lia
      end; split; lia.
Qed.

Lemma HourFromTime_MakeDate day hh :
  0 <= hh <= 23 -> HourFromTime (MakeDate day (MakeTime hh 0 0 0)) = hh.
Proof.
  intros H. unfold HourFromTime, MakeDate, MakeTime, msPerDay, msPerHour,
    msPerMinute, msPerSecond.
  Z.to_euclidean_division_equations; lia.
Qed.

End JsDateFacts.

(* ===================================================================== *)
(** * [DateHelper]: parsing and durations *)
(* ===================================================================== *)

Module DateHelperFacts.
Import JsDate Spec JsDateFacts DateHelper.
Local Open Scope Z_scope.

Lemma is_digit_val c : is_digit c = true -> 0 <= digit_val c <= 9.
Proof. unfold is_digit, digit_val. lia. Qed.

Lemma length10 (s : string) :
  String.length s = 10%nat ->
  exists c0 c1 c2 c3 c4 c5 c6 c7 c8 c9,
    s = String c0 (String c1 (String c2 (String c3 (String c4 (String c5
          (String c6 (String c7 (String c8 (String c9 EmptyString))))))))).
Proof.
  intros H.
  do 10 (destruct s as [|? s]; [discriminate H|]).
  destruct s; [|discriminate H]. by do 10 eexists.
Qed.

Lemma matches_ymd_length s : matches_ymd s = true -> String.length s = 10%nat.
Proof.
  unfold matches_ymd. rewrite !andb_true_iff. intros [[[[[H _] _] _] _] _].
  by apply Nat.eqb_eq.
Qed.

Lemma matches_ymd_other_length s :
  String.length s <> 10%nat -> matches_ymd s = false.
Proof.
  intros H. destruct (matches_ymd s) eqn:Hm; [|done].
  by apply matches_ymd_length in Hm.
Qed.

(** The fields of a string that matches the pattern are numbers of four and
    two digits. *)
Lemma matches_ymd_fields s :
  matches_ymd s = true ->
  0 <= field 0 4 s <= 9999 /\ 0 <= field 5 2 s <= 99 /\ 0 <= field 8 2 s <= 99.
Proof.
  intros Hm. destruct (length10 s (matches_ymd_length s Hm))
    as (c0 & c1 & c2 & c3 & c4 & c5 & c6 & c7 & c8 & c9 & ->).
  unfold matches_ymd in Hm. cbn in Hm. rewrite !andb_true_iff in Hm.
  destruct Hm as [[[[H03 _] H56] _] H89].
  destruct H03 as (H0 & H1 & H2 & H3 & _).
  destruct H56 as (H5 & H6 & _). destruct H89 as (H8 & H9 & _).
  apply is_digit_val in H0, H1, H2, H3, H5, H6, H8, H9.
  unfold field. cbn [substring digits_value]. lia.
Qed.

(** Parsing [s + "T12:00:00"] for a string [s] that matches the pattern:
    noon, local time, of the day that [s] names. *)
Lemma parse_noon h s :
  matches_ymd s = true ->
  parse h (s ++ "T12:00:00")%string =
    option_map (fun day => UTC h (MakeDate day (MakeTime 12 0 0 0))) (isoDay s).
Proof.
  intros Hm. destruct (length10 s (matches_ymd_length s Hm))
    as (c0 & c1 & c2 & c3 & c4 & c5 & c6 & c7 & c8 & c9 & ->).
  unfold parse. rewrite matches_ymd_other_length by (cbv [String.append]; cbn; discriminate).
  cbv [String.append]. cbn [String.substring]. rewrite Hm. cbn [andb].
  change (matches_hms "T12:00:00") with true.
  change (isoTime "T12:00:00") with (Some (MakeTime 12 0 0 0)).
  cbn [String.length Nat.eqb andb].
  by destruct (isoDay _).
Qed.

Lemma safeParseDate_ymd h s :
  Z.abs (tza h) <= msPerDay ->
  matches_ymd s = true ->
  1 <= field 5 2 s <= 12 ->
  1 <= field 8 2 s <= daysInMonth (field 5 2 s - 1) (leapOf (field 0 4 s)) ->
  exists t,
    safeParseDate h (VString s) = Some (Some t)
    /\ getFullYear h (Some t) = Some (field 0 4 s)
    /\ getMonth h (Some t) = Some (field 5 2 s - 1)
    /\ getDate h (Some t) = Some (field 8 2 s)
    /\ getHours h (Some t) = Some 12.
Proof.
  intros Htz Hm Hmon Hday.
  pose proof (matches_ymd_fields s Hm) as (Hy & _ & _).
  set (y := field 0 4 s) in *. set (m := field 5 2 s) in *. set (d := field 8 2 s) in *.
  assert (isoDay s =
            if (1 <=? m) && (m <=? 12) && (1 <=? d) && (d <=? 31)
            then Some (MakeDay y (m - 1) d) else None) as Hiso by done.
  clearbody y m d.
  assert (d <= 31 /\ 0 <= monthStart (m - 1) (leapOf y) <= 335) as [Hd31 Hms].
  { remember (m - 1) as m' eqn:Hm'.
    assert (m' = 0 \/ m' = 1 \/ m' = 2 \/ m' = 3 \/ m' = 4 \/ m' = 5 \/ m' = 6
            \/ m' = 7 \/ m' = 8 \/ m' = 9 \/ m' = 10 \/ m' = 11) as Hcases by lia.
    clear Hm'.
    destruct (DaysInYear_cases y) as [[_ Hl]|[_ Hl]]; rewrite Hl in *;
    repeat (destruct Hcases as [->|Hcases]); try subst m'; cbn in Hday |- *; lia. }
  set (t := UTC h (MakeDate (MakeDay y (m - 1) d) (MakeTime 12 0 0 0))).
  assert (isoDay s = Some (MakeDay y (m - 1) d)) as Hiso'.
  { rewrite Hiso.
    destruct (Z.leb_spec 1 m), (Z.leb_spec m 12), (Z.leb_spec 1 d), (Z.leb_spec d 31);
      try lia. done. }
  clear Hiso. rename Hiso' into Hiso.
  destruct (civil_fields y (m - 1) d (MakeTime 12 0 0 0)) as (HY & HM & HD);
    [lia|done|cbv; split; [discriminate|done]|].
  assert (LocalTime h t = MakeDate (MakeDay y (m - 1) d) (MakeTime 12 0 0 0)) as Hlocal.
  { unfold t, LocalTime, UTC. lia. }
  exists t. split.
  - unfold safeParseDate.
    assert (JsValue.truthy (VString s) = true) as ->.
    { destruct s; [discriminate (matches_ymd_length _ Hm)|done]. }
    cbn [negb]. rewrite Hm. unfold ofString. rewrite parse_noon, Hiso by done.
    cbn [option_map]. fold t. unfold TimeClip.
    destruct (Z.ltb_spec 8640000000000000 (Z.abs t)) as [Hbig|]; [|done].
    exfalso. revert Hbig. unfold t, UTC, MakeDate.
    rewrite MakeDay_in_year by lia.
    pose proof (DayFromYear_mono 0 y ltac:(lia)).
    pose proof (DayFromYear_mono y 9999 ltac:(lia)).
    change (DayFromYear 0) with (-719528) in *.
    change (DayFromYear 9999) with 2932532 in *.
    unfold msPerDay, MakeTime, msPerHour, msPerMinute, msPerSecond in *. lia.
  - unfold getFullYear, getMonth, getDate, getHours. cbn [option_map].
    rewrite Hlocal, HY, HM, HD, HourFromTime_MakeDate by lia. done.
Qed.


(** C9.  Whatever the time zone offset of the host (below a day in size),
    [safeParseDate("2024-01-15")] is a date whose local year is 2024, whose
    local month index is 0 and whose local day is 15; and in general the
    date parsed from a string [YYYY-MM-DD] that names a calendar date is
    noon, local time, of that very date: no shift to the day before or
    after. *)
Theorem safeParseDate_no_day_shift h :
  Z.abs (tza h) <= msPerDay ->
  (exists t,
     safeParseDate h (VString "2024-01-15") = Some (Some t)
     /\ getFullYear h (Some t) = Some 2024
     /\ getMonth h (Some t) = Some 0
     /\ getDate h (Some t) = Some 15)
  /\ (forall s,
        matches_ymd s = true ->
        1 <= field 5 2 s <= 12 ->
        1 <= field 8 2 s <= daysInMonth (field 5 2 s - 1) (leapOf (field 0 4 s)) ->
        exists t,
          safeParseDate h (VString s) = Some (Some t)
          /\ getFullYear h (Some t) = Some (field 0 4 s)
          /\ getMonth h (Some t) = Some (field 5 2 s - 1)
          /\ getDate h (Some t) = Some (field 8 2 s)
          /\ getHours h (Some t) = Some 12).
Proof.
  intros Htz. split.
  - destruct (safeParseDate_ymd h "2024-01-15" Htz) as (t & Hp & Hy & Hm & Hd & _);
      [reflexivity|by vm_compute|by vm_compute|].
    exists t. by repeat split.
  - intros s. by apply safeParseDate_ymd.
Qed.

Lemma safeParseDate_no_day_shift_witness :
  Z.abs (tza Examples.kiritimati) <= msPerDay
  /\ exists t,
       safeParseDate Examples.kiritimati (VString "2024-01-15") = Some (Some t)
       /\ getFullYear Examples.kiritimati (Some t) = Some 2024
       /\ getMonth Examples.kiritimati (Some t) = Some 0
       /\ getDate Examples.kiritimati (Some t) = Some 15.
Proof.
  assert (Z.abs (tza Examples.kiritimati) <= msPerDay) as H by (by vm_compute).
  split; [exact H|].
  exact (proj1 (safeParseDate_no_day_shift Examples.kiritimati H)).
Defined.

(** A string that matches the pattern without naming a date gives an
    invalid [Date] object, not [null]. *)
Example safeParseDate_out_of_range :
  safeParseDate Examples.buenos_aires (VString "2024-13-45") = Some None.
Proof. reflexivity. Qed.

Example safeParseDate_buenos_aires :
  safeParseDate Examples.buenos_aires (VString "2024-01-15")
  = Some (Some 1705330800000).
Proof. reflexivity. Qed.

(** ** Durations *)

Lemma setHours0_Some h t t0 :
  setHours0 h (Some t) = Some t0 -> t0 = Day (LocalTime h t) * msPerDay - tza h.
Proof.
  unfold setHours0, TimeClip, UTC, MakeDate, MakeTime.
  destruct (_ <? _); [discriminate|]. intros [= <-]. lia.
Qed.

(** On valid dates the duration is the number of local days from the first
    to the second, both included, and at least 1: after the truncation to
    local midnight the difference is a whole number of days, so that
    rounding it and taking its floor are the same. *)
Lemma calculateDurationInDays_valid h s e s0 e0 :
  setHours0 h (Some s) = Some s0 ->
  setHours0 h (Some e) = Some e0 ->
  calculateDurationInDays h (VDate (Some s)) (VDate (Some e))
    = Z.max 1 ((e0 - s0) / msPerDay + 1)
  /\ (e0 - s0) / msPerDay = Day (LocalTime h e) - Day (LocalTime h s).
Proof.
  intros Hs He. unfold calculateDurationInDays. cbn [JsValue.toDate].
  rewrite Hs, He. cbn [getTime]. cbv zeta.
  apply setHours0_Some in Hs, He.
  set (k := Day (LocalTime h e) - Day (LocalTime h s)).
  assert (e0 - s0 = k * msPerDay) as -> by (unfold k; lia).
  assert (round_div (k * msPerDay) (1000 * 60 * 60 * 24) = k) as ->.
  { unfold round_div, msPerDay. Z.to_euclidean_division_equations; lia. }
  assert (k * msPerDay / msPerDay = k) as ->.
  { unfold msPerDay. Z.to_euclidean_division_equations; lia. }
  split; [|done]. destruct (Z.ltb_spec 0 (k + 1)); lia.
Qed.

(** C7 (the code against its test).  On invalid input,
    [calculateDurationInDays] returns 1, where the specification and the
    test of the repository ("should handle invalid dates") expect 0: for
    [null] (which [new Date] reads as the epoch), for [undefined] and for an
    invalid [Date].  No input at all makes it return 0: the result is at
    least 1. *)
Theorem calculateDurationInDays_invalid_is_one h :
  calculateDurationInDays h VNull VNull = 1
  /\ calculateDurationInDays h VUndefined VUndefined = 1
  /\ calculateDurationInDays h (VDate None) (VDate None) = 1
  /\ forall startDate endDate, 1 <= calculateDurationInDays h startDate endDate.
Proof.
  split; [|split; [done|split; [done|]]].
  - unfold calculateDurationInDays. cbn [JsValue.toDate].
    destruct (setHours0 h (ofNumber 0)) as [t|]; cbn [getTime]; [|done].
    by rewrite Z.sub_diag.
  - intros startDate endDate. unfold calculateDurationInDays.
    destruct (getTime (setHours0 h (JsValue.toDate h startDate))); [|done].
    destruct (getTime (setHours0 h (JsValue.toDate h endDate))); [|done].
    cbv zeta. destruct (Z.ltb_spec 0 (round_div (z0 - z) (1000 * 60 * 60 * 24) + 1)); lia.
Qed.

Example calculateDurationInDays_three_days :
  calculateDurationInDays Examples.buenos_aires
    (VString "2024-01-15") (VString "2024-01-17") = 3.
Proof. reflexivity. Qed.

End DateHelperFacts.

(* ===================================================================== *)
(** * Numbers: [Math.round] and the rounding to cents *)
(* ===================================================================== *)

Module NumberFacts.
Import Spec QuoteHelper.
Local Open Scope Z_scope.

(** ** Integers among the numbers *)

Lemma digits2_pos_size p : digits2_pos p = Pos.size p.
Proof. induction p as [p IH|p IH|]; cbn; by rewrite ?IH. Qed.

Lemma mantissa_bound m : Z.pos (digits2_pos m) <= 53 -> Z.pos m < 2 ^ 53.
Proof.
  intros H. rewrite digits2_pos_size in H.
  pose proof (Pos.size_gt m) as Hm.
  apply Pos2Z.pos_lt_pos in Hm. rewrite Pos2Z.inj_pow in Hm.
  eapply Z.lt_le_trans; [exact Hm|]. apply Z.pow_le_mono_r; lia.
Qed.

Lemma valid_mantissa x s m e :
  Prim2SF x = S754_finite s m e -> Z.pos (digits2_pos m) <= 53 /\ Z.pos m < 2 ^ 53.
Proof.
  intros H. pose proof (Prim2SF_valid x) as Hv. rewrite H in Hv.
  cbn [SpecFloat.valid_binary] in Hv. unfold bounded, canonical_mantissa, fexp in Hv.
  apply andb_true_iff in Hv as [Hc _]. apply Z.eqb_eq in Hc.
  assert (Z.pos (digits2_pos m) <= 53) as Hd by (unfold prec in Hc; lia).
  split; [done|]. by apply mantissa_bound.
Qed.


(** Shifting a mantissa to the left. *)
Lemma iter_xO_digits m k :
  digits2_pos (Pos.iter xO m k) = (digits2_pos m + k)%positive.
Proof.
  induction k as [|k IH] using Pos.peano_ind.
  - cbn. lia.
  - rewrite Pos.iter_succ. cbn [digits2_pos]. rewrite IH. lia.
Qed.

Lemma iter_xO_value m k : Z.pos (Pos.iter xO m k) = Z.pos m * 2 ^ Z.pos k.
Proof.
  induction k as [|k IH] using Pos.peano_ind.
  - cbn. lia.
  - rewrite Pos.iter_succ, Pos2Z.inj_xO, IH, Pos2Z.inj_succ, Z.pow_succ_r; lia.
Qed.

(** A mantissa of 53 digits is not rounded. *)
Lemma binary_round_aux_exact s m e :
  Z.pos (digits2_pos m) = 53 -> -1074 <= e <= 971 ->
  binary_round_aux prec emax s (Z.pos m) e loc_Exact = S754_finite s m e.
Proof.
  intros Hd He. unfold binary_round_aux, shr_fexp, fexp. cbn [Zdigits2 shr_record_of_loc].
  rewrite Hd. unfold SpecFloat.emin, prec, emax.
  replace (Z.max (53 + e - 53) (3 - 1024 - 53) - e) with 0 by lia.
  cbn [shr shr_m loc_of_shr_record round_nearest_even Zdigits2 shr_record_of_loc].
  rewrite Hd.
  replace (Z.max (53 + e - 53) (3 - 1024 - 53) - e) with 0 by lia.
  cbn [shr shr_m]. destruct (Z.leb_spec e (1024 - 53)); [done|lia].
Qed.

(** An integer below [2^53] is a number. *)
Lemma binary_normalize_integer p :
  Z.pos p < 2 ^ 53 ->
  exists m e,
    binary_normalize prec emax (Z.pos p) 0 false = S754_finite false m e
    /\ e <= 0 /\ Z.pos m = Z.pos p * 2 ^ (- e).
Proof.
  intros Hp. cbn [binary_normalize]. unfold binary_round.
  assert (Z.pos (digits2_pos p) <= 53) as Hd.
  { rewrite digits2_pos_size. destruct (Z.le_gt_cases (Z.pos (Pos.size p)) 53) as [|Hgt]; [done|].
    pose proof (Pos.size_le p) as Hle. apply Pos2Z.pos_le_pos in Hle.
    rewrite Pos2Z.inj_pow in Hle.
    assert (2 ^ 54 <= 2 ^ Z.pos (Pos.size p)) by (apply Z.pow_le_mono_r; lia). lia. }
  unfold fexp, SpecFloat.emin, prec, emax, shl_align.
  replace (Z.max (Z.pos (digits2_pos p) + 0 - 53) (3 - 1024 - 53) - 0)
    with (Z.pos (digits2_pos p) - 53) by lia.
  replace (Z.max (Z.pos (digits2_pos p) + 0 - 53) (3 - 1024 - 53))
    with (Z.pos (digits2_pos p) - 53) by lia.
  destruct (Z.pos (digits2_pos p) - 53) as [|k|k] eqn:Hk; [|lia|].
  - exists p, 0. split; [|split; [done|cbn; lia]].
    apply (binary_round_aux_exact false p 0); lia.
  - exists (Pos.iter xO p k), (Z.neg k). split; [|split; [lia|]].
    + apply (binary_round_aux_exact false); [|lia].
      rewrite iter_xO_digits. lia.
    + by rewrite iter_xO_value.
Qed.

(** ** Exact values *)

Lemma Qpower_2_pos k : (2 ^ Z.pos k == inject_Z (2 ^ Z.pos k))%Q.
Proof. symmetry. apply (Zpower_Qpower 2 (Z.pos k)). lia. Qed.

(** A number with exponent [e <= 0] as a fraction. *)
Lemma dyadic_fraction (M e : Z) :
  e <= 0 -> (inject_Z M * 2 ^ e == M # Z.to_pos (2 ^ (- e)))%Q.
Proof.
  intros He. destruct e as [|k|k]; [|lia|].
  - cbn. unfold Qeq. cbn. lia.
  - change (2 ^ Z.neg k)%Q with (/ (2 ^ Z.pos k))%Q. rewrite Qpower_2_pos.
    change (- Z.neg k) with (Z.pos k).
    rewrite (Qmake_Qdiv M). unfold Qdiv.
    rewrite Z2Pos.id by (apply Z.pow_pos_nonneg; lia). reflexivity.
Qed.

Lemma nearest_comp v w : (v == w)%Q -> nearest v = nearest w.
Proof. intros H. unfold nearest. by rewrite H. Qed.

Lemma nearest_integer n : nearest (inject_Z n) = n.
Proof.
  unfold nearest, Qfloor. cbn. symmetry.
  apply Z.div_unique with (r := 1); lia.
Qed.

Lemma nearest_fraction M (D : positive) :
  nearest (M # D) = (2 * M + Z.pos D) / (2 * Z.pos D).
Proof.
  unfold nearest, Qfloor. cbn. f_equal; lia.
Qed.

(** The closest integer lies within a half. *)
Lemma nearest_bounds v :
  (inject_Z (nearest v) <= v + (1 # 2) < inject_Z (nearest v) + 1)%Q.
Proof.
  unfold nearest. split; [apply Qfloor_le|].
  pose proof (Qlt_floor (v + (1 # 2))) as H. rewrite inject_Z_plus in H. exact H.
Qed.


(** The exact value of a finite number with exponent [e <= 0]. *)
Lemma finite_stands_for c s m e n :
  Prim2SF c = S754_finite s m e -> e <= 0 ->
  (if s then - Z.pos m else Z.pos m) = n * 2 ^ (- e) ->
  stands_for c n.
Proof.
  intros Hc He Hm. unfold stands_for, exact. rewrite Hc. eexists. split; [done|].
  assert ((if s then - inject_Z (Z.pos m) else inject_Z (Z.pos m))
          == inject_Z (if s then - Z.pos m else Z.pos m))%Q as ->.
  { destruct s; [|done]. by rewrite inject_Z_opp. }
  rewrite dyadic_fraction, Hm by done.
  assert (0 < 2 ^ (- e)) as Hpos by (apply Z.pow_pos_nonneg; lia).
  unfold Qeq. cbn. rewrite Z2Pos.id by done. lia.
Qed.

(** [ofZ] is exact on the integers below [2^53]. *)
Lemma ofZ_stands_for r : r <> 0 -> - 2 ^ 53 < r < 2 ^ 53 -> stands_for (JsNumber.ofZ r) r.
Proof.
  intros Hr0 Hr. unfold JsNumber.ofZ.
  assert (forall p, Z.pos p < 2 ^ 53 ->
            exists m e, Prim2SF (of_uint63 (Uint63.of_Z (Z.pos p))) = S754_finite false m e
                        /\ e <= 0 /\ Z.pos m = Z.pos p * 2 ^ (- e)) as Hpos.
  { intros p Hp. rewrite FloatAxioms.of_uint63_spec, Uint63.of_Z_spec.
    rewrite Z.mod_small.
    2:{ split; [lia|]. eapply Z.lt_trans; [exact Hp|]. by vm_compute. }
    by apply binary_normalize_integer. }
  destruct r as [|p|p]; [done| |].
  - destruct (Hpos p) as (m & e & Hc & He & Hm); [lia|].
    rewrite (proj2 (Z.ltb_ge _ _)) by lia.
    by eapply finite_stands_for.
  - destruct (Hpos p) as (m & e & Hc & He & Hm); [lia|].
    rewrite (proj2 (Z.ltb_lt _ _)) by lia. change (- Z.neg p) with (Z.pos p).
    eapply (finite_stands_for _ true m e); [|done|].
    + by rewrite FloatAxioms.opp_spec, Hc.
    + lia.
Qed.

(** [Math.round] gives the closest integer, a tie going towards
    +infinity. *)
Lemma round_nearest y v : exact y = Some v -> stands_for (JsNumber.round y) (nearest v).
Proof.
  unfold exact. destruct (Prim2SF y) as [s0| | |s m e] eqn:Hy; try discriminate.
  - intros [= <-]. unfold JsNumber.round. rewrite Hy.
    exists 0%Q. split; [unfold exact; by rewrite Hy|done].
  - intros [= <-]. unfold JsNumber.round. rewrite Hy.
    set (M := if s then - Z.pos m else Z.pos m).
    assert ((if s then - inject_Z (Z.pos m) else inject_Z (Z.pos m)) == inject_Z M)%Q
      as HM.
    { subst M. destruct s; [|done]. by rewrite inject_Z_opp. }
    destruct (Z.leb_spec 0 e) as [He|He].
    + (* an integer *)
      assert (inject_Z M * 2 ^ e == inject_Z (M * 2 ^ e))%Q as Hint.
      { rewrite inject_Z_mult, Zpower_Qpower by done. reflexivity. }
      exists (inject_Z M * 2 ^ e)%Q. split.
      * unfold exact. rewrite Hy. f_equal. 
        destruct s; subst M; [by rewrite inject_Z_opp|done].
      * rewrite (nearest_comp _ (inject_Z (M * 2 ^ e))), nearest_integer; [done|].
        by rewrite HM.
    + (* a fraction *)
      destruct (valid_mantissa y s m e Hy) as [_ Hm].
      assert (0 < 2 ^ (- e)) as Hden by (apply Z.pow_pos_nonneg; lia).
      assert (2 <= 2 ^ (- e)) as Hden2.
      { change 2 with (2 ^ 1) at 1. apply Z.pow_le_mono_r; lia. }
      assert (nearest ((if s then - inject_Z (Z.pos m) else inject_Z (Z.pos m)) * 2 ^ e)
              = (2 * M + 2 ^ (- e)) / (2 * 2 ^ (- e))) as ->.
      { rewrite (nearest_comp _ (M # Z.to_pos (2 ^ (- e)))).
        - rewrite nearest_fraction, Z2Pos.id by done. done.
        - rewrite HM. apply dyadic_fraction. lia. }
      assert ((if s then - (2 * Z.pos m) else 2 * Z.pos m) = 2 * M) as ->
        by (subst M; by destruct s).
      set (r := (2 * M + 2 ^ (- e)) / (2 * 2 ^ (- e))).
      destruct (Z.eqb_spec r 0) as [->|Hr0].
      * exists 0%Q. split; [by destruct s|done].
      * apply ofZ_stands_for; [done|].
        assert (- 2 ^ 53 < M < 2 ^ 53) as HMb by (subst M; destruct s; lia).
        subst r. split.
        -- apply Z.lt_le_trans with (- 2 ^ 52); [done|].
           apply Z.div_le_lower_bound; [lia|]. nia.
        -- apply Z.div_lt_upper_bound; [lia|]. nia.
Qed.

(** [round2] gives whole cents. *)
Lemma round2_cents a v : exact (a * 100) = Some v -> is_cents (nearest v) (round2 a).
Proof. intros H. exists (JsNumber.round (a * 100)). split; [by apply round_nearest|done]. Qed.

(** Amounts that agree within half a cent round to cents that agree within
    one; so do amounts that differ by less than a cent. *)
Lemma nearest_difference vS vD vT :
  (- (1 # 2) < vT - (vS - vD) < 1 # 2)%Q ->
  -1 <= nearest vT - (nearest vS - nearest vD) <= 1.
Proof.
  intros [Hlo Hhi].
  pose proof (nearest_bounds vS) as [HS1 HS2].
  pose proof (nearest_bounds vD) as [HD1 HD2].
  pose proof (nearest_bounds vT) as [HT1 HT2].
  assert (inject_Z (-2) < inject_Z (nearest vT - (nearest vS - nearest vD)) < inject_Z 2)%Q
    as [H1 H2].
  { replace (nearest vT - (nearest vS - nearest vD))
      with (nearest vT + - nearest vS + nearest vD) by lia.
    rewrite !inject_Z_plus, inject_Z_opp. change (inject_Z (-2)) with (-2 # 1)%Q.
    change (inject_Z 2) with (2 # 1)%Q. split; lra. }
  rewrite <- Zlt_Qlt in H1, H2. lia.
Qed.

Lemma nearest_close v w :
  (-1 < v - w < 1)%Q -> -1 <= nearest v - nearest w <= 1.
Proof.
  intros [Hlo Hhi].
  pose proof (nearest_bounds v) as [Hv1 Hv2].
  pose proof (nearest_bounds w) as [Hw1 Hw2].
  assert (inject_Z (-2) < inject_Z (nearest v - nearest w) < inject_Z 2)%Q as [H1 H2].
  { replace (nearest v - nearest w) with (nearest v + - nearest w) by lia.
    rewrite !inject_Z_plus, inject_Z_opp. change (inject_Z (-2)) with (-2 # 1)%Q.
    change (inject_Z 2) with (2 # 1)%Q. split; lra. }
  rewrite <- Zlt_Qlt in H1, H2. lia.
Qed.

(** ** The location of a shifted mantissa *)

Lemma inject_Z_xO p : (inject_Z (Z.pos p~0) == 2 * inject_Z (Z.pos p))%Q.
Proof. unfold Qeq. cbn. lia. Qed.

Lemma inject_Z_xI p : (inject_Z (Z.pos p~1) == 2 * inject_Z (Z.pos p) + 1)%Q.
Proof. unfold Qeq. cbn. lia. Qed.

(** One shift to the right halves what the record stands for. *)
Lemma shr_1_between m r s X :
  0 <= m -> between m r s X ->
  between (shr_m (shr_1 (Build_shr_record m r s)))
          (shr_r (shr_1 (Build_shr_record m r s)))
          (shr_s (shr_1 (Build_shr_record m r s))) (X * (1 # 2))
  /\ shr_m (shr_1 (Build_shr_record m r s)) = m / 2.
Proof.
  intros Hm H.
  destruct m as [|[p|p|]|p]; [| | | |lia].
  - split; [|done].
    destruct r, s; cbn [shr_1 shr_m shr_r shr_s orb between] in *;
      change (inject_Z 0) with 0%Q in *; change (inject_Z 1) with 1%Q in *; lra.
  - pose proof (inject_Z_xI p) as Hp. split.
    + destruct r, s; cbn [shr_1 shr_m shr_r shr_s orb between] in *; lra.
    + cbn [shr_1 shr_m]. rewrite Pos2Z.inj_xI.
      apply Z.div_unique with (r := 1); lia.
  - pose proof (inject_Z_xO p) as Hp. split.
    + destruct r, s; cbn [shr_1 shr_m shr_r shr_s orb between] in *; lra.
    + cbn [shr_1 shr_m]. rewrite Pos2Z.inj_xO.
      apply Z.div_unique with (r := 0); lia.
  - split; [|done].
    destruct r, s; cbn [shr_1 shr_m shr_r shr_s orb between] in *;
      change (inject_Z 0) with 0%Q in *; change (inject_Z 1) with 1%Q in *; lra.
Qed.

Lemma between_comp m r s X Y : (X == Y)%Q -> between m r s X -> between m r s Y.
Proof. intros HXY. destruct r, s; cbn [between]; rewrite HXY; done. Qed.

Lemma half_pow_twice n : ((1 # 2 ^ n) * (1 # 2 ^ n) == 1 # 2 ^ n~0)%Q.
Proof.
  unfold Qeq. cbn. rewrite !Pos2Z.inj_mul, !Pos2Z.inj_pow.
  change (Z.pos n~0) with (2 * Z.pos n). rewrite Z.pow_mul_r, Z.pow_2_r by lia.
  rewrite <- Z.pow_mul_l. lia.
Qed.

Lemma pow_pos_xO n : 2 ^ Z.pos n~0 = 2 ^ Z.pos n * 2 ^ Z.pos n.
Proof. change (Z.pos n~0) with (2 * Z.pos n). rewrite <- Z.pow_add_r by lia. f_equal. lia. Qed.

Lemma pow_pos_xI n : 2 ^ Z.pos n~1 = 2 * (2 ^ Z.pos n * 2 ^ Z.pos n).
Proof.
  rewrite Pos2Z.inj_xI, Z.pow_add_r, Z.pow_1_r by lia.
  change (2 * Z.pos n) with (Z.pos n~0). rewrite pow_pos_xO. lia.
Qed.

(** [n] shifts to the right divide what the record stands for by [2^n]. *)
Lemma iter_shr_between n : forall m r s X,
  0 <= m -> between m r s X ->
  between (shr_m (SpecFloat.iter_pos shr_1 n (Build_shr_record m r s)))
          (shr_r (SpecFloat.iter_pos shr_1 n (Build_shr_record m r s)))
          (shr_s (SpecFloat.iter_pos shr_1 n (Build_shr_record m r s))) (X * (1 # 2 ^ n))
  /\ shr_m (SpecFloat.iter_pos shr_1 n (Build_shr_record m r s)) = m / 2 ^ Z.pos n.
Proof.
  assert (forall m, 0 <= m -> forall k, 0 < k -> 0 <= m / k) as Hdiv.
  { intros m Hm k Hk. apply Z.div_pos; lia. }
  assert (forall k, 0 < 2 ^ Z.pos k) as Hpow by (intros k; apply Z.pow_pos_nonneg; lia).
  induction n as [n IH|n IH|]; intros m r s X Hm H; cbn [SpecFloat.iter_pos].
  - destruct (shr_1_between m r s X Hm H) as [H1 E1].
    destruct (shr_1 (Build_shr_record m r s)) as [m1 r1 s1]. cbn [shr_m shr_r shr_s] in *.
    assert (0 <= m1) as Hm1 by (subst m1; apply Hdiv; lia).
    destruct (IH m1 r1 s1 _ Hm1 H1) as [H2 E2].
    destruct (SpecFloat.iter_pos shr_1 n (Build_shr_record m1 r1 s1)) as [m2 r2 s2].
    cbn [shr_m shr_r shr_s] in *.
    assert (0 <= m2) as Hm2 by (subst m2; apply Hdiv; [lia|apply Hpow]).
    destruct (IH m2 r2 s2 _ Hm2 H2) as [H3 E3]. split.
    + eapply between_comp; [|exact H3].
      rewrite <- !Qmult_assoc, half_pow_twice.
      unfold Qeq. cbn. rewrite !Pos2Z.inj_mul, !Pos2Z.inj_pow.
      change (Z.pos 2) with 2.
      replace (2 ^ Z.pos n~1) with (2 * 2 ^ Z.pos n~0)
        by (rewrite pow_pos_xI, pow_pos_xO; lia).
      ring.
    + rewrite E3, E2, E1, pow_pos_xI.
      rewrite !Z.div_div by (try apply Z.mul_pos_pos; try apply Hpow; lia).
      f_equal; lia.
  - destruct (IH m r s X Hm H) as [H2 E2].
    destruct (SpecFloat.iter_pos shr_1 n (Build_shr_record m r s)) as [m2 r2 s2].
    cbn [shr_m shr_r shr_s] in *.
    assert (0 <= m2) as Hm2 by (subst m2; apply Hdiv; [lia|apply Hpow]).
    destruct (IH m2 r2 s2 _ Hm2 H2) as [H3 E3]. split.
    + eapply between_comp; [|exact H3]. by rewrite <- !Qmult_assoc, half_pow_twice.
    + rewrite E3, E2, pow_pos_xO. rewrite !Z.div_div by (try apply Hpow; lia). done.
  - apply (shr_1_between m r s X Hm H).
Qed.

(** Rounding to nearest, ties to even, is within a half. *)
Lemma round_nearest_even_between m r s X :
  between m r s X ->
  m <= round_nearest_even m (loc_of_shr_record (Build_shr_record m r s)) <= m + 1
  /\ (inject_Z (round_nearest_even m (loc_of_shr_record (Build_shr_record m r s)))
        - (1 # 2) <= X
      <= inject_Z (round_nearest_even m (loc_of_shr_record (Build_shr_record m r s)))
        + (1 # 2))%Q
  /\ (r = false -> s = false ->
      round_nearest_even m (loc_of_shr_record (Build_shr_record m r s)) = m).
Proof.
  intros H.
  destruct r, s; cbn [loc_of_shr_record round_nearest_even between] in *.
  - rewrite inject_Z_plus. change (inject_Z 1) with 1%Q. split; [lia|]. split; [lra|done].
  - destruct (Z.even m).
    + split; [lia|]. split; [lra|done].
    + rewrite inject_Z_plus. change (inject_Z 1) with 1%Q. split; [lia|]. split; [lra|done].
  - split; [lia|]. split; [lra|done].
  - split; [lia|]. split; [lra|done].
Qed.

(** ** Digits *)

Lemma Zdigits2_bounds m : 0 < m -> 2 ^ (Zdigits2 m - 1) <= m < 2 ^ Zdigits2 m.
Proof.
  intros Hm. destruct m as [|p|p]; [lia| |lia]. cbn [Zdigits2].
  rewrite digits2_pos_size.
  pose proof (Pos.size_gt p) as Hgt. pose proof (Pos.size_le p) as Hle.
  apply Pos2Z.pos_lt_pos in Hgt. apply Pos2Z.pos_le_pos in Hle.
  rewrite Pos2Z.inj_pow in Hgt, Hle. change (Z.pos 2) with 2 in *.
  split; [|done].
  assert (2 ^ Z.pos (Pos.size p) = 2 * 2 ^ (Z.pos (Pos.size p) - 1)) as Hs.
  { rewrite <- Z.pow_succ_r by lia. f_equal. lia. }
  lia.
Qed.

Lemma Zdigits2_nonneg m : 0 <= Zdigits2 m.
Proof. by destruct m. Qed.

Lemma Zdigits2_unique m k : 0 < m -> 2 ^ (k - 1) <= m < 2 ^ k -> Zdigits2 m = k.
Proof.
  intros Hm [Hlo Hhi]. pose proof (Zdigits2_bounds m Hm) as [Dlo Dhi].
  pose proof (Zdigits2_nonneg m) as Hd.
  assert (0 <= k) as Hk.
  { destruct (Z.le_gt_cases 0 k) as [|Hneg]; [done|].
    rewrite (Z.pow_neg_r 2 k) in Hhi by lia. lia. }
  destruct (Z.lt_trichotomy (Zdigits2 m) k) as [Hlt|[Heq|Hgt]]; [|done|].
  - assert (2 ^ Zdigits2 m <= 2 ^ (k - 1)) by (apply Z.pow_le_mono_r; lia). lia.
  - assert (2 ^ k <= 2 ^ (Zdigits2 m - 1)) by (apply Z.pow_le_mono_r; lia). lia.
Qed.

(** The digits of a mantissa shifted to the right. *)
Lemma Zdigits2_shifted m n :
  0 <= m -> 0 <= n ->
  Zdigits2 (m / 2 ^ n) = Z.max 0 (Zdigits2 m - n).
Proof.
  intros Hm Hn. assert (0 < 2 ^ n) as Hpow by (apply Z.pow_pos_nonneg; lia).
  destruct (Z.eq_dec m 0) as [->|Hm0]; [rewrite Z.div_0_l by lia; cbn; lia|].
  pose proof (Zdigits2_bounds m ltac:(lia)) as [Dlo Dhi].
  pose proof (Zdigits2_nonneg m) as Hd.
  destruct (Z.le_gt_cases (Zdigits2 m) n) as [Hle|Hgt].
  - rewrite Z.div_small; [cbn; lia|]. split; [lia|].
    assert (2 ^ Zdigits2 m <= 2 ^ n) by (apply Z.pow_le_mono_r; lia). lia.
  - rewrite Z.max_r by lia.
    assert (2 ^ (Zdigits2 m - 1) = 2 ^ n * 2 ^ (Zdigits2 m - n - 1)) as E1.
    { rewrite <- Z.pow_add_r by lia. f_equal. lia. }
    assert (2 ^ Zdigits2 m = 2 ^ n * 2 ^ (Zdigits2 m - n)) as E2.
    { rewrite <- Z.pow_add_r by lia. f_equal. lia. }
    assert (2 ^ (Zdigits2 m - n - 1) <= m / 2 ^ n).
    { apply Z.div_le_lower_bound; lia. }
    assert (m / 2 ^ n < 2 ^ (Zdigits2 m - n)).
    { apply Z.div_lt_upper_bound; lia. }
    apply Zdigits2_unique; [|split; [|done]].
    + assert (0 < 2 ^ (Zdigits2 m - n - 1)) by (apply Z.pow_pos_nonneg; lia). lia.
    + by replace (Zdigits2 m - n - 1) with (Zdigits2 m - n - 1) by lia.
Qed.

(** ** The rounding of the format *)

Lemma half_pow_0 : (half_pow 0 == 1)%Q.
Proof. reflexivity. Qed.

Lemma half_pow_pos p : half_pow (Z.pos p) = 1 # 2 ^ p.
Proof.
  unfold half_pow. f_equal. apply Pos2Z.inj. rewrite Z2Pos.id.
  - by rewrite Pos2Z.inj_pow.
  - apply Z.pow_pos_nonneg; lia.
Qed.

Lemma fexp_eq x : fexp prec emax x = Z.max (x - 53) (-1074).
Proof. reflexivity. Qed.

(** The first step of the rounding: the mantissa is shifted to the right
    until its exponent is the one of the format. *)
Lemma shr_fexp_between m e l X :
  0 <= m -> located m l X ->
  exists m' r' s',
    shr_fexp prec emax m e l
      = (Build_shr_record m' r' s', Z.max e (fexp prec emax (Zdigits2 m + e)))
    /\ between m' r' s' (X * half_pow (Z.max e (fexp prec emax (Zdigits2 m + e)) - e))
    /\ m' = m / 2 ^ (Z.max e (fexp prec emax (Zdigits2 m + e)) - e)
    /\ (fexp prec emax (Zdigits2 m + e) <= e ->
        Build_shr_record m' r' s' = shr_record_of_loc m l).
Proof.
  intros Hm HX. unfold shr_fexp, shr.
  set (E := fexp prec emax (Zdigits2 m + e)).
  assert (shr_record_of_loc m l
          = Build_shr_record m (shr_r (shr_record_of_loc m l))
              (shr_s (shr_record_of_loc m l))) as Hrec by (by destruct l as [|[]]).
  destruct (E - e) as [|p|p] eqn:Hn.
  - rewrite Z.max_l by lia. rewrite Hrec. do 3 eexists. split; [done|].
    replace (e - e) with 0 by lia. split; [|split; [by rewrite Z.div_1_r|done]].
    eapply between_comp; [|exact HX]. rewrite half_pow_0. lra.
  - rewrite Z.max_r by lia. replace (E - e) with (Z.pos p) by lia.
    rewrite Hrec. destruct (iter_shr_between p m _ _ X Hm HX) as [Hb Hd].
    destruct (SpecFloat.iter_pos shr_1 p _) as [m' r' s'].
    cbn [shr_m shr_r shr_s] in *.
    exists m', r', s'. split; [f_equal; lia|]. rewrite half_pow_pos.
    split; [done|]. split; [done|]. lia.
  - rewrite Z.max_l by lia. rewrite Hrec. do 3 eexists. split; [done|].
    replace (e - e) with 0 by lia. split; [|split; [by rewrite Z.div_1_r|done]].
    eapply between_comp; [|exact HX]. rewrite half_pow_0. lra.
Qed.

(** What the rounding of the format gives: the mantissa [m1] closest to the
    exact value at the exponent of the format, possibly [2^53], which is
    then written with 53 digits; zero when [m1 = 0]; and infinity when the
    exponent is too large. *)
Lemma binary_round_aux_spec sx m e l X :
  0 <= m -> located m l X ->
  exists m1,
    0 <= m1
    /\ (inject_Z m1 - (1 # 2)
          <= X * half_pow (Z.max e (fexp prec emax (Zdigits2 m + e)) - e)
        <= inject_Z m1 + (1 # 2))%Q
    /\ (l = loc_Exact -> fexp prec emax (Zdigits2 m + e) <= e -> m1 = m)
    /\ ((m1 = 0 /\ binary_round_aux prec emax sx m e l = S754_zero sx)
        \/ (exists mf ef,
              Z.max e (fexp prec emax (Zdigits2 m + e)) <= ef
              /\ Z.pos mf * 2 ^ (ef - Z.max e (fexp prec emax (Zdigits2 m + e))) = m1
              /\ Z.pos (digits2_pos mf) <= 53
              /\ (Z.pos (digits2_pos mf) = 53 \/ ef = Z.max e (-1074))
              /\ binary_round_aux prec emax sx m e l
                 = if ef <=? 971 then S754_finite sx mf ef else S754_infinity sx)).
Proof.
  intros Hm HX. set (E := Z.max e (fexp prec emax (Zdigits2 m + e))).
  destruct (shr_fexp_between m e l X Hm HX) as (m' & r' & s' & Hshr & Hb & Hm' & Hsame).
  fold E in Hshr, Hb, Hm'.
  assert (e <= E /\ -1074 <= E /\ Zdigits2 m + e - 53 <= E) as (HeE & HminE & HdE).
  { subst E. rewrite fexp_eq. lia. }
  assert (0 <= m') as Hm'0.
  { subst m'. apply Z.div_pos; [done|]. apply Z.pow_pos_nonneg; lia. }
  assert (Zdigits2 m' <= 53) as Hd'.
  { subst m'. rewrite Zdigits2_shifted by lia. lia. }
  assert (Zdigits2 m' = 53 \/ E = Z.max e (-1074) \/ m' = 0) as Hnorm.
  { destruct (Z.eq_dec m' 0) as [|Hne]; [by right; right|].
    subst m'. rewrite Zdigits2_shifted by lia.
    assert (Zdigits2 (m / 2 ^ (E - e)) <> 0) as Hne'.
    { intros H0. apply Hne. destruct (m / 2 ^ (E - e)); [done|discriminate..]. }
    rewrite Zdigits2_shifted in Hne' by lia.
    subst E. rewrite fexp_eq in *. lia. }
  destruct (round_nearest_even_between m' r' s' _ Hb) as (Hm1 & Hhalf & Hexact).
  remember (round_nearest_even m' (loc_of_shr_record (Build_shr_record m' r' s')))
    as m1 eqn:Em1.
  exists m1. split; [lia|]. split; [exact Hhalf|]. split.
  { intros -> Hle. specialize (Hsame Hle). cbn in Hsame. injection Hsame as -> -> ->.
    rewrite Hexact by done. done. }
  (* the second step *)
  unfold binary_round_aux. rewrite Hshr. cbn [shr_m]. rewrite <- Em1.
  assert (m' < 2 ^ 53) as Hm'53.
  { destruct (Z.eq_dec m' 0) as [->|Hne]; [done|].
    pose proof (Zdigits2_bounds m' ltac:(lia)) as [_ Hhi].
    eapply Z.lt_le_trans; [exact Hhi|]. apply Z.pow_le_mono_r; lia. }
  assert (located m1 loc_Exact (inject_Z m1)) as Hloc by (cbn; reflexivity).
  destruct (shr_fexp_between m1 E loc_Exact _ ltac:(lia) Hloc)
    as (m2 & r2 & s2 & Hshr2 & _ & Hm2 & Hsame2).
  rewrite Hshr2. cbn [shr_m].
  destruct (Z.eq_dec m1 0) as [Hz|Hnz].
  { left. split; [done|]. subst m2. rewrite Hz, Z.div_0_l; [done|].
    apply Z.pow_nonzero; [done|]. cbn. rewrite fexp_eq. lia. }
  right.
  destruct (Z.eq_dec m1 (2 ^ 53)) as [Htop|Hlow].
  - (* the mantissa has 54 digits *)
    assert (Zdigits2 m1 = 54) as Hd1.
    { apply Zdigits2_unique; [lia|]. rewrite Htop. split; [done|].
      apply Z.pow_lt_mono_r; lia. }
    rewrite Hd1, fexp_eq in Hshr2, Hm2 |- *.
    replace (Z.max E (Z.max (54 + E - 53) (-1074))) with (E + 1) in * by lia.
    replace (E + 1 - E) with 1 in Hm2 by lia.
    assert (m2 = 2 ^ 52) as ->.
    { subst m2. rewrite Htop. by vm_compute. }
    exists (2 ^ 52)%positive, (E + 1).
    split; [lia|]. split; [rewrite Htop; replace (E + 1 - E) with 1 by lia; by vm_compute|].
    split; [by vm_compute|]. split; [left; by vm_compute|].
    change (Z.pos (2 ^ 52)) with (2 ^ 52). 
    change (E + 1 <=? emax - prec) with (E + 1 <=? 971). done.
  - (* the mantissa has at most 53 digits *)
    assert (m1 < 2 ^ 53) as Hm153 by lia.
    assert (Zdigits2 m1 <= 53) as Hd1.
    { pose proof (Zdigits2_bounds m1 ltac:(lia)) as [Hlo _].
      destruct (Z.le_gt_cases (Zdigits2 m1) 53) as [|Hgt]; [done|].
      assert (2 ^ 53 <= 2 ^ (Zdigits2 m1 - 1)) by (apply Z.pow_le_mono_r; lia). lia. }
    rewrite fexp_eq in Hshr2, Hm2 |- *.
    replace (Z.max E (Z.max (Zdigits2 m1 + E - 53) (-1074))) with E in * by lia.
    replace (E - E) with 0 in Hm2 by lia. rewrite Z.div_1_r in Hm2. subst m2.
    destruct m1 as [|mf|mf]; [done| |lia].
    exists mf, E. split; [lia|]. split; [replace (E - E) with 0 by lia; cbn; lia|].
    split; [exact Hd1|]. split; [|done].
    (* normal or at the least exponent *)
    destruct Hnorm as [H53|[Hmin|H0]].
    + left. 
      assert (2 ^ 52 <= m') as Hlo.
      { pose proof (Zdigits2_bounds m') as Hb'. rewrite H53 in Hb'.
        destruct (Z.eq_dec m' 0) as [->|]; [discriminate H53|]. apply Hb'. lia. }
      change (Z.pos (digits2_pos mf)) with (Zdigits2 (Z.pos mf)).
      apply Zdigits2_unique; [lia|]. split; [|done].
      change (2 ^ (53 - 1)) with (2 ^ 52). lia.
    + right. subst E. rewrite fexp_eq in *. lia.
    + right. subst E. 
      (* the mantissa was zero and the exact value at least a half *)
      rewrite fexp_eq in *. 
      assert (Zdigits2 m + e - 53 <= Z.max e (-1074)).
      { subst m'. destruct (Z.eq_dec m 0) as [->|Hmne]; [cbn; lia|].
        assert (Zdigits2 m <= Z.max e (Z.max (Zdigits2 m + e - 53) (-1074)) - e).
        { destruct (Z.le_gt_cases (Zdigits2 m)
                      (Z.max e (Z.max (Zdigits2 m + e - 53) (-1074)) - e)) as [|Hgt];
            [done|].
          pose proof (Zdigits2_shifted m
                        (Z.max e (Z.max (Zdigits2 m + e - 53) (-1074)) - e) Hm ltac:(lia))
            as Hsh.
          rewrite H0 in Hsh. cbn in Hsh. lia. }
        lia. }
      lia.
Qed.

(** ** Powers of two *)

Lemma pow2_pos e : (0 < 2 ^ e)%Q.
Proof. by apply Qpower_0_lt. Qed.

Lemma pow2_add a b : (2 ^ (a + b) == 2 ^ a * 2 ^ b)%Q.
Proof. by apply Qpower_plus. Qed.

Lemma pow2_le a b : a <= b -> (2 ^ a <= 2 ^ b)%Q.
Proof. intros H. by apply Qpower_le_compat_l. Qed.

Lemma pow2_lt_inv a b : (2 ^ a < 2 ^ b)%Q -> a < b.
Proof. intros H. by apply (Qpower_lt_compat_l_inv 2). Qed.

Lemma pow2_inject k : 0 <= k -> (inject_Z (2 ^ k) == 2 ^ k)%Q.
Proof. intros H. by rewrite Zpower_Qpower. Qed.

Lemma half_pow_inv k : 0 <= k -> (half_pow k * 2 ^ k == 1)%Q.
Proof.
  intros Hk. unfold half_pow. rewrite <- pow2_inject by done.
  assert (0 < 2 ^ k) as Hp by (apply Z.pow_pos_nonneg; lia).
  unfold Qeq, Qmult, inject_Z. cbn [Qnum Qden].
  rewrite Pos.mul_1_r, Z2Pos.id by done. lia.
Qed.

Lemma half_pow_split E e : e <= E -> (half_pow (E - e) * 2 ^ E == 2 ^ e)%Q.
Proof.
  intros H. replace E with ((E - e) + e) at 2 by lia.
  rewrite pow2_add, Qmult_assoc, half_pow_inv by lia. lra.
Qed.

Lemma finite_value mf ef m1 E :
  E <= ef -> Z.pos mf * 2 ^ (ef - E) = m1 ->
  (inject_Z (Z.pos mf) * 2 ^ ef == inject_Z m1 * 2 ^ E)%Q.
Proof.
  intros HE <-. replace ef with ((ef - E) + E) at 1 by lia.
  rewrite pow2_add, inject_Z_mult, pow2_inject by lia. lra.
Qed.

(** A mantissa of [d] digits is at least [2^(d-1)]. *)
Lemma mantissa_lower m : 0 < m -> (2 ^ (Zdigits2 m - 1) <= inject_Z m)%Q.
Proof.
  intros Hm. pose proof (Zdigits2_bounds m Hm) as [Hlo _].
  pose proof (Zdigits2_bounds m Hm) as [_ Hhi].
  assert (0 <= Zdigits2 m - 1) as Hd.
  { destruct m as [|p|p]; [lia| |lia]. cbn. lia. }
  rewrite <- pow2_inject by done. by rewrite <- Zle_Qle.
Qed.

Lemma mantissa_upper m : 0 < m -> (inject_Z m < 2 ^ Zdigits2 m)%Q.
Proof.
  intros Hm. pose proof (Zdigits2_bounds m Hm) as [_ Hhi].
  rewrite <- pow2_inject by apply Zdigits2_nonneg. by rewrite <- Zlt_Qlt.
Qed.

(** Half a unit in the last place is within the bound on the error. *)
Lemma half_ulp_bound m e X :
  0 <= m ->
  (0 < m \/ Z.max (Zdigits2 m + e - 53) (-1074) = -1074) ->
  (inject_Z m <= X)%Q ->
  ((1 # 2) * 2 ^ (Z.max (Zdigits2 m + e - 53) (-1074)) <= rounding_error (X * 2 ^ e))%Q.
Proof.
  intros Hm0 Hm HX. unfold rounding_error.
  pose proof (pow2_pos e) as He. pose proof (pow2_pos (-53)) as H53.
  assert (0 <= X)%Q as HX0.
  { apply Qle_trans with (inject_Z m); [|done]. by rewrite <- (Zle_Qle 0). }
  assert (0 <= 2 ^ (-53) * (X * 2 ^ e))%Q as Hnn.
  { apply Qmult_le_0_compat; [lra|]. apply Qmult_le_0_compat; lra. }
  assert (Z.max (Zdigits2 m + e - 53) (-1074) = -1074
          \/ (0 < m /\ Z.max (Zdigits2 m + e - 53) (-1074) = Zdigits2 m + e - 53))
    as [->|[Hpos ->]] by lia.
  - assert ((1 # 2) * 2 ^ (-1074) == 2 ^ (-1075))%Q as -> by reflexivity.
    generalize dependent (2 ^ (-53) * (X * 2 ^ e))%Q. intros A HA.
    generalize (2 ^ (-1075))%Q. intros C. clear -HA. lra.
  - replace (Zdigits2 m + e - 53) with ((-52) + ((Zdigits2 m - 1) + e)) by lia.
    rewrite !pow2_add.
    pose proof (mantissa_lower m Hpos) as Hlo.
    assert (2 ^ (Zdigits2 m - 1) * 2 ^ e <= X * 2 ^ e)%Q as Hle.
    { apply Qmult_le_compat_r; [|lra]. lra. }
    pose proof (pow2_pos (-1075)) as H1075.
    assert ((1 # 2) * 2 ^ (-52) == 2 ^ (-53))%Q as H52 by reflexivity.
    rewrite Qmult_assoc, H52.
    assert (2 ^ (-53) * (2 ^ (Zdigits2 m - 1) * 2 ^ e) <= 2 ^ (-53) * (X * 2 ^ e))%Q
      as Hmul by (apply Qmult_le_l; done).
    revert Hmul H1075.
    generalize (2 ^ (-53) * (2 ^ (Zdigits2 m - 1) * 2 ^ e))%Q.
    generalize (2 ^ (-53) * (X * 2 ^ e))%Q. generalize (2 ^ (-1075))%Q.
    intros C B A Hmul HC. clear -Hmul HC. lra.
Qed.

(** ** The error of a rounding *)

Lemma located_bounds m l X : located m l X -> (inject_Z m <= X < inject_Z m + 1)%Q.
Proof. destruct l as [|[]]; cbn; lra. Qed.

#[global] Instance rounding_error_proper : Proper (Qeq ==> Qeq) rounding_error.
Proof. intros M N H. unfold rounding_error. by rewrite H. Qed.

Lemma rounding_error_nonneg M : (0 <= M)%Q -> (0 <= rounding_error M)%Q.
Proof.
  intros HM. unfold rounding_error.
  pose proof (pow2_pos (-53)) as H53. pose proof (pow2_pos (-1075)) as H1075.
  assert (0 <= 2 ^ (-53) * M)%Q by (apply Qmult_le_0_compat; lra).
  revert H H1075. generalize (2 ^ (-53) * M)%Q (2 ^ (-1075))%Q. intros A C HA HC. lra.
Qed.

(** A rounded value is not much larger than the exact one. *)
Lemma rounding_error_crude M : (0 <= M)%Q -> (rounding_error M <= M + 1)%Q.
Proof.
  intros HM. unfold rounding_error.
  pose proof (pow2_le (-53) 0 ltac:(lia)) as H53.
  pose proof (pow2_le (-1075) 0 ltac:(lia)) as H1075.
  pose proof (pow2_pos (-53)) as H53'.
  change (2 ^ 0)%Q with 1%Q in *.
  assert (2 ^ (-53) * M <= 1 * M)%Q as H by (apply Qmult_le_compat_r; done).
  revert H H1075. generalize (2 ^ (-53) * M)%Q (2 ^ (-1075))%Q. intros A C HA HC. lra.
Qed.

(** The value that the rounding of the format gives: within the bound on
    the error of the exact value [X * 2^e], and exact when the mantissa is
    exact and fits the format. *)
Lemma binary_round_aux_value sx m e l X :
  0 <= m -> located m l X ->
  (X * 2 ^ e < 2 ^ 970)%Q ->
  (l = loc_Exact \/ e <= fexp prec emax (Zdigits2 m + e)) ->
  exists w v,
    sf_exact (binary_round_aux prec emax sx m e l) = Some w
    /\ (w == signed sx v)%Q /\ (0 <= v)%Q
    /\ (- rounding_error (X * 2 ^ e) <= v - X * 2 ^ e <= rounding_error (X * 2 ^ e))%Q.
Proof.
  intros Hm HX Hbig Hl.
  destruct (binary_round_aux_spec sx m e l X Hm HX)
    as (m1 & Hm1 & Hhalf & Hexact & Hres).
  pose proof (located_bounds m l X HX) as [HXlo HXhi].
  rewrite fexp_eq in *.
  set (E := Z.max e (Z.max (Zdigits2 m + e - 53) (-1074))) in *.
  assert (e <= E) as HeE by (subst E; lia).
  pose proof (pow2_pos e) as Hpe. pose proof (pow2_pos E) as HpE.
  assert (0 <= X)%Q as HX0.
  { apply Qle_trans with (inject_Z m); [|done]. by rewrite <- (Zle_Qle 0). }
  assert (0 <= X * 2 ^ e)%Q as HM0 by (apply Qmult_le_0_compat; lra).
  pose proof (rounding_error_nonneg _ HM0) as Herr0.
  (* the error of the mantissa, at the exponent of the format *)
  assert (- rounding_error (X * 2 ^ e) <= inject_Z m1 * 2 ^ E - X * 2 ^ e
          <= rounding_error (X * 2 ^ e))%Q as Herr.
  { assert ((l = loc_Exact /\ Z.max (Zdigits2 m + e - 53) (-1074) <= e)
            \/ E = Z.max (Zdigits2 m + e - 53) (-1074)) as [[Hex Hfit]|HE].
    { destruct Hl as [Hex|Hle]; [|right; subst E; lia].
      destruct (Z.le_gt_cases (Z.max (Zdigits2 m + e - 53) (-1074)) e);
        [by left|right; subst E; lia]. }
    - (* nothing is shifted *)
      rewrite (Hexact Hex Hfit). replace E with e by (subst E; lia).
      subst l. unfold located in HX. cbn [shr_record_of_loc shr_r shr_s between] in HX.
      assert (inject_Z m * 2 ^ e == X * 2 ^ e)%Q as Heq by (by rewrite HX).
      revert Herr0 Heq. generalize (rounding_error (X * 2 ^ e)) (X * 2 ^ e)%Q.
      generalize (inject_Z m * 2 ^ e)%Q. intros A R M HR Heq. lra.
    - (* half a unit in the last place *)
      assert (0 < m \/ Z.max (Zdigits2 m + e - 53) (-1074) = -1074) as Hcase.
      { destruct (Z.eq_dec m 0) as [->|]; [right|left; lia].
        cbn [Zdigits2] in *. destruct Hl as [->|Hle]; [|lia].
        destruct (Z.le_gt_cases (Z.max (0 + e - 53) (-1074)) e) as [Hfit|]; [|lia].
        lia. }
      pose proof (half_ulp_bound m e X Hm Hcase HXlo) as Hulp. rewrite <- HE in Hulp.
      pose proof (half_pow_split E e HeE) as Hsplit.
      assert (X * 2 ^ e == X * half_pow (E - e) * 2 ^ E)%Q as HY.
      { rewrite <- Hsplit. ring. }
      rewrite HY in Hulp |- *.
      revert Hulp Hhalf HpE. generalize (rounding_error (X * half_pow (E - e) * 2 ^ E)).
      generalize (X * half_pow (E - e))%Q (2 ^ E)%Q (inject_Z m1). clear.
      intros a T Y R Hulp [H1 H2] HT. nra. }
  destruct Hres as [[Hz Hres]|(mf & ef & HEf & Hmf & Hd53 & Hnorm & Hres)].
  - (* zero *)
    rewrite Hres. exists 0%Q, 0%Q. split; [done|]. split; [by destruct sx|].
    split; [lra|]. rewrite Hz in Herr.
    revert Herr. generalize (rounding_error (X * 2 ^ e)) (X * 2 ^ e)%Q (2 ^ E)%Q.
    intros R M T. change (inject_Z 0) with 0%Q. lra.
  - (* a number *)
    pose proof (finite_value mf ef m1 E HEf Hmf) as Hval.
    assert (ef <= 971) as Hef.
    { pose proof (rounding_error_crude _ HM0) as Hcrude.
      assert (inject_Z (Z.pos mf) * 2 ^ ef < 2 ^ 972)%Q as Hv.
      { rewrite Hval.
        assert (2 ^ 972 == 2 * 2 ^ 970 + 2 * 2 ^ 970)%Q as -> by reflexivity.
        pose proof (pow2_le 0 970 ltac:(lia)) as H1. change (2 ^ 0)%Q with 1%Q in H1.
        revert Herr Hcrude Hbig H1.
        generalize (rounding_error (X * 2 ^ e)) (X * 2 ^ e)%Q (inject_Z m1 * 2 ^ E)%Q
          (2 ^ 970)%Q.
        intros R M V P. lra. }
      destruct Hnorm as [H53|Hmin].
      - assert (2 ^ 52 <= inject_Z (Z.pos mf))%Q as Hlo.
        { pose proof (mantissa_lower (Z.pos mf) ltac:(lia)) as Hlo.
          cbn [Zdigits2] in Hlo. by rewrite H53 in Hlo. }
        assert (2 ^ (52 + ef) < 2 ^ 972)%Q as Hlt.
        { rewrite pow2_add. eapply Qle_lt_trans; [|exact Hv].
          apply Qmult_le_compat_r; [done|]. pose proof (pow2_pos ef). lra. }
        apply pow2_lt_inv in Hlt. lia.
      - destruct (Z.le_gt_cases e (-1074)) as [|Hgt]; [lia|].
        assert (0 < m) as Hmpos.
        { destruct (Z.eq_dec m 0) as [Hm0|]; [|lia]. exfalso.
          subst m. cbn [Zdigits2] in *. destruct Hl as [Hex|Hle]; [|lia].
          assert (m1 = 0); [|lia]. apply Hexact; [done|lia]. }
        assert (2 ^ e < 2 ^ 970)%Q as Hlt.
        { eapply Qle_lt_trans; [|exact Hbig].
          assert (1 <= X)%Q as H1.
          { apply Qle_trans with (inject_Z m); [|done]. rewrite <- (Zle_Qle 1). lia. }
          rewrite <- (Qmult_1_l (2 ^ e)) at 1. apply Qmult_le_compat_r; [done|lra]. }
        apply pow2_lt_inv in Hlt. lia. }
    rewrite Hres. destruct (Z.leb_spec ef 971) as [_|]; [|lia].
    eexists. exists (inject_Z (Z.pos mf) * 2 ^ ef)%Q. split; [done|].
    split; [destruct sx; cbn [signed]; ring|]. split.
    + apply Qmult_le_0_compat; [|pose proof (pow2_pos ef); lra].
      rewrite <- (Zle_Qle 0). lia.
    + by rewrite Hval.
Qed.

#[global] Instance signed_proper s : Proper (Qeq ==> Qeq) (signed s).
Proof. intros v w H. destruct s; cbn [signed]; by rewrite H. Qed.

Lemma signed_abs s v : (0 <= v)%Q -> (Qabs (signed s v) == v)%Q.
Proof.
  intros H. destruct s; cbn [signed]; [rewrite Qabs_opp|]; by apply Qabs_pos.
Qed.

Lemma signed_diff s v w : (Qabs (signed s v - signed s w) == Qabs (v - w))%Q.
Proof.
  destruct s; cbn [signed]; [|done].
  assert (- v - - w == - (v - w))%Q as -> by ring. apply Qabs_opp.
Qed.

(** The value of a finite number, by sign and size. *)
Lemma sf_exact_finite s m e :
  exists w, sf_exact (S754_finite s m e) = Some w
            /\ (w == signed s (inject_Z (Z.pos m) * 2 ^ e))%Q.
Proof. eexists. split; [done|]. destruct s; cbn [signed]; ring. Qed.

(** The result of the rounding, with its sign. *)
Lemma rounded_value sx m e l X :
  0 <= m -> located m l X ->
  (X * 2 ^ e < 2 ^ 970)%Q ->
  (l = loc_Exact \/ e <= fexp prec emax (Zdigits2 m + e)) ->
  exists w,
    sf_exact (binary_round_aux prec emax sx m e l) = Some w
    /\ (Qabs (w - signed sx (X * 2 ^ e)) <= rounding_error (X * 2 ^ e))%Q.
Proof.
  intros Hm HX Hbig Hl.
  destruct (binary_round_aux_value sx m e l X Hm HX Hbig Hl) as (w & v & Hw & Hwv & Hv & He).
  exists w. split; [done|]. rewrite Hwv, signed_diff. by apply Qabs_Qle_condition.
Qed.

(** ** Products *)

Lemma SFmul_value x y vx vy :
  sf_exact x = Some vx -> sf_exact y = Some vy ->
  (Qabs (vx * vy) < 2 ^ 970)%Q ->
  exists w,
    sf_exact (SFmul prec emax x y) = Some w
    /\ (Qabs (w - vx * vy) <= rounding_error (Qabs (vx * vy)))%Q.
Proof.
  intros Hx Hy Hbig.
  assert (forall v : Q, (Qabs (0 - v * 0) <= rounding_error (Qabs (v * 0)))%Q) as Hz.
  { intros v. assert (v * 0 == 0)%Q as -> by ring. by vm_compute. }
  assert (forall v : Q, (Qabs (0 - 0 * v) <= rounding_error (Qabs (0 * v)))%Q) as Hz'.
  { intros v. assert (0 * v == 0)%Q as -> by ring. by vm_compute. }
  destruct x as [sx| | |sx mx ex], y as [sy| | |sy my ey]; try discriminate;
    cbn [sf_exact] in Hx, Hy; injection Hx as <-; injection Hy as <-; cbn [SFmul].
  - exists 0%Q. split; [done|]. apply Hz.
  - exists 0%Q. split; [done|]. apply Hz'.
  - exists 0%Q. split; [done|]. apply Hz.
  - set (M := (inject_Z (Z.pos (mx * my)) * 2 ^ (ex + ey))%Q).
    assert ((if sx then - inject_Z (Z.pos mx) else inject_Z (Z.pos mx)) * 2 ^ ex
            * ((if sy then - inject_Z (Z.pos my) else inject_Z (Z.pos my)) * 2 ^ ey)
            == signed (xorb sx sy) M)%Q as Hprod.
    { subst M. rewrite Pos2Z.inj_mul, inject_Z_mult, pow2_add.
      destruct sx, sy; cbn [xorb signed]; ring. }
    assert (0 <= M)%Q as HM.
    { subst M. apply Qmult_le_0_compat; [|pose proof (pow2_pos (ex + ey)); lra].
      rewrite <- (Zle_Qle 0). lia. }
    rewrite Hprod, signed_abs in Hbig by done.
    destruct (rounded_value (xorb sx sy) (Z.pos (mx * my)) (ex + ey) loc_Exact
                (inject_Z (Z.pos (mx * my)))) as (w & Hw & He);
      [lia|cbn; reflexivity|exact Hbig|by left|].
    exists w. split; [exact Hw|]. rewrite Hprod, signed_abs by done. exact He.
Qed.

(** ** Differences *)

(** Aligning a mantissa to a smaller exponent keeps the value. *)
Lemma shl_align_value m e e' :
  e' <= e ->
  exists m', shl_align m e e' = (m', e') /\ Z.pos m' = Z.pos m * 2 ^ (e - e').
Proof.
  intros He. unfold shl_align. destruct (e' - e) as [|d|d] eqn:Hd; [|lia|].
  - exists m. replace e' with e by lia. split; [done|].
    replace (e - e) with 0 by lia. lia.
  - exists (Pos.iter xO m d). split; [done|].
    rewrite iter_xO_value. f_equal. f_equal. lia.
Qed.

Lemma aligned_value (m' m : positive) e e' :
  e' <= e -> Z.pos m' = Z.pos m * 2 ^ (e - e') ->
  (inject_Z (Z.pos m') * 2 ^ e' == inject_Z (Z.pos m) * 2 ^ e)%Q.
Proof.
  intros He ->. replace e with ((e - e') + e') at 2 by lia.
  rewrite pow2_add, inject_Z_mult, pow2_inject by lia. ring.
Qed.

(** [binary_round]: the mantissa is aligned to the exponent of the format
    first, when that is smaller. *)
Lemma binary_round_value sx m e :
  (inject_Z (Z.pos m) * 2 ^ e < 2 ^ 970)%Q ->
  exists w,
    sf_exact (binary_round prec emax sx m e) = Some w
    /\ (Qabs (w - signed sx (inject_Z (Z.pos m) * 2 ^ e))
        <= rounding_error (inject_Z (Z.pos m) * 2 ^ e))%Q.
Proof.
  intros Hbig. unfold binary_round.
  destruct (Z.le_gt_cases (fexp prec emax (Z.pos (digits2_pos m) + e)) e) as [Hle|Hgt].
  - destruct (shl_align_value m e _ Hle) as (mz & -> & Hmz).
    pose proof (aligned_value mz m e _ Hle Hmz) as Hval.
    destruct (rounded_value sx (Z.pos mz) (fexp prec emax (Z.pos (digits2_pos m) + e))
                loc_Exact (inject_Z (Z.pos mz))) as (w & Hw & He);
      [lia|cbn; reflexivity|by rewrite Hval|by left|].
    exists w. split; [exact Hw|]. by rewrite <- Hval.
  - assert (shl_align m e (fexp prec emax (Z.pos (digits2_pos m) + e)) = (m, e)) as ->.
    { unfold shl_align.
      destruct (fexp prec emax (Z.pos (digits2_pos m) + e) - e) eqn:Hd; [done|done|lia]. }
    apply rounded_value; [lia|cbn; reflexivity|exact Hbig|by left].
Qed.

Lemma binary_normalize_value z e :
  (Qabs (inject_Z z * 2 ^ e) < 2 ^ 970)%Q ->
  exists w,
    sf_exact (binary_normalize prec emax z e false) = Some w
    /\ (Qabs (w - inject_Z z * 2 ^ e) <= rounding_error (Qabs (inject_Z z * 2 ^ e)))%Q.
Proof.
  intros Hbig. pose proof (pow2_pos e) as Hpe.
  destruct z as [|m|m]; cbn [binary_normalize].
  - exists 0%Q. split; [done|]. assert (inject_Z 0 * 2 ^ e == 0)%Q as -> by ring.
    by vm_compute.
  - assert (0 <= inject_Z (Z.pos m) * 2 ^ e)%Q as Hnn.
    { apply Qmult_le_0_compat; [|lra]. by rewrite <- (Zle_Qle 0). }
    rewrite Qabs_pos in Hbig by done.
    destruct (binary_round_value false m e Hbig) as (w & Hw & He).
    exists w. split; [exact Hw|].
    rewrite (Qabs_pos (inject_Z (Z.pos m) * 2 ^ e)) by done. exact He.
  - assert (inject_Z (Z.neg m) * 2 ^ e == - (inject_Z (Z.pos m) * 2 ^ e))%Q as Hneg.
    { change (Z.neg m) with (- Z.pos m). rewrite inject_Z_opp. ring. }
    assert (0 <= inject_Z (Z.pos m) * 2 ^ e)%Q as Hnn.
    { apply Qmult_le_0_compat; [|lra]. by rewrite <- (Zle_Qle 0). }
    rewrite Hneg, Qabs_opp, Qabs_pos in Hbig by done.
    destruct (binary_round_value true m e Hbig) as (w & Hw & He).
    exists w. split; [exact Hw|].
    rewrite Hneg, (Qabs_opp (inject_Z (Z.pos m) * 2 ^ e)),
      (Qabs_pos (inject_Z (Z.pos m) * 2 ^ e)) by done.
    exact He.
Qed.

Lemma SFsub_value x y vx vy :
  sf_exact x = Some vx -> sf_exact y = Some vy ->
  (Qabs (vx - vy) < 2 ^ 970)%Q ->
  exists w,
    sf_exact (SFsub prec emax x y) = Some w
    /\ (Qabs (w - (vx - vy)) <= rounding_error (Qabs (vx - vy)))%Q.
Proof.
  intros Hx Hy Hbig.
  assert (forall a b : Q, (a == b)%Q -> (Qabs (a - b) <= rounding_error (Qabs b))%Q)
    as Hsame.
  { intros a b Hab. assert (a - b == 0)%Q as -> by (rewrite Hab; ring).
    apply rounding_error_nonneg, Qabs_nonneg. }
  destruct x as [sx| | |sx mx ex], y as [sy| | |sy my ey]; try discriminate;
    cbn [sf_exact] in Hx, Hy; injection Hx as <-; injection Hy as <-; cbn [SFsub].
  - exists 0%Q. split; [by destruct sx, sy|]. by apply Hsame.
  - eexists. split; [done|]. apply Hsame. destruct sy; cbn [negb]; ring.
  - eexists. split; [done|]. apply Hsame. ring.
  - set (ez := Z.min ex ey).
    destruct (shl_align_value mx ex ez ltac:(lia)) as (mx' & -> & Hmx).
    destruct (shl_align_value my ey ez ltac:(lia)) as (my' & -> & Hmy).
    cbn [fst].
    pose proof (aligned_value mx' mx ex ez ltac:(lia) Hmx) as Hvx.
    pose proof (aligned_value my' my ey ez ltac:(lia) Hmy) as Hvy.
    set (z := cond_Zopp sx (Z.pos mx') - cond_Zopp sy (Z.pos my')).
    assert (inject_Z z * 2 ^ ez
            == (if sx then - inject_Z (Z.pos mx) else inject_Z (Z.pos mx)) * 2 ^ ex
               - (if sy then - inject_Z (Z.pos my) else inject_Z (Z.pos my)) * 2 ^ ey)%Q
      as Hz.
    { subst z. unfold Z.sub. rewrite inject_Z_plus, inject_Z_opp.
      revert Hvx Hvy.
      destruct sx, sy; cbn [cond_Zopp]; rewrite ?inject_Z_opp;
        generalize (inject_Z (Z.pos mx')) (inject_Z (Z.pos my')) (2 ^ ez)%Q
          (inject_Z (Z.pos mx)) (inject_Z (Z.pos my)) (2 ^ ex)%Q (2 ^ ey)%Q;
        intros a b t c d p q Ha Hb; nra. }
    rewrite <- Hz in Hbig.
    destruct (binary_normalize_value z ez Hbig) as (w & Hw & He).
    exists w. split; [exact Hw|]. rewrite <- Hz. exact He.
Qed.

(** ** Quotients *)

Lemma scaled_lt (n f c t : Q) :
  (0 < n)%Q -> (f * n == c)%Q -> (c < t * n)%Q -> (f < t)%Q.
Proof. intros Hn Hf Hc. apply (Qmult_lt_r _ _ n Hn). by rewrite Hf. Qed.

Lemma scaled_gt (n f c t : Q) :
  (0 < n)%Q -> (f * n == c)%Q -> (t * n < c)%Q -> (t < f)%Q.
Proof. intros Hn Hf Hc. apply (Qmult_lt_r _ _ n Hn). by rewrite Hf. Qed.

Lemma scaled_eq (n f c t : Q) :
  (0 < n)%Q -> (f * n == c)%Q -> (c == t * n)%Q -> (f == t)%Q.
Proof.
  intros Hn Hf Hc. apply (Qmult_inj_r _ _ n); [lra|]. by rewrite Hf.
Qed.

(** The location of a remainder [k] of a division by [nb]. *)
Lemma new_location_located nb k q f :
  0 < nb -> 0 <= k < nb -> (f * inject_Z nb == inject_Z k)%Q ->
  located q (new_location nb k) (inject_Z q + f).
Proof.
  intros Hnb Hk Hf.
  assert (0 < inject_Z nb)%Q as Hnb' by (by rewrite <- (Zlt_Qlt 0)).
  assert (forall a b, a < b -> (inject_Z a < inject_Z b)%Q) as Hlt
    by (intros a b H; by rewrite <- Zlt_Qlt).
  assert (0 < k -> (0 < f)%Q) as Hpos.
  { intros H. apply (scaled_gt _ _ _ _ Hnb' Hf). apply (Hlt 0) in H.
    change (inject_Z 0) with 0%Q in H. lra. }
  assert (f < 1)%Q as Hone.
  { apply (scaled_lt _ _ _ _ Hnb' Hf). assert (k < nb) as H by lia.
    apply Hlt in H. lra. }
  assert (2 * k < nb -> (f < 1 # 2)%Q) as Hlow.
  { intros H. apply (scaled_lt _ _ _ _ Hnb' Hf). apply Hlt in H.
    rewrite inject_Z_mult in H. change (inject_Z 2) with 2%Q in H. lra. }
  assert (nb < 2 * k -> (1 # 2 < f)%Q) as Hhigh.
  { intros H. apply (scaled_gt _ _ _ _ Hnb' Hf). apply Hlt in H.
    rewrite inject_Z_mult in H. change (inject_Z 2) with 2%Q in H. lra. }
  assert (k <> 0 -> (k =? 0) = false) as Hne by (intros H; by apply Z.eqb_neq).
  unfold new_location, located.
  destruct (Z.eq_dec k 0) as [->|Hk0].
  - assert (f == 0)%Q as Hf0.
    { apply (scaled_eq _ _ _ _ Hnb' Hf). change (inject_Z 0) with 0%Q. lra. }
    destruct (Z.even nb); unfold new_location_even, new_location_odd;
      cbn [Z.eqb shr_record_of_loc shr_r shr_s between]; lra.
  - assert (0 < f)%Q as Hf0 by (apply Hpos; lia).
    destruct (Z.even nb) eqn:Heven;
      unfold new_location_even, new_location_odd; rewrite (Hne Hk0).
    + destruct (Z.compare_spec (2 * k) nb) as [Heq|Hc|Hc];
        cbn [shr_record_of_loc shr_r shr_s between].
      * assert (f == 1 # 2)%Q as ->; [|lra].
        apply (scaled_eq _ _ _ _ Hnb' Hf). rewrite <- Heq, inject_Z_mult.
        change (inject_Z 2) with 2%Q. lra.
      * specialize (Hlow Hc). lra.
      * specialize (Hhigh Hc). lra.
    + assert (2 * k <> nb) as Hodd.
      { intros <-. rewrite Z.even_mul in Heven. discriminate Heven. }
      destruct (Z.compare_spec (2 * k + 1) nb) as [Heq|Hc|Hc];
        cbn [shr_record_of_loc shr_r shr_s between].
      * assert (f < 1 # 2)%Q by (apply Hlow; lia). lra.
      * assert (f < 1 # 2)%Q by (apply Hlow; lia). lra.
      * assert (1 # 2 < f)%Q by (apply Hhigh; lia). lra.
Qed.

(** The quotient and the remainder that the division rounds. *)
Lemma SFdiv_core_binary_spec mx ex my ey :
  exists q e' l X,
    SFdiv_core_binary prec emax (Z.pos mx) ex (Z.pos my) ey = (q, e', l)
    /\ 0 <= q /\ located q l X
    /\ (X * 2 ^ e' * (inject_Z (Z.pos my) * 2 ^ ey) == inject_Z (Z.pos mx) * 2 ^ ex)%Q
    /\ e' <= fexp prec emax (Zdigits2 q + e').
Proof.
  unfold SFdiv_core_binary. rewrite !fexp_eq.
  set (d1 := Zdigits2 (Z.pos mx)). set (d2 := Zdigits2 (Z.pos my)).
  set (e' := Z.min (Z.max (d1 + ex - (d2 + ey) - 53) (-1074)) (ex - ey)).
  set (s := ex - ey - e').
  assert (0 <= s) as Hs by (subst s e'; lia).
  set (m' := match s with Z.pos _ => Z.shiftl (Z.pos mx) s | 0 => Z.pos mx
                     | Z.neg _ => 0 end).
  assert (m' = Z.pos mx * 2 ^ s) as Hm'.
  { subst m'. destruct s as [|p|p] eqn:Es; [lia| |lia].
    by rewrite Z.shiftl_mul_pow2. }
  pose proof (Z_div_mod m' (Z.pos my) ltac:(lia)) as Hdiv.
  destruct (Z.div_eucl m' (Z.pos my)) as [q r] eqn:Ediv.
  destruct Hdiv as [Hdiv Hr].
  assert (0 < 2 ^ s) as Hpow by (apply Z.pow_pos_nonneg; lia).
  assert (0 <= q) as Hq by nia.
  set (f := (inject_Z r / inject_Z (Z.pos my))%Q).
  assert (~ inject_Z (Z.pos my) == 0)%Q as Hmy.
  { change 0%Q with (inject_Z 0). rewrite inject_Z_injective. lia. }
  assert (f * inject_Z (Z.pos my) == inject_Z r)%Q as Hf
    by (subst f; by field).
  exists q, e', (new_location (Z.pos my) r), (inject_Z q + f)%Q.
  split; [done|]. split; [done|].
  split; [apply new_location_located; [lia|lia|exact Hf]|]. split.
  - assert ((inject_Z q + f) * inject_Z (Z.pos my) == inject_Z (Z.pos mx) * 2 ^ s)%Q
      as HX.
    { rewrite Qmult_plus_distr_l, Hf, <- inject_Z_mult, <- inject_Z_plus.
      rewrite <- pow2_inject, <- inject_Z_mult by done.
      rewrite inject_Z_injective. lia. }
    assert (2 ^ ex == 2 ^ s * 2 ^ e' * 2 ^ ey)%Q as ->.
    { rewrite <- !pow2_add. f_equiv. subst s. lia. }
    revert HX. generalize (inject_Z q + f)%Q (inject_Z (Z.pos my)) (2 ^ e')%Q
      (2 ^ ey)%Q (inject_Z (Z.pos mx)) (2 ^ s)%Q.
    intros A B C D E F HX.
    assert (A * C * (B * D) == A * B * (C * D))%Q as -> by ring.
    rewrite HX. ring.
  - rewrite fexp_eq. destruct (Z.le_gt_cases e' (-1074)) as [|Hbig]; [lia|].
    assert (53 + d2 - d1 <= s) as Hs' by (subst s e'; lia).
    pose proof (Zdigits2_bounds (Z.pos mx) ltac:(lia)) as [Hlo _].
    pose proof (Zdigits2_bounds (Z.pos my) ltac:(lia)) as [_ Hhi].
    fold d1 in Hlo. fold d2 in Hhi.
    assert (1 <= d1) as Hd1 by (subst d1; cbn; lia).
    assert (1 <= d2) as Hd2 by (subst d2; cbn; lia).
    assert (2 ^ 52 * 2 ^ d2 <= m') as Hlow.
    { rewrite Hm', <- Z.pow_add_r by lia.
      apply Z.le_trans with (2 ^ (d1 - 1) * 2 ^ s).
      - rewrite <- Z.pow_add_r by lia. apply Z.pow_le_mono_r; lia.
      - apply Z.mul_le_mono_nonneg_r; lia. }
    assert (2 ^ 52 <= q) as Hq52.
    { assert (0 < 2 ^ d2) by (apply Z.pow_pos_nonneg; lia). 
      assert (0 < 2 ^ 52) by lia. nia. }
    pose proof (Zdigits2_bounds q ltac:(lia)) as [_ Hqhi].
    assert (53 <= Zdigits2 q); [|lia].
    destruct (Z.le_gt_cases 53 (Zdigits2 q)) as [|Hsmall]; [done|].
    pose proof (Zdigits2_nonneg q).
    assert (2 ^ Zdigits2 q <= 2 ^ 52) by (apply Z.pow_le_mono_r; lia). lia.
Qed.

(** The rounding error of a quotient: [vq] is the quotient of the values of
    [x] and [y]. *)
Lemma SFdiv_value x y vx vy vq :
  sf_exact x = Some vx -> sf_exact y = Some vy ->
  (~ vy == 0)%Q -> (vq * vy == vx)%Q ->
  (Qabs vq < 2 ^ 970)%Q ->
  exists w,
    sf_exact (SFdiv prec emax x y) = Some w
    /\ (Qabs (w - vq) <= rounding_error (Qabs vq))%Q.
Proof.
  intros Hx Hy Hy0 Hq Hbig.
  destruct x as [sx| | |sx mx ex], y as [sy| | |sy my ey]; try discriminate;
    cbn [sf_exact] in Hx, Hy; injection Hx as <-; injection Hy as <-;
    try (exfalso; apply Hy0; reflexivity); cbn [SFdiv].
  - assert (vq == 0)%Q as Hq0 by (apply Qmult_integral in Hq; by destruct Hq).
    exists 0%Q. split; [done|]. rewrite Hq0. by vm_compute.
  - destruct (SFdiv_core_binary_spec mx ex my ey)
      as (q & e' & l & X & -> & Hq0 & HX & Hval & Hfexp).
    pose proof (located_bounds q l X HX) as [HXlo _].
    assert (0 <= X * 2 ^ e')%Q as HV.
    { apply Qmult_le_0_compat; [|pose proof (pow2_pos e'); lra].
      apply Qle_trans with (inject_Z q); [|done]. rewrite <- (Zle_Qle 0). lia. }
    assert (vq == signed (xorb sx sy) (X * 2 ^ e'))%Q as Hsign.
    { apply (Qmult_inj_r _ _ _ Hy0). rewrite Hq.
      revert Hval. generalize (X * 2 ^ e')%Q (inject_Z (Z.pos my)) (2 ^ ey)%Q
        (inject_Z (Z.pos mx)) (2 ^ ex)%Q. intros A B C D E Hval.
      destruct sx, sy; cbn [xorb signed].
      + assert (- D * E == - (D * E))%Q as -> by ring. rewrite <- Hval. ring.
      + assert (- D * E == - (D * E))%Q as -> by ring. rewrite <- Hval. ring.
      + rewrite <- Hval. ring.
      + rewrite <- Hval. ring. }
    rewrite Hsign, signed_abs in Hbig by done.
    destruct (rounded_value (xorb sx sy) q e' l X Hq0 HX Hbig (or_intror Hfexp))
      as (w & Hw & He).
    exists w. split; [exact Hw|]. rewrite Hsign, signed_abs by done. exact He.
Qed.

(** ** The arithmetic of the numbers *)

Lemma exact_sf x : exact x = sf_exact (Prim2SF x).
Proof. unfold exact. by destruct (Prim2SF x). Qed.

(** One rounding of a value of size at most [M] errs by at most
    [(M + 1) / 2^53]. *)
Lemma rounding_error_linear v M :
  (- M <= v <= M)%Q ->
  (rounding_error (Qabs v) <= (M + 1) * (1 # 9007199254740992))%Q.
Proof.
  intros [Hlo Hhi]. unfold rounding_error.
  assert (Qabs v <= M)%Q as Habs by (apply Qabs_Qle_condition; done).
  pose proof (Qabs_nonneg v) as H0.
  assert (2 ^ (-53) == 1 # 9007199254740992)%Q as -> by reflexivity.
  assert (2 ^ (-1075) <= 1 # 9007199254740992)%Q as H1075.
  { apply Qle_trans with (2 ^ (-53))%Q; [apply pow2_le; lia|].
    assert (2 ^ (-53) == 1 # 9007199254740992)%Q as -> by reflexivity. lra. }
  revert Habs H0 H1075. generalize (Qabs v) (2 ^ (-1075))%Q. intros A C HA H0 HC. lra.
Qed.

Lemma close_from_abs w v M :
  (- M <= v <= M)%Q ->
  (Qabs (w - v) <= rounding_error (Qabs v))%Q ->
  (- ((M + 1) * (1 # 9007199254740992)) <= w - v
   <= (M + 1) * (1 # 9007199254740992))%Q.
Proof.
  intros HM He. apply Qabs_Qle_condition.
  eapply Qle_trans; [exact He|]. by apply rounding_error_linear.
Qed.

Lemma abs_small v M :
  (- M <= v <= M)%Q -> (M <= inject_Z (10 ^ 16))%Q -> (Qabs v < 2 ^ 970)%Q.
Proof.
  intros HM Hsmall.
  assert (Qabs v <= M)%Q as Habs by (apply Qabs_Qle_condition; done).
  apply Qle_lt_trans with (inject_Z (10 ^ 16)); [lra|].
  apply Qlt_le_trans with (2 ^ 54)%Q; [by vm_compute|]. apply pow2_le. lia.
Qed.

(** A product, a quotient and a difference of two numbers, of size at most
    [M], are numbers, within [(M + 1) / 2^53] of the exact result [v]. *)
Lemma mul_close (x y : float) vx vy v M :
  exact x = Some vx -> exact y = Some vy -> (v == vx * vy)%Q ->
  (- M <= v <= M)%Q -> (M <= inject_Z (10 ^ 16))%Q ->
  exists w, exact (x * y)%float = Some w
            /\ (- ((M + 1) * (1 # 9007199254740992)) <= w - v
                <= (M + 1) * (1 # 9007199254740992))%Q.
Proof.
  intros Hx Hy Hv HM Hsmall. rewrite exact_sf in Hx, Hy.
  destruct (SFmul_value _ _ _ _ Hx Hy) as (w & Hw & He).
  { rewrite <- Hv. by apply (abs_small v M). }
  exists w. split; [by rewrite exact_sf, FloatAxioms.mul_spec|].
  rewrite <- Hv in He. by apply close_from_abs.
Qed.

Lemma div_close (x y : float) vx vy v M :
  exact x = Some vx -> exact y = Some vy -> (~ vy == 0)%Q -> (v * vy == vx)%Q ->
  (- M <= v <= M)%Q -> (M <= inject_Z (10 ^ 16))%Q ->
  exists w, exact (x / y)%float = Some w
            /\ (- ((M + 1) * (1 # 9007199254740992)) <= w - v
                <= (M + 1) * (1 # 9007199254740992))%Q.
Proof.
  intros Hx Hy Hy0 Hv HM Hsmall. rewrite exact_sf in Hx, Hy.
  destruct (SFdiv_value _ _ _ _ v Hx Hy Hy0 Hv) as (w & Hw & He).
  { by apply (abs_small v M). }
  exists w. split; [by rewrite exact_sf, FloatAxioms.div_spec|].
  by apply close_from_abs.
Qed.

Lemma sub_close (x y : float) vx vy v M :
  exact x = Some vx -> exact y = Some vy -> (v == vx - vy)%Q ->
  (- M <= v <= M)%Q -> (M <= inject_Z (10 ^ 16))%Q ->
  exists w, exact (x - y)%float = Some w
            /\ (- ((M + 1) * (1 # 9007199254740992)) <= w - v
                <= (M + 1) * (1 # 9007199254740992))%Q.
Proof.
  intros Hx Hy Hv HM Hsmall. rewrite exact_sf in Hx, Hy.
  destruct (SFsub_value _ _ _ _ Hx Hy) as (w & Hw & He).
  { rewrite <- Hv. by apply (abs_small v M). }
  exists w. split; [by rewrite exact_sf, FloatAxioms.sub_spec|].
  rewrite <- Hv in He. by apply close_from_abs.
Qed.

Lemma exact_100 : exists c, exact 100%float = Some c /\ (c == 100)%Q.
Proof. eexists. split; [by vm_compute|by vm_compute]. Qed.

(** ** The amounts of [calculateTotals] *)

Lemma product_range a b A B :
  (0 <= A)%Q -> (- A <= a <= A)%Q -> (0 <= b <= B)%Q -> (- (A * B) <= a * b <= A * B)%Q.
Proof. intros HA Ha Hb. split; nra. Qed.

(** The three amounts of a sum of at most 10^12 with a discount of at most
    100 per cent, in cents before the rounding: they agree within half a
    cent, and the discount on the rounded sum is less than a cent away. *)
Lemma amounts_close (raw d : float) vs vd :
  exact raw = Some vs -> exact d = Some vd ->
  (0 <= vs <= 1000000000000)%Q -> (0 <= vd <= 100)%Q ->
  exists vS vD vT vD',
    exact (raw * 100)%float = Some vS
    /\ exact (raw * d / 100 * 100)%float = Some vD
    /\ exact ((raw - raw * d / 100) * 100)%float = Some vT
    /\ exact (round2 raw * d / 100 * 100)%float = Some vD'
    /\ (- (1 # 2) < vT - (vS - vD) < 1 # 2)%Q
    /\ (-1 < vD - vD' < 1)%Q
    /\ (- 150000000000000 <= vS <= 150000000000000)%Q
    /\ (- 150000000000000 <= vD <= 150000000000000)%Q
    /\ (- 150000000000000 <= vT <= 150000000000000)%Q
    /\ (- 150000000000000 <= vD' <= 150000000000000)%Q.
Proof.
  intros Hraw Hd Hs Hvd.
  destruct exact_100 as (c & Hc & Hc100).
  assert (~ c == 0)%Q as Hc0 by lra.
  pose proof (product_range vs vd 1000000000000 100 ltac:(lra) ltac:(lra) Hvd) as Hp.
  assert (0 <= vs * vd)%Q as Hp0 by (apply Qmult_le_0_compat; lra).
  destruct (mul_close raw d vs vd (vs * vd) 100000000000000 Hraw Hd)
    as (w1 & Hw1 & E1); [reflexivity|lra|by vm_compute|].
  destruct (div_close (raw * d) 100 w1 c (w1 * (1 # 100)) 1000000000001 Hw1 Hc Hc0)
    as (wD & HwD & ED); [rewrite Hc100; ring|lra|by vm_compute|].
  destruct (sub_close raw (raw * d / 100) vs wD (vs - wD) 2000000000000 Hraw HwD)
    as (wT & HwT & ET); [reflexivity|lra|by vm_compute|].
  destruct (mul_close raw 100 vs c (vs * 100) 100000000000000 Hraw Hc)
    as (vS & HvS & ES); [by rewrite Hc100|lra|by vm_compute|].
  destruct (mul_close (raw * d / 100) 100 wD c (wD * 100) 100000000001000 HwD Hc)
    as (vD & HvD & EvD); [by rewrite Hc100|lra|by vm_compute|].
  destruct (mul_close (raw - raw * d / 100) 100 wT c (wT * 100) 300000000000000 HwT Hc)
    as (vT & HvT & EvT); [by rewrite Hc100|lra|by vm_compute|].
  destruct (round_nearest (raw * 100) vS HvS) as (wc & Hwc & En).
  pose proof (nearest_bounds vS) as Hn. rewrite <- En in Hn.
  destruct (div_close (JsNumber.round (raw * 100)) 100 wc c (wc * (1 # 100))
              1000000000001 Hwc Hc Hc0)
    as (ws & Hws & Es); [rewrite Hc100; ring|lra|by vm_compute|].
  assert (- (6 # 1000) <= ws - vs <= 6 # 1000)%Q as Hnear by lra.
  pose proof (product_range (ws - vs) vd (6 # 1000) 100 ltac:(lra) Hnear Hvd) as Hq.
  destruct (mul_close (round2 raw) d ws vd (ws * vd) 100000000001000 Hws Hd)
    as (w1' & Hw1' & E1'); [reflexivity|lra|by vm_compute|].
  destruct (div_close (round2 raw * d) 100 w1' c (w1' * (1 # 100)) 1000000000100
              Hw1' Hc Hc0)
    as (wD' & HwD' & ED'); [rewrite Hc100; ring|lra|by vm_compute|].
  destruct (mul_close (round2 raw * d / 100) 100 wD' c (wD' * 100) 100000000100000
              HwD' Hc)
    as (vD' & HvD' & EvD'); [by rewrite Hc100|lra|by vm_compute|].
  exists vS, vD, vT, vD'. repeat (split; [done|]).
  split; [lra|]. split; [lra|]. split; [lra|]. split; [lra|]. split; [lra|]. lra.
Qed.

End NumberFacts.

(* ===================================================================== *)
(** * [QuoteHelper]: quote numbers and totals *)
(* ===================================================================== *)

Module QuoteHelperFacts.
Import JsDate Spec QuoteHelper NumberFacts.
Local Open Scope string_scope.

(** ** Substrings *)

Lemma append_cons c (s r : string) : String c s ++ r = String c (s ++ r).
Proof. reflexivity. Qed.

Lemma prefix_spec p : forall s,
  String.prefix p s = true <-> exists post, s = p ++ post.
Proof.
  induction p as [|c p IH]; intros s.
  - split; [intros _; exists s; reflexivity|intros _; by destruct s].
  - destruct s as [|c' s]; cbn [String.prefix].
    + split; [discriminate|intros [post H]; discriminate H].
    + destruct (ascii_dec c c') as [<-|Hne].
      * rewrite IH. split; intros [post H]; exists post.
        -- by rewrite append_cons, <- H.
        -- rewrite append_cons in H. by injection H.
      * split; [discriminate|]. intros [post H]. rewrite append_cons in H.
        injection H as -> _. done.
Qed.

(** [includes] decides [contains]. *)
Lemma includes_spec sub : forall s,
  JsString.includes sub s = true <-> contains sub s.
Proof.
  unfold contains. induction s as [|c s IH]; cbn [JsString.includes].
  - rewrite orb_false_r, prefix_spec. split.
    + intros [post H]. by exists "", post.
    + intros (pre & post & H). destruct pre as [|? ?]; [|discriminate H].
      by exists post.
  - rewrite orb_true_iff, prefix_spec, IH. split.
    + intros [[post H]|(pre & post & H)].
      * by exists "", post.
      * exists (String c pre), post. by rewrite append_cons, <- H.
    + intros (pre & post & H). destruct pre as [|c' pre].
      * left. by exists post.
      * right. exists pre, post. rewrite append_cons in H. by injection H.
Qed.

(** ** [generateQuoteNumber] *)

Lemma has_valid_number_spec q :
  has_valid_number q = true <->
  exists n, numero q = Some n /\ n <> "" /\ ~ contains placeholder_marker n.
Proof.
  unfold has_valid_number. destruct (numero q) as [n|].
  - rewrite andb_true_iff, negb_true_iff, <- not_true_iff_false, includes_spec.
    split.
    + intros [Ht Hc]. exists n. split; [done|]. split; [|done]. by destruct n.
    + intros (n' & [= <-] & Hne & Hc). split; [|done]. by destruct n.
  - split; [discriminate|]. by intros (n & [=] & _).
Qed.

(** ** The marker and the generated numbers *)

Lemma without_m_app (a b : string) :
  without_m (a ++ b) = without_m a && without_m b.
Proof.
  unfold without_m. induction a as [|c a IH]; [done|].
  rewrite append_cons. cbn [all_chars]. by rewrite IH, andb_assoc.
Qed.

Lemma without_m_digits d : without_m (NilEmpty.string_of_uint d) = true.
Proof. induction d; cbn; done. Qed.

Lemma without_m_uint d : without_m (NilZero.string_of_uint d) = true.
Proof. destruct d; try done; apply (without_m_digits (_ d)). Qed.

Lemma without_m_ofZ z : without_m (JsString.ofZ z) = true.
Proof.
  unfold JsString.ofZ. destruct (Z.to_int z) as [d|d]; cbn [NilZero.string_of_int].
  - apply without_m_uint.
  - apply (without_m_uint d).
Qed.

Lemma without_m_padStart2 s : without_m s = true -> without_m (JsString.padStart2 s) = true.
Proof.
  intros H. unfold JsString.padStart2.
  destruct (String.length s) as [|[|n]]; [done| |done].
  by rewrite without_m_app, H.
Qed.

Lemma without_m_padZeros n s : without_m s = true -> without_m (JsString.padZeros n s) = true.
Proof.
  intros H. unfold JsString.padZeros. rewrite without_m_app, H, andb_true_r.
  induction (n - String.length s)%nat as [|k IH]; [done|]. exact IH.
Qed.

Lemma without_m_substring s : forall n k,
  without_m s = true -> without_m (substring n k s) = true.
Proof.
  unfold without_m. induction s as [|c s IH]; intros n k H.
  - by destruct n, k.
  - cbn [all_chars] in H. apply andb_true_iff in H as [Hc Hs].
    destruct n as [|n]; cbn [substring].
    + destruct k as [|k]; [done|]. cbn [all_chars]. by rewrite Hc, IH.
    + by apply IH.
Qed.

Lemma without_m_removeDashes s :
  without_m s = true -> without_m (JsString.removeDashes s) = true.
Proof.
  unfold without_m. induction s as [|c s IH]; [done|]. cbn [all_chars JsString.removeDashes].
  intros [Hc Hs]%andb_true_iff. destruct (Ascii.eqb c "-"); [by apply IH|].
  cbn [all_chars]. by rewrite Hc, IH.
Qed.

(** The upper case of a name: small letters with an accent have capitals
    too (233 to 201), and the sharp s (223) becomes [SS]. *)
Example toUpperCase_accented :
  JsString.toUpperCase (String "233" (String "223" "a")) = String "201" "SSA".
Proof. by vm_compute. Qed.

Lemma upper_not_m c : Ascii.eqb (JsString.upper c) "m" = false.
Proof. by destruct c as [[] [] [] [] [] [] [] []]. Qed.

Lemma without_m_toUpperCase s : without_m (JsString.toUpperCase s) = true.
Proof.
  unfold without_m. induction s as [|c s IH]; [done|]. cbn [JsString.toUpperCase].
  destruct (Nat.eqb (nat_of_ascii c) 223); cbn [all_chars].
  - exact IH.
  - by rewrite upper_not_m, IH.
Qed.

Lemma without_m_toISOString d iso : toISOString d = inr iso -> without_m iso = true.
Proof.
  destruct d as [t|]; [|discriminate]. intros [= <-].
  assert (without_m (isoYear (YearFromTime t)) = true) as Hy.
  { unfold isoYear. repeat case_match; rewrite ?without_m_app;
      by rewrite without_m_padZeros by apply without_m_ofZ. }
  rewrite !without_m_app, Hy.
  rewrite !without_m_padStart2 by apply without_m_ofZ.
  by rewrite without_m_padZeros by apply without_m_ofZ.
Qed.

Lemma without_m_getCurrentDateString h now :
  without_m (DateHelper.getCurrentDateString h now) = true.
Proof.
  unfold DateHelper.getCurrentDateString, DateHelper.formatDateToYYYYMMDD.
  destruct (TimeClip now) as [t|]; [|done].
  rewrite !without_m_app, without_m_ofZ.
  by rewrite !without_m_padStart2 by apply without_m_ofZ.
Qed.

(** A string that holds the marker holds an [m]. *)
Lemma contains_marker_m s : contains placeholder_marker s -> without_m s = false.
Proof.
  intros (pre & post & ->). rewrite !without_m_app.
  by rewrite andb_false_r.
Qed.

(** What is generated for a quote whose number is not taken. *)
Lemma generated_number h now q cliente :
  has_valid_number q = false ->
  generateQuoteNumber h now (Some q) cliente
    = generateQuoteNumber h now (Some (unnumbered q)) cliente
  /\ JsString.startsWith "COT-001-" (generateQuoteNumber h now (Some q) cliente) = true
  /\ without_m (generateQuoteNumber h now (Some q) cliente) = true.
Proof.
  intros Hv. unfold generateQuoteNumber, generateQuoteNumber_try.
  rewrite Hv. cbn [has_valid_number unnumbered numero created_at createdAt titulo].
  split; [done|].
  destruct (toISOString _) as [e|iso] eqn:Hiso.
  - split; [by apply prefix_spec; eexists|].
    rewrite !without_m_app, without_m_removeDashes by apply without_m_getCurrentDateString.
    done.
  - split; [by apply prefix_spec; eexists|].
    rewrite !without_m_app.
    rewrite without_m_removeDashes
      by (apply without_m_substring; by eapply without_m_toISOString).
    unfold token. by rewrite !without_m_toUpperCase.
Qed.

(** C10.  [generateQuoteNumber] takes the number of a quote for a real one
    exactly when it is not empty and does not contain the marker
    [mvG2cFN4sBXIfjxxnYAL].  Every such number, whatever its format, is
    returned as it is, for every client, host and clock reading; and no
    other number is: when the call returns the number of the quote, the
    number is not empty and does not contain the marker.  For a quote whose
    number is missing, empty or a placeholder, the result is the one for the
    quote without number: it starts with [COT-001-] and does not contain the
    marker. *)
Theorem existing_number_returned_unchanged q :
  (has_valid_number q = true <->
   exists n, numero q = Some n /\ n <> "" /\ ~ contains placeholder_marker n)
  /\ (forall n h now cliente,
        numero q = Some n -> n <> "" -> ~ contains placeholder_marker n ->
        generateQuoteNumber h now (Some q) cliente = n)
  /\ (forall n h now cliente,
        numero q = Some n ->
        generateQuoteNumber h now (Some q) cliente = n ->
        n <> "" /\ ~ contains placeholder_marker n)
  /\ (forall h now cliente,
        ~ (exists n, numero q = Some n /\ n <> "" /\ ~ contains placeholder_marker n) ->
        generateQuoteNumber h now (Some q) cliente
          = generateQuoteNumber h now (Some (unnumbered q)) cliente
        /\ JsString.startsWith "COT-001-" (generateQuoteNumber h now (Some q) cliente)
           = true
        /\ ~ contains placeholder_marker (generateQuoteNumber h now (Some q) cliente)).
Proof.
  split; [apply has_valid_number_spec|].
  split.
  { intros n h now cliente Hn Hne Hc.
    assert (has_valid_number q = true) as Hv.
    { apply has_valid_number_spec. by exists n. }
    unfold generateQuoteNumber, generateQuoteNumber_try. rewrite Hv, Hn.
    unfold str_or. by destruct n. }
  assert (forall h now cliente,
            has_valid_number q = false ->
            ~ contains placeholder_marker (generateQuoteNumber h now (Some q) cliente))
    as Hfree.
  { intros h now cliente Hv Hc%contains_marker_m.
    destruct (generated_number h now q cliente Hv) as (_ & _ & Hm). congruence. }
  split.
  - intros n h now cliente Hn Hres.
    destruct (has_valid_number q) eqn:Hv in |- *.
    + apply has_valid_number_spec in Hv as (n' & Hn' & Hne & Hc).
      assert (n' = n) as -> by congruence. done.
    + exfalso. destruct (generated_number h now q cliente Hv) as (_ & Hpre & _).
      pose proof (Hfree h now cliente Hv) as Hc. rewrite Hres in Hpre, Hc.
      assert (has_valid_number q = true); [|congruence].
      apply has_valid_number_spec. exists n. split; [done|]. split; [|done].
      intros ->. discriminate Hpre.
  - intros h now cliente Hno.
    assert (has_valid_number q = false) as Hv.
    { apply not_true_is_false. by intros H%has_valid_number_spec. }
    destruct (generated_number h now q cliente Hv) as (Hsame & Hpre & _).
    split; [done|]. split; [done|]. by apply Hfree.
Qed.

Lemma existing_number_returned_unchanged_witness :
  generateQuoteNumber Examples.buenos_aires Examples.a_clock_reading
    (Some (Examples.numbered "  ¿#?? 17 ")) None = "  ¿#?? 17 "
  /\ generateQuoteNumber Examples.buenos_aires Examples.a_clock_reading
       (Some (Examples.numbered "COT-mvG2cFN4sBXIfjxxnYAL")) None
     = generateQuoteNumber Examples.buenos_aires Examples.a_clock_reading
         (Some (unnumbered (Examples.numbered "COT-mvG2cFN4sBXIfjxxnYAL"))) None.
Proof.
  split.
  - apply (proj1 (proj2 (existing_number_returned_unchanged
                           (Examples.numbered "  ¿#?? 17 ")))).
    + reflexivity.
    + discriminate.
    + intros H%includes_spec. by vm_compute in H.
  - apply (proj2 (proj2 (proj2 (existing_number_returned_unchanged
                                  (Examples.numbered "COT-mvG2cFN4sBXIfjxxnYAL"))))).
    intros (n & [= <-] & _ & Hc). apply Hc. by exists "COT-", "".
Defined.

(** A number of no known format is kept; one that carries the marker is
    generated anew. *)
Example malformed_number_kept :
  generateQuoteNumber Examples.buenos_aires Examples.a_clock_reading
    (Some (Examples.numbered "  ¿#?? 17 ")) None = "  ¿#?? 17 ".
Proof. reflexivity. Qed.

Example placeholder_number_regenerated :
  generateQuoteNumber Examples.buenos_aires Examples.a_clock_reading
    (Some (Examples.numbered "COT-mvG2cFN4sBXIfjxxnYAL"))
    (Some {| id := "c1"; nombre := "Acme Corp"; empresa := None |})
  = "COT-001-20240305-ACMECORP-GALAANUAL".
Proof. reflexivity. Qed.

(** C8 (the code against its test).  Whenever the [try] block throws, as
    it does on a [null] quote, the [catch] block returns
    [COT-001-<local date>-CLIENTE-EVENTO]; the specification and the test of
    the repository ("should handle error in generation") expect a number
    that starts with [COT-ERROR-]. *)
Theorem error_fallback_is_not_COT_ERROR h now cotizacion cliente e :
  generateQuoteNumber_try h now cotizacion cliente = inl e ->
  generateQuoteNumber h now cotizacion cliente
    = "COT-001-" ++ JsString.removeDashes (DateHelper.getCurrentDateString h now)
      ++ "-CLIENTE-EVENTO"
  /\ JsString.startsWith "COT-ERROR-" (generateQuoteNumber h now cotizacion cliente)
     = false.
Proof.
  intros He. unfold generateQuoteNumber. rewrite He. by split.
Qed.

Lemma error_fallback_is_not_COT_ERROR_witness :
  generateQuoteNumber_try Examples.buenos_aires Examples.a_clock_reading
    (Some Examples.sin_fecha) None = inl RangeError
  /\ generateQuoteNumber Examples.buenos_aires Examples.a_clock_reading
       (Some Examples.sin_fecha) None
     = "COT-001-20240305-CLIENTE-EVENTO"
  /\ JsString.startsWith "COT-ERROR-"
       (generateQuoteNumber Examples.buenos_aires Examples.a_clock_reading
          (Some Examples.sin_fecha) None)
     = false.
Proof.
  split; [reflexivity|].
  exact (error_fallback_is_not_COT_ERROR
           Examples.buenos_aires Examples.a_clock_reading
           (Some Examples.sin_fecha) None RangeError eq_refl).
Defined.

(** The [null] quote of the test takes the same way out. *)
Example error_fallback_on_null :
  generateQuoteNumber Examples.buenos_aires Examples.a_clock_reading None None
  = "COT-001-20240305-CLIENTE-EVENTO".
Proof. reflexivity. Qed.

(** ** [calculateTotals] *)

Local Open Scope float_scope.

Example calculateTotals_spec_example :
  calculateTotals [Examples.item 2 100; Examples.item 1 50] 10
  = {| subtotal := 250; descuentoMonto := 25; total := 225 |}.
Proof. vm_compute. reflexivity. Qed.

(** Zeros stay zeros through the rounding to two decimals. *)
Lemma round2_zero x s : Prim2SF x = S754_zero s -> Prim2SF (round2 x) = S754_zero s.
Proof.
  intros H. unfold round2.
  assert (Prim2SF (x * 100) = S754_zero s) as H100.
  { rewrite FloatAxioms.mul_spec, H. by destruct s. }
  assert (JsNumber.round (x * 100) = x * 100) as ->.
  { unfold JsNumber.round. by rewrite H100. }
  rewrite FloatAxioms.div_spec, H100. by destruct s.
Qed.

(** Without discount, on a sum that is finite and not zero, the discount
    on the sum is a zero and the sum less that discount is the sum. *)
Lemma calculateTotals_without_discount items s m e :
  Prim2SF (raw_subtotal items) = S754_finite s m e ->
  total (calculateTotals items 0) = subtotal (calculateTotals items 0)
  /\ PrimFloat.eqb (descuentoMonto (calculateTotals items 0)) 0 = true.
Proof.
  intros HS. unfold calculateTotals. cbn [total subtotal descuentoMonto].
  assert (Prim2SF (raw_subtotal items * 0 / 100) = S754_zero s) as HD.
  { rewrite FloatAxioms.div_spec, FloatAxioms.mul_spec, HS. by destruct s. }
  split.
  - f_equal. apply Prim2SF_inj. by rewrite FloatAxioms.sub_spec, HS, HD.
  - rewrite FloatAxioms.eqb_spec, (round2_zero _ s HD). by destruct s.
Qed.

(** The value of an amount of [n] cents. *)
Lemma cents_value c n :
  stands_for c n ->
  (- 200000000000000 <= inject_Z n <= 200000000000000)%Q ->
  exists w, exact (c / 100) = Some w
            /\ (- (3 # 10000) <= w - inject_Z n * (1 # 100) <= 3 # 10000)%Q.
Proof.
  intros (wc & Hwc & En) Hn. destruct exact_100 as (h & Hh & Hh100).
  assert (~ h == 0)%Q as Hh0 by lra.
  destruct (div_close c 100 wc h (wc * (1 # 100)) 2000000000000 Hwc Hh Hh0)
    as (w & Hw & Ew); [rewrite Hh100; ring|lra|by vm_compute|].
  exists w. split; [done|]. lra.
Qed.

Lemma nearest_range v :
  (- 150000000000000 <= v <= 150000000000000)%Q ->
  (- 200000000000000 <= inject_Z (nearest v) <= 200000000000000)%Q.
Proof. intros Hv. pose proof (nearest_bounds v) as Hn. lra. Qed.

(** The returned amounts of a sum of at most 10^12 with a discount of at
    most 100 per cent. *)
Lemma calculateTotals_within_a_cent items descuento vs vd :
  exact (raw_subtotal items) = Some vs -> exact descuento = Some vd ->
  (0 <= vs <= 1000000000000)%Q -> (0 <= vd <= 100)%Q ->
  exists vS vD vT vD',
    exact (raw_subtotal items * 100) = Some vS
    /\ exact (raw_subtotal items * descuento / 100 * 100) = Some vD
    /\ exact ((raw_subtotal items - raw_subtotal items * descuento / 100) * 100)
       = Some vT
    /\ exact (subtotal (calculateTotals items descuento) * descuento / 100 * 100)
       = Some vD'
    /\ (-1 <= nearest vT - (nearest vS - nearest vD) <= 1)%Z
    /\ (-1 <= nearest vD - nearest vD' <= 1)%Z
    /\ exists s dm t,
         exact (subtotal (calculateTotals items descuento)) = Some s
         /\ exact (descuentoMonto (calculateTotals items descuento)) = Some dm
         /\ exact (total (calculateTotals items descuento)) = Some t
         /\ (- (11 # 1000) <= t - (s - dm) <= 11 # 1000)%Q
         /\ exists dm',
              exact (round2 (subtotal (calculateTotals items descuento)
                             * descuento / 100)) = Some dm'
              /\ (- (11 # 1000) <= dm - dm' <= 11 # 1000)%Q.
Proof.
  intros Hraw Hd Hs Hvd.
  destruct (amounts_close _ _ _ _ Hraw Hd Hs Hvd)
    as (vS & vD & vT & vD' & HS & HD & HT & HD' & Hrel & Hrel' & RS & RD & RT & RD').
  exists vS, vD, vT, vD'. cbn [calculateTotals subtotal descuentoMonto total].
  repeat (split; [done|]).
  pose proof (nearest_difference _ _ _ Hrel) as Hcents.
  pose proof (nearest_close _ _ Hrel') as Hcents'.
  split; [exact Hcents|]. split; [exact Hcents'|].
  destruct (cents_value _ _ (round_nearest _ _ HS) (nearest_range _ RS))
    as (s & Hs' & Es).
  destruct (cents_value _ _ (round_nearest _ _ HD) (nearest_range _ RD))
    as (dm & Hdm & Edm).
  destruct (cents_value _ _ (round_nearest _ _ HT) (nearest_range _ RT))
    as (t & Ht & Et).
  exists s, dm, t. repeat (split; [done|]).
  assert (inject_Z (-1) <= inject_Z (nearest vT - (nearest vS - nearest vD))
          <= inject_Z 1)%Q as Hq by (split; rewrite <- Zle_Qle; lia).
  replace (nearest vT - (nearest vS - nearest vD))%Z
    with (nearest vT + (- nearest vS + nearest vD))%Z in Hq by lia.
  rewrite !inject_Z_plus, inject_Z_opp in Hq.
  change (inject_Z (-1)) with (-1)%Q in Hq. change (inject_Z 1) with 1%Q in Hq.
  split; [lra|].
  destruct (cents_value _ _ (round_nearest _ _ HD') (nearest_range _ RD'))
    as (dm' & Hdm' & Edm').
  exists dm'. split; [done|].
  assert (inject_Z (-1) <= inject_Z (nearest vD - nearest vD') <= inject_Z 1)%Q
    as Hq' by (split; rewrite <- Zle_Qle; lia).
  replace (nearest vD - nearest vD')%Z with (nearest vD + - nearest vD')%Z in Hq'
    by lia.
  rewrite inject_Z_plus, inject_Z_opp in Hq'.
  change (inject_Z (-1)) with (-1)%Q in Hq'. change (inject_Z 1) with 1%Q in Hq'.
  lra.
Qed.

(** C5, as the code has it.  Each of the three fields is a whole number of
    cents, divided by 100: the closest integer (a tie going up) to 100 times
    an amount that is not rounded, which is the sum for [subtotal], the
    discount on that sum for [descuentoMonto] and that sum less that
    discount for [total].  The fields are rounded one by one, so that
    [total] need not be [subtotal - descuentoMonto].  On a sum from 0 to
    10^12 with a discount from 0 to 100 per cent, the four products by 100
    are finite, the cents of [total] are within one of the cents of
    [subtotal] less those of [descuentoMonto], the cents of
    [descuentoMonto] are within one of those of the discount on the
    returned [subtotal], and the returned values agree within 0.011:
    [total] with [subtotal - descuentoMonto], and [descuentoMonto] with the
    rounded discount on the returned [subtotal].  Without discount, and on
    a sum that is finite and not zero, [total] is [subtotal] and
    [descuentoMonto] is zero. *)
Theorem calculateTotals_rounds_each_field items descuento :
  (forall vS vD vT,
     exact (raw_subtotal items * 100) = Some vS ->
     exact (raw_subtotal items * descuento / 100 * 100) = Some vD ->
     exact ((raw_subtotal items - raw_subtotal items * descuento / 100) * 100) = Some vT ->
     is_cents (nearest vS) (subtotal (calculateTotals items descuento))
     /\ is_cents (nearest vD) (descuentoMonto (calculateTotals items descuento))
     /\ is_cents (nearest vT) (total (calculateTotals items descuento)))
  /\ (forall vs vd,
        exact (raw_subtotal items) = Some vs -> exact descuento = Some vd ->
        (0 <= vs <= 1000000000000)%Q -> (0 <= vd <= 100)%Q ->
        exists vS vD vT vD',
          exact (raw_subtotal items * 100) = Some vS
          /\ exact (raw_subtotal items * descuento / 100 * 100) = Some vD
          /\ exact ((raw_subtotal items - raw_subtotal items * descuento / 100) * 100)
             = Some vT
          /\ exact (subtotal (calculateTotals items descuento) * descuento / 100 * 100)
             = Some vD'
          /\ is_cents (nearest vD')
               (round2 (subtotal (calculateTotals items descuento) * descuento / 100))
          /\ (-1 <= nearest vT - (nearest vS - nearest vD) <= 1)%Z
          /\ (-1 <= nearest vD - nearest vD' <= 1)%Z
          /\ exists s dm t dm',
               exact (subtotal (calculateTotals items descuento)) = Some s
               /\ exact (descuentoMonto (calculateTotals items descuento)) = Some dm
               /\ exact (total (calculateTotals items descuento)) = Some t
               /\ exact (round2 (subtotal (calculateTotals items descuento)
                                 * descuento / 100)) = Some dm'
               /\ (- (11 # 1000) <= t - (s - dm) <= 11 # 1000)%Q
               /\ (- (11 # 1000) <= dm - dm' <= 11 # 1000)%Q)
  /\ (forall s m e,
        descuento = 0 ->
        Prim2SF (raw_subtotal items) = S754_finite s m e ->
        total (calculateTotals items descuento)
          = subtotal (calculateTotals items descuento)
        /\ PrimFloat.eqb (descuentoMonto (calculateTotals items descuento)) 0 = true).
Proof.
  split; [|split].
  - intros vS vD vT HS HD HT.
    split; [by apply round2_cents|]. split; by apply round2_cents.
  - intros vs vd Hraw Hd Hs Hvd.
    destruct (calculateTotals_within_a_cent items descuento vs vd Hraw Hd Hs Hvd)
      as (vS & vD & vT & vD' & HS & HD & HT & HD' & Hc & Hc' & s & dm & t
          & Hs' & Hdm & Ht & Hrel & dm' & Hdm' & Hrel').
    exists vS, vD, vT, vD'. repeat (split; [done|]).
    split; [by apply round2_cents|]. split; [done|]. split; [done|].
    exists s, dm, t, dm'. by repeat (split; [done|]).
  - intros s m e -> HS. by eapply calculateTotals_without_discount.
Qed.

Lemma calculateTotals_rounds_each_field_witness :
  is_cents 15 (subtotal (calculateTotals [Examples.item 1 0.15] 10))
  /\ is_cents 2 (descuentoMonto (calculateTotals [Examples.item 1 0.15] 10))
  /\ is_cents 14 (total (calculateTotals [Examples.item 1 0.15] 10))
  /\ exists s dm t,
       exact (subtotal (calculateTotals [Examples.item 1 0.15] 10)) = Some s
       /\ exact (descuentoMonto (calculateTotals [Examples.item 1 0.15] 10)) = Some dm
       /\ exact (total (calculateTotals [Examples.item 1 0.15] 10)) = Some t
       /\ (- (11 # 1000) <= t - (s - dm) <= 11 # 1000)%Q.
Proof.
  destruct (calculateTotals_rounds_each_field [Examples.item 1 0.15] 10)
    as (Hcents & Hclose & _).
  destruct (Hcents _ _ _ eq_refl eq_refl eq_refl) as (HS & HD & HT).
  split; [exact HS|]. split; [exact HD|]. split; [exact HT|].
  destruct (Hclose _ _ eq_refl eq_refl) as (vS & vD & vT & vD' & _ & _ & _ & _ & _
    & _ & _ & s & dm & t & dm' & Hs & Hdm & Ht & _ & Hrel & _).
  - by vm_compute.
  - by vm_compute.
  - exists s, dm, t. split; [exact Hs|]. split; [exact Hdm|]. split; [exact Ht|].
    exact Hrel.
Defined.

(** C5, as stated, fails.  One unit at 0.15 with a discount of 10 percent:
    the fields are 0.15, 0.02 and 0.14, and 0.15 - 0.02 is not 0.14.  One
    unit at 0.106 with a discount of 50 percent: the fields are 0.11 and
    0.05, and the discount on the returned subtotal rounds to 0.06. *)
Lemma calculateTotals_fields_disagree :
  calculateTotals [Examples.item 1 0.15] 10
    = {| subtotal := 0.15; descuentoMonto := 0.02; total := 0.14 |}
  /\ PrimFloat.eqb
       (total (calculateTotals [Examples.item 1 0.15] 10))
       (subtotal (calculateTotals [Examples.item 1 0.15] 10)
        - descuentoMonto (calculateTotals [Examples.item 1 0.15] 10)) = false
  /\ subtotal (calculateTotals [Examples.item 1 0.106] 50) = 0.11
  /\ descuentoMonto (calculateTotals [Examples.item 1 0.106] 50) = 0.05
  /\ round2 (subtotal (calculateTotals [Examples.item 1 0.106] 50) * 50 / 100) = 0.06.
Proof. vm_compute. repeat split. Qed.

End QuoteHelperFacts.

(* ===================================================================== *)
(** * [QuoteTrackingService]: status transitions *)
(* ===================================================================== *)

Module QuoteTrackingFacts.
Import Firestore Spec QuoteTrackingService.

(** The table of the code is the table of the specification. *)
Lemma isValidStatusTransition_allowed a b :
  isValidStatusTransition a b = true <-> allowed a b.
Proof.
  split.
  - destruct a, b; intros H; try constructor; by vm_compute in H.
  - intros []; by vm_compute.
Qed.

(** Loading a quote never writes to the collection. *)
Lemma getByIdWithTracking_store id now w :
  cotizaciones (snd (getByIdWithTracking id now w)) = cotizaciones w.
Proof.
  unfold getByIdWithTracking.
  destruct (Cache.get (cacheKey id) now (cache w)) as [[q|] c]; [done|].
  by destruct (cotizaciones w !! id).
Qed.

(** Without a live cache entry, the current status is the stored one, a
    missing status being read as draft. *)
Lemma getByIdWithTracking_uncached id now w d :
  cache w !! cacheKey id = None ->
  cotizaciones w !! id = Some d ->
  fst (getByIdWithTracking id now w) = Some (mapDocumentToQuoteTracking id d)
  /\ qt_estado (mapDocumentToQuoteTracking id d) = default BORRADOR (estado d).
Proof.
  intros Hc Hd. unfold getByIdWithTracking, Cache.get. by rewrite Hc, Hd.
Qed.

(** What a successful call writes: the new status, the time of the update
    and the date of the new status.  The history of the stored document is
    the one it had. *)
Lemma updateStatus_success id nuevoEstado comentario usuario now w w' :
  updateStatus id nuevoEstado comentario usuario now w = (inr tt, w') ->
  exists d,
    cotizaciones w !! id = Some d
    /\ cotizaciones w' = <[id := statusUpdate nuevoEstado now d]> (cotizaciones w)
    /\ historialCambios (statusUpdate nuevoEstado now d) = historialCambios d.
Proof.
  unfold updateStatus.
  pose proof (getByIdWithTracking_store id now w) as Hst.
  destruct (getByIdWithTracking id now w) as [[q|] w1]; [|discriminate].
  cbn [snd] in Hst.
  destruct (isValidStatusTransition (qt_estado q) nuevoEstado); [|discriminate].
  cbn [negb]. unfold updateDoc. rewrite Hst.
  destruct (cotizaciones w !! id) as [d|] eqn:Hd; [|discriminate].
  intros [= <-]. by exists d.
Qed.

(** On a quote that loads with status [qt_estado q], a call of
    [updateStatus] that succeeds was for a status that the table allows from
    that status; and a call for any other status throws the error of an
    invalid transition and leaves the collection as it was: nothing is
    written, neither status nor history. *)
Lemma updateStatus_checks_the_served_status
    id nuevoEstado comentario usuario now w q :
  fst (getByIdWithTracking id now w) = Some q ->
  (fst (updateStatus id nuevoEstado comentario usuario now w) = inr tt ->
   allowed (qt_estado q) nuevoEstado)
  /\ (~ allowed (qt_estado q) nuevoEstado ->
      fst (updateStatus id nuevoEstado comentario usuario now w)
        = inl (invalidTransition (qt_estado q) nuevoEstado)
      /\ cotizaciones (snd (updateStatus id nuevoEstado comentario usuario now w))
        = cotizaciones w).
Proof.
  intros Hq. unfold updateStatus.
  pose proof (getByIdWithTracking_store id now w) as Hst.
  destruct (getByIdWithTracking id now w) as [q' w1]. cbn [fst snd] in Hq, Hst.
  subst q'.
  pose proof (isValidStatusTransition_allowed (qt_estado q) nuevoEstado) as Hv.
  destruct (isValidStatusTransition (qt_estado q) nuevoEstado); cbn [negb].
  - split; [intros _; by apply Hv|]. intros Hno. exfalso. by apply Hno, Hv.
  - split; [discriminate|]. intros _. by split.
Qed.

(** The state after a load and an edit: the store holds the edited
    document, the cache the quote as it was loaded. *)
Lemma after_edit_state id d updates t0 t1 w :
  cache w !! cacheKey id = None ->
  cotizaciones w !! id = Some d ->
  cotizaciones (after_edit id updates t0 t1 w)
    = <[id := CotizacionService.touch t1 (updates d)]> (cotizaciones w)
  /\ cache (after_edit id updates t0 t1 w)
     = Cache.set (cacheKey id) (mapDocumentToQuoteTracking id d) CACHE_TTL t0 (cache w).
Proof.
  intros Hc Hd. unfold after_edit, getByIdWithTracking, Cache.get.
  rewrite Hc, Hd. cbn [snd]. unfold CotizacionService.update, updateDoc.
  cbn [cotizaciones cache]. rewrite Hd. by cbn.
Qed.

(** What is served after the edit, while the entry lives. *)
Lemma after_edit_served id d updates t0 t1 t2 w :
  cache w !! cacheKey id = None ->
  cotizaciones w !! id = Some d ->
  (t0 <= t2 <= t0 + CACHE_TTL)%Z ->
  getByIdWithTracking id t2 (after_edit id updates t0 t1 w)
  = (Some (mapDocumentToQuoteTracking id d), after_edit id updates t0 t1 w).
Proof.
  intros Hc Hd Ht. destruct (after_edit_state id d updates t0 t1 w Hc Hd) as [Hst Hca].
  destruct (after_edit id updates t0 t1 w) as [st ca]. cbn [cotizaciones cache] in *.
  unfold getByIdWithTracking, Cache.get. cbn [cotizaciones cache]. subst ca.
  unfold Cache.set. rewrite lookup_insert_eq. cbn [Cache.ttl Cache.timestamp Cache.data].
  destruct (Z.ltb_spec CACHE_TTL (t2 - t0)) as [Hlt|_]; [lia|]. by rewrite Hst.
Qed.

(** C2 (a slip of the code).  [updateStatus] applies the table to the
    status of the quote that [getByIdWithTracking] serves, which is the
    cached quote for five minutes after a load; [cotizacionService.update],
    which the route [PUT] of the quotes calls with the [estado] of the body,
    writes the document and leaves that cache entry in place, while every
    write of the tracking service itself invalidates it.  So, for a quote
    that is loaded and then edited, a call of [updateStatus] within five
    minutes of the load is decided by the status before the edit, whatever
    the stored status is: a status that the table allows from the old status
    is written over the stored one, also when the table does not allow it
    from the stored one; and a status that the table does not allow from the
    old status is refused, also when the table allows it from the stored
    one. *)
Theorem updateStatus_checks_a_stale_status
    id d updates nuevoEstado comentario usuario t0 t1 t2 w :
  cache w !! cacheKey id = None ->
  cotizaciones w !! id = Some d ->
  (t0 <= t2 <= t0 + CACHE_TTL)%Z ->
  stored_status (after_edit id updates t0 t1 w) id
    = Some (default BORRADOR (estado (updates d)))
  /\ (allowed (default BORRADOR (estado d)) nuevoEstado ->
      fst (updateStatus id nuevoEstado comentario usuario t2
             (after_edit id updates t0 t1 w)) = inr tt
      /\ stored_status
           (snd (updateStatus id nuevoEstado comentario usuario t2
                   (after_edit id updates t0 t1 w))) id
         = Some nuevoEstado)
  /\ (~ allowed (default BORRADOR (estado d)) nuevoEstado ->
      fst (updateStatus id nuevoEstado comentario usuario t2
             (after_edit id updates t0 t1 w))
        = inl (invalidTransition (default BORRADOR (estado d)) nuevoEstado)
      /\ cotizaciones
           (snd (updateStatus id nuevoEstado comentario usuario t2
                   (after_edit id updates t0 t1 w)))
         = cotizaciones (after_edit id updates t0 t1 w)).
Proof.
  intros Hc Hd Ht.
  destruct (after_edit_state id d updates t0 t1 w Hc Hd) as [Hst Hca].
  pose proof (after_edit_served id d updates t0 t1 t2 w Hc Hd Ht) as Hget.
  split.
  { unfold stored_status. by rewrite Hst, lookup_insert_eq. }
  unfold updateStatus. rewrite Hget.
  cbn [qt_estado mapDocumentToQuoteTracking].
  pose proof (isValidStatusTransition_allowed (default BORRADOR (estado d)) nuevoEstado)
    as Hv.
  destruct (isValidStatusTransition (default BORRADOR (estado d)) nuevoEstado);
    cbn [negb].
  - split; [|intros Hno; exfalso; by apply Hno, Hv].
    intros _. unfold updateDoc. rewrite Hst, lookup_insert_eq. cbn [fst snd].
    split; [done|]. unfold stored_status. cbn [cotizaciones].
    by rewrite lookup_insert_eq.
  - split; [intros Hyes%Hv; discriminate|]. intros _. by split.
Qed.

Lemma updateStatus_checks_a_stale_status_witness :
  stored_status (after_edit "q1" Examples.editada 1000 2000 Examples.mundo) "q1"
    = Some CONVERTIDA
  /\ ~ allowed CONVERTIDA ENVIADA
  /\ fst (updateStatus "q1" ENVIADA None (Some "Ana") 3000
            (after_edit "q1" Examples.editada 1000 2000 Examples.mundo)) = inr tt
  /\ stored_status
       (snd (updateStatus "q1" ENVIADA None (Some "Ana") 3000
               (after_edit "q1" Examples.editada 1000 2000 Examples.mundo))) "q1"
     = Some ENVIADA.
Proof.
  destruct (updateStatus_checks_a_stale_status
              "q1" Examples.borrador Examples.editada ENVIADA None (Some "Ana")
              1000 2000 3000 Examples.mundo)
    as (Hst & Hyes & _).
  - reflexivity.
  - apply lookup_singleton_eq.
  - by vm_compute.
  - split; [exact Hst|]. split; [intros H; inversion H|].
    apply Hyes. constructor.
Defined.

(** C3 (a slip of the code).  Whenever [updateStatus] succeeds, the stored
    document has the new status and, for [enviada], [revisada] and
    [aprobada], the date of the new status; but its history is the one it
    had before the call: no entry is appended.  [updateStatus] builds the
    history with the new entry ([historialActualizado]) and leaves it out of
    the data that it writes. *)
Theorem updateStatus_history_not_persisted
    id nuevoEstado comentario usuario now w w' :
  updateStatus id nuevoEstado comentario usuario now w = (inr tt, w') ->
  exists d d',
    cotizaciones w !! id = Some d
    /\ cotizaciones w' !! id = Some d'
    /\ estado d' = Some nuevoEstado
    /\ (nuevoEstado = ENVIADA -> fechaEnvio d' = Some (fromMillis now))
    /\ (nuevoEstado = REVISADA -> fechaRevision d' = Some (fromMillis now))
    /\ (nuevoEstado = APROBADA -> fechaAprobacion d' = Some (fromMillis now))
    /\ historialCambios d' = historialCambios d.
Proof.
  intros (d & Hd & Hw' & Hh)%updateStatus_success.
  exists d, (statusUpdate nuevoEstado now d).
  split; [done|]. split; [by rewrite Hw', lookup_insert_eq|].
  split; [done|]. by repeat split; intros ->.
Qed.

Lemma updateStatus_history_not_persisted_witness :
  exists d',
    cotizaciones
      (snd (updateStatus "q1" ENVIADA (Some "Enviada al cliente") (Some "Ana") 1000
              Examples.mundo)) !! "q1" = Some d'
    /\ estado d' = Some ENVIADA
    /\ fechaEnvio d' = Some (fromMillis 1000)
    /\ historialCambios d' = Some [].
Proof.
  destruct (updateStatus_history_not_persisted
              "q1" ENVIADA (Some "Enviada al cliente") (Some "Ana") 1000 Examples.mundo
              (snd (updateStatus "q1" ENVIADA (Some "Enviada al cliente") (Some "Ana")
                      1000 Examples.mundo)))
    as (d & d' & Hd & Hd' & He & Hf & _ & _ & Hh); [by vm_compute|].
  exists d'. split; [exact Hd'|]. split; [exact He|]. split; [by apply Hf|].
  rewrite Hh. assert (Some d = Some Examples.borrador) as [= ->]; [|reflexivity].
  rewrite <- Hd. apply lookup_singleton_eq.
Defined.

(** ** Reminders *)

(** Scheduling a reminder writes its recipient list; deleting one leaves
    the list on the document, as the poller does when it clears one. *)
Lemma scheduleReminder_writes_recipients
    id tipo fecha_ mensaje sendEmail sendPush userName userEmail recipients now w w' :
  scheduleReminder id tipo fecha_ mensaje sendEmail sendPush userName userEmail
    recipients now w = (inr tt, w') ->
  exists d',
    cotizaciones w' !! id = Some d'
    /\ proximoSeguimientoDestinatarios d' = Some recipients
    /\ proximoSeguimientoEmail d' = Some sendEmail
    /\ proximoSeguimiento d' = Some (fromMillis fecha_).
Proof.
  unfold scheduleReminder.
  destruct (getByIdWithTracking id now w) as [[q|] w1]; [|discriminate].
  unfold updateDoc. destruct (cotizaciones w1 !! id) as [d|]; [|discriminate].
  intros [= <-]. eexists. split; [apply lookup_insert_eq|]. by repeat split.
Qed.

Lemma deleteReminder_keeps_recipients id reminderId now w w' :
  deleteReminder id reminderId now w = (inr tt, w') ->
  exists d d',
    cotizaciones w !! id = Some d
    /\ cotizaciones w' !! id = Some d'
    /\ proximoSeguimiento d' = None
    /\ proximoSeguimientoDestinatarios d' = proximoSeguimientoDestinatarios d.
Proof.
  unfold deleteReminder.
  pose proof (getByIdWithTracking_store id now w) as Hst.
  destruct (getByIdWithTracking id now w) as [[q|] w1]; [|discriminate].
  cbn [snd] in Hst. unfold updateDoc. rewrite Hst.
  destruct (cotizaciones w !! id) as [d|]; [|discriminate].
  intros [= <-]. exists d. eexists. split; [done|].
  split; [apply lookup_insert_eq|]. by split.
Qed.

End QuoteTrackingFacts.

(* ===================================================================== *)
(** * [ReminderAutomationService]: one tick of the poller *)
(* ===================================================================== *)

Module ReminderFacts.
Import Firestore Spec UserManagementService ReminderAutomationService.

(** ** The send loop *)

Lemma algun_enviado_cons a l :
  algun_enviado (a :: l)
  = (match result a with Sent => true | _ => false end) || algun_enviado l.
Proof. done. Qed.

(** The loop adds [nuevos] to the log, and counts a send as successful
    exactly when one of them was sent. *)
Lemma enviar_foldl env id data dests : forall acc,
  intentos (foldl (enviar env id data) acc dests)
    = intentos acc ++ nuevos env id data (intentos acc) dests
  /\ (0 < emailsEnviados (foldl (enviar env id data) acc dests) <->
      0 < emailsEnviados acc \/
      algun_enviado (nuevos env id data (intentos acc) dests) = true).
Proof.
  induction dests as [|d ds IH]; intros acc; cbn [foldl nuevos].
  - rewrite app_nil_r. split; [done|]. cbn. intuition congruence.
  - destruct (IH (enviar env id data acc d)) as [Hlog Hcnt].
    rewrite Hlog, Hcnt, algun_enviado_cons. clear IH Hlog Hcnt.
    cbn [result]. unfold enviar.
    destruct (sendReminderEmail env (intentos acc) (mail data d));
      cbn [intentos emailsEnviados orb]; rewrite <- app_assoc;
      (split; [done|]); intuition lia.
Qed.

Lemma nuevos_quoteId env id data dests : forall l a,
  a ∈ nuevos env id data l dests -> quoteId a = id.
Proof.
  induction dests as [|d ds IH]; intros l a; cbn [nuevos].
  - by intros ?%elem_of_nil.
  - intros [-> | Ha]%elem_of_cons; [done|]. by eapply IH.
Qed.

Lemma nuevos_to env id data dests : forall l,
  map (fun a => to (request a)) (nuevos env id data l dests) = dests.
Proof.
  induction dests as [|d ds IH]; intros l; cbn [nuevos map]; [done|].
  by rewrite IH.
Qed.

Lemma attempts_for_nuevos env id data dests : forall l,
  attempts_for id (nuevos env id data l dests) = nuevos env id data l dests.
Proof.
  unfold attempts_for.
  induction dests as [|d ds IH]; intros l; cbn [nuevos]; [done|].
  rewrite filter_cons_True by done. by rewrite IH.
Qed.

Lemma attempts_for_nuevos_ne env id id' data dests : forall l,
  id <> id' -> attempts_for id' (nuevos env id data l dests) = [].
Proof.
  unfold attempts_for.
  induction dests as [|d ds IH]; intros l Hne; cbn [nuevos]; [done|].
  rewrite filter_cons_False by done. by apply IH.
Qed.

Lemma attempts_for_paso env id data l :
  attempts_for id (paso env id data l) = paso env id data l.
Proof.
  unfold paso. destruct (_ && _); [apply attempts_for_nuevos|done].
Qed.

Lemma attempts_for_paso_ne env id id' data l :
  id <> id' -> attempts_for id' (paso env id data l) = [].
Proof.
  intros Hne. unfold paso. destruct (_ && _); [by apply attempts_for_nuevos_ne|done].
Qed.

(** The loop body on one document: the log grows by [paso]; only the
    document itself can change, and it does when a send succeeded. *)
Lemma procesar_log env st id data :
  log (procesar env st (id, data)) = log st ++ paso env id data (log st).
Proof.
  unfold procesar, paso.
  destruct (tiene_recordatorio data); cbn [andb]; [|by rewrite app_nil_r].
  destruct (vencido env data); cbn [log]; [|by rewrite app_nil_r].
  destruct (enviar_foldl env id data (destinatarios env data)
              {| intentos := log st; emailsEnviados := 0; emailsFallidos := 0 |})
    as [Hlog _].
  cbn [intentos] in Hlog. by destruct (Nat.ltb _ _); cbn [log].
Qed.

Lemma procesar_store env st id data :
  store (procesar env st (id, data)) =
    if algun_enviado (paso env id data (log st))
    then default (store st)
           (updateDoc id
              (limpiar (writeTime env (log st ++ paso env id data (log st))))
              (store st))
    else store st.
Proof.
  unfold procesar, paso.
  destruct (tiene_recordatorio data); cbn [andb]; [|done].
  destruct (vencido env data); cbn [store]; [|done].
  destruct (enviar_foldl env id data (destinatarios env data)
              {| intentos := log st; emailsEnviados := 0; emailsFallidos := 0 |})
    as [Hlog Hcnt].
  cbn [intentos emailsEnviados] in Hlog, Hcnt.
  destruct (Nat.ltb_spec 0
              (emailsEnviados
                 (foldl (enviar env id data)
                    {| intentos := log st; emailsEnviados := 0; emailsFallidos := 0 |}
                    (destinatarios env data)))) as [Hlt|Hge]; cbn [store].
  - apply Hcnt in Hlt as [Hlt | ->]; [lia|]. by rewrite Hlog.
  - destruct (algun_enviado _) eqn:Hsent; [|done].
    exfalso. assert (0 < emailsEnviados
                 (foldl (enviar env id data)
                    {| intentos := log st; emailsEnviados := 0; emailsFallidos := 0 |}
                    (destinatarios env data))) by (apply Hcnt; by right). lia.
Qed.

Lemma updateDoc_lookup_ne id id' f (m : gmap string Cotizacion) :
  id <> id' -> default m (updateDoc id f m) !! id' = m !! id'.
Proof.
  intros Hne. unfold updateDoc. destruct (m !! id) eqn:Hm; cbn; [|done].
  by rewrite lookup_insert_ne.
Qed.

Lemma updateDoc_lookup id f (m : gmap string Cotizacion) :
  default m (updateDoc id f m) !! id = f <$> m !! id.
Proof.
  unfold updateDoc. destruct (m !! id) eqn:Hm; cbn; [|by rewrite Hm].
  by rewrite lookup_insert_eq.
Qed.

(** Documents that the loop does not visit are left alone. *)
Lemma foldl_procesar_other env id docs : forall st,
  id ∉ docs.*1 ->
  store (foldl (procesar env) st docs) !! id = store st !! id
  /\ attempts_for id (log (foldl (procesar env) st docs)) = attempts_for id (log st).
Proof.
  induction docs as [|[id' data] docs IH]; intros st Hid; cbn [foldl]; [done|].
  rewrite fmap_cons, not_elem_of_cons in Hid. destruct Hid as [Hne Hid]. cbn in Hne.
  destruct (IH (procesar env st (id', data)) Hid) as [-> ->].
  rewrite procesar_store, procesar_log. unfold attempts_for at 1.
  rewrite filter_app. fold (attempts_for id (log st)).
  fold (attempts_for id (paso env id' data (log st))).
  rewrite attempts_for_paso_ne, app_nil_r by done.
  split; [|done]. destruct (algun_enviado _); [|done].
  by apply updateDoc_lookup_ne.
Qed.

(** The document [id], visited once: its attempts are those of its own
    step, made after some log [l0], and it is cleared exactly when one of
    them was sent. *)
Lemma foldl_procesar_at env id data docs : forall st,
  NoDup docs.*1 -> (id, data) ∈ docs ->
  exists l0,
    attempts_for id (log (foldl (procesar env) st docs))
      = attempts_for id (log st) ++ paso env id data l0
    /\ store (foldl (procesar env) st docs) !! id
      = if algun_enviado (paso env id data l0)
        then limpiar (writeTime env (l0 ++ paso env id data l0)) <$> store st !! id
        else store st !! id.
Proof.
  induction docs as [|[id' data'] docs IH]; intros st Hnd Hin.
  - by apply elem_of_nil in Hin.
  - rewrite fmap_cons in Hnd. apply NoDup_cons in Hnd as [Hnotin Hnd]. cbn in Hnotin.
    cbn [foldl]. apply elem_of_cons in Hin as [Heq|Hin].
    + injection Heq as <- <-. exists (log st).
      destruct (foldl_procesar_other env id docs (procesar env st (id, data)) Hnotin)
        as [-> ->].
      rewrite procesar_store, procesar_log. unfold attempts_for at 1.
      rewrite filter_app. fold (attempts_for id (log st)).
      fold (attempts_for id (paso env id data (log st))).
      rewrite attempts_for_paso. split; [done|].
      destruct (algun_enviado _); [|done]. apply updateDoc_lookup.
    + assert (id <> id') as Hne.
      { intros ->. apply Hnotin. apply list_elem_of_fmap. by exists (id', data). }
      destruct (IH (procesar env st (id', data')) Hnd Hin) as (l0 & Hlog & Hst).
      exists l0. rewrite Hlog, Hst, procesar_store, procesar_log.
      unfold attempts_for at 1. rewrite filter_app.
      fold (attempts_for id (log st)).
      fold (attempts_for id (paso env id' data' (log st))).
      rewrite attempts_for_paso_ne, app_nil_r by done.
      split; [done|].
      assert ((if algun_enviado (paso env id' data' (log st))
               then default (store st)
                      (updateDoc id'
                         (limpiar (writeTime env (log st ++ paso env id' data' (log st))))
                         (store st))
               else store st) !! id = store st !! id) as ->; [|done].
      destruct (algun_enviado (paso env id' data' (log st))); [|done].
      by apply updateDoc_lookup_ne.
Qed.

(** One tick, seen from the quote [id]. *)
Lemma tick_at env (cotizaciones : gmap string Cotizacion) id data :
  cotizaciones !! id = Some data ->
  exists l0,
    attempts_for id (log (processReminders env cotizaciones)) = paso env id data l0
    /\ store (processReminders env cotizaciones) !! id
      = Some (if algun_enviado (paso env id data l0)
              then limpiar (writeTime env (l0 ++ paso env id data l0)) data
              else data).
Proof.
  intros Hid. unfold processReminders.
  destruct (foldl_procesar_at env id data (map_to_list cotizaciones)
              {| store := cotizaciones; log := []; processedCount := 0; checkedCount := 0 |})
    as (l0 & Hlog & Hst).
  - apply NoDup_fst_map_to_list.
  - by apply elem_of_map_to_list.
  - exists l0. rewrite Hlog, Hst. cbn [log store]. rewrite Hid.
    split; [done|]. by destruct (algun_enviado _).
Qed.


Lemma nuevos_request env id data dests : forall l,
  map request (nuevos env id data l dests) = map (mail data) dests.
Proof.
  induction dests as [|d ds IH]; intros l; cbn [nuevos map]; [done|].
  by rewrite IH.
Qed.

Lemma algun_enviado_spec l :
  algun_enviado l = true <-> exists a, a ∈ l /\ result a = Sent.
Proof.
  unfold algun_enviado. rewrite existsb_exists. split.
  - intros (a & Ha & Hr). exists a. split; [by apply list_elem_of_In|].
    by destruct (result a).
  - intros (a & Ha & Hr). exists a. split; [by apply list_elem_of_In|].
    by rewrite Hr.
Qed.

(** ** The users that are notified by email *)

Lemma nonblank_truthy e : JsString.nonblank e = true -> JsString.truthy e = true.
Proof. by destruct e. Qed.

Lemma email_toUsuario t uid u :
  email (toUsuario t (uid, u)) = UserManagementService.str_or (doc_email u) "".
Proof. done. Qed.

Lemma notificado_toUsuario t uid u :
  not_false (doc_activo u) = true ->
  (notificacionesEmail (toUsuario t (uid, u))
   && JsString.truthy (email (toUsuario t (uid, u)))
   && JsString.nonblank (email (toUsuario t (uid, u)))) = recibe_email u.
Proof.
  intros Ha. unfold recibe_email. rewrite Ha, email_toUsuario. cbn [toUsuario notificacionesEmail andb].
  unfold UserManagementService.str_or.
  destruct (not_false (doc_notificacionesEmail u)); cbn [andb]; [|done].
  destruct (doc_email u) as [e|]; [|done].
  destruct e as [|c r]; [done|]. cbn [JsString.truthy andb]. done.
Qed.

Lemma recibe_email_email u :
  recibe_email u = true ->
  doc_email u = Some (UserManagementService.str_or (doc_email u) "").
Proof.
  unfold recibe_email, UserManagementService.str_or.
  destruct (doc_email u) as [[|c r]|]; try done;
    by rewrite ?andb_false_r.
Qed.

Lemma getEmailNotificationUsers_emails t snapshot :
  map email (getEmailNotificationUsers t snapshot) = emails_notificados snapshot.
Proof.
  unfold getEmailNotificationUsers, getActiveUsers, emails_notificados.
  destruct snapshot as [docs|]; [|done].
  induction docs as [|[uid u] docs IH]; [done|].
  cbn -[recibe_email toUsuario not_false email notificacionesEmail].
  destruct (not_false (doc_activo u)) eqn:Ha.
  - cbn [map List.filter]. rewrite (notificado_toUsuario t uid u Ha).
    destruct (recibe_email u) eqn:Hr.
    + cbn [map]. rewrite IH, email_toUsuario.
      by rewrite (recibe_email_email u Hr) at 2.
    + rewrite IH. destruct (doc_email u); done.
  - assert (recibe_email u = false) as -> by (unfold recibe_email; by rewrite Ha).
    apply IH.
Qed.

Lemma destinatarios_spec env data :
  destinatarios env data =
    match proximoSeguimientoDestinatarios data with
    | Some (d :: ds) => d :: ds
    | _ =>
        match emails_notificados (usuarios env) with
        | [] => [operator_address]
        | e :: es => e :: es
        end
    end.
Proof.
  unfold destinatarios.
  pose proof (getEmailNotificationUsers_emails (now env) (usuarios env)) as He.
  destruct (proximoSeguimientoDestinatarios data) as [[|d ds]|]; try done;
    destruct (getEmailNotificationUsers (now env) (usuarios env)) as [|u us];
    cbn [map] in He |- *; rewrite <- He; done.
Qed.

Lemma destinatarios_usuarios env env' data :
  usuarios env' = usuarios env -> destinatarios env' data = destinatarios env data.
Proof. intros Hu. by rewrite !destinatarios_spec, Hu. Qed.

Lemma vencido_mono env env' data :
  (now env <= now env')%Z -> vencido env data = true -> vencido env' data = true.
Proof.
  unfold vencido. destruct (fecha_recordatorio data); [|done].
  rewrite !Z.leb_le. lia.
Qed.

(** ** Ticks that follow *)

Lemma tick_sin_recordatorio env (cotizaciones : gmap string Cotizacion) id d :
  cotizaciones !! id = Some d -> tiene_recordatorio d = false ->
  store (processReminders env cotizaciones) !! id = Some d
  /\ attempts_for id (log (processReminders env cotizaciones)) = [].
Proof.
  intros Hid Hno. destruct (tick_at env cotizaciones id d Hid) as (l0 & Hlog & Hst).
  unfold paso in *. rewrite Hno in *. cbn in *. by rewrite Hlog, Hst.
Qed.

Lemma ticks_sin_recordatorio envs : forall (cotizaciones : gmap string Cotizacion) id d,
  cotizaciones !! id = Some d -> tiene_recordatorio d = false ->
  Forall (fun l => attempts_for id l = []) (ticks envs cotizaciones).
Proof.
  induction envs as [|env rest IH]; intros c id d Hid Hno; cbn [ticks].
  - constructor.
  - destruct (tick_sin_recordatorio env c id d Hid Hno) as [Hst Hlog].
    constructor; [done|]. by eapply IH.
Qed.

(** ** The claims *)

(** C1 (a slip of the code).  A quote carries a reminder with the email
    channel enabled that is due, for a list of recipients; if one of the
    sends made for it in a tick succeeds, then after the tick its due time,
    type, message and actor are [null] and its channel flags are [false],
    and no tick that follows sends anything for it, so that a recipient
    whose send failed is not tried again.  But its recipient list is not
    cleared: the data of the clearing write has no key for it, and the list
    is the one it was.  When [cleanup-and-test.cjs] then sets a reminder on
    the quote, which it announces as going to all users, the tick at which
    it is due sends it to the recipients of the reminder before. *)
Theorem recipient_list_survives_clearing
    env (cotizaciones : gmap string Cotizacion) id data r rs :
  cotizaciones !! id = Some data ->
  tiene_recordatorio data = true ->
  vencido env data = true ->
  proximoSeguimientoDestinatarios data = Some (r :: rs) ->
  (exists a, a ∈ log (processReminders env cotizaciones)
             /\ quoteId a = id /\ result a = Sent) ->
  exists d',
    store (processReminders env cotizaciones) !! id = Some d'
    /\ recordatorio_limpio d'
    /\ proximoSeguimientoDestinatarios d' = Some (r :: rs)
    /\ ~ destinatarios_limpios d'
    /\ (forall envs,
          Forall (fun l => attempts_for id l = [])
            (ticks envs (store (processReminders env cotizaciones))))
    /\ (forall ahora env',
          vencido env' (CleanupAndTest.recordatorioDePrueba ahora d') = true ->
          map (fun a => to (request a))
            (attempts_for id
               (log (processReminders env'
                       (<[id := CleanupAndTest.recordatorioDePrueba ahora d']>
                          (store (processReminders env cotizaciones))))))
          = r :: rs).
Proof.
  intros Hid Htiene Hdue Hlist (a & Ha & Hq & Hr).
  destruct (tick_at env cotizaciones id data Hid) as (l0 & Hlog & Hst).
  assert (algun_enviado (paso env id data l0) = true) as Hsent.
  { apply algun_enviado_spec. exists a. split; [|done].
    rewrite <- Hlog. apply list_elem_of_filter. by split. }
  rewrite Hsent in Hst. eexists. split; [exact Hst|].
  split; [by repeat split|]. split; [exact Hlist|].
  split; [unfold destinatarios_limpios; cbn [limpiar proximoSeguimientoDestinatarios];
          rewrite Hlist; by intros [|]|].
  split; [intros envs; by eapply ticks_sin_recordatorio|].
  intros ahora env' Hdue'.
  set (d'' := CleanupAndTest.recordatorioDePrueba ahora _) in *.
  destruct (tick_at env' (<[id := d'']> (store (processReminders env cotizaciones)))
              id d'' (lookup_insert_eq _ _ _)) as (l1 & Hlog' & _).
  rewrite Hlog'. unfold paso. rewrite Hdue'.
  replace (tiene_recordatorio d'') with true by done. cbn [andb].
  rewrite nuevos_to, destinatarios_spec.
  replace (proximoSeguimientoDestinatarios d'') with (Some (r :: rs)); done.
Qed.

(** C4.  A quote carries a reminder with the email channel enabled that is
    due; if every send made for it in a tick fails, by [false] or by a
    thrown error, then after the tick the document is the one it was, and
    the next tick sends again to every recipient that the reminder resolves
    to: the very same requests, when the users to notify are the same. *)
Theorem reminder_kept_when_all_sends_fail env (cotizaciones : gmap string Cotizacion) id data :
  cotizaciones !! id = Some data ->
  tiene_recordatorio data = true ->
  vencido env data = true ->
  (forall a, a ∈ log (processReminders env cotizaciones) ->
             quoteId a = id -> result a <> Sent) ->
  store (processReminders env cotizaciones) !! id = Some data
  /\ forall env',
       (now env <= now env')%Z ->
       map (fun a => to (request a))
           (attempts_for id
              (log (processReminders env' (store (processReminders env cotizaciones)))))
         = destinatarios env' data
       /\ (usuarios env' = usuarios env ->
           map request
             (attempts_for id
                (log (processReminders env' (store (processReminders env cotizaciones)))))
           = map request (attempts_for id (log (processReminders env cotizaciones)))).
Proof.
  intros Hid Htiene Hdue Hfail.
  destruct (tick_at env cotizaciones id data Hid) as (l0 & Hlog & Hst).
  assert (algun_enviado (paso env id data l0) = false) as Hsent.
  { apply not_true_is_false. intros (a & Ha & Hr)%algun_enviado_spec.
    rewrite <- Hlog in Ha. apply list_elem_of_filter in Ha as [Hq Ha].
    by apply (Hfail a). }
  rewrite Hsent in Hst. split; [done|]. intros env' Hnow.
  destruct (tick_at env' _ id data Hst) as (l1 & Hlog' & _).
  rewrite Hlog', Hlog. unfold paso.
  rewrite Htiene, Hdue, (vencido_mono env env' data Hnow Hdue). cbn [andb].
  split; [apply nuevos_to|]. intros Hu.
  by rewrite !nuevos_request, (destinatarios_usuarios env env' data Hu).
Qed.

(** C6.  For a quote whose reminder is due, the addresses that a tick sends
    to, in order, one send each and whatever the outcome of the sends, are:
    the recipient list of the reminder when it is not empty; otherwise the
    emails of the users that are active, take email notifications and have
    an email that is not blank; and the operator's address alone when there
    is no such user. *)
Theorem recipients_resolved env (cotizaciones : gmap string Cotizacion) id data :
  cotizaciones !! id = Some data ->
  tiene_recordatorio data = true ->
  vencido env data = true ->
  map (fun a => to (request a))
      (attempts_for id (log (processReminders env cotizaciones)))
  = match proximoSeguimientoDestinatarios data with
    | Some (d :: ds) => d :: ds
    | _ =>
        match emails_notificados (usuarios env) with
        | [] => [operator_address]
        | e :: es => e :: es
        end
    end.
Proof.
  intros Hid Htiene Hdue.
  destruct (tick_at env cotizaciones id data Hid) as (l0 & Hlog & _).
  rewrite Hlog. unfold paso. rewrite Htiene, Hdue. cbn [andb].
  by rewrite nuevos_to, destinatarios_spec.
Qed.


(** ** Examples *)

Lemma coleccion_q1 : Examples.coleccion !! "q1" = Some Examples.con_recordatorio.
Proof. apply lookup_singleton_eq. Qed.

Example tick_falla_el_segundo :
  map (fun a => (to (request a), result a))
      (log (processReminders Examples.falla_el_segundo Examples.coleccion))
  = [("a@bls.com", Sent); ("b@bls.com", NotSent); ("c@bls.com", Sent)]%string.
Proof. vm_compute. reflexivity. Qed.

Lemma recipient_list_survives_clearing_witness :
  exists d',
    store (processReminders Examples.falla_el_segundo Examples.coleccion) !! "q1"
      = Some d'
    /\ recordatorio_limpio d'
    /\ proximoSeguimientoDestinatarios d'
       = Some ["a@bls.com"; "b@bls.com"; "c@bls.com"]
    /\ ~ destinatarios_limpios d'
    /\ emails_notificados (usuarios Examples.tras_la_prueba) = ["ana@bls.com"]
    /\ map (fun a => to (request a))
         (attempts_for "q1"
            (log (processReminders Examples.tras_la_prueba
                    (<["q1" := CleanupAndTest.recordatorioDePrueba 300000 d']>
                       (store (processReminders Examples.falla_el_segundo
                                 Examples.coleccion))))))
       = ["a@bls.com"; "b@bls.com"; "c@bls.com"].
Proof.
  destruct (recipient_list_survives_clearing
              Examples.falla_el_segundo Examples.coleccion "q1" Examples.con_recordatorio
              "a@bls.com" ["b@bls.com"; "c@bls.com"])
    as (d' & Hst & Hclean & Hlist & Hnot & _ & Hnext).
  - apply coleccion_q1.
  - reflexivity.
  - reflexivity.
  - reflexivity.
  - eexists. split; [vm_compute; apply list_elem_of_here|]. by split.
  - exists d'. split; [exact Hst|]. split; [exact Hclean|]. split; [exact Hlist|].
    split; [exact Hnot|]. split; [reflexivity|].
    apply Hnext. reflexivity.
Defined.

Lemma reminder_kept_when_all_sends_fail_witness :
  store (processReminders Examples.fallan_todos Examples.coleccion) !! "q1"
    = Some Examples.con_recordatorio
  /\ map (fun a => to (request a))
        (attempts_for "q1"
           (log (processReminders Examples.un_minuto_despues
                   (store (processReminders Examples.fallan_todos Examples.coleccion)))))
     = ["a@bls.com"; "b@bls.com"; "c@bls.com"]%string.
Proof.
  assert (forall a,
            a ∈ log (processReminders Examples.fallan_todos Examples.coleccion) ->
            quoteId a = "q1"%string -> result a <> Sent) as Hfail.
  { intros a Ha _. vm_compute in Ha.
    repeat (apply elem_of_cons in Ha as [-> | Ha]; [discriminate|]).
    by apply elem_of_nil in Ha. }
  destruct (reminder_kept_when_all_sends_fail
              Examples.fallan_todos Examples.coleccion "q1" Examples.con_recordatorio
              coleccion_q1 eq_refl eq_refl Hfail) as [Hkept Hnext].
  split; [exact Hkept|].
  exact (proj1 (Hnext Examples.un_minuto_despues ltac:(by vm_compute))).
Defined.

Lemma recipients_resolved_witness :
  map (fun a => to (request a))
      (attempts_for "q1"
         (log (processReminders Examples.falla_el_segundo Examples.coleccion)))
  = ["a@bls.com"; "b@bls.com"; "c@bls.com"]%string.
Proof.
  exact (recipients_resolved
           Examples.falla_el_segundo Examples.coleccion "q1" Examples.con_recordatorio
           coleccion_q1 eq_refl eq_refl).
Defined.

(** Without a recipient list the users to notify are emailed: here the
    second user is deactivated, the third has opted out and the fourth has a
    blank email.  With no such user at all, the operator is. *)
Example destinatarios_de_usuarios :
  destinatarios Examples.con_usuarios Examples.sin_lista = ["ana@bls.com"]%string.
Proof. reflexivity. Qed.

Example destinatarios_operador :
  destinatarios Examples.un_minuto_despues Examples.sin_lista
  = ["russofg@gmail.com"]%string.
Proof. reflexivity. Qed.

End ReminderFacts.

(* ===================================================================== *)
(** * [DateHelper]: end dates, ranges and formats *)
(* ===================================================================== *)

Module DateFormatFacts.
Import JsDate Spec JsDateFacts DateHelper DateHelperFacts.
Local Open Scope Z_scope.

(** ** The calendar fields of a time value *)

Lemma DayWithinYear_range t :
  0 <= DayWithinYear t < DaysInYear (YearFromTime t).
Proof.
  unfold DayWithinYear. pose proof (YearFromTime_spec t) as H.
  rewrite DayFromYear_succ in H. lia.
Qed.

Lemma InLeapYear_leapOf t : InLeapYear t = leapOf (YearFromTime t).
Proof. done. Qed.

(** Month and day of the month, as one fact: the month is the one whose
    days contain the day of the year. *)
Lemma month_and_date t :
  0 <= MonthFromTime t <= 11
  /\ 1 <= DateFromTime t <= daysInMonth (MonthFromTime t) (leapOf (YearFromTime t))
  /\ DateFromTime t
     = DayWithinYear t - monthStart (MonthFromTime t) (leapOf (YearFromTime t)) + 1.
Proof.
  pose proof (DayWithinYear_range t) as Hr.
  unfold DateFromTime, MonthFromTime. rewrite InLeapYear_leapOf.
  set (d := DayWithinYear t) in *. clearbody d.
  destruct (DaysInYear_cases (YearFromTime t)) as [[Hd ->]|[Hd ->]]; rewrite Hd in Hr;
    repeat match goal with
      | |- context [?a <? ?b] => destruct (Z.ltb_spec a b); [cbn; lia|]
      end; cbn; lia.
Qed.

Lemma daysInMonth_le_31 m l : 0 <= m <= 11 -> daysInMonth m l <= 31 \/ 1 < l.
Proof.
  intros Hm.
  assert (m = 0 \/ m = 1 \/ m = 2 \/ m = 3 \/ m = 4 \/ m = 5 \/ m = 6 \/ m = 7
          \/ m = 8 \/ m = 9 \/ m = 10 \/ m = 11) as Hcases by lia.
  repeat (destruct Hcases as [->|Hcases]); try subst m; cbn; lia.
Qed.

Lemma DateFromTime_le_31 t : 1 <= DateFromTime t <= 31.
Proof.
  destruct (month_and_date t) as (Hm & Hd & _).
  destruct (daysInMonth_le_31 (MonthFromTime t) (leapOf (YearFromTime t)) Hm) as [H|H];
    [lia|].
  destruct (DaysInYear_cases (YearFromTime t)) as [[_ Hl]|[_ Hl]]; lia.
Qed.

(** [MakeDay] on the fields of a time value gives its day back, and a day
    of the month beyond the month's end counts on into the months that
    follow. *)
Lemma MakeDay_fields t k :
  MakeDay (YearFromTime t) (MonthFromTime t) (DateFromTime t + k) = Day t + k.
Proof.
  destruct (month_and_date t) as (Hm & _ & ->).
  rewrite MakeDay_in_year by done. unfold DayWithinYear. lia.
Qed.

(** ** End dates and durations *)

Lemma Day_TimeWithinDay t : MakeDate (Day t) (TimeWithinDay t) = t.
Proof.
  unfold MakeDate, Day, TimeWithinDay, msPerDay.
  Z.to_euclidean_division_equations; lia.
Qed.

(** [calculateEndDate] moves the start by whole days: the time of day is
    kept. *)
Lemma calculateEndDate_shift h t n :
  calculateEndDate h (Some t) n = TimeClip (t + (n - 1) * msPerDay).
Proof.
  unfold calculateEndDate, setDate, getDate. cbn [option_map]. cbv zeta.
  rewrite MakeDay_fields. f_equal.
  pose proof (Day_TimeWithinDay (LocalTime h t)) as H.
  unfold MakeDate, UTC, LocalTime in *. lia.
Qed.

Lemma TimeClip_Some t : Z.abs t <= maxTime -> TimeClip t = Some t.
Proof.
  unfold TimeClip, maxTime. intros H.
  destruct (Z.ltb_spec 8640000000000000 (Z.abs t)); [lia|done].
Qed.

(** Midnight of the local day of [t]: at most a day before [t]. *)
Lemma localDay_bounds h t :
  t - msPerDay < localDay h t * msPerDay - tza h <= t.
Proof.
  unfold localDay, Day, LocalTime, msPerDay. Z.to_euclidean_division_equations; lia.
Qed.

Lemma setHours0_valid h t :
  - maxTime + msPerDay <= t <= maxTime ->
  setHours0 h (Some t) = Some (localDay h t * msPerDay - tza h)
  /\ t - msPerDay < localDay h t * msPerDay - tza h <= t.
Proof.
  intros Ht. pose proof (localDay_bounds h t) as Hm.
  split; [|done]. unfold setHours0. cbv zeta.
  replace (UTC h (MakeDate (Day (LocalTime h t)) (MakeTime 0 0 0 0)))
    with (localDay h t * msPerDay - tza h)
    by (unfold UTC, MakeDate, MakeTime, localDay; lia).
  apply TimeClip_Some. unfold maxTime, msPerDay in *. lia.
Qed.

Lemma localDay_shift h t k : localDay h (t + k * msPerDay) = localDay h t + k.
Proof.
  unfold localDay, Day, LocalTime, msPerDay. Z.to_euclidean_division_equations; lia.
Qed.

(** The duration between two valid dates, in local days. *)
Lemma calculateDurationInDays_localDay h s e :
  - maxTime + msPerDay <= s <= maxTime ->
  - maxTime + msPerDay <= e <= maxTime ->
  calculateDurationInDays h (VDate (Some s)) (VDate (Some e))
  = Z.max 1 (localDay h e - localDay h s + 1).
Proof.
  intros Hs He.
  destruct (setHours0_valid h s Hs) as [Hs0 _], (setHours0_valid h e He) as [He0 _].
  destruct (calculateDurationInDays_valid h s e _ _ Hs0 He0) as [-> ->]. done.
Qed.

(** X1.  The end date computed from a start and a number of days is that many
    days away, both days counted: [calculateDurationInDays] gives the number
    back, whatever the time zone of the host and the time of day of the
    start. *)
Theorem duration_of_calculated_end_date h t n :
  1 <= n ->
  - maxTime + msPerDay <= t ->
  t + n * msPerDay <= maxTime ->
  calculateDurationInDays h (VDate (Some t)) (VDate (calculateEndDate h (Some t) n)) = n.
Proof.
  intros Hn Hlo Hhi. rewrite calculateEndDate_shift.
  assert (0 < msPerDay) by done.
  assert (0 <= (n - 1) * msPerDay) as Hm by nia.
  assert (t + (n - 1) * msPerDay + msPerDay <= maxTime) as Hhi' by lia.
  assert (0 < maxTime) by done.
  rewrite TimeClip_Some by lia.
  set (m := (n - 1) * msPerDay) in *.
  assert (- maxTime + msPerDay <= t <= maxTime) as Hs by lia.
  assert (- maxTime + msPerDay <= t + m <= maxTime) as He by lia.
  rewrite (calculateDurationInDays_localDay h t (t + m) Hs He).
  unfold m. rewrite localDay_shift. lia.
Qed.

Lemma duration_of_calculated_end_date_witness :
  calculateDurationInDays Examples.buenos_aires
    (VDate (Some Examples.a_clock_reading))
    (VDate (calculateEndDate Examples.buenos_aires (Some Examples.a_clock_reading) 30))
  = 30.
Proof.
  apply (duration_of_calculated_end_date Examples.buenos_aires Examples.a_clock_reading 30);
    by vm_compute.
Defined.

(** [validateDateRange] on valid dates: the local day of the end is not
    before the local day of the start. *)
Lemma validateDateRange_localDay h s e :
  - maxTime + msPerDay <= s <= maxTime ->
  - maxTime + msPerDay <= e <= maxTime ->
  validateDateRange h (VDate (Some s)) (VDate (Some e)) = true
  <-> localDay h s <= localDay h e.
Proof.
  intros Hs He.
  destruct (setHours0_valid h s Hs) as [Hs0 _], (setHours0_valid h e He) as [He0 _].
  unfold validateDateRange. cbn [JsValue.toDate]. rewrite Hs0, He0. cbn [getTime].
  rewrite Z.leb_le. unfold msPerDay. lia.
Qed.

(** X2.  For a range that [validateDateRange] accepts, the end date computed
    from the start and the duration of the range falls on the day of the
    end: the two are the same once truncated to local midnight. *)
Theorem calculated_end_date_of_duration h s e :
  - maxTime + msPerDay <= s <= maxTime ->
  - maxTime + msPerDay <= e <= maxTime - msPerDay ->
  validateDateRange h (VDate (Some s)) (VDate (Some e)) = true ->
  setHours0 h
    (calculateEndDate h (Some s)
       (calculateDurationInDays h (VDate (Some s)) (VDate (Some e))))
  = setHours0 h (Some e).
Proof.
  intros Hs He Hv. assert (0 < msPerDay) by done.
  assert (- maxTime + msPerDay <= e <= maxTime) as He' by lia.
  apply (validateDateRange_localDay h s e Hs He') in Hv.
  rewrite (calculateDurationInDays_localDay h s e Hs He').
  rewrite Z.max_r by lia. rewrite calculateEndDate_shift.
  replace (localDay h e - localDay h s + 1 - 1) with (localDay h e - localDay h s) by lia.
  set (k := localDay h e - localDay h s) in *.
  assert (localDay h (s + k * msPerDay) = localDay h e) as Hday.
  { rewrite localDay_shift. unfold k. lia. }
  assert (0 <= k * msPerDay) as Hk by (unfold k; nia).
  assert (s + k * msPerDay < e + msPerDay) as Hnear.
  { pose proof (localDay_bounds h (s + k * msPerDay)) as H1.
    pose proof (localDay_bounds h e) as H2. rewrite Hday in H1. lia. }
  rewrite TimeClip_Some by (unfold maxTime in *; lia).
  destruct (setHours0_valid h (s + k * msPerDay)) as [-> _]; [unfold maxTime in *; lia|].
  destruct (setHours0_valid h e) as [-> _]; [lia|].
  by rewrite Hday.
Qed.

Lemma calculated_end_date_of_duration_witness :
  setHours0 Examples.kiritimati
    (calculateEndDate Examples.kiritimati (Some Examples.a_clock_reading)
       (calculateDurationInDays Examples.kiritimati
          (VDate (Some Examples.a_clock_reading)) (VDate (Some 1710000000000))))
  = setHours0 Examples.kiritimati (Some 1710000000000).
Proof.
  apply (calculated_end_date_of_duration Examples.kiritimati
           Examples.a_clock_reading 1710000000000); by vm_compute.
Defined.

(** X3.  A range that [validateDateRange] rejects has duration 1, whatever the
    two values are: dates in the wrong order, invalid dates, [null],
    strings. *)
Theorem rejected_range_has_duration_one h startDate endDate :
  validateDateRange h startDate endDate = false ->
  calculateDurationInDays h startDate endDate = 1.
Proof.
  unfold validateDateRange, calculateDurationInDays.
  destruct (JsValue.toDate h startDate) as [s|]; [|done].
  destruct (JsValue.toDate h endDate) as [e|];
    [|by destruct (getTime (setHours0 h (Some s)))].
  destruct (setHours0 h (Some s)) as [s0|] eqn:Hs; [|done].
  destruct (setHours0 h (Some e)) as [e0|] eqn:He; [|done].
  cbn [getTime]. cbv zeta. intros Hlt%Z.leb_gt.
  apply setHours0_Some in Hs, He.
  assert (round_div (e0 - s0) (1000 * 60 * 60 * 24) + 1 <= 0) as Hd.
  { unfold round_div, msPerDay in *. Z.to_euclidean_division_equations; lia. }
  destruct (Z.ltb_spec 0 (round_div (e0 - s0) (1000 * 60 * 60 * 24) + 1)); [lia|done].
Qed.

Lemma rejected_range_has_duration_one_witness :
  calculateDurationInDays Examples.buenos_aires
    (VString "2024-01-17") (VString "2024-01-15") = 1.
Proof.
  apply (rejected_range_has_duration_one Examples.buenos_aires). by vm_compute.
Defined.

(** ** Printing and reading decimal digits *)

Lemma digit_char_digit_val c : is_digit c = true -> digit_char (digit_val c) = c.
Proof.
  destruct c as [[] [] [] [] [] [] [] []]; intros H; vm_compute in H;
    try discriminate H; reflexivity.
Qed.

Lemma in_digits n : 0 <= n <= 9 -> In n digits.
Proof.
  intros H. unfold digits. cbn [In]. lia.
Qed.

Lemma digit_val_digit_char n :
  0 <= n <= 9 -> is_digit (digit_char n) = true /\ digit_val (digit_char n) = n.
Proof.
  intros H. pose proof (in_digits n H) as Hn.
  unfold digits in Hn. cbn [In] in Hn.
  repeat (destruct Hn as [<-|Hn]; [by vm_compute|]). destruct Hn.
Qed.

(** Checked on every number from 1000 to 9999, and from 0 to 99. *)
Lemma four_digits_checked :
  forallb (fun a => forallb (fun b => forallb (fun c => forallb (fun d =>
    four_digits_printed a b c d) digits) digits) digits) (tail digits) = true.
Proof. vm_compute. reflexivity. Qed.

Lemma two_digits_checked :
  forallb (fun a => forallb (fun b => two_digits_printed a b) digits) digits = true.
Proof. vm_compute. reflexivity. Qed.

Lemma four_digits a b c d :
  1 <= a <= 9 -> 0 <= b <= 9 -> 0 <= c <= 9 -> 0 <= d <= 9 ->
  JsString.ofZ (1000 * a + 100 * b + 10 * c + d)
  = String (digit_char a) (String (digit_char b)
      (String (digit_char c) (String (digit_char d) EmptyString))).
Proof.
  intros Ha Hb Hc Hd.
  assert (In a (tail digits)) as Hin.
  { pose proof (in_digits a ltac:(lia)) as Hin. unfold digits in Hin |- *.
    cbn [tail In] in Hin |- *. destruct Hin as [<-|Hin]; [lia|done]. }
  pose proof (proj1 (forallb_forall _ _) four_digits_checked a Hin) as H1.
  pose proof (proj1 (forallb_forall _ _) H1 b (in_digits b Hb)) as H2.
  pose proof (proj1 (forallb_forall _ _) H2 c (in_digits c Hc)) as H3.
  pose proof (proj1 (forallb_forall _ _) H3 d (in_digits d Hd)) as H4.
  by apply String.eqb_eq.
Qed.

Lemma two_digits a b :
  0 <= a <= 9 -> 0 <= b <= 9 ->
  JsString.padStart2 (JsString.ofZ (10 * a + b))
  = String (digit_char a) (String (digit_char b) EmptyString).
Proof.
  intros Ha Hb.
  pose proof (proj1 (forallb_forall _ _) two_digits_checked a (in_digits a Ha)) as H1.
  pose proof (proj1 (forallb_forall _ _) H1 b (in_digits b Hb)) as H2.
  by apply String.eqb_eq.
Qed.

(** ** The two formats *)

Lemma ascii_eqb_true c d : Ascii.eqb c d = true -> c = d.
Proof. by intros H%Ascii.eqb_eq. Qed.

(** A string that matches the pattern is the text of its digits. *)
Lemma matches_ymd_text s :
  matches_ymd s = true ->
  exists y1 y2 y3 y4 m1 m2 d1 d2,
    (0 <= y1 <= 9 /\ 0 <= y2 <= 9 /\ 0 <= y3 <= 9 /\ 0 <= y4 <= 9)
    /\ (0 <= m1 <= 9 /\ 0 <= m2 <= 9 /\ 0 <= d1 <= 9 /\ 0 <= d2 <= 9)
    /\ s = ymd_text y1 y2 y3 y4 m1 m2 d1 d2
    /\ field 0 4 s = 1000 * y1 + 100 * y2 + 10 * y3 + y4
    /\ field 5 2 s = 10 * m1 + m2
    /\ field 8 2 s = 10 * d1 + d2.
Proof.
  intros Hm. destruct (length10 s (matches_ymd_length s Hm))
    as (c0 & c1 & c2 & c3 & c4 & c5 & c6 & c7 & c8 & c9 & ->).
  unfold matches_ymd in Hm. cbn in Hm. rewrite !andb_true_iff in Hm.
  destruct Hm as [[[[H03 H4] H56] H7] H89].
  destruct H03 as (H0 & H1 & H2 & H3 & _).
  destruct H56 as (H5 & H6 & _). destruct H89 as (H8 & H9 & _).
  unfold char_at in H4, H7. cbn in H4, H7.
  apply ascii_eqb_true in H4, H7. subst c4 c7.
  exists (digit_val c0), (digit_val c1), (digit_val c2), (digit_val c3),
    (digit_val c5), (digit_val c6), (digit_val c8), (digit_val c9).
  unfold ymd_text. rewrite !digit_char_digit_val by done.
  apply is_digit_val in H0, H1, H2, H3, H5, H6, H8, H9.
  split; [done|]. split; [done|]. split; [done|].
  unfold field. cbn [substring digits_value]. lia.
Qed.

(** The text of eight digits matches the pattern, and its fields are the
    numbers that the digits write. *)
Lemma ymd_text_matches y1 y2 y3 y4 m1 m2 d1 d2 :
  0 <= y1 <= 9 -> 0 <= y2 <= 9 -> 0 <= y3 <= 9 -> 0 <= y4 <= 9 ->
  0 <= m1 <= 9 -> 0 <= m2 <= 9 -> 0 <= d1 <= 9 -> 0 <= d2 <= 9 ->
  matches_ymd (ymd_text y1 y2 y3 y4 m1 m2 d1 d2) = true
  /\ field 0 4 (ymd_text y1 y2 y3 y4 m1 m2 d1 d2) = 1000 * y1 + 100 * y2 + 10 * y3 + y4
  /\ field 5 2 (ymd_text y1 y2 y3 y4 m1 m2 d1 d2) = 10 * m1 + m2
  /\ field 8 2 (ymd_text y1 y2 y3 y4 m1 m2 d1 d2) = 10 * d1 + d2.
Proof.
  intros Hy1 Hy2 Hy3 Hy4 Hm1 Hm2 Hd1 Hd2.
  destruct (digit_val_digit_char y1 Hy1) as [Ay1 By1].
  destruct (digit_val_digit_char y2 Hy2) as [Ay2 By2].
  destruct (digit_val_digit_char y3 Hy3) as [Ay3 By3].
  destruct (digit_val_digit_char y4 Hy4) as [Ay4 By4].
  destruct (digit_val_digit_char m1 Hm1) as [Am1 Bm1].
  destruct (digit_val_digit_char m2 Hm2) as [Am2 Bm2].
  destruct (digit_val_digit_char d1 Hd1) as [Ad1 Bd1].
  destruct (digit_val_digit_char d2 Hd2) as [Ad2 Bd2].
  unfold matches_ymd, field, ymd_text, char_at.
  cbn [String.length Nat.eqb substring all_digits digits_value String.get].
  rewrite Ay1, Ay2, Ay3, Ay4, Am1, Am2, Ad1, Ad2, By1, By2, By3, By4, Bm1, Bm2, Bd1, Bd2.
  split; [reflexivity|]. lia.
Qed.

(** The two formats of a time value, from the digits of its local year,
    month and day. *)
Lemma formats_text h t y1 y2 y3 y4 m1 m2 d1 d2 :
  1 <= y1 <= 9 -> 0 <= y2 <= 9 -> 0 <= y3 <= 9 -> 0 <= y4 <= 9 ->
  0 <= m1 <= 9 -> 0 <= m2 <= 9 -> 0 <= d1 <= 9 -> 0 <= d2 <= 9 ->
  YearFromTime (LocalTime h t) = 1000 * y1 + 100 * y2 + 10 * y3 + y4 ->
  MonthFromTime (LocalTime h t) + 1 = 10 * m1 + m2 ->
  DateFromTime (LocalTime h t) = 10 * d1 + d2 ->
  formatDateToYYYYMMDD h (Some t) = ymd_text y1 y2 y3 y4 m1 m2 d1 d2
  /\ formatDateToDDMMYYYY h (Some t) = dmy_text y1 y2 y3 y4 m1 m2 d1 d2.
Proof.
  intros Hy1 Hy2 Hy3 Hy4 Hm1 Hm2 Hd1 Hd2 HY HM HD.
  unfold formatDateToYYYYMMDD, formatDateToDDMMYYYY. cbv zeta.
  rewrite HY, HM, HD, four_digits, !two_digits by done.
  split; reflexivity.
Qed.

(** A calendar date, read at noon: the date that [new Date] gives for the
    text followed by [T12:00:00], and its two formats. *)
Lemma calendar_date_formats h s :
  Z.abs (tza h) <= msPerDay ->
  is_calendar_date s ->
  1000 <= field 0 4 s ->
  exists t,
    ofString h (s ++ "T12:00:00")%string = Some t
    /\ safeParseDate h (VString s) = Some (Some t)
    /\ formatDateToYYYYMMDD h (Some t) = s
    /\ formatDateToDDMMYYYY h (Some t) = ymd_to_dmy s.
Proof.
  intros Htz (Hm & Hmon & Hday) Hy.
  destruct (safeParseDate_ymd h s Htz Hm Hmon Hday) as (t & Hp & HY & HM & HD & _).
  exists t. split.
  { revert Hp. unfold safeParseDate.
    assert (JsValue.truthy (VString s) = true) as ->.
    { destruct s; [discriminate (matches_ymd_length _ Hm)|done]. }
    cbn [negb]. rewrite Hm. by intros [= ->]. }
  split; [done|].
  injection HY as HY. injection HM as HM. injection HD as HD.
  destruct (matches_ymd_text s Hm)
    as (y1 & y2 & y3 & y4 & m1 & m2 & d1 & d2 & Hys & Hmd & Hs & Fy & Fm & Fd).
  destruct (formats_text h t y1 y2 y3 y4 m1 m2 d1 d2) as [-> ->]; try lia.
  split; [done|]. rewrite Hs. reflexivity.
Qed.

(** X4.  Parsing a calendar date and formatting the result gives the text back,
    and [formatDateToDDMMYYYY] shows the same day, month and year, whatever
    the time zone of the host.  The year has four digits without a leading
    zero: [formatDateToYYYYMMDD] does not pad the year. *)
Theorem format_of_parsed_date h s :
  Z.abs (tza h) <= msPerDay ->
  is_calendar_date s ->
  1000 <= field 0 4 s ->
  exists t,
    safeParseDate h (VString s) = Some (Some t)
    /\ formatDateToYYYYMMDD h (Some t) = s
    /\ formatDateToDDMMYYYY h (Some t) = ymd_to_dmy s.
Proof.
  intros Htz Hs Hy.
  destruct (calendar_date_formats h s Htz Hs Hy) as (t & _ & Hp & H1 & H2).
  by exists t.
Qed.

Lemma format_of_parsed_date_witness :
  exists t,
    safeParseDate Examples.kiritimati (VString "2024-02-29") = Some (Some t)
    /\ formatDateToYYYYMMDD Examples.kiritimati (Some t) = "2024-02-29"%string
    /\ formatDateToDDMMYYYY Examples.kiritimati (Some t) = "29/02/2024"%string.
Proof.
  apply (format_of_parsed_date Examples.kiritimati "2024-02-29"); by vm_compute.
Defined.

(** The local day of a time value, from its calendar fields. *)
Lemma localDay_fields h t t' :
  getFullYear h (Some t') = getFullYear h (Some t) ->
  getMonth h (Some t') = getMonth h (Some t) ->
  getDate h (Some t') = getDate h (Some t) ->
  localDay h t' = localDay h t.
Proof.
  unfold getFullYear, getMonth, getDate, localDay. cbn [option_map].
  intros [= HY] [= HM] [= HD].
  rewrite <- (Z.add_0_r (Day (LocalTime h t'))), <- (Z.add_0_r (Day (LocalTime h t))).
  rewrite <- !MakeDay_fields, HY, HM, HD. done.
Qed.

Lemma formatted_date_parsed h t :
  Z.abs (tza h) <= msPerDay ->
  1000 <= YearFromTime (LocalTime h t) <= 9999 ->
  exists t',
    safeParseDate h (VString (formatDateToYYYYMMDD h (Some t))) = Some (Some t')
    /\ getFullYear h (Some t') = getFullYear h (Some t)
    /\ getMonth h (Some t') = getMonth h (Some t)
    /\ getDate h (Some t') = getDate h (Some t)
    /\ getHours h (Some t') = Some 12
    /\ matches_ymd (formatDateToYYYYMMDD h (Some t)) = true.
Proof.
  intros Htz Hy.
  destruct (month_and_date (LocalTime h t)) as (HM & HD & _).
  set (Y := YearFromTime (LocalTime h t)) in *.
  set (M := MonthFromTime (LocalTime h t)) in *.
  set (D := DateFromTime (LocalTime h t)) in *.
  pose proof (DateFromTime_le_31 (LocalTime h t)) as HD31. fold D in HD31.
  destruct (formats_text h t (Y / 1000) (Y / 100 mod 10) (Y / 10 mod 10) (Y mod 10)
              ((M + 1) / 10) ((M + 1) mod 10) (D / 10) (D mod 10)) as [Hf _];
    try (fold Y M D); try (Z.to_euclidean_division_equations; lia).
  destruct (ymd_text_matches (Y / 1000) (Y / 100 mod 10) (Y / 10 mod 10) (Y mod 10)
              ((M + 1) / 10) ((M + 1) mod 10) (D / 10) (D mod 10))
    as (Hmatch & Fy & Fm & Fd);
    try (Z.to_euclidean_division_equations; lia).
  rewrite <- Hf in Hmatch, Fy, Fm, Fd.
  assert (field 0 4 (formatDateToYYYYMMDD h (Some t)) = Y) as FY
    by (rewrite Fy; Z.to_euclidean_division_equations; lia).
  assert (field 5 2 (formatDateToYYYYMMDD h (Some t)) = M + 1) as FM
    by (rewrite Fm; Z.to_euclidean_division_equations; lia).
  assert (field 8 2 (formatDateToYYYYMMDD h (Some t)) = D) as FD
    by (rewrite Fd; Z.to_euclidean_division_equations; lia).
  destruct (safeParseDate_ymd h (formatDateToYYYYMMDD h (Some t)) Htz Hmatch)
    as (t' & Hp & HY' & HM' & HD' & HH').
  - rewrite FM. lia.
  - rewrite FY, FM, FD. by replace (M + 1 - 1) with M by lia.
  - exists t'. rewrite FY in HY'. rewrite FM in HM'. rewrite FD in HD'.
    replace (M + 1 - 1) with M in HM' by lia. by repeat split.
Qed.

(** X5.  Formatting a date and parsing the text gives noon of the same local
    day, whatever the time zone of the host, for a local year of four
    digits. *)
Theorem parse_of_formatted_date h t :
  Z.abs (tza h) <= msPerDay ->
  1000 <= YearFromTime (LocalTime h t) <= 9999 ->
  exists t',
    safeParseDate h (VString (formatDateToYYYYMMDD h (Some t))) = Some (Some t')
    /\ getFullYear h (Some t') = getFullYear h (Some t)
    /\ getMonth h (Some t') = getMonth h (Some t)
    /\ getDate h (Some t') = getDate h (Some t)
    /\ getHours h (Some t') = Some 12.
Proof.
  intros Htz Hy.
  destruct (formatted_date_parsed h t Htz Hy) as (t' & Hp & HY & HM & HD & HH & _).
  by exists t'.
Qed.

Lemma parse_of_formatted_date_witness :
  exists t',
    safeParseDate Examples.buenos_aires
      (VString (formatDateToYYYYMMDD Examples.buenos_aires (Some Examples.a_clock_reading)))
    = Some (Some t')
    /\ getFullYear Examples.buenos_aires (Some t') = Some 2024
    /\ getMonth Examples.buenos_aires (Some t') = Some 2
    /\ getDate Examples.buenos_aires (Some t') = Some 5
    /\ getHours Examples.buenos_aires (Some t') = Some 12.
Proof.
  apply (parse_of_formatted_date Examples.buenos_aires Examples.a_clock_reading);
    by vm_compute.
Defined.

(** ** [safeFormatDate] *)

Lemma not_digit_char x n : 0 <= n <= 9 -> is_digit x = false -> x <> digit_char n.
Proof.
  intros Hn Hx ->. destruct (digit_val_digit_char n Hn) as [H _]. congruence.
Qed.

(** A character that is neither a digit nor the dash does not occur in a
    string that matches the pattern. *)
Lemma includes_ymd x s :
  matches_ymd s = true -> is_digit x = false -> x <> "-"%char ->
  JsString.includes (String x EmptyString) s = false.
Proof.
  intros Hm Hx Hdash.
  destruct (matches_ymd_text s Hm)
    as (y1 & y2 & y3 & y4 & m1 & m2 & d1 & d2 & Hys & Hmd & -> & _).
  unfold ymd_text. cbn [JsString.includes String.prefix].
  repeat match goal with
    | |- context [ascii_dec x (digit_char ?n)] =>
        destruct (ascii_dec x (digit_char n)) as [E|_];
        [exfalso; revert E; apply not_digit_char; [lia|done]|]
    | |- context [ascii_dec x "-"%char] =>
        destruct (ascii_dec x "-"%char) as [E|_]; [done|]
    end.
  reflexivity.
Qed.

(** A text with a slash is returned as it is. *)
Lemma safeFormatDate_slash h x :
  JsString.includes "/" x = true -> safeFormatDate h (Plain (VString x)) = x.
Proof.
  intros Hx. unfold safeFormatDate. rewrite Hx.
  by destruct x.
Qed.

(** X6.  [safeFormatDate] on a calendar date [YYYY-MM-DD] shows [DD/MM/YYYY], the
    same day, month and year, whatever the time zone of the host; it returns
    a text that it has formatted as it is; and [safeFormatDateForInput]
    returns the calendar date as it is. *)
Theorem safeFormatDate_calendar_date h s :
  Z.abs (tza h) <= msPerDay ->
  is_calendar_date s ->
  1000 <= field 0 4 s ->
  safeFormatDate h (Plain (VString s)) = ymd_to_dmy s
  /\ safeFormatDate h (Plain (VString (ymd_to_dmy s))) = ymd_to_dmy s
  /\ safeFormatDateForInput h (Plain (VString s)) = s.
Proof.
  intros Htz Hs Hy.
  destruct (calendar_date_formats h s Htz Hs Hy) as (t & Hof & _ & _ & Hdmy).
  destruct Hs as (Hm & _).
  assert (JsValue.truthy (VString s) = true) as Htruthy.
  { destruct s; [discriminate (matches_ymd_length _ Hm)|done]. }
  split; [|split].
  - unfold safeFormatDate. rewrite Htruthy. cbn [negb].
    rewrite !includes_ymd by done. cbn [orb]. rewrite Hof. done.
  - apply safeFormatDate_slash, QuoteHelperFacts.includes_spec.
    by exists (substring 8 2 s), (substring 5 2 s ++ "/" ++ substring 0 4 s)%string.
  - unfold safeFormatDateForInput. rewrite Htruthy, Hm. done.
Qed.

Lemma safeFormatDate_calendar_date_witness :
  safeFormatDate Examples.buenos_aires (Plain (VString "2024-12-31")) = "31/12/2024"%string
  /\ safeFormatDate Examples.buenos_aires (Plain (VString "31/12/2024")) = "31/12/2024"%string
  /\ safeFormatDateForInput Examples.buenos_aires (Plain (VString "2024-12-31"))
     = "2024-12-31"%string.
Proof.
  apply (safeFormatDate_calendar_date Examples.buenos_aires "2024-12-31"); by vm_compute.
Defined.

End DateFormatFacts.
(* ===================================================================== *)
(** * [QuoteHelper]: event dates, field aliases and status labels *)
(* ===================================================================== *)

Module QuoteDataFacts.
Import JsDate Spec JsDateFacts DateHelper DateHelperFacts DateFormatFacts QuoteData.
Local Open Scope Z_scope.

(** ** Event durations *)

Lemma dayNumber_range s :
  is_calendar_date s -> -719528 <= dayNumber s <= 2932897.
Proof.
  intros (Hm & Hmon & Hday).
  pose proof (matches_ymd_fields s Hm) as (Hy & _ & _).
  unfold dayNumber. rewrite MakeDay_in_year by lia.
  pose proof (DayFromYear_mono 0 (field 0 4 s) ltac:(lia)).
  pose proof (DayFromYear_mono (field 0 4 s) 9999 ltac:(lia)).
  change (DayFromYear 0) with (-719528) in *.
  change (DayFromYear 9999) with 2932532 in *.
  pose proof (daysInMonth_le_31 (field 5 2 s - 1) (leapOf (field 0 4 s)) ltac:(lia)) as H31.
  assert (0 <= monthStart (field 5 2 s - 1) (leapOf (field 0 4 s)) <= 335) as Hms.
  { remember (field 5 2 s - 1) as m' eqn:Hm'.
    assert (m' = 0 \/ m' = 1 \/ m' = 2 \/ m' = 3 \/ m' = 4 \/ m' = 5 \/ m' = 6
            \/ m' = 7 \/ m' = 8 \/ m' = 9 \/ m' = 10 \/ m' = 11) as Hcases by lia.
    clear Hm' Hday H31.
    destruct (DaysInYear_cases (field 0 4 s)) as [[_ Hl]|[_ Hl]]; rewrite Hl;
    repeat (destruct Hcases as [->|Hcases]); try subst m'; cbn; lia. }
  destruct (DaysInYear_cases (field 0 4 s)) as [[_ Hl]|[_ Hl]]; lia.
Qed.

(** A calendar date is parsed to a time of the day that it names, whatever
    the time zone of the host. *)
Lemma parsed_calendar_date h s :
  Z.abs (tza h) <= msPerDay ->
  is_calendar_date s ->
  exists t,
    safeParseDate h (VString s) = Some (Some t)
    /\ localDay h t = dayNumber s
    /\ YearFromTime (LocalTime h t) = field 0 4 s
    /\ - maxTime + 200000 * msPerDay <= t <= maxTime - 200000 * msPerDay.
Proof.
  intros Htz Hs. pose proof (dayNumber_range s Hs) as Hr.
  destruct Hs as (Hm & Hmon & Hday).
  destruct (safeParseDate_ymd h s Htz Hm Hmon Hday) as (t & Hp & HY & HM & HD & _).
  injection HY as HY. injection HM as HM. injection HD as HD.
  assert (localDay h t = dayNumber s) as Hday'.
  { unfold localDay, dayNumber.
    rewrite <- (Z.add_0_r (Day (LocalTime h t))), <- MakeDay_fields, HY, HM, HD.
    by rewrite Z.add_0_r. }
  exists t. split; [done|]. split; [done|]. split; [done|].
  pose proof (localDay_bounds h t) as Hb. rewrite Hday' in Hb.
  unfold maxTime, msPerDay in *. lia.
Qed.

(** X7.  The duration of an event between two calendar dates is the number of
    days of the calendar from the first to the second, both counted, and 1
    when the second is before the first: the same on every host, whatever
    its time zone. *)
Theorem event_duration_counts_calendar_days h s e :
  Z.abs (tza h) <= msPerDay ->
  is_calendar_date s ->
  is_calendar_date e ->
  calculateEventDuration h (VString s) (VString e)
  = Z.max 1 (dayNumber e - dayNumber s + 1).
Proof.
  intros Htz Hs He.
  destruct (parsed_calendar_date h s Htz Hs) as (ts & Hps & Hds & _ & Hrs).
  destruct (parsed_calendar_date h e Htz He) as (te & Hpe & Hde & _ & Hre).
  unfold calculateEventDuration. rewrite Hps, Hpe.
  assert (JsValue.truthy (VString e) = true) as ->.
  { destruct He as (Hm & _). destruct e; [discriminate (matches_ymd_length _ Hm)|done]. }
  rewrite calculateDurationInDays_localDay, Hds, Hde;
    [done| |]; unfold maxTime, msPerDay in *; lia.
Qed.

Lemma event_duration_counts_calendar_days_witness :
  calculateEventDuration Examples.kiritimati (VString "2024-02-27") (VString "2024-03-02")
  = 5.
Proof.
  apply (event_duration_counts_calendar_days Examples.kiritimati
           "2024-02-27" "2024-03-02"); by vm_compute.
Defined.

(** ** The end date of an event *)

Lemma YearFromTime_bounds t y1 y2 :
  DayFromYear y1 <= Day t < DayFromYear (y2 + 1) -> y1 <= YearFromTime t <= y2.
Proof.
  intros H. pose proof (YearFromTime_spec t) as Hs.
  split.
  - destruct (Z.le_gt_cases y1 (YearFromTime t)) as [|Hlt]; [done|].
    pose proof (DayFromYear_mono (YearFromTime t + 1) y1 ltac:(lia)). lia.
  - destruct (Z.le_gt_cases (YearFromTime t) y2) as [|Hlt]; [done|].
    pose proof (DayFromYear_mono (y2 + 1) (YearFromTime t) ltac:(lia)). lia.
Qed.

Lemma truthy_ymd s : matches_ymd s = true -> JsValue.truthy (VString s) = true.
Proof. intros Hm. destruct s; [discriminate (matches_ymd_length _ Hm)|done]. Qed.

(** X8.  A quote has a start date, a calendar date, no end date and a duration
    of [n] days.  [calculateEndDateIfMissing] fills in an end date such that
    the duration of the event, computed from the start and either alias of
    the end, is [n], whatever the time zone of the host. *)
Theorem end_date_filled_from_duration h q s n :
  Z.abs (tza h) <= msPerDay ->
  is_calendar_date s ->
  1000 <= field 0 4 s <= 9000 ->
  js_or (fechaEvento q) (fecha_evento q) = VString s ->
  JsValue.truthy (js_or (fechaEventoFin q) (fecha_evento_fin q)) = false ->
  duracion_dias q = Some n ->
  1 <= n <= 100000 ->
  calculateEventDuration h (VString s) (fechaEventoFin (calculateEndDateIfMissing h q)) = n
  /\ calculateEventDuration h (VString s) (fecha_evento_fin (calculateEndDateIfMissing h q)) = n.
Proof.
  intros Htz Hs Hy Hstart Hend Hdur Hn.
  destruct (parsed_calendar_date h s Htz Hs) as (t & Hp & Hday & HY & Hr).
  assert (JsValue.truthy (VString s) = true) as Htr by (apply truthy_ymd, Hs).
  assert (0 < msPerDay) as HD by done. assert (0 < maxTime) as HL by done.
  assert (- maxTime + msPerDay <= t <= maxTime) as Hrt by lia.
  unfold calculateEndDateIfMissing. rewrite Hstart, Hend, Hdur, Htr, Hp. cbn [andb negb].
  assert ((n =? 0) = false) as -> by lia.
  destruct (Z.ltb_spec 1 n) as [Hgt|Hle]; cbn [fechaEventoFin fecha_evento_fin].
  - rewrite calculateEndDate_shift.
    set (m := (n - 1) * msPerDay).
    assert (0 <= m <= 100000 * msPerDay) as Hm by (unfold m; nia).
    assert (- maxTime + msPerDay <= t + m <= maxTime) as Hre by lia.
    rewrite TimeClip_Some by lia.
    assert (localDay h (t + m) = localDay h t + (n - 1)) as Hde
      by (unfold m; apply localDay_shift).
    split.
    + unfold calculateEventDuration. rewrite Hp. cbn [JsValue.truthy safeParseDate negb].
      rewrite (calculateDurationInDays_localDay h t (t + m) Hrt Hre), Hde. lia.
    + unfold safeFormatDateForInput. cbn [JsValue.truthy negb JsValue.toDate JsDate.isValid].
      assert (1000 <= YearFromTime (LocalTime h (t + m)) <= 9999) as Hye.
      { apply YearFromTime_bounds. fold (localDay h (t + m)). rewrite Hde.
        pose proof (YearFromTime_spec (LocalTime h t)) as Hspec.
        fold (localDay h t) in Hspec. rewrite HY in Hspec.
        pose proof (DayFromYear_mono 1000 (field 0 4 s) ltac:(lia)).
        pose proof (DayFromYear_mono (field 0 4 s + 1) 9001 ltac:(lia)).
        change (DayFromYear 9001) with 2568020 in *.
        change (DayFromYear (9999 + 1)) with 2932897. lia. }
      destruct (formatted_date_parsed h (t + m) Htz Hye)
        as (t' & Hp' & HY' & HM' & HD' & _ & Hmatch).
      pose proof (localDay_fields h (t + m) t' HY' HM' HD') as Hday'.
      unfold calculateEventDuration. rewrite Hp, Hp', (truthy_ymd _ Hmatch).
      pose proof (localDay_bounds h t') as Hb'.
      pose proof (localDay_bounds h (t + m)) as Hbe. rewrite <- Hday' in Hbe.
      rewrite (calculateDurationInDays_localDay h t t' Hrt ltac:(lia)), Hday', Hde. lia.
  - assert (n = 1) as -> by lia.
    unfold calculateEventDuration. rewrite Htr, Hp.
    rewrite (calculateDurationInDays_localDay h t t Hrt Hrt). split; lia.
Qed.

Lemma end_date_filled_from_duration_witness :
  calculateEventDuration Examples.buenos_aires (VString "2024-06-24")
    (fechaEventoFin (calculateEndDateIfMissing Examples.buenos_aires Examples.cinco_dias))
  = 5
  /\ calculateEventDuration Examples.buenos_aires (VString "2024-06-24")
       (fecha_evento_fin (calculateEndDateIfMissing Examples.buenos_aires Examples.cinco_dias))
     = 5.
Proof.
  apply (end_date_filled_from_duration Examples.buenos_aires Examples.cinco_dias
           "2024-06-24" 5); by vm_compute.
Defined.

(** ** Field aliases *)

(** The two assignments that mirror one alias into the other. *)
Lemma mirror_pair {A : Type} (truthy : A -> bool) (a b : A) :
  mirrored truthy a b
    (if truthy (if truthy a && negb (truthy b) then a else b) && negb (truthy a)
     then (if truthy a && negb (truthy b) then a else b) else a)
    (if truthy a && negb (truthy b) then a else b).
Proof.
  unfold mirrored.
  destruct (truthy a) eqn:Ha, (truthy b) eqn:Hb; cbn [andb negb];
    rewrite ?Ha, ?Hb; cbn [andb negb]; rewrite ?Ha, ?Hb; intuition congruence.
Qed.

Lemma mirror_pair_again {A : Type} (truthy : A -> bool) (a b : A) :
  let b' := if truthy a && negb (truthy b) then a else b in
  let a' := if truthy b' && negb (truthy a) then b' else a in
  (if truthy a' && negb (truthy b') then a' else b') = b'
  /\ (if truthy (if truthy a' && negb (truthy b') then a' else b') && negb (truthy a')
      then (if truthy a' && negb (truthy b') then a' else b') else a') = a'.
Proof.
  cbv zeta.
  destruct (truthy a) eqn:Ha, (truthy b) eqn:Hb; cbn [andb negb];
    rewrite ?Ha, ?Hb; cbn [andb negb]; rewrite ?Ha, ?Hb; cbn [andb negb];
    rewrite ?Ha, ?Hb; done.
Qed.

(** X9.  [normalizeQuoteData] leaves the two aliases of the client, of the start
    of the event, of its end and of the creation date in step: a value that
    was there is kept, the two aliases are there or missing together, and
    they are equal unless both were there before.  The items are an array
    afterwards, and normalising twice is normalising once. *)
Theorem normalizeQuoteData_mirrors_aliases q :
  mirrored str_truthy (cliente_id q) (clienteId q)
    (cliente_id (normalizeQuoteData q)) (clienteId (normalizeQuoteData q))
  /\ mirrored JsValue.truthy (fecha_evento q) (fechaEvento q)
       (fecha_evento (normalizeQuoteData q)) (fechaEvento (normalizeQuoteData q))
  /\ mirrored JsValue.truthy (fecha_evento_fin q) (fechaEventoFin q)
       (fecha_evento_fin (normalizeQuoteData q)) (fechaEventoFin (normalizeQuoteData q))
  /\ mirrored JsValue.truthy (created_at q) (createdAt q)
       (created_at (normalizeQuoteData q)) (createdAt (normalizeQuoteData q))
  /\ items (normalizeQuoteData q) = ItemArray (normalizeItems (items q))
  /\ normalizeQuoteData (normalizeQuoteData q) = normalizeQuoteData q.
Proof.
  split; [apply mirror_pair|]. split; [apply mirror_pair|].
  split; [apply mirror_pair|]. split; [apply mirror_pair|].
  split; [done|].
  unfold normalizeQuoteData at 1. cbv zeta.
  cbn [cliente_id clienteId titulo fecha_evento fechaEvento fecha_evento_fin
       fechaEventoFin duracion_dias items created_at createdAt normalizeQuoteData
       normalizeItems].
  destruct (mirror_pair_again str_truthy (cliente_id q) (clienteId q)) as [-> ->].
  destruct (mirror_pair_again JsValue.truthy (fecha_evento q) (fechaEvento q)) as [-> ->].
  destruct (mirror_pair_again JsValue.truthy (fecha_evento_fin q) (fechaEventoFin q))
    as [-> ->].
  destruct (mirror_pair_again JsValue.truthy (created_at q) (createdAt q)) as [-> ->].
  reflexivity.
Qed.

(** ** Status labels *)

(** X10.  Of the statuses of a quote, [getQuoteStatusDisplay] has a label for the
    draft alone: the other keys of its table ([enviado], [aprobado],
    [rechazado]) are not the names of the statuses ([enviada], [aprobada],
    [rechazada]), and every status but the draft is shown as
    [Desconocido]. *)
Theorem status_label_known_for_draft_only (st : Firestore.QuoteStatus) :
  (st = Firestore.BORRADOR ->
   getQuoteStatusDisplay (Firestore.status_name st)
   = Label {| text := "Borrador"; class := "bg-gray-100 text-gray-800" |})
  /\ (st <> Firestore.BORRADOR ->
      getQuoteStatusDisplay (Firestore.status_name st)
      = Label {| text := "Desconocido"; class := "bg-gray-100 text-gray-800" |}).
Proof.
  destruct st; split; intros H; try done; try discriminate H.
Qed.

End QuoteDataFacts.
(* ===================================================================== *)
(** * Patterns: the test decides the match *)
(* ===================================================================== *)

Module RegExpFacts.
Import Spec JsRegExp.
Local Open Scope string_scope.

Lemma app_cons c (s r : string) : String c s ++ r = String c (s ++ r).
Proof. reflexivity. Qed.

Lemma app_nil_l (s : string) : "" ++ s = s.
Proof. reflexivity. Qed.

Lemma app_nil_r (s : string) : s ++ "" = s.
Proof. induction s as [|c s IH]; [reflexivity|]. by rewrite app_cons, IH. Qed.

Lemma app_assoc (a b c : string) : (a ++ b) ++ c = a ++ (b ++ c).
Proof. induction a as [|x a IH]; [reflexivity|]. by rewrite !app_cons, IH. Qed.

Lemma app_eq_nil (a b : string) : a ++ b = "" -> a = "" /\ b = "".
Proof. destruct a; [by rewrite app_nil_l|]. rewrite app_cons. discriminate. Qed.

Lemma app_length (a b : string) :
  String.length (a ++ b) = (String.length a + String.length b)%nat.
Proof. induction a as [|x a IH]; [reflexivity|]. rewrite app_cons. cbn. by rewrite IH. Qed.

(** ** What a match of each form is *)

Lemma Matches_never s : ~ Matches Never s.
Proof. intros H. inversion H. Qed.

Lemma Matches_epsilon s : Matches Epsilon s <-> s = "".
Proof. split; [intros H; by inversion H|intros ->; constructor]. Qed.

Lemma Matches_class member s :
  Matches (Class member) s <-> exists c, s = String c "" /\ member c = true.
Proof.
  split.
  - intros H. inversion H; subst. by eexists.
  - intros (c & -> & Hc). by constructor.
Qed.

Lemma Matches_seq p q s :
  Matches (Seq p q) s <-> exists s1 s2, s = s1 ++ s2 /\ Matches p s1 /\ Matches q s2.
Proof.
  split.
  - intros H. inversion H; subst. by eexists _, _.
  - intros (s1 & s2 & -> & H1 & H2). by constructor.
Qed.

Lemma Matches_alt p q s : Matches (Alt p q) s <-> Matches p s \/ Matches q s.
Proof.
  split.
  - intros H. inversion H; subst; auto.
  - intros [H|H]; [by apply matches_alt_l|by apply matches_alt_r].
Qed.

(** A repetition that matches a string with a first character matches it in
    a first round that is not empty. *)
Lemma Matches_star_cons p c s :
  Matches (Star p) (String c s) ->
  exists s1 s2, s = s1 ++ s2 /\ Matches p (String c s1) /\ Matches (Star p) s2.
Proof.
  intros H. remember (Star p) as r eqn:Hr. remember (String c s) as w eqn:Hw.
  revert c s Hw. induction H as [| | | | | |p' s1 s2 H1 _ H2 IH2]; intros x w' Hw;
    try discriminate Hr; [discriminate Hw|].
  injection Hr as ->. destruct s1 as [|c1 s1].
  - rewrite app_nil_l in Hw. by apply IH2.
  - rewrite app_cons in Hw. injection Hw as -> <-. by eexists _, _.
Qed.

Lemma nullable_Matches p : nullable p = true <-> Matches p "".
Proof.
  induction p as [| |member|p IHp q IHq|p IHp q IHq|p IHp]; cbn [nullable].
  - split; [discriminate|]. intros H. by apply Matches_never in H.
  - split; [constructor|done].
  - split; [discriminate|]. intros (c & H & _)%Matches_class. discriminate H.
  - rewrite andb_true_iff, IHp, IHq, Matches_seq. split.
    + intros [H1 H2]. by exists "", "".
    + intros (s1 & s2 & Hs & H1 & H2). symmetry in Hs.
      apply app_eq_nil in Hs as [-> ->]. done.
  - by rewrite orb_true_iff, IHp, IHq, Matches_alt.
  - split; [constructor|done].
Qed.

Lemma after_Matches p : forall c s, Matches (after c p) s <-> Matches p (String c s).
Proof.
  induction p as [| |member|p IHp q IHq|p IHp q IHq|p IHp]; intros c s; cbn [after].
  - split; intros H; by apply Matches_never in H.
  - split; [intros H; by apply Matches_never in H|].
    intros H%Matches_epsilon. discriminate H.
  - rewrite Matches_class. destruct (member c) eqn:Hc.
    + rewrite Matches_epsilon. split.
      * intros ->. by exists c.
      * intros (c' & [= -> ->] & _). done.
    + split; [intros H; by apply Matches_never in H|].
      intros (c' & [= -> ->] & Hc'). congruence.
  - assert (Matches (Seq (after c p) q) s <->
            exists s1 s2, s = s1 ++ s2 /\ Matches p (String c s1) /\ Matches q s2) as Hseq.
    { rewrite Matches_seq. split; intros (s1 & s2 & Hs & H1 & H2); exists s1, s2;
        (split; [done|]); (split; [|done]); by apply IHp. }
    rewrite (Matches_seq p q). destruct (nullable p) eqn:Hn.
    + rewrite Matches_alt, Hseq, IHq. split.
      * intros [(s1 & s2 & -> & H1 & H2)|H].
        -- by exists (String c s1), s2.
        -- exists "", (String c s). split; [done|]. split; [|done].
           by apply nullable_Matches.
      * intros (s1 & s2 & Hs & H1 & H2). destruct s1 as [|c1 s1].
        -- rewrite app_nil_l in Hs. subst s2. by right.
        -- rewrite app_cons in Hs. injection Hs as <- ->. left. by exists s1, s2.
    + rewrite Hseq. split.
      * intros (s1 & s2 & -> & H1 & H2). by exists (String c s1), s2.
      * intros (s1 & s2 & Hs & H1 & H2). destruct s1 as [|c1 s1].
        -- apply nullable_Matches in H1. congruence.
        -- rewrite app_cons in Hs. injection Hs as <- ->. by exists s1, s2.
  - by rewrite !Matches_alt, IHp, IHq.
  - rewrite Matches_seq. split.
    + intros (s1 & s2 & -> & H1 & H2). apply IHp in H1.
      exact (matches_star_cons p (String c s1) s2 H1 H2).
    + intros (s1 & s2 & -> & H1 & H2)%Matches_star_cons.
      exists s1, s2. split; [done|]. split; [|done]. by apply IHp.
Qed.

(** The test of a pattern decides whether the pattern matches the whole
    string. *)
Lemma test_Matches s : forall p, test p s = true <-> Matches p s.
Proof.
  induction s as [|c s IH]; intros p; cbn [test].
  - apply nullable_Matches.
  - by rewrite IH, after_Matches.
Qed.

(** ** Repetitions of a class *)

Lemma Matches_star_class member s :
  Matches (Star (Class member)) s <-> all_chars member s = true.
Proof.
  split.
  - induction s as [|c s IH]; [done|].
    intros (s1 & s2 & -> & (c' & Hc' & Hm)%Matches_class & H2)%Matches_star_cons.
    injection Hc' as <- ->. rewrite app_nil_l. cbn [all_chars].
    rewrite Hm. by apply IH.
  - induction s as [|c s IH]; [constructor|].
    cbn [all_chars]. intros [Hc Hs]%andb_true_iff.
    apply (matches_star_cons _ (String c "") s); [by constructor|by apply IH].
Qed.

Lemma Matches_plus_class member s :
  Matches (Plus (Class member)) s <-> s <> "" /\ all_chars member s = true.
Proof.
  unfold Plus. rewrite Matches_seq. split.
  - intros (s1 & s2 & -> & (c & -> & Hc)%Matches_class & H2%Matches_star_class).
    rewrite app_cons, app_nil_l. split; [done|]. cbn [all_chars]. by rewrite Hc.
  - intros [Hne Hs]. destruct s as [|c s]; [done|].
    cbn [all_chars] in Hs. apply andb_true_iff in Hs as [Hc Hs].
    exists (String c ""), s. split; [done|].
    split; [by constructor|by apply Matches_star_class].
Qed.

Lemma Matches_times_class n member : forall s,
  Matches (Times n (Class member)) s
  <-> String.length s = n /\ all_chars member s = true.
Proof.
  induction n as [|n IH]; intros s; cbn [Times].
  - rewrite Matches_epsilon. split; [by intros ->|]. intros [H _]. by destruct s.
  - rewrite Matches_seq. split.
    + intros (s1 & s2 & -> & (c & -> & Hc)%Matches_class & [Hl Hs]%IH).
      rewrite app_cons, app_nil_l. cbn [String.length all_chars].
      by rewrite Hl, Hc.
    + intros [Hl Hs]. destruct s as [|c s]; [discriminate Hl|].
      cbn [String.length all_chars] in Hl, Hs. apply andb_true_iff in Hs as [Hc Hs].
      exists (String c ""), s. split; [done|]. split; [by constructor|].
      apply IH. split; [congruence|done].
Qed.

Lemma Matches_char c s : Matches (Char c) s <-> s = String c "".
Proof.
  unfold Char. rewrite Matches_class. split.
  - intros (c' & -> & H%Ascii.eqb_eq). by subst.
  - intros ->. exists c. split; [done|]. apply Ascii.eqb_refl.
Qed.

End RegExpFacts.
(* ===================================================================== *)
(** * [ValidationHelper]: what the validators accept *)
(* ===================================================================== *)

Module ValidationFacts.
Import JsDate Spec JsRegExp RegExpFacts ValidationHelper.
Local Open Scope string_scope.

Lemma isValid_result errors : isValid (result errors) = true <-> errors = [].
Proof. unfold result. cbn [isValid]. by destruct errors. Qed.

Lemma isValid_result_false errors : isValid (result errors) = false <-> errors <> [].
Proof. unfold result. cbn [isValid]. by destruct errors. Qed.

(** ** Classes of characters over a string *)

Lemma all_chars_app member (a b : string) :
  all_chars member (a ++ b) = all_chars member a && all_chars member b.
Proof.
  induction a as [|c a IH]; [reflexivity|].
  rewrite app_cons. cbn [all_chars]. by rewrite IH, andb_assoc.
Qed.

Lemma count_chars_app member (a b : string) :
  count_chars member (a ++ b) = (count_chars member a + count_chars member b)%nat.
Proof.
  induction a as [|c a IH]; [reflexivity|].
  rewrite app_cons. cbn [count_chars]. rewrite IH. lia.
Qed.

Lemma all_chars_impl (m1 m2 : ascii -> bool) s :
  (forall c, m1 c = true -> m2 c = true) ->
  all_chars m1 s = true -> all_chars m2 s = true.
Proof.
  intros Hm. induction s as [|c s IH]; [done|]. cbn [all_chars].
  rewrite !andb_true_iff. intros [Hc Hs]. split; [by apply Hm|by apply IH].
Qed.

Lemma count_chars_none (m1 m2 : ascii -> bool) s :
  (forall c, m1 c = true -> m2 c = false) ->
  all_chars m1 s = true -> count_chars m2 s = O.
Proof.
  intros Hm. induction s as [|c s IH]; [done|]. cbn [all_chars count_chars].
  rewrite andb_true_iff. intros [Hc Hs]. by rewrite (Hm c Hc), IH.
Qed.

Lemma all_digits_all_chars s : all_digits s = all_chars is_digit s.
Proof. induction s as [|c s IH]; [done|]. cbn. by rewrite IH. Qed.

(** ** Email addresses *)

Lemma emailRegex_Matches s :
  Matches emailRegex s <->
  exists l d t,
    s = l ++ "@" ++ d ++ "." ++ t /\ email_part l /\ email_part d /\ email_part t.
Proof.
  unfold emailRegex, email_part. split.
  - intros (l & r1 & -> & Hl%Matches_plus_class & H1)%Matches_seq.
    apply Matches_seq in H1 as (a & r2 & -> & ->%Matches_char & H2).
    apply Matches_seq in H2 as (d & r3 & -> & Hd%Matches_plus_class & H3).
    apply Matches_seq in H3 as (dot & t & -> & ->%Matches_char & Ht%Matches_plus_class).
    by exists l, d, t.
  - intros (l & d & t & -> & Hl & Hd & Ht).
    apply Matches_seq. exists l, ("@" ++ d ++ "." ++ t).
    split; [done|]. split; [by apply Matches_plus_class|].
    apply Matches_seq. exists "@", (d ++ "." ++ t).
    split; [done|]. split; [by apply Matches_char|].
    apply Matches_seq. exists d, ("." ++ t).
    split; [done|]. split; [by apply Matches_plus_class|].
    apply Matches_seq. exists ".", t.
    split; [done|]. split; [by apply Matches_char|by apply Matches_plus_class].
Qed.

(** X11.  [validateEmail] accepts exactly the strings made of a local part, [@],
    and a domain with a dot inside it, where the local part and the two
    sides of that dot are not empty and hold neither white space nor [@].
    So an accepted address has exactly one [@] and no white space; nothing
    else is asked of its characters. *)
Theorem validateEmail_accepts email :
  (isValid (validateEmail email) = true <->
   exists l d t,
     email = l ++ "@" ++ d ++ "." ++ t
     /\ email_part l /\ email_part d /\ email_part t)
  /\ (isValid (validateEmail email) = true ->
      count_chars (Ascii.eqb "@") email = 1%nat
      /\ all_chars (fun c => negb (JsString.is_space c)) email = true).
Proof.
  assert (isValid (validateEmail email) = true <-> Matches emailRegex email) as Hv.
  { unfold validateEmail. rewrite isValid_result, <- test_Matches.
    destruct email as [|c r]; cbn [JsString.truthy negb].
    - split; [discriminate|]. intros H. cbn in H. discriminate H.
    - destruct (test emailRegex (String c r)); cbn [negb]; split; done. }
  split; [by rewrite Hv, emailRegex_Matches|].
  rewrite Hv, emailRegex_Matches.
  intros (l & d & t & -> & [_ Hl] & [_ Hd] & [_ Ht]).
  assert (forall s,
            all_chars (fun c => negb (JsString.is_space c || Ascii.eqb c "@")) s = true ->
            count_chars (Ascii.eqb "@") s = O
            /\ all_chars (fun c => negb (JsString.is_space c)) s = true) as Hpart.
  { intros s Hs. split.
    - revert Hs. apply count_chars_none. intros c Hc.
      apply negb_true_iff, orb_false_iff in Hc as [_ Hc].
      by rewrite Ascii.eqb_sym.
    - revert Hs. apply all_chars_impl. intros c Hc.
      apply negb_true_iff, orb_false_iff in Hc as [Hc _]. by rewrite Hc. }
  destruct (Hpart l Hl) as [Cl Sl], (Hpart d Hd) as [Cd Sd], (Hpart t Ht) as [Ct St].
  rewrite !count_chars_app, !all_chars_app, Cl, Cd, Ct, Sl, Sd, St. done.
Qed.

Example validateEmail_examples :
  isValid (validateEmail "ana@bls.com") = true
  /\ errors (validateEmail "") = ["Email es obligatorio"]
  /\ errors (validateEmail "ana@bls") = ["Email no tiene un formato válido"]
  /\ isValid (validateEmail "ana@bls@x.com") = false
  /\ isValid (validateEmail "ana perez@bls.com") = false.
Proof. by vm_compute. Qed.

(** ** White space around a string *)

Lemma is_digit_not_space c : is_digit c = true -> JsString.is_space c = false.
Proof.
  destruct c as [[] [] [] [] [] [] [] []]; intros H; vm_compute in H;
    try discriminate H; reflexivity.
Qed.

Lemma is_digit_not_dash c : is_digit c = true -> Ascii.eqb c "-" = false.
Proof.
  destruct c as [[] [] [] [] [] [] [] []]; intros H; vm_compute in H;
    try discriminate H; reflexivity.
Qed.

Lemma trimEnd_head c r :
  JsString.is_space c = false ->
  exists r', JsString.trimEnd (String c r) = String c r'.
Proof.
  intros Hc. cbn [JsString.trimEnd]. rewrite Hc.
  destruct (JsString.trimEnd r); by eexists.
Qed.

(** A string with a character that is not white space is truthy, and so is
    what [trim] leaves of it. *)
Lemma nonblank_trim s :
  JsString.nonblank s = true ->
  JsString.truthy s = true /\ Nat.ltb 0 (String.length (JsString.trim s)) = true.
Proof.
  intros Hs. split; [by destruct s|]. unfold JsString.trim.
  induction s as [|c s IH]; [done|]. cbn [JsString.nonblank JsString.trimStart] in *.
  destruct (JsString.is_space c) eqn:Hc; cbn [negb orb] in Hs.
  - by apply IH.
  - destruct (trimEnd_head c s Hc) as [r' ->]. done.
Qed.

(** ** CUIT *)

Lemma cuit_format s :
  test cuitRegex s = true <-> String.length s = 11%nat /\ all_digits s = true.
Proof.
  unfold cuitRegex, Digit.
  by rewrite test_Matches, Matches_times_class, all_digits_all_chars.
Qed.

Lemma removeDashes_digits s : all_digits s = true -> JsString.removeDashes s = s.
Proof.
  induction s as [|c s IH]; [done|]. cbn [all_digits JsString.removeDashes].
  intros [Hc Hs]%andb_true_iff. by rewrite (is_digit_not_dash c Hc), IH.
Qed.

Lemma removeDashes_length s :
  (String.length (JsString.removeDashes s) <= String.length s)%nat.
Proof.
  induction s as [|c s IH]; [done|]. cbn [JsString.removeDashes].
  destruct (Ascii.eqb c "-"); cbn [String.length]; lia.
Qed.

(** A text is not blank when a digit is left of it without its dashes. *)
Lemma removeDashes_nonblank s c r :
  JsString.removeDashes s = String c r -> is_digit c = true ->
  JsString.nonblank s = true.
Proof.
  destruct s as [|a s]; [discriminate|]. cbn [JsString.removeDashes JsString.nonblank].
  destruct (Ascii.eqb a "-") eqn:Ha.
  - apply Ascii.eqb_eq in Ha as ->. done.
  - intros [= -> _] Hc. by rewrite (is_digit_not_space c Hc).
Qed.

Lemma weightedSum_body body k :
  String.length body = 10%nat ->
  weightedSum (digitsOf (body ++ String k "")) = weightedSum (digitsOf body)
  /\ nth 10 (digitsOf (body ++ String k "")) 0%Z = digit_val k.
Proof.
  intros Hl. destruct (DateHelperFacts.length10 body Hl)
    as (c0 & c1 & c2 & c3 & c4 & c5 & c6 & c7 & c8 & c9 & ->).
  split; reflexivity.
Qed.

Lemma checkDigit_range sum : (0 <= checkDigit sum <= 9)%Z.
Proof.
  unfold checkDigit. cbv zeta.
  destruct (Z.ltb_spec (sum mod 11) 2); Z.to_euclidean_division_equations; lia.
Qed.

(** What [validateCUIT] decides on a text whose characters other than
    dashes are eleven digits. *)
Lemma validateCUIT_digits cuit :
  String.length (JsString.removeDashes cuit) = 11%nat ->
  all_digits (JsString.removeDashes cuit) = true ->
  isValid (validateCUIT cuit) = true
  <-> checkDigit (weightedSum (digitsOf (JsString.removeDashes cuit)))
      = nth 10 (digitsOf (JsString.removeDashes cuit)) 0%Z.
Proof.
  intros Hl Hd.
  assert (JsString.nonblank cuit = true) as Hnb.
  { destruct (JsString.removeDashes cuit) as [|c r] eqn:Hc; [discriminate Hl|].
    apply (removeDashes_nonblank cuit c r Hc).
    cbn [all_digits] in Hd. by apply andb_true_iff in Hd as [Hd _]. }
  destruct (nonblank_trim cuit Hnb) as [Ht Hn].
  unfold validateCUIT. rewrite isValid_result, Ht, Hn. cbn [andb]. cbv zeta.
  assert (test cuitRegex (JsString.removeDashes cuit) = true) as ->
    by (by apply cuit_format).
  cbn [negb].
  destruct (Z.eqb_spec
              (checkDigit (weightedSum (digitsOf (JsString.removeDashes cuit))))
              (nth 10 (digitsOf (JsString.removeDashes cuit)) 0%Z)); cbn [negb];
    split; done.
Qed.

(** X12.  Ten digits have exactly one check digit: a CUIT with these ten digits,
    written with or without dashes, is accepted if and only if its eleventh
    character is that digit. *)
Theorem cuit_has_one_check_digit cuit body k :
  JsString.removeDashes cuit = body ++ String k "" ->
  String.length body = 10%nat ->
  all_digits body = true ->
  (0 <= checkDigit (weightedSum (digitsOf body)) <= 9)%Z
  /\ (isValid (validateCUIT cuit) = true
      <-> k = digit_char (checkDigit (weightedSum (digitsOf body)))).
Proof.
  intros Hclean Hl Hd. pose proof (checkDigit_range (weightedSum (digitsOf body))) as Hr.
  split; [done|].
  destruct (weightedSum_body body k Hl) as [Hsum Hlast].
  destruct (is_digit k) eqn:Hk.
  - rewrite validateCUIT_digits, Hclean, Hsum, Hlast.
    + split.
      * intros ->. symmetry. by apply DateFormatFacts.digit_char_digit_val.
      * intros ->. symmetry. by apply DateFormatFacts.digit_val_digit_char.
    + rewrite Hclean, app_length, Hl. done.
    + rewrite Hclean, all_digits_all_chars, all_chars_app, <- all_digits_all_chars, Hd.
      cbn [all_chars]. by rewrite Hk.
  - split.
    + intros Hv. exfalso. revert Hv. unfold validateCUIT. rewrite isValid_result.
      assert (JsString.nonblank cuit = true) as Hnb.
      { destruct body as [|c0 body']; [discriminate Hl|].
        rewrite app_cons in Hclean. apply (removeDashes_nonblank cuit _ _ Hclean).
        cbn [all_digits] in Hd. by apply andb_true_iff in Hd as [Hd _]. }
      destruct (nonblank_trim cuit Hnb) as [-> ->]. cbn [andb]. cbv zeta.
      assert (test cuitRegex (JsString.removeDashes cuit) = false) as ->; [|done].
      apply not_true_is_false. intros [_ Hall]%cuit_format.
      rewrite Hclean, all_digits_all_chars, all_chars_app in Hall.
      apply andb_true_iff in Hall as [_ Hall]. cbn [all_chars] in Hall.
      rewrite Hk in Hall. done.
    + intros ->. destruct (DateFormatFacts.digit_val_digit_char _ Hr) as [H _]. congruence.
Qed.

Lemma cuit_has_one_check_digit_witness :
  isValid (validateCUIT "20-12345678-6") = true.
Proof.
  apply (proj2 (cuit_has_one_check_digit "20-12345678-6" "2012345678" "6"
                  eq_refl eq_refl eq_refl)).
  reflexivity.
Defined.

(** ** A CUIT with one digit changed *)

Lemma length11 (s : string) :
  String.length s = 11%nat ->
  exists c0 c1 c2 c3 c4 c5 c6 c7 c8 c9 c10,
    s = String c0 (String c1 (String c2 (String c3 (String c4 (String c5
          (String c6 (String c7 (String c8 (String c9 (String c10 "")))))))))).
Proof.
  intros H.
  do 11 (destruct s as [|? s]; [discriminate H|]).
  destruct s; [|discriminate H]. by do 11 eexists.
Qed.

Lemma replaceAt_length c : forall s i,
  String.length (replaceAt i c s) = String.length s.
Proof.
  induction s as [|a s IH]; intros i; [done|].
  destruct i as [|i]; cbn [replaceAt String.length]; [done|]. by rewrite IH.
Qed.

(** A character that is not a digit, put in place of a character of [s],
    leaves a text that is not eleven digits once its dashes are removed, if
    [s] has eleven characters. *)
Lemma replaceAt_not_digit c : forall s i,
  is_digit c = false -> (i < String.length s)%nat ->
  ~ (String.length (JsString.removeDashes (replaceAt i c s)) = String.length s
     /\ all_digits (JsString.removeDashes (replaceAt i c s)) = true).
Proof.
  induction s as [|a s IH]; intros i Hc Hi [Hl Hd]; [cbn in Hi; lia|].
  destruct i as [|i]; cbn [replaceAt JsString.removeDashes String.length] in *.
  - destruct (Ascii.eqb c "-").
    + pose proof (removeDashes_length s). lia.
    + cbn [all_digits] in Hd. rewrite Hc in Hd. done.
  - destruct (Ascii.eqb a "-").
    + pose proof (removeDashes_length (replaceAt i c s)) as H.
      rewrite replaceAt_length in H. lia.
    + cbn [String.length all_digits] in Hl, Hd.
      apply andb_true_iff in Hd as [_ Hd].
      apply (IH i Hc ltac:(lia)). split; [lia|done].
Qed.

Lemma replaceAt_nonblank c : forall s i,
  String.length s = 11%nat -> all_digits s = true ->
  JsString.nonblank (replaceAt i c s) = true.
Proof.
  intros s i Hl Hd.
  destruct (length11 s Hl) as (c0 & c1 & c2 & c3 & c4 & c5 & c6 & c7 & c8 & c9 & c10 & ->).
  cbn [all_digits] in Hd. rewrite !andb_true_iff in Hd.
  destruct Hd as (H0 & H1 & _).
  apply is_digit_not_space in H0, H1.
  destruct i as [|[|i]]; cbn [replaceAt JsString.nonblank]; rewrite ?H0, ?H1;
    cbn [negb orb]; by rewrite ?orb_true_r.
Qed.

Lemma digit_val_inj c d :
  is_digit c = true -> is_digit d = true -> digit_val c = digit_val d -> c = d.
Proof.
  intros Hc Hd H.
  by rewrite <- (DateFormatFacts.digit_char_digit_val c Hc),
    <- (DateFormatFacts.digit_char_digit_val d Hd), H.
Qed.

(** What [validateCUIT] decides on eleven digits. *)
Lemma validateCUIT_chars c0 c1 c2 c3 c4 c5 c6 c7 c8 c9 c10 :
  all_digits (String c0 (String c1 (String c2 (String c3 (String c4 (String c5
     (String c6 (String c7 (String c8 (String c9 (String c10 ""))))))))))) = true ->
  isValid (validateCUIT (String c0 (String c1 (String c2 (String c3 (String c4
     (String c5 (String c6 (String c7 (String c8 (String c9 (String c10 ""))))))))))))
  = (checkDigit (5 * digit_val c0 + 4 * digit_val c1 + 3 * digit_val c2
                 + 2 * digit_val c3 + 7 * digit_val c4 + 6 * digit_val c5
                 + 5 * digit_val c6 + 4 * digit_val c7 + 3 * digit_val c8
                 + 2 * digit_val c9) =? digit_val c10)%Z.
Proof.
  intros Hd.
  set (s := String c0 _) in *.
  assert (JsString.removeDashes s = s) as Hclean by (by apply removeDashes_digits).
  pose proof (validateCUIT_digits s) as Hv. rewrite Hclean in Hv.
  specialize (Hv eq_refl Hd).
  assert (weightedSum (digitsOf s)
          = (5 * digit_val c0 + 4 * digit_val c1 + 3 * digit_val c2
             + 2 * digit_val c3 + 7 * digit_val c4 + 6 * digit_val c5
             + 5 * digit_val c6 + 4 * digit_val c7 + 3 * digit_val c8
             + 2 * digit_val c9)%Z) as Hsum.
  { unfold s. cbv [weightedSum digitsOf list_ascii_of_string map seq fold_left nth
                   multipliers]. lia. }
  rewrite Hsum in Hv. change (nth 10 (digitsOf s) 0%Z) with (digit_val c10) in Hv.
  destruct (isValid (validateCUIT s)).
  - symmetry. apply Z.eqb_eq. by apply Hv.
  - symmetry. apply Z.eqb_neq. intros H. apply Hv in H. discriminate H.
Qed.

(** X13.  The check detects a change of one character of an accepted CUIT of
    eleven digits, when its check digit is not 1: whatever the new
    character, the text is rejected.  (Check digit 1 stands for the
    remainders 1 and 10 alike, and a change between the two is not seen; see
    the example below.) *)
Theorem cuit_detects_one_changed_digit s i c :
  String.length s = 11%nat ->
  all_digits s = true ->
  isValid (validateCUIT s) = true ->
  String.get 10 s <> Some "1"%char ->
  (i < 11)%nat ->
  String.get i s <> Some c ->
  isValid (validateCUIT (replaceAt i c s)) = false.
Proof.
  intros Hl Hd Hv Hlast Hi Hc.
  destruct (is_digit c) eqn:Hdc.
  - destruct (length11 s Hl)
      as (c0 & c1 & c2 & c3 & c4 & c5 & c6 & c7 & c8 & c9 & c10 & ->).
    rewrite validateCUIT_chars in Hv by done. apply Z.eqb_eq in Hv.
    cbn [all_digits] in Hd. rewrite !andb_true_iff in Hd.
    destruct Hd as (H0 & H1 & H2 & H3 & H4 & H5 & H6 & H7 & H8 & H9 & H10 & _).
    assert (digit_val c10 <> 1%Z) as Hlast'.
    { intros H. apply Hlast. cbn. f_equal.
      apply digit_val_inj; [done|done|]. by rewrite H. }
    pose proof (DateHelperFacts.is_digit_val _ H0). pose proof (DateHelperFacts.is_digit_val _ H1).
    pose proof (DateHelperFacts.is_digit_val _ H2). pose proof (DateHelperFacts.is_digit_val _ H3).
    pose proof (DateHelperFacts.is_digit_val _ H4). pose proof (DateHelperFacts.is_digit_val _ H5).
    pose proof (DateHelperFacts.is_digit_val _ H6). pose proof (DateHelperFacts.is_digit_val _ H7).
    pose proof (DateHelperFacts.is_digit_val _ H8). pose proof (DateHelperFacts.is_digit_val _ H9).
    pose proof (DateHelperFacts.is_digit_val _ H10). pose proof (DateHelperFacts.is_digit_val _ Hdc).
    do 11 (destruct i as [|i];
      [cbn [replaceAt]; cbn in Hc;
       rewrite validateCUIT_chars
         by (cbn [all_digits];
             rewrite ?H0, ?H1, ?H2, ?H3, ?H4, ?H5, ?H6, ?H7, ?H8, ?H9, ?H10, ?Hdc; done);
       apply Z.eqb_neq;
       match type of Hc with
       | Some ?a <> Some c =>
           assert (digit_val a <> digit_val c) as Hne
             by (intros Heq; apply Hc; f_equal; by apply digit_val_inj)
       end;
       clear Hc Hlast H0 H1 H2 H3 H4 H5 H6 H7 H8 H9 H10 Hdc Hl Hi;
       revert Hv; unfold checkDigit; cbv zeta;
       repeat match goal with
         | |- context [(?a <? 2)%Z] => destruct (Z.ltb_spec a 2)
         end;
       Z.to_euclidean_division_equations; lia|]).
    lia.
  - apply isValid_result_false. unfold validateCUIT.
    destruct (nonblank_trim _ (replaceAt_nonblank c s i Hl Hd)) as [-> ->].
    cbn [andb]. cbv zeta.
    assert (test cuitRegex (JsString.removeDashes (replaceAt i c s)) = false) as ->; [|done].
    apply not_true_is_false. intros [Hl' Hd']%cuit_format.
    apply (replaceAt_not_digit c s i Hdc ltac:(lia)). split; [congruence|done].
Qed.

Lemma cuit_detects_one_changed_digit_witness :
  isValid (validateCUIT "20123456786") = true
  /\ isValid (validateCUIT (replaceAt 5 "9" "20123456786")) = false.
Proof.
  split; [reflexivity|].
  apply (cuit_detects_one_changed_digit "20123456786" 5 "9");
    first [reflexivity | discriminate | by vm_compute | cbn; lia].
Defined.

(** With check digit 1 a change of one digit can go unseen. *)
Example cuit_change_not_detected :
  isValid (validateCUIT "20-00000000-1") = true
  /\ isValid (validateCUIT "20-00000001-1") = true.
Proof. by vm_compute. Qed.

(** ** Telephone numbers *)

Lemma removePhonePunctuation_digits s :
  all_digits s = true -> JsString.removePhonePunctuation s = s.
Proof.
  induction s as [|c s IH]; [done|]. cbn [all_digits JsString.removePhonePunctuation].
  intros [Hc Hs]%andb_true_iff. rewrite IH by done.
  assert ((JsString.is_space c || Ascii.eqb c "-" || Ascii.eqb c "(" || Ascii.eqb c ")")
          = false) as ->; [|done].
  revert Hc. destruct c as [[] [] [] [] [] [] [] []]; intros H; vm_compute in H;
    try discriminate H; reflexivity.
Qed.

Lemma phoneRegex_Matches s :
  Matches phoneRegex s <->
  exists ds, ds <> "" /\ all_digits ds = true /\ (s = ds \/ s = "+" ++ ds).
Proof.
  unfold phoneRegex, Opt, Digit. rewrite Matches_seq. split.
  - intros (s1 & ds & -> & H1 & [Hne Hd]%Matches_plus_class).
    exists ds. rewrite all_digits_all_chars. split; [done|]. split; [done|].
    apply Matches_alt in H1 as [->%Matches_char| ->%Matches_epsilon]; auto.
  - intros (ds & Hne & Hd & Hs). rewrite all_digits_all_chars in Hd.
    destruct Hs as [-> | ->].
    + exists "", ds. split; [done|].
      split; [apply matches_alt_r; constructor|by apply Matches_plus_class].
    + exists "+", ds. split; [done|].
      split; [by apply matches_alt_l, Matches_char|by apply Matches_plus_class].
Qed.

(** X14.  A telephone number written with digits alone is accepted when it has at
    least eight of them; written with the sign [+] in front it is accepted
    with seven: the sign counts as one of the "8 dígitos" that the message
    asks for. *)
Theorem validatePhone_counts_the_sign ds fieldName :
  all_digits ds = true ->
  (isValid (validatePhone ds fieldName) = true <-> ds = "" \/ (8 <= String.length ds)%nat)
  /\ (isValid (validatePhone ("+" ++ ds) fieldName) = true <-> (7 <= String.length ds)%nat).
Proof.
  intros Hd. split.
  - unfold validatePhone. rewrite isValid_result.
    destruct ds as [|c ds']; [cbn; split; [by left|done]|].
    set (ds := String c ds') in *.
    assert (JsString.nonblank ds = true) as Hnb.
    { cbn [all_digits] in Hd. apply andb_true_iff in Hd as [Hc _].
      unfold ds. cbn [JsString.nonblank]. by rewrite (is_digit_not_space c Hc). }
    destruct (nonblank_trim ds Hnb) as [-> ->]. cbn [andb]. cbv zeta.
    rewrite (removePhonePunctuation_digits ds Hd).
    assert (test phoneRegex ds = true) as ->.
    { apply test_Matches, phoneRegex_Matches. exists ds. by auto. }
    cbn [negb]. destruct (Nat.ltb_spec (String.length ds) 8) as [Hlt|Hge];
      split; try done.
    + intros [H|H]; [discriminate H|lia].
    + intros _. by right.
  - unfold validatePhone. rewrite isValid_result.
    assert (JsString.nonblank ("+" ++ ds) = true) as Hnb by done.
    destruct (nonblank_trim _ Hnb) as [-> ->]. cbn [andb]. cbv zeta.
    assert (JsString.removePhonePunctuation ("+" ++ ds) = "+" ++ ds) as ->.
    { rewrite app_cons, app_nil_l. cbn [JsString.removePhonePunctuation].
      change (JsString.is_space "+" || Ascii.eqb "+" "-" || Ascii.eqb "+" "("
              || Ascii.eqb "+" ")") with false.
      by rewrite removePhonePunctuation_digits. }
    destruct ds as [|c ds'].
    + assert (test phoneRegex ("+" ++ "") = false) as -> by reflexivity.
      cbn. split; [done|lia].
    + set (ds := String c ds') in *.
      assert (test phoneRegex ("+" ++ ds) = true) as ->.
      { apply test_Matches, phoneRegex_Matches. exists ds. by auto. }
      cbn [negb]. rewrite app_length. cbn [String.length Nat.add].
      destruct (Nat.ltb_spec (S (String.length ds)) 8); split; try done; lia.
Qed.

Lemma validatePhone_counts_the_sign_witness :
  isValid (validatePhone "1234567" "Teléfono") = false
  /\ isValid (validatePhone "+1234567" "Teléfono") = true.
Proof.
  destruct (validatePhone_counts_the_sign "1234567" "Teléfono" eq_refl) as [H1 H2].
  split.
  - apply not_true_is_false. intros [H|H]%H1; [discriminate H|cbn in H; lia].
  - apply H2. cbn. lia.
Defined.

(** ** [sanitizeString] *)

Lemma removeAngles_clean s :
  all_chars (fun c => negb (Ascii.eqb c "<" || Ascii.eqb c ">")) (JsString.removeAngles s)
  = true.
Proof.
  induction s as [|c s IH]; [done|]. cbn [JsString.removeAngles].
  destruct (Ascii.eqb c "<" || Ascii.eqb c ">") eqn:Hc; [done|].
  cbn [all_chars]. by rewrite Hc, IH.
Qed.

Lemma removeAngles_fixed s :
  all_chars (fun c => negb (Ascii.eqb c "<" || Ascii.eqb c ">")) s = true ->
  JsString.removeAngles s = s.
Proof.
  induction s as [|c s IH]; [done|]. cbn [all_chars JsString.removeAngles].
  intros [Hc Hs]%andb_true_iff. apply negb_true_iff in Hc. by rewrite Hc, IH.
Qed.

Lemma all_chars_trimStart member s :
  all_chars member s = true -> all_chars member (JsString.trimStart s) = true.
Proof.
  induction s as [|c s IH]; [done|]. cbn [JsString.trimStart].
  destruct (JsString.is_space c); [|done].
  cbn [all_chars]. intros [_ Hs]%andb_true_iff. by apply IH.
Qed.

Lemma all_chars_trimEnd member s :
  all_chars member s = true -> all_chars member (JsString.trimEnd s) = true.
Proof.
  induction s as [|c s IH]; [done|]. cbn [all_chars JsString.trimEnd].
  intros [Hc Hs]%andb_true_iff. specialize (IH Hs).
  destruct (JsString.trimEnd s) as [|d r].
  - destruct (JsString.is_space c); [done|]. cbn [all_chars]. by rewrite Hc.
  - cbn [all_chars] in IH |- *. by rewrite Hc, IH.
Qed.

Lemma trimEnd_idem s : JsString.trimEnd (JsString.trimEnd s) = JsString.trimEnd s.
Proof.
  induction s as [|c s IH]; [done|]. cbn [JsString.trimEnd].
  destruct (JsString.trimEnd s) as [|d r] eqn:Hr.
  - destruct (JsString.is_space c) eqn:Hc; [done|]. cbn [JsString.trimEnd]. by rewrite Hc.
  - cbn [JsString.trimEnd] in IH |- *. by rewrite IH.
Qed.

Lemma trimStart_head s :
  JsString.trimStart s = ""
  \/ exists c r, JsString.trimStart s = String c r /\ JsString.is_space c = false.
Proof.
  induction s as [|c s IH]; [by left|]. cbn [JsString.trimStart].
  destruct (JsString.is_space c) eqn:Hc; [done|]. right. by exists c, s.
Qed.

Lemma trim_idem s : JsString.trim (JsString.trim s) = JsString.trim s.
Proof.
  unfold JsString.trim.
  destruct (trimStart_head s) as [->|(c & r & -> & Hc)]; [done|].
  destruct (trimEnd_head c r Hc) as [r' Hr]. rewrite Hr at 1.
  cbn [JsString.trimStart]. rewrite Hc, <- Hr. apply trimEnd_idem.
Qed.

(** X15.  What [sanitizeString] returns has no [<] and no [>], and no white space
    at either end; sanitising it again changes nothing; and a text without
    [<] and [>] is only trimmed. *)
Theorem sanitizeString_output input :
  all_chars (fun c => negb (Ascii.eqb c "<" || Ascii.eqb c ">")) (sanitizeString input)
  = true
  /\ JsString.trim (sanitizeString input) = sanitizeString input
  /\ sanitizeString (sanitizeString input) = sanitizeString input
  /\ (all_chars (fun c => negb (Ascii.eqb c "<" || Ascii.eqb c ">")) input = true ->
      sanitizeString input = JsString.trim input).
Proof.
  assert (all_chars (fun c => negb (Ascii.eqb c "<" || Ascii.eqb c ">"))
            (sanitizeString input) = true) as Hclean.
  { unfold sanitizeString, JsString.trim.
    apply all_chars_trimEnd, all_chars_trimStart, removeAngles_clean. }
  split; [done|]. split; [apply trim_idem|]. split.
  - unfold sanitizeString at 1. rewrite (removeAngles_fixed _ Hclean). apply trim_idem.
  - intros H. unfold sanitizeString. by rewrite removeAngles_fixed.
Qed.

Example sanitizeString_example :
  sanitizeString "  <b>Gala</b> anual <script>  " = "bGala/b anual script".
Proof. reflexivity. Qed.

(** ** Ranges of dates *)

(** X16.  Two calendar dates are accepted as a range when the second is not
    before the first, and rejected with the one error of the range
    otherwise, whatever the time zone of the host. *)
Theorem validateDateRange_calendar_dates h s e :
  (Z.abs (tza h) <= msPerDay)%Z ->
  is_calendar_date s ->
  is_calendar_date e ->
  errors (validateDateRange h (VString s) (VString e))
  = if (dayNumber s <=? dayNumber e)%Z then []
    else ["La fecha de fin debe ser posterior o igual a la fecha de inicio"].
Proof.
  intros Htz Hs He.
  destruct (QuoteDataFacts.parsed_calendar_date h s Htz Hs) as (ts & Hps & Hds & _ & Hrs).
  destruct (QuoteDataFacts.parsed_calendar_date h e Htz He) as (te & Hpe & Hde & _ & Hre).
  unfold validateDateRange. rewrite Hps, Hpe. cbn [errors result app].
  assert (0 < msPerDay)%Z by done.
  pose proof (DateFormatFacts.validateDateRange_localDay h ts te ltac:(lia) ltac:(lia)) as Hv.
  rewrite Hds, Hde in Hv.
  destruct (DateHelper.validateDateRange h (VDate (Some ts)) (VDate (Some te)));
    destruct (Z.leb_spec (dayNumber s) (dayNumber e)); cbn [negb]; try done.
  - assert (dayNumber s <= dayNumber e)%Z by (by apply Hv). lia.
  - assert (false = true) as H' by (by apply Hv). discriminate H'.
Qed.

Lemma validateDateRange_calendar_dates_witness :
  errors (validateDateRange Examples.kiritimati (VString "2024-03-01") (VString "2024-02-29"))
  = ["La fecha de fin debe ser posterior o igual a la fecha de inicio"].
Proof.
  apply (validateDateRange_calendar_dates Examples.kiritimati "2024-03-01" "2024-02-29");
    by vm_compute.
Defined.

End ValidationFacts.
(* ===================================================================== *)
(** * The cache: expiry and invalidation *)
(* ===================================================================== *)

Module CacheFacts.
Import Spec.
Local Open Scope Z_scope.

Section WithData.
Context {T : Type}.
Implicit Types c : gmap string (Cache.CacheEntry T).

Lemma clearExpired_lookup now c key e :
  Cache.clearExpired now c !! key = Some e
  <-> c !! key = Some e /\ (Cache.ttl e <? now - Cache.timestamp e) = false.
Proof. unfold Cache.clearExpired. by rewrite map_lookup_filter_Some. Qed.

(** X17.  [clearExpired] cannot be observed through [get], at the time it runs or
    later: it removes exactly the entries that [get] would no longer serve. *)
Theorem clearExpired_keeps_what_get_serves now now' key c :
  now <= now' ->
  fst (Cache.get key now' (Cache.clearExpired now c)) = fst (Cache.get key now' c)
  /\ (forall e, Cache.clearExpired now c !! key = Some e ->
                fst (Cache.get key now c) = Some (Cache.data e))
  /\ (Cache.clearExpired now c !! key = None -> fst (Cache.get key now c) = None).
Proof.
  intros Hnow. split; [|split].
  - unfold Cache.get.
    destruct (Cache.clearExpired now c !! key) as [e|] eqn:He.
    + apply clearExpired_lookup in He as [-> _]. by destruct (_ <? _).
    + destruct (c !! key) as [e|] eqn:Hc; [|done].
      destruct (Z.ltb_spec (Cache.ttl e) (now' - Cache.timestamp e)) as [|Hlive];
        [done|].
      assert (Cache.clearExpired now c !! key = Some e) as He'.
      { apply clearExpired_lookup. split; [done|]. lia. }
      congruence.
  - intros e [Hc Hlive]%clearExpired_lookup. unfold Cache.get. by rewrite Hc, Hlive.
  - intros He. unfold Cache.get. destruct (c !! key) as [e|] eqn:Hc; [|done].
    destruct (Cache.ttl e <? now - Cache.timestamp e) eqn:Hlive; [done|].
    assert (Cache.clearExpired now c !! key = Some e) as He'
      by (by apply clearExpired_lookup).
    congruence.
Qed.

End WithData.

Lemma clearExpired_keeps_what_get_serves_witness :
  fst (Cache.get "k" 400
         (Cache.clearExpired 200 (Cache.set "k" 7%Z 300 100 (∅ : gmap string _))))
  = Some 7%Z.
Proof.
  rewrite (proj1 (clearExpired_keeps_what_get_serves 200 400 "k"
                    (Cache.set "k" 7%Z 300 100 ∅) ltac:(lia))).
  reflexivity.
Defined.

End CacheFacts.
(* ===================================================================== *)
(** * [QuoteTrackingService]: the cache in front of the collection *)
(* ===================================================================== *)

Module TrackingCacheFacts.
Import Firestore Spec QuoteTrackingService QuoteTrackingFacts.
Local Open Scope string_scope.

(** ** Invalidation *)

Lemma cacheKey_starts_with_quote id : JsString.startsWith "quote" (cacheKey id) = true.
Proof. reflexivity. Qed.

Lemma invalidateRelatedCache_lookup {T} type key (c : gmap string (Cache.CacheEntry T)) :
  Cache.invalidateRelatedCache type c !! key
  = if JsString.startsWith type key || JsString.includes (type ++ "-") key
    then None else c !! key.
Proof.
  unfold Cache.invalidateRelatedCache.
  destruct (JsString.startsWith type key || JsString.includes (type ++ "-") key) eqn:Hk.
  - apply map_lookup_filter_None. right. intros e _. cbn [fst]. by rewrite Hk.
  - destruct (c !! key) as [e|] eqn:Hc.
    + apply map_lookup_filter_Some. by split.
    + apply map_lookup_filter_None. by left.
Qed.

Lemma invalidateCache_eq quoteId c :
  invalidateCache quoteId c
  = delete "tracking-stats" (Cache.invalidateRelatedCache "quote" c).
Proof.
  unfold invalidateCache. f_equal.
  rewrite !delete_id; [done| |].
  - by rewrite invalidateRelatedCache_lookup.
  - rewrite delete_id; by rewrite invalidateRelatedCache_lookup, ?cacheKey_starts_with_quote.
Qed.

Lemma invalidateCache_lookup quoteId c other :
  invalidateCache quoteId c !! cacheKey other = None.
Proof.
  rewrite invalidateCache_eq, lookup_delete_ne by done.
  by rewrite invalidateRelatedCache_lookup, cacheKey_starts_with_quote.
Qed.

(** X18.  [invalidateCache(quoteId)] does not depend on the quote: it removes the
    statistics and every entry whose key starts with [quote] or includes
    [quote-], so that after a change to one quote no quote at all is still
    served from the cache. *)
Theorem invalidateCache_evicts_every_quote quoteId c :
  invalidateCache quoteId c
  = delete "tracking-stats" (Cache.invalidateRelatedCache "quote" c)
  /\ forall other now,
       Cache.get (cacheKey other) now (invalidateCache quoteId c)
       = (None, invalidateCache quoteId c).
Proof.
  split; [apply invalidateCache_eq|]. intros other now. unfold Cache.get.
  by rewrite invalidateCache_lookup.
Qed.

(** ** Coherence *)

Lemma cacheKey_inj a b : cacheKey a = cacheKey b -> a = b.
Proof. unfold cacheKey. intros H. by simplify_eq. Qed.

(** Loading a quote: the collection is left as it is, the cache stays
    coherent, and in a coherent state the quote returned is the stored
    one. *)
Lemma getByIdWithTracking_coherent id now w :
  coherent w ->
  coherent (snd (getByIdWithTracking id now w))
  /\ cotizaciones (snd (getByIdWithTracking id now w)) = cotizaciones w
  /\ fst (getByIdWithTracking id now w)
     = mapDocumentToQuoteTracking id <$> cotizaciones w !! id.
Proof.
  intros Hw. split; [|split; [apply getByIdWithTracking_store|]].
  - unfold getByIdWithTracking, Cache.get.
    destruct (cache w !! cacheKey id) as [e|] eqn:He.
    + destruct (Cache.ttl e <? now - Cache.timestamp e)%Z; [|done].
      assert (coherent {| cotizaciones := cotizaciones w;
                          cache := delete (cacheKey id) (cache w) |}) as Hdel.
      { intros id' e'. cbn [cache cotizaciones].
        intros [_ He']%lookup_delete_Some. by apply Hw. }
      destruct (cotizaciones w !! id) as [d|] eqn:Hd; [|done].
      intros id' e'. cbn [snd cache cotizaciones]. unfold Cache.set.
      destruct (decide (cacheKey id = cacheKey id')) as [Hk|Hk].
      * rewrite Hk, lookup_insert_eq. intros [= <-].
        apply cacheKey_inj in Hk as <-. by exists d.
      * rewrite lookup_insert_ne by done. apply Hdel.
    + destruct (cotizaciones w !! id) as [d|] eqn:Hd; [|done].
      intros id' e'. cbn [snd cache cotizaciones]. unfold Cache.set.
      destruct (decide (cacheKey id = cacheKey id')) as [Hk|Hk].
      * rewrite Hk, lookup_insert_eq. intros [= <-].
        apply cacheKey_inj in Hk as <-. by exists d.
      * rewrite lookup_insert_ne by done. apply Hw.
  - unfold getByIdWithTracking, Cache.get.
    destruct (cache w !! cacheKey id) as [e|] eqn:He.
    + destruct (Hw id e He) as (d & Hd & Hdata).
      rewrite Hd. destruct (Cache.ttl e <? now - Cache.timestamp e)%Z; cbn [fst];
        [done|by rewrite Hdata].
    + by destruct (cotizaciones w !! id).
Qed.

(** A state whose cache was just invalidated is coherent. *)
Lemma invalidated_coherent quoteId store c :
  coherent {| cotizaciones := store; cache := invalidateCache quoteId c |}.
Proof. intros id e. cbn [cache]. by rewrite invalidateCache_lookup. Qed.

(** What a write does: nothing to the collection when it throws, and one
    document replaced when it returns. *)
Lemma updateStatus_outcome id nuevoEstado comentario usuario now w :
  let r := updateStatus id nuevoEstado comentario usuario now w in
  (exists e, fst r = inl e
     /\ snd r = snd (getByIdWithTracking id now w))
  \/ (exists q d,
        fst r = inr tt
        /\ fst (getByIdWithTracking id now w) = Some q
        /\ isValidStatusTransition (qt_estado q) nuevoEstado = true
        /\ cotizaciones w !! id = Some d
        /\ snd r = {| cotizaciones := <[id := statusUpdate nuevoEstado now d]> (cotizaciones w);
                      cache := invalidateCache id
                                 (cache (snd (getByIdWithTracking id now w))) |}).
Proof.
  cbv zeta. unfold updateStatus.
  pose proof (getByIdWithTracking_store id now w) as Hst.
  destruct (getByIdWithTracking id now w) as [[q|] w1]; cbn [fst snd] in *;
    [|left; by eexists].
  destruct (isValidStatusTransition (qt_estado q) nuevoEstado) eqn:Hv; cbn [negb];
    [|left; by eexists].
  unfold updateDoc. rewrite Hst.
  destruct (cotizaciones w !! id) as [d|] eqn:Hd; [|left; by eexists].
  right. by exists q, d.
Qed.

Lemma scheduleReminder_outcome quoteId tipo fecha_ mensaje sendEmail sendPush userName
    userEmail recipients now w :
  let r := scheduleReminder quoteId tipo fecha_ mensaje sendEmail sendPush userName
             userEmail recipients now w in
  (exists e, fst r = inl e /\ snd r = snd (getByIdWithTracking quoteId now w))
  \/ (exists d,
        fst r = inr tt
        /\ cotizaciones w !! quoteId = Some d
        /\ snd r = {| cotizaciones :=
                        <[quoteId := reminderUpdate tipo fecha_ mensaje sendEmail sendPush
                                       userName recipients now d]> (cotizaciones w);
                      cache := invalidateCache quoteId
                                 (cache (snd (getByIdWithTracking quoteId now w))) |}).
Proof.
  cbv zeta. unfold scheduleReminder.
  pose proof (getByIdWithTracking_store quoteId now w) as Hst.
  destruct (getByIdWithTracking quoteId now w) as [[q|] w1]; cbn [fst snd] in *;
    [|left; by eexists].
  unfold updateDoc. rewrite Hst.
  destruct (cotizaciones w !! quoteId) as [d|] eqn:Hd; [|left; by eexists].
  right. by exists d.
Qed.

Lemma deleteReminder_outcome quoteId reminderId now w :
  let r := deleteReminder quoteId reminderId now w in
  (exists e, fst r = inl e /\ snd r = snd (getByIdWithTracking quoteId now w))
  \/ (exists d,
        fst r = inr tt
        /\ cotizaciones w !! quoteId = Some d
        /\ snd r = {| cotizaciones := <[quoteId := reminderDelete now d]> (cotizaciones w);
                      cache := invalidateCache quoteId
                                 (cache (snd (getByIdWithTracking quoteId now w))) |}).
Proof.
  cbv zeta. unfold deleteReminder.
  pose proof (getByIdWithTracking_store quoteId now w) as Hst.
  destruct (getByIdWithTracking quoteId now w) as [[q|] w1]; cbn [fst snd] in *;
    [|left; by eexists].
  unfold updateDoc. rewrite Hst.
  destruct (cotizaciones w !! quoteId) as [d|] eqn:Hd; [|left; by eexists].
  right. by exists d.
Qed.

Lemma after_call_coherent w c : coherent w -> coherent (after_call w c).
Proof.
  intros Hw. destruct c as [id now|id st com usr now|id tipo f m se sp un ue rs now|id rid now];
    cbn [after_call].
  - by apply getByIdWithTracking_coherent.
  - destruct (updateStatus_outcome id st com usr now w)
      as [(e & _ & ->)|(q & d & _ & _ & _ & _ & ->)];
      [by apply getByIdWithTracking_coherent|apply invalidated_coherent].
  - destruct (scheduleReminder_outcome id tipo f m se sp un ue rs now w)
      as [(e & _ & ->)|(d & _ & _ & ->)];
      [by apply getByIdWithTracking_coherent|apply invalidated_coherent].
  - destruct (deleteReminder_outcome id rid now w)
      as [(e & _ & ->)|(d & _ & _ & ->)];
      [by apply getByIdWithTracking_coherent|apply invalidated_coherent].
Qed.

Lemma after_calls_coherent calls : forall w, coherent w -> coherent (after_calls w calls).
Proof.
  unfold after_calls. induction calls as [|c calls IH]; intros w Hw; [done|].
  cbn [foldl]. by apply IH, after_call_coherent.
Qed.

(** X19.  The calls of the service keep the cache coherent with the collection:
    after any sequence of loads, status updates and reminder writes that
    starts in a coherent state, whether the calls return or throw, a quote
    that is loaded is the stored one, at any time. *)
Theorem service_keeps_cache_coherent w calls id now :
  coherent w ->
  coherent (after_calls w calls)
  /\ fst (getByIdWithTracking id now (after_calls w calls))
     = mapDocumentToQuoteTracking id <$> cotizaciones (after_calls w calls) !! id.
Proof.
  intros Hw. pose proof (after_calls_coherent calls w Hw) as Hc.
  split; [done|]. by apply getByIdWithTracking_coherent.
Qed.

Lemma mundo_coherent : coherent Examples.mundo.
Proof. intros id e H. cbn in H. by rewrite lookup_empty in H. Qed.

Lemma service_keeps_cache_coherent_witness :
  coherent
    (after_calls Examples.mundo
       [UpdateStatus "q1" ENVIADA None (Some "Ana") 1000;
        GetById "q1" 2000;
        UpdateStatus "q1" CONVERTIDA None (Some "Ana") 3000])
  /\ (qt_estado <$>
        fst (getByIdWithTracking "q1" 4000
               (after_calls Examples.mundo
                  [UpdateStatus "q1" ENVIADA None (Some "Ana") 1000;
                   GetById "q1" 2000;
                   UpdateStatus "q1" CONVERTIDA None (Some "Ana") 3000])))
     = Some ENVIADA.
Proof.
  destruct (service_keeps_cache_coherent Examples.mundo
              [UpdateStatus "q1" ENVIADA None (Some "Ana") 1000;
               GetById "q1" 2000;
               UpdateStatus "q1" CONVERTIDA None (Some "Ana") 3000]
              "q1" 4000 mundo_coherent) as [Hc Hq].
  split; [exact Hc|]. rewrite Hq. vm_compute. reflexivity.
Defined.

(** ** Reading a status back *)

(** X20.  After a call of [updateStatus] that returns, loading the quote gives
    the new status, at once or at any later time: the entry that the cache
    held for the quote is gone. *)
Theorem status_update_is_read_back id nuevoEstado comentario usuario now w w' :
  updateStatus id nuevoEstado comentario usuario now w = (inr tt, w') ->
  forall now',
    exists q,
      fst (getByIdWithTracking id now' w') = Some q
      /\ qt_id q = id
      /\ qt_estado q = nuevoEstado.
Proof.
  intros Hu now'.
  destruct (updateStatus_outcome id nuevoEstado comentario usuario now w)
    as [(e & He & _)|(q & d & _ & _ & _ & Hd & Hw')].
  - rewrite Hu in He. discriminate He.
  - rewrite Hu in Hw'. cbn [snd] in Hw'. subst w'.
    destruct (getByIdWithTracking_uncached id now'
                {| cotizaciones := <[id := statusUpdate nuevoEstado now d]> (cotizaciones w);
                   cache := invalidateCache id
                              (cache (snd (getByIdWithTracking id now w))) |}
                (statusUpdate nuevoEstado now d)) as [Hq He].
    + apply invalidateCache_lookup.
    + apply lookup_insert_eq.
    + eexists. split; [exact Hq|]. by split.
Qed.

Lemma status_update_is_read_back_witness :
  exists q,
    fst (getByIdWithTracking "q1" 2000
           (snd (updateStatus "q1" ENVIADA None (Some "Ana") 1000 Examples.mundo)))
    = Some q
    /\ qt_id q = "q1"
    /\ qt_estado q = ENVIADA.
Proof.
  apply (status_update_is_read_back "q1" ENVIADA None (Some "Ana") 1000 Examples.mundo).
  vm_compute. reflexivity.
Defined.

(** ** Statuses over a sequence of calls *)

Lemma stored_status_insert w id id' d d' c :
  cotizaciones w !! id' = Some d ->
  stored_status {| cotizaciones := <[id' := d']> (cotizaciones w); cache := c |} id
  = if decide (id' = id) then Some (default BORRADOR (estado d')) else stored_status w id.
Proof.
  intros Hd. unfold stored_status. cbn [cotizaciones].
  destruct (decide (id' = id)) as [->|Hne].
  - by rewrite lookup_insert_eq.
  - by rewrite lookup_insert_ne.
Qed.

Lemma stored_status_get id now w id' :
  stored_status (snd (getByIdWithTracking id now w)) id' = stored_status w id'.
Proof. unfold stored_status. by rewrite getByIdWithTracking_store. Qed.

(** One call, in a coherent state: the stored status of a quote stays, or
    moves along the table. *)
Lemma after_call_status w c id :
  coherent w ->
  stored_status (after_call w c) id = stored_status w id
  \/ exists a b,
       stored_status w id = Some a
       /\ stored_status (after_call w c) id = Some b
       /\ allowed a b.
Proof.
  intros Hw.
  destruct c as [id' now|id' st com usr now|id' tipo f m se sp un ue rs now|id' rid now];
    cbn [after_call].
  - left. apply stored_status_get.
  - destruct (updateStatus_outcome id' st com usr now w)
      as [(e & _ & ->)|(q & d & _ & Hq & Hv & Hd & ->)];
      [left; apply stored_status_get|].
    rewrite (stored_status_insert w id id' d _ _ Hd).
    destruct (decide (id' = id)) as [->|Hne]; [|by left].
    right. exists (default BORRADOR (estado d)), st.
    split; [unfold stored_status; by rewrite Hd|]. split; [done|].
    apply isValidStatusTransition_allowed.
    destruct (getByIdWithTracking_coherent id now w Hw) as (_ & _ & Hget).
    rewrite Hq, Hd in Hget. injection Hget as ->. done.
  - destruct (scheduleReminder_outcome id' tipo f m se sp un ue rs now w)
      as [(e & _ & ->)|(d & _ & Hd & ->)];
      [left; apply stored_status_get|].
    left. rewrite (stored_status_insert w id id' d _ _ Hd).
    destruct (decide (id' = id)) as [->|Hne]; [|done].
    unfold stored_status. by rewrite Hd.
  - destruct (deleteReminder_outcome id' rid now w)
      as [(e & _ & ->)|(d & _ & Hd & ->)];
      [left; apply stored_status_get|].
    left. rewrite (stored_status_insert w id id' d _ _ Hd).
    destruct (decide (id' = id)) as [->|Hne]; [|done].
    unfold stored_status. by rewrite Hd.
Qed.

(** X21.  From a coherent state, whatever calls are made and whether they return
    or throw, the stored status of a quote moves only along the transition
    table; a converted quote stays converted.  (The table is checked
    against the status that the call loads; it is the coherence of the cache
    that makes it the stored one.) *)
Theorem stored_status_follows_the_table calls : forall w id a,
  coherent w ->
  stored_status w id = Some a ->
  exists b,
    stored_status (after_calls w calls) id = Some b
    /\ rtc allowed a b
    /\ (a = CONVERTIDA -> b = CONVERTIDA).
Proof.
  assert (forall w id a,
            coherent w -> stored_status w id = Some a ->
            exists b, stored_status (after_calls w calls) id = Some b /\ rtc allowed a b)
    as Hpath.
  { unfold after_calls. induction calls as [|c calls IH]; intros w id a Hw Ha.
    - by exists a.
    - cbn [foldl].
      destruct (after_call_status w c id Hw) as [Hsame|(a' & b & Ha' & Hb & Hab)].
      + rewrite <- Hsame in Ha. by apply IH; [apply after_call_coherent|].
      + rewrite Ha in Ha'. injection Ha' as <-.
        destruct (IH (after_call w c) id b (after_call_coherent w c Hw) Hb)
          as (b' & Hb' & Hpath).
        exists b'. split; [done|]. by eapply rtc_l. }
  intros w id a Hw Ha. destruct (Hpath w id a Hw Ha) as (b & Hb & Hab).
  exists b. split; [done|]. split; [done|]. intros ->.
  inversion Hab as [|? y ? Hstep]; [done|]. inversion Hstep.
Qed.

Lemma stored_status_follows_the_table_witness :
  exists b,
    stored_status
      (after_calls Examples.mundo
         [UpdateStatus "q1" APROBADA None None 1000;
          UpdateStatus "q1" ENVIADA None None 2000]) "q1" = Some b
    /\ rtc allowed BORRADOR b
    /\ (BORRADOR = CONVERTIDA -> b = CONVERTIDA).
Proof.
  apply (stored_status_follows_the_table
           [UpdateStatus "q1" APROBADA None None 1000;
            UpdateStatus "q1" ENVIADA None None 2000]
           Examples.mundo "q1" BORRADOR mundo_coherent).
  vm_compute. reflexivity.
Defined.

(** Without coherence the table can be bypassed: the store holds a
    converted quote, the cache still holds it as a draft, and
    [updateStatus] moves it to [enviada]. *)
Example stale_cache_bypasses_the_table :
  stored_status Examples.mundo_desfasado "q1" = Some CONVERTIDA
  /\ fst (updateStatus "q1" ENVIADA None None 1000 Examples.mundo_desfasado) = inr tt
  /\ stored_status
       (snd (updateStatus "q1" ENVIADA None None 1000 Examples.mundo_desfasado)) "q1"
     = Some ENVIADA.
Proof. split; [|split]; vm_compute; reflexivity. Qed.

End TrackingCacheFacts.
(* ===================================================================== *)
(** * From the tracking service to the poller *)
(* ===================================================================== *)

Module ReminderFlowFacts.
Import Firestore Spec QuoteTrackingService UserManagementService
  ReminderAutomationService ReminderFacts TrackingCacheFacts.

(** ** A reminder that was scheduled *)

(** The due time that the poller reads from a reminder scheduled for
    [fecha_]: the start of the second of [fecha_]. *)
Lemma fecha_recordatorio_scheduled tipo fecha_ mensaje sendEmail sendPush userName
    recipients now d :
  (0 <= fecha_ <= maxTime)%Z ->
  fecha_recordatorio
    (reminderUpdate tipo fecha_ mensaje sendEmail sendPush userName recipients now d)
  = Some (fecha_ / 1000 * 1000)%Z.
Proof.
  intros Hf. unfold fecha_recordatorio, reminderUpdate, fromMillis.
  cbn [proximoSeguimiento seconds]. unfold JsDate.ofNumber, JsDate.TimeClip.
  unfold maxTime in Hf.
  destruct (Z.ltb_spec 8640000000000000 (Z.abs (fecha_ / 1000 * 1000))) as [Hbig|];
    [|done].
  exfalso. revert Hbig. Z.to_euclidean_division_equations; lia.
Qed.

(** X22.  A reminder scheduled with the email channel for a list of recipients
    is sent to these recipients, in order, by the first tick whose clock
    has reached the second of its due time; a tick before that sends
    nothing for the quote. *)
Theorem scheduled_reminder_is_sent quoteId tipo fecha_ mensaje sendPush userName
    userEmail r rs now w w' env :
  scheduleReminder quoteId tipo fecha_ mensaje true sendPush userName userEmail
    (r :: rs) now w = (inr tt, w') ->
  (0 <= fecha_ <= maxTime)%Z ->
  map (fun a => to (request a))
      (attempts_for quoteId (log (processReminders env (cotizaciones w'))))
  = if (fecha_ / 1000 * 1000 <=? ReminderAutomationService.now env)%Z
    then r :: rs else [].
Proof.
  intros Hs Hf.
  destruct (scheduleReminder_outcome quoteId tipo fecha_ mensaje true sendPush userName
              userEmail (r :: rs) now w) as [(e & He & _)|(d & _ & Hd & Hw')].
  { rewrite Hs in He. discriminate He. }
  rewrite Hs in Hw'. cbn [snd] in Hw'. subst w'. cbn [cotizaciones].
  set (d' := reminderUpdate tipo fecha_ mensaje true sendPush userName (r :: rs) now d).
  destruct (tick_at env (<[quoteId := d']> (cotizaciones w)) quoteId d')
    as (l0 & Hlog & _); [apply lookup_insert_eq|].
  rewrite Hlog. unfold paso.
  assert (tiene_recordatorio d' = true) as -> by done.
  unfold vencido. unfold d'. rewrite fecha_recordatorio_scheduled by done.
  cbn [andb]. destruct (_ <=? _)%Z; [|done].
  by rewrite nuevos_to, destinatarios_spec.
Qed.

Lemma scheduled_reminder_is_sent_witness :
  map (fun a => to (request a))
      (attempts_for "q1"
         (log (processReminders Examples.un_minuto_despues
                 (cotizaciones
                    (snd (scheduleReminder "q1" "seguimiento" 250500 "Llamar" true false
                            "Ana" None ["a@bls.com"; "b@bls.com"] 1000 Examples.mundo))))))
  = ["a@bls.com"; "b@bls.com"]%string.
Proof.
  apply (scheduled_reminder_is_sent "q1" "seguimiento" 250500 "Llamar" false "Ana" None
           "a@bls.com" ["b@bls.com"] 1000 Examples.mundo _ Examples.un_minuto_despues).
  - vm_compute. reflexivity.
  - by vm_compute.
Defined.

(** X23.  A reminder scheduled without the email channel, and a reminder that was
    deleted, are never emailed: no tick that follows sends anything for the
    quote. *)
Theorem reminder_without_email_is_never_sent quoteId w w' :
  (exists tipo fecha_ mensaje sendPush userName userEmail recipients now,
     scheduleReminder quoteId tipo fecha_ mensaje false sendPush userName userEmail
       recipients now w = (inr tt, w'))
  \/ (exists reminderId now, deleteReminder quoteId reminderId now w = (inr tt, w')) ->
  forall envs,
    Forall (fun l => attempts_for quoteId l = []) (ticks envs (cotizaciones w')).
Proof.
  intros [(tipo & f & m & sp & un & ue & rs & now & Hs)|(rid & now & Hdel)] envs.
  - destruct (scheduleReminder_outcome quoteId tipo f m false sp un ue rs now w)
      as [(e & He & _)|(d & _ & Hd & Hw')].
    { rewrite Hs in He. discriminate He. }
    rewrite Hs in Hw'. cbn [snd] in Hw'. subst w'. cbn [cotizaciones].
    eapply ticks_sin_recordatorio; [apply lookup_insert_eq|done].
  - destruct (deleteReminder_outcome quoteId rid now w)
      as [(e & He & _)|(d & _ & Hd & Hw')].
    { rewrite Hdel in He. discriminate He. }
    rewrite Hdel in Hw'. cbn [snd] in Hw'. subst w'. cbn [cotizaciones].
    eapply ticks_sin_recordatorio; [apply lookup_insert_eq|done].
Qed.

Lemma reminder_without_email_is_never_sent_witness :
  Forall (fun l => attempts_for "q1" l = [])
    (ticks [Examples.falla_el_segundo; Examples.un_minuto_despues]
       (cotizaciones
          (snd (scheduleReminder "q1" "seguimiento" 100000 "Llamar" false true
                  "Ana" None ["a@bls.com"] 1000 Examples.mundo)))).
Proof.
  apply (reminder_without_email_is_never_sent "q1" Examples.mundo).
  left. exists "seguimiento"%string, 100000%Z, "Llamar"%string, true, "Ana"%string, None,
    ["a@bls.com"%string], 1000%Z.
  vm_compute. reflexivity.
Defined.

(** ** What a tick leaves alone *)

Lemma not_in_map_to_list (m : gmap string Cotizacion) id :
  m !! id = None -> id ∉ (map_to_list m).*1.
Proof.
  intros Hm [[id' d] [Hid Hin]]%list_elem_of_fmap. cbn in Hid. subst id'.
  apply elem_of_map_to_list in Hin. congruence.
Qed.

(** X24.  A tick adds no document and removes none; all it changes of a quote is
    its reminder and the time of its update: the status, the history, the
    dates of the statuses and the recipient list are those it had; and a
    quote without a due email reminder is not written at all. *)
Theorem tick_changes_reminders_only env (cotizaciones : gmap string Cotizacion) id :
  match cotizaciones !! id with
  | None => store (processReminders env cotizaciones) !! id = None
  | Some d =>
      exists d',
        store (processReminders env cotizaciones) !! id = Some d'
        /\ same_but_reminder d d'
        /\ (tiene_recordatorio d && vencido env d = false -> d' = d)
  end.
Proof.
  destruct (cotizaciones !! id) as [d|] eqn:Hd.
  - destruct (tick_at env cotizaciones id d Hd) as (l0 & _ & Hst).
    eexists. split; [exact Hst|]. split.
    + destruct (algun_enviado _); by repeat split.
    + intros Hno. unfold paso. by rewrite Hno.
  - unfold processReminders.
    destruct (foldl_procesar_other env id (map_to_list cotizaciones)
                {| store := cotizaciones; log := []; processedCount := 0;
                   checkedCount := 0 |} (not_in_map_to_list _ _ Hd)) as [-> _].
    done.
Qed.

(** ** After a tick whose sends succeed *)

Lemma destinatarios_cons env d : exists r rs, destinatarios env d = r :: rs.
Proof.
  rewrite destinatarios_spec.
  destruct (proximoSeguimientoDestinatarios d) as [[|r rs]|];
    try (by eexists _, _);
    destruct (emails_notificados (usuarios env)); by eexists _, _.
Qed.

(** A tick over a collection without a due email reminder sends nothing and
    writes nothing. *)
Lemma foldl_procesar_nothing_due env docs : forall st,
  Forall (fun entry => tiene_recordatorio (snd entry) && vencido env (snd entry) = false)
    docs ->
  log (foldl (procesar env) st docs) = log st
  /\ store (foldl (procesar env) st docs) = store st.
Proof.
  induction docs as [|[k d] docs IH]; intros st Hall; [done|].
  apply Forall_cons in Hall as [Hd Hall]. cbn [snd] in Hd. cbn [foldl].
  destruct (IH (procesar env st (k, d)) Hall) as [-> ->].
  unfold procesar. destruct (tiene_recordatorio d); [|done].
  cbn [andb] in Hd. by rewrite Hd.
Qed.

(** X25.  When every send of a tick succeeds, the tick leaves no email reminder
    that was due: a tick that follows with a clock that has not advanced
    sends nothing at all and leaves the collection as it is, so that no
    reminder is sent twice. *)
Theorem nothing_is_sent_twice env env' (cotizaciones : gmap string Cotizacion) :
  (forall l req, sendReminderEmail env l req = Sent) ->
  (ReminderAutomationService.now env' <= ReminderAutomationService.now env)%Z ->
  log (processReminders env' (store (processReminders env cotizaciones))) = []
  /\ store (processReminders env' (store (processReminders env cotizaciones)))
     = store (processReminders env cotizaciones).
Proof.
  intros Hsent Hnow.
  apply (foldl_procesar_nothing_due env'
           (map_to_list (store (processReminders env cotizaciones)))
           {| store := store (processReminders env cotizaciones); log := [];
              processedCount := 0; checkedCount := 0 |}).
  apply Forall_forall. intros [id d'] Hin%elem_of_map_to_list. cbn [snd].
  destruct (cotizaciones !! id) as [d|] eqn:Hd.
  2: { unfold processReminders in Hin.
       destruct (foldl_procesar_other env id (map_to_list cotizaciones)
                   {| store := cotizaciones; log := []; processedCount := 0;
                      checkedCount := 0 |} (not_in_map_to_list _ _ Hd)) as [Hnone _].
       cbn [store] in Hnone. congruence. }
  destruct (tick_at env cotizaciones id d Hd) as (l0 & _ & Hst).
  rewrite Hin in Hst. injection Hst as ->.
  unfold paso. destruct (tiene_recordatorio d && vencido env d) eqn:Hdue.
  - destruct (destinatarios_cons env d) as (r & rs & ->).
    cbn [nuevos]. rewrite algun_enviado_cons. cbn [result]. rewrite Hsent. done.
  - cbn [algun_enviado existsb].
    destruct (tiene_recordatorio d); [|done]. cbn [andb] in Hdue |- *.
    apply not_true_is_false. intros Hv.
    rewrite (vencido_mono env' env d Hnow Hv) in Hdue. done.
Qed.

Lemma nothing_is_sent_twice_witness :
  log (processReminders Examples.un_minuto_despues
         (store (processReminders Examples.un_minuto_despues Examples.coleccion))) = [].
Proof.
  apply (nothing_is_sent_twice Examples.un_minuto_despues Examples.un_minuto_despues
           Examples.coleccion); [done|reflexivity].
Defined.

End ReminderFlowFacts.
(* ===================================================================== *)
(** * [ReminderAutomationService]: starting and stopping *)
(* ===================================================================== *)

Module ServiceFacts.
Import Spec ReminderAutomationService.

Lemma obey_settled s c : settled s -> settled (obey s c).
Proof.
  unfold settled. destruct c; cbn [obey]; unfold start, stop.
  - destruct (intervalId s) as [handle|] eqn:Hh.
    + intros (Hr & Hi & Hn). rewrite Hr, Hh. done.
    + intros (Hr & Hi). rewrite Hr. cbn [intervalId isRunning intervals nextHandle].
      rewrite Hi. split; [done|]. split; [done|]. lia.
  - destruct (intervalId s) as [handle|] eqn:Hh.
    + intros (Hr & Hi & Hn). rewrite Hr. cbn [negb intervalId isRunning intervals].
      rewrite Hi. cbn [List.filter]. by rewrite Nat.eqb_refl.
    + intros (Hr & Hi). rewrite Hr. cbn [negb]. by rewrite Hh.
Qed.

(** X26.  Whatever the calls of [start] and [stop] made since the module was
    loaded, at most one interval is set, and one is set exactly when the
    service says that it runs: a [start] on a running service sets no second
    interval, and a [stop] leaves none behind. *)
Theorem at_most_one_interval handle commands :
  intervals (foldl obey (loaded handle) commands)
  = match intervalId (foldl obey (loaded handle) commands) with
    | Some h => [h]
    | None => []
    end
  /\ (isRunning (foldl obey (loaded handle) commands) = true
      <-> exists h, intervals (foldl obey (loaded handle) commands) = [h]).
Proof.
  assert (settled (foldl obey (loaded handle) commands)) as Hs.
  { assert (settled (loaded handle)) as H0 by done.
    revert H0. generalize (loaded handle).
    induction commands as [|c commands IH]; intros s Hs; [done|].
    cbn [foldl]. by apply IH, obey_settled. }
  unfold settled in Hs.
  destruct (intervalId (foldl obey (loaded handle) commands)) as [h|].
  - destruct Hs as (-> & -> & _). split; [done|]. split; [by exists h|done].
  - destruct Hs as (-> & ->). split; [done|]. split; [done|]. by intros [h H].
Qed.

End ServiceFacts.
(* ===================================================================== *)
(** * The script [process-scheduled-reminders.mjs] and the service *)
(* ===================================================================== *)

Module ScriptFacts.
Import Firestore Spec UserManagementService ReminderAutomationService ReminderFacts.

(** One document: the script does what the service does on the quote with
    the operator as its only recipient. *)
Lemma procesar_script env t id data :
  as_run (procesar env t (id, solo_operador data))
  = ProcessScheduledReminders.procesar env (as_run t) (id, data).
Proof.
  unfold procesar, ProcessScheduledReminders.procesar.
  change (tiene_recordatorio (solo_operador data)) with (tiene_recordatorio data).
  change (vencido env (solo_operador data)) with (vencido env data).
  destruct (tiene_recordatorio data); [|done].
  destruct (vencido env data); [|done].
  change (destinatarios env (solo_operador data)) with [operator_address].
  cbn [foldl]. unfold enviar. cbn [intentos emailsEnviados emailsFallidos].
  change (mail (solo_operador data) operator_address)
    with (mail data "russofg@gmail.com").
  cbn [as_run ProcessScheduledReminders.log ProcessScheduledReminders.store
       ProcessScheduledReminders.processedCount log store processedCount].
  by destruct (sendReminderEmail env (log t) (mail data "russofg@gmail.com")).
Qed.

Lemma foldl_script env docs : forall t,
  as_run (foldl (procesar env) t (al_operador <$> docs))
  = foldl (ProcessScheduledReminders.procesar env) (as_run t) docs.
Proof.
  induction docs as [|[k d] docs IH]; intros t; [done|].
  rewrite fmap_cons. cbn [foldl]. rewrite IH. f_equal.
  apply (procesar_script env t k d).
Qed.

(** The script, seen from the quote [id]. *)
Lemma script_at env (cotizaciones : gmap string Cotizacion) id data :
  cotizaciones !! id = Some data ->
  exists l0,
    attempts_for id
      (ProcessScheduledReminders.log
         (ProcessScheduledReminders.processScheduledReminders env cotizaciones))
    = paso env id (solo_operador data) l0
    /\ ProcessScheduledReminders.store
         (ProcessScheduledReminders.processScheduledReminders env cotizaciones) !! id
       = Some (if algun_enviado (paso env id (solo_operador data) l0)
               then limpiar (writeTime env (l0 ++ paso env id (solo_operador data) l0)) data
               else data).
Proof.
  intros Hid. unfold ProcessScheduledReminders.processScheduledReminders.
  change {| ProcessScheduledReminders.store := cotizaciones;
            ProcessScheduledReminders.log := [];
            ProcessScheduledReminders.processedCount := 0 |}
    with (as_run {| store := cotizaciones; log := []; processedCount := 0;
                    checkedCount := 0 |}).
  rewrite <- foldl_script. cbn [as_run ProcessScheduledReminders.log
                                ProcessScheduledReminders.store].
  destruct (foldl_procesar_at env id (solo_operador data)
              (al_operador <$> map_to_list cotizaciones)
              {| store := cotizaciones; log := []; processedCount := 0; checkedCount := 0 |})
    as (l0 & Hlog & Hst).
  - rewrite <- list_fmap_compose.
    replace (fst ∘ al_operador <$> map_to_list cotizaciones)
      with ((map_to_list cotizaciones).*1).
    + apply NoDup_fst_map_to_list.
    + apply list_fmap_ext. by intros ? [??].
  - apply list_elem_of_fmap. exists (id, data). split; [done|].
    by apply elem_of_map_to_list.
  - exists l0. rewrite Hlog, Hst. cbn [log store]. rewrite Hid.
    split; [done|]. by destruct (algun_enviado _).
Qed.

(** X27.  The script sends a due reminder to the operator's address alone,
    whatever the recipient list of the reminder; and when that send
    succeeds the reminder is cleared, so that no tick of the service that
    follows sends anything for the quote: the recipients of the reminder
    are never written to. *)
Theorem script_emails_the_operator_only env (cotizaciones : gmap string Cotizacion) id data :
  cotizaciones !! id = Some data ->
  tiene_recordatorio data = true ->
  vencido env data = true ->
  map (fun a => to (request a))
      (attempts_for id
         (ProcessScheduledReminders.log
            (ProcessScheduledReminders.processScheduledReminders env cotizaciones)))
  = [operator_address]
  /\ ((exists a,
         a ∈ ProcessScheduledReminders.log
               (ProcessScheduledReminders.processScheduledReminders env cotizaciones)
         /\ quoteId a = id /\ result a = Sent) ->
      exists d',
        ProcessScheduledReminders.store
          (ProcessScheduledReminders.processScheduledReminders env cotizaciones) !! id
        = Some d'
        /\ recordatorio_limpio d'
        /\ proximoSeguimientoDestinatarios d' = proximoSeguimientoDestinatarios data
        /\ forall envs,
             Forall (fun l => attempts_for id l = [])
               (ticks envs
                  (ProcessScheduledReminders.store
                     (ProcessScheduledReminders.processScheduledReminders env
                        cotizaciones)))).
Proof.
  intros Hid Htiene Hdue.
  destruct (script_at env cotizaciones id data Hid) as (l0 & Hlog & Hst).
  assert (paso env id (solo_operador data) l0
          = nuevos env id (solo_operador data) l0 [operator_address]) as Hpaso.
  { unfold paso.
    change (tiene_recordatorio (solo_operador data)) with (tiene_recordatorio data).
    change (vencido env (solo_operador data)) with (vencido env data).
    by rewrite Htiene, Hdue. }
  split.
  - by rewrite Hlog, Hpaso, nuevos_to.
  - intros (a & Ha & Hq & Hr).
    assert (algun_enviado (paso env id (solo_operador data) l0) = true) as Hsent.
    { apply algun_enviado_spec. exists a. split; [|done].
      rewrite <- Hlog. apply list_elem_of_filter. by split. }
    rewrite Hsent in Hst. eexists. split; [exact Hst|].
    split; [by repeat split|]. split; [done|].
    intros envs. by eapply ticks_sin_recordatorio.
Qed.

Lemma script_emails_the_operator_only_witness :
  map (fun a => to (request a))
      (attempts_for "q1"
         (ProcessScheduledReminders.log
            (ProcessScheduledReminders.processScheduledReminders
               Examples.un_minuto_despues Examples.coleccion)))
  = ["russofg@gmail.com"]%string.
Proof.
  exact (proj1 (script_emails_the_operator_only Examples.un_minuto_despues
                  Examples.coleccion "q1" Examples.con_recordatorio
                  coleccion_q1 eq_refl eq_refl)).
Defined.

End ScriptFacts.
(* ===================================================================== *)
(** * [ClienteService]: emails and the cache *)
(* ===================================================================== *)

Module ClienteFacts.
Import Spec ClienteService.
Local Open Scope string_scope.

(** ** The query by email *)

(** The lower case of the query: capitals with an accent have small letters
    too (201 to 233); the multiplication sign (215) and the small letters
    (241) stay. *)
Example toLowerCase_accented :
  JsString.toLowerCase (String "201" "cija@BLS.com") = String "233" "cija@bls.com"
  /\ JsString.toLowerCase (String "215" (String "241" "Z")) = String "215" (String "241" "z").
Proof. by vm_compute. Qed.

Lemma find_None {A} (f : A -> bool) l :
  List.find f l = None <-> forall x, x ∈ l -> f x = false.
Proof.
  induction l as [|a l IH]; cbn [List.find].
  - split; [|done]. intros _ x Hx. by apply elem_of_nil in Hx.
  - destruct (f a) eqn:Ha.
    + split; [done|]. intros H. rewrite (H a) in Ha; [done|]. apply list_elem_of_here.
    + rewrite IH. split.
      * intros H x [->|Hx]%elem_of_cons; [done|by apply H].
      * intros H x Hx. apply H. by apply list_elem_of_further.
Qed.

Lemma whereEmail_None value (m : gmap string ClienteDoc) :
  whereEmail value m = None
  <-> forall i d, m !! i = Some d -> doc_email d <> Some value.
Proof.
  unfold whereEmail. rewrite find_None. split.
  - intros H i d Hd He. specialize (H (i, d)). cbn [snd] in H.
    rewrite He, String.eqb_refl in H. discriminate H.
    by apply elem_of_map_to_list.
  - intros H [i d] Hd%elem_of_map_to_list. cbn [snd].
    destruct (doc_email d) as [e|] eqn:He; [|done].
    destruct (String.eqb_spec e value) as [->|]; [|done].
    by destruct (H i d Hd).
Qed.

Lemma getByEmail_None e now w :
  JsString.truthy e = true ->
  getByEmail (Some e) now w = None
  <-> forall i d, clientes w !! i = Some d -> doc_email d <> Some (JsString.toLowerCase e).
Proof.
  intros He. unfold getByEmail. rewrite He. cbn [negb].
  rewrite <- whereEmail_None.
  destruct (whereEmail (JsString.toLowerCase e) (clientes w)) as [[i d]|]; split; done.
Qed.

(** ** Validation *)

Lemma isValid_errors errors :
  ValidationHelper.isValid (ValidationHelper.result errors) = true <-> errors = [].
Proof. unfold ValidationHelper.result. cbn. by destruct errors. Qed.

(** Data that [create] accepts have an email, and it is not empty. *)
Lemma validateClienteData_email data :
  ValidationHelper.isValid (validateClienteData data false) = true ->
  exists e, data_email data = Some e /\ JsString.truthy e = true.
Proof.
  unfold validateClienteData. rewrite isValid_errors. cbv zeta.
  intros H. repeat apply app_eq_nil in H as [_ H].
  destruct (data_email data) as [e|]; [|discriminate H].
  exists e. split; [done|]. cbn [truthy negb] in H.
  by destruct (JsString.truthy e).
Qed.

(** What [create] does: nothing when it throws; and it returns when the
    data are valid and no stored email is the new email in lower case. *)
Lemma create_outcome newId data now w :
  let r := create newId data now w in
  (exists err, fst r = inl err /\ snd r = w)
  \/ (exists e,
        data_email data = Some e
        /\ JsString.truthy e = true
        /\ (forall i d', clientes w !! i = Some d' ->
                         doc_email d' <> Some (JsString.toLowerCase e))
        /\ r = (inr (mapDocumentToCliente now newId (newDoc data now)),
                {| clientes := <[newId := newDoc data now]> (clientes w);
                   cache := Cache.invalidateRelatedCache "client" (cache w) |})).
Proof.
  cbv zeta. unfold create.
  destruct (ValidationHelper.isValid (validateClienteData data false)) eqn:Hv;
    cbn [negb]; [|left; by eexists].
  destruct (validateClienteData_email data Hv) as (e & He & Ht).
  destruct (getByEmail (data_email data) now w) as [c|] eqn:Hg; [left; by eexists|].
  right. rewrite He in Hg. pose proof (proj1 (getByEmail_None e now w Ht) Hg) as Hfree.
  by exists e.
Qed.

Lemma create_returns newId data e now w :
  ValidationHelper.isValid (validateClienteData data false) = true ->
  data_email data = Some e ->
  (forall i d, clientes w !! i = Some d -> doc_email d <> Some (JsString.toLowerCase e)) ->
  create newId data now w
  = (inr (mapDocumentToCliente now newId (newDoc data now)),
     {| clientes := <[newId := newDoc data now]> (clientes w);
        cache := Cache.invalidateRelatedCache "client" (cache w) |}).
Proof.
  intros Hv He Hfree. unfold create. rewrite Hv. cbn [negb].
  destruct (validateClienteData_email data Hv) as (e' & He' & Ht).
  rewrite He in He'. injection He' as <-. rewrite He.
  by rewrite (proj2 (getByEmail_None e now w Ht) Hfree).
Qed.

(** X28.  As long as the emails that are created are in lower case, no two
    clients have the same email: [create] keeps the stored emails unique and
    in lower case, whether it returns or throws. *)
Theorem create_keeps_lowercase_emails_unique newId data now w :
  emails_unique (clientes w) ->
  emails_lowercase (clientes w) ->
  clientes w !! newId = None ->
  (forall e, data_email data = Some e -> JsString.toLowerCase e = e) ->
  emails_unique (clientes (snd (create newId data now w)))
  /\ emails_lowercase (clientes (snd (create newId data now w))).
Proof.
  intros Hu Hl Hnew Hlow.
  destruct (create_outcome newId data now w)
    as [(err & _ & ->)|(e & He & _ & Hfree & ->)]; [done|].
  cbn [snd clientes]. rewrite (Hlow e He) in Hfree.
  assert (doc_email (newDoc data now) = Some e) as Hd by done.
  generalize dependent (newDoc data now). intros d Hd. split.
  - intros i j d1 d2 e' H1 H2 E1 E2.
    destruct (decide (i = newId)) as [->|Hi], (decide (j = newId)) as [->|Hj]; [done| | |].
    + rewrite lookup_insert_eq in H1. rewrite lookup_insert_ne in H2 by done.
      injection H1 as <-. rewrite Hd in E1. injection E1 as <-.
      by destruct (Hfree j d2 H2).
    + rewrite lookup_insert_eq in H2. rewrite lookup_insert_ne in H1 by done.
      injection H2 as <-. rewrite Hd in E2. injection E2 as <-.
      by destruct (Hfree i d1 H1).
    + rewrite lookup_insert_ne in H1, H2 by done. by eapply Hu.
  - intros i d1 e' H1 E1. destruct (decide (i = newId)) as [->|Hi].
    + rewrite lookup_insert_eq in H1. injection H1 as <-.
      rewrite Hd in E1. injection E1 as <-. by apply Hlow.
    + rewrite lookup_insert_ne in H1 by done. by eapply Hl.
Qed.

Lemma create_keeps_lowercase_emails_unique_witness :
  emails_unique
    (clientes (snd (create "c2" Examples.ana 2000
                      (snd (create "c1" Examples.ana 1000 Examples.sin_clientes)))))
  /\ fst (create "c2" Examples.ana 2000
            (snd (create "c1" Examples.ana 1000 Examples.sin_clientes)))
     = inl yaExiste.
Proof.
  assert (emails_unique (clientes Examples.sin_clientes)) as H0.
  { intros i j d d' e H. cbn in H. by rewrite lookup_empty in H. }
  assert (emails_lowercase (clientes Examples.sin_clientes)) as L0.
  { intros i d e H. cbn in H. by rewrite lookup_empty in H. }
  assert (forall e, data_email Examples.ana = Some e -> JsString.toLowerCase e = e) as Hlow.
  { intros e [= <-]. reflexivity. }
  destruct (create_keeps_lowercase_emails_unique "c1" Examples.ana 1000
              Examples.sin_clientes H0 L0 (lookup_empty _) Hlow) as [H1 L1].
  split; [|vm_compute; reflexivity].
  apply (create_keeps_lowercase_emails_unique "c2" Examples.ana 2000 _ H1 L1);
    [vm_compute; reflexivity|exact Hlow].
Defined.

(** X29.  An email with a capital letter can be stored twice: [create] looks for
    the email in lower case and stores it as it is given, so that it does
    not find the client that it has just created.  The same data are
    accepted twice, and two clients have the same email. *)
Theorem mixed_case_email_is_stored_twice id1 id2 data e now now' w :
  ValidationHelper.isValid (validateClienteData data false) = true ->
  data_email data = Some e ->
  JsString.toLowerCase e <> e ->
  (forall i d, clientes w !! i = Some d -> doc_email d <> Some (JsString.toLowerCase e)) ->
  clientes w !! id1 = None ->
  clientes w !! id2 = None ->
  id1 <> id2 ->
  exists c1 c2 w1 w2,
    create id1 data now w = (inr c1, w1)
    /\ create id2 data now' w1 = (inr c2, w2)
    /\ email c1 = e /\ email c2 = e
    /\ ClienteService.id c1 <> ClienteService.id c2
    /\ ~ emails_unique (clientes w2).
Proof.
  intros Hv He Hcase Hfree Hid1 Hid2 Hne.
  destruct (validateClienteData_email data Hv) as (e' & He' & Ht).
  rewrite He in He'. injection He' as <-.
  eexists _, _, _, _. split; [by apply (create_returns id1 data e now w)|].
  split.
  { apply (create_returns id2 data e now'); [done|done|].
    cbn [clientes]. intros i d Hd. destruct (decide (i = id1)) as [->|Hi].
    - rewrite lookup_insert_eq in Hd. injection Hd as <-.
      cbn [newDoc doc_email]. rewrite He. intros [= H]. by apply Hcase.
    - rewrite lookup_insert_ne in Hd by done. by eapply Hfree. }
  assert (email (mapDocumentToCliente now id1 (newDoc data now)) = e) as E1.
  { cbn [mapDocumentToCliente email newDoc doc_email]. rewrite He.
    cbn [str_or]. by rewrite Ht. }
  assert (email (mapDocumentToCliente now' id2 (newDoc data now')) = e) as E2.
  { cbn [mapDocumentToCliente email newDoc doc_email]. rewrite He.
    cbn [str_or]. by rewrite Ht. }
  split; [done|]. split; [done|]. split; [done|].
  cbn [clientes]. intros Hu. apply Hne.
  apply (Hu id1 id2 (newDoc data now) (newDoc data now') e).
  - rewrite lookup_insert_ne by done. apply lookup_insert_eq.
  - apply lookup_insert_eq.
  - done.
  - done.
Qed.

Lemma mixed_case_email_is_stored_twice_witness :
  exists c1 c2 w1 w2,
    create "c1" Examples.ana_mayuscula 1000 Examples.sin_clientes = (inr c1, w1)
    /\ create "c2" Examples.ana_mayuscula 2000 w1 = (inr c2, w2)
    /\ email c1 = "Ana@bls.com" /\ email c2 = "Ana@bls.com"
    /\ ClienteService.id c1 <> ClienteService.id c2
    /\ ~ emails_unique (clientes w2).
Proof.
  apply (mixed_case_email_is_stored_twice "c1" "c2" Examples.ana_mayuscula "Ana@bls.com"
           1000 2000 Examples.sin_clientes);
    try (vm_compute; reflexivity); discriminate.
Defined.

(** ** The cache *)

Lemma clientById_starts_with_client id : JsString.startsWith "client" (clientById id) = true.
Proof. reflexivity. Qed.

Lemma write_outcome id updates now w w' :
  write id updates now w = (inr tt, w') ->
  forall id', cache w' !! clientById id' = None.
Proof.
  unfold write. destruct (clientes w !! id); [|discriminate].
  intros [= <-] id'. cbn [cache].
  by rewrite TrackingCacheFacts.invalidateRelatedCache_lookup, clientById_starts_with_client.
Qed.

(** X30.  A client that was deleted permanently is still served by [getById]
    while its cache entry lives: [deletePermanently] removes the document
    and leaves the cache alone.  An [update] that returns, and so the
    deletion that marks a client as inactive, leaves no cached client
    behind. *)
Theorem deleted_client_is_still_served id entry now w :
  JsString.truthy id = true ->
  cache w !! clientById id = Some entry ->
  (now - Cache.timestamp entry <= Cache.ttl entry)%Z ->
  clientes (snd (deletePermanently id w)) !! id = None
  /\ fst (getById id now (snd (deletePermanently id w))) = inr (Some (Cache.data entry))
  /\ (forall updates now' w',
        update id updates now' w = (inr tt, w') ->
        forall id', cache w' !! clientById id' = None)
  /\ (forall now' w',
        ClienteService.delete id now' w = (inr tt, w') ->
        forall id', cache w' !! clientById id' = None).
Proof.
  intros Hid He Hlive.
  assert (forall updates now' w',
            update id updates now' w = (inr tt, w') ->
            forall id', cache w' !! clientById id' = None) as Hupd.
  { intros updates now' w'. unfold update. rewrite Hid. cbn [negb].
    destruct (ValidationHelper.isValid (validateClienteData updates true));
      cbn [negb]; [|discriminate].
    destruct (truthy (data_email updates)); [|apply write_outcome].
    destruct (getById id now' w) as [[err|[c|]] w1]; [discriminate| |discriminate].
    destruct (String.eqb (email c) _); cbn [negb]; [apply write_outcome|].
    destruct (getByEmail (data_email updates) now' w1) as [c'|]; [|apply write_outcome].
    destruct (String.eqb (ClienteService.id c') id); cbn [negb];
      [apply write_outcome|discriminate]. }
  split; [|split; [|split; [exact Hupd|]]].
  - unfold deletePermanently. rewrite Hid. cbn [negb snd clientes].
    apply lookup_delete_eq.
  - unfold deletePermanently. rewrite Hid. cbn [negb snd].
    unfold getById. rewrite Hid. cbn [negb cache]. unfold Cache.get. rewrite He.
    destruct (Z.ltb_spec (Cache.ttl entry) (now - Cache.timestamp entry)); [lia|done].
  - intros now' w'. unfold ClienteService.delete. rewrite Hid. cbn [negb]. apply Hupd.
Qed.

Lemma deleted_client_is_still_served_witness :
  clientes (snd (deletePermanently "c1" Examples.con_cliente_en_cache)) !! "c1" = None
  /\ (email <$>
        match fst (getById "c1" 2000
                     (snd (deletePermanently "c1" Examples.con_cliente_en_cache))) with
        | inr c => c
        | inl _ => None
        end) = Some "ana@bls.com".
Proof.
  destruct (deleted_client_is_still_served "c1"
              {| Cache.data :=
                   mapDocumentToCliente 1500 "c1" (newDoc Examples.ana 1000);
                 Cache.timestamp := 1500;
                 Cache.ttl := Cache.MEDIUM |}
              2000 Examples.con_cliente_en_cache)
    as (Hnone & Hget & _); [reflexivity|vm_compute; reflexivity|by vm_compute|].
  split; [exact Hnone|]. rewrite Hget. reflexivity.
Defined.

End ClienteFacts.
